(** * MusicViz: audio feature extraction and the two audio-reactive renderers

    A shallow embedding of [audio-analyzer.js], [utils.js], [visualizer-2d.js]
    and [visualizer-3d.js], and the properties of the specification that are
    checked against it; then the analysis without network of
    [ai-integration.js] and the starting and pausing of the visualizers in
    [app.js], with further properties of the code.

    Numbers.  A JavaScript number is an IEEE-754 binary64 value.  The embedding
    keeps the special values that decide control flow and results ([NaN] and
    the two infinities, so that [0/0] is [NaN] exactly as in the program) and
    takes the finite values as real numbers: overflow and the sign of zero
    are not modelled, and rounding is modelled where an outcome depends on
    it (see [Rounding]): in the energy and the statistical test of the beat
    detector, in the beat test, the range mapping, the smooth step, the
    noise and the random number of [utils.js], and in the energy of the
    keyword analysis.  Integer-valued quantities (array lengths, loop
    counters, bin indices, millisecond timestamps, handles) are integers, on
    which binary64 arithmetic is exact in the ranges used. *)

From Stdlib Require Import Reals Lra Lia ZArith Bool.
From stdpp Require Import base option list strings gmap.

(** ** JavaScript numbers *)

Module JS.

Inductive num : Type :=
| Fin (r : R)
| PInf
| NInf
| NaN.

Definition Rltb (a b : R) : bool := if Rlt_dec a b then true else false.
Definition Rleb (a b : R) : bool := if Rle_dec a b then true else false.
Definition Reqb (a b : R) : bool := if Req_dec_T a b then true else false.

Definition of_Z (z : Z) : num := Fin (IZR z).
Definition of_nat (n : nat) : num := of_Z (Z.of_nat n).

(** Uint8Array elements. *)
Definition of_byte (b : Byte.byte) : num := of_Z (Z.of_N (Byte.to_N b)).

Definition inf_of_sign (positive : bool) : num := if positive then PInf else NInf.

Definition neg (x : num) : num :=
  match x with
  | Fin a => Fin (- a)
  | PInf => NInf
  | NInf => PInf
  | NaN => NaN
  end.

Definition add (x y : num) : num :=
  match x, y with
  | NaN, _ | _, NaN => NaN
  | Fin a, Fin b => Fin (a + b)
  | PInf, NInf | NInf, PInf => NaN
  | PInf, _ | _, PInf => PInf
  | NInf, _ | _, NInf => NInf
  end.

Definition sub (x y : num) : num := add x (neg y).

Definition mul (x y : num) : num :=
  match x, y with
  | NaN, _ | _, NaN => NaN
  | Fin a, Fin b => Fin (a * b)
  | Fin a, PInf | PInf, Fin a => if Reqb a 0 then NaN else inf_of_sign (Rltb 0 a)
  | Fin a, NInf | NInf, Fin a => if Reqb a 0 then NaN else inf_of_sign (Rltb a 0)
  | PInf, PInf | NInf, NInf => PInf
  | PInf, NInf | NInf, PInf => NInf
  end.

(** A zero divisor is taken as [+0]: every divisor of the program is a
    length, a count or a positive literal. *)
Definition div (x y : num) : num :=
  match x, y with
  | NaN, _ | _, NaN => NaN
  | Fin a, Fin b =>
      if Reqb b 0
      then (if Reqb a 0 then NaN else inf_of_sign (Rltb 0 a))
      else Fin (a / b)
  | Fin _, (PInf | NInf) => Fin 0
  | PInf, Fin b => inf_of_sign (Rleb 0 b)
  | NInf, Fin b => inf_of_sign (Rltb b 0)
  | (PInf | NInf), (PInf | NInf) => NaN
  end.

(** [x < y]; every comparison with [NaN] is false. *)
Definition ltb (x y : num) : bool :=
  match x, y with
  | NaN, _ | _, NaN => false
  | Fin a, Fin b => Rltb a b
  | NInf, (Fin _ | PInf) => true
  | Fin _, PInf => true
  | _, _ => false
  end.

Definition gtb (x y : num) : bool := ltb y x.

Definition leb (x y : num) : bool :=
  match x, y with
  | NaN, _ | _, NaN => false
  | Fin a, Fin b => Rleb a b
  | NInf, _ => true
  | _, PInf => true
  | _, _ => false
  end.

Definition geb (x y : num) : bool := leb y x.

Definition Math_sqrt (x : num) : num :=
  match x with
  | Fin a => if Rltb a 0 then NaN else Fin (sqrt a)
  | PInf => PInf
  | NInf => NaN
  | NaN => NaN
  end.

Definition is_integer (y : R) : bool := Reqb y (IZR (Zfloor y)).

(** [Math.pow(x, y)] for a finite exponent [y]; both call sites of the
    program pass a literal exponent. *)
Definition Math_pow (x : num) (y : R) : num :=
  if Reqb y 0 then Fin 1 else
  match x with
  | NaN => NaN
  | Fin a =>
      if Rltb 0 a then Fin (Rpower a y)
      else if Reqb a 0 then (if Rltb 0 y then Fin 0 else PInf)
      else if is_integer y
           then (if Z.even (Zfloor y) then Fin (Rpower (- a) y)
                 else Fin (- Rpower (- a) y))
           else NaN
  | PInf => if Rltb 0 y then PInf else Fin 0
  | NInf =>
      if Rltb 0 y
      then (if is_integer y && Z.odd (Zfloor y) then NInf else PInf)
      else Fin 0
  end.

(** [Math.round]: the nearest integer, ties towards [+Infinity]. *)
Definition Math_round (x : num) : num :=
  match x with
  | Fin a => Fin (IZR (Zfloor (a + / 2)))
  | _ => x
  end.

Definition Math_max (x y : num) : num :=
  match x, y with
  | NaN, _ | _, NaN => NaN
  | _, _ => if ltb x y then y else x
  end.

Definition Math_min (x y : num) : num :=
  match x, y with
  | NaN, _ | _, NaN => NaN
  | _, _ => if ltb y x then y else x
  end.

Definition Math_PI : num := Fin PI.

Definition Math_sin (x : num) : num :=
  match x with Fin a => Fin (sin a) | _ => NaN end.

Definition Math_cos (x : num) : num :=
  match x with Fin a => Fin (cos a) | _ => NaN end.

Definition Math_acos (x : num) : num :=
  match x with
  | Fin a => if Rleb (-1) a && Rleb a 1 then Fin (acos a) else NaN
  | _ => NaN
  end.

(** A finite value inside a closed interval. *)
Definition within (lo hi : R) (x : num) : Prop :=
  match x with
  | Fin a => (lo <= a <= hi)%R
  | _ => False
  end.

Definition finite (x : num) : Prop :=
  match x with Fin _ => True | _ => False end.

Definition nonneg (x : num) : Prop :=
  match x with Fin a => (0 <= a)%R | _ => False end.

(** [Math.floor]. *)
Definition Math_floor (x : num) : num :=
  match x with
  | Fin a => Fin (IZR (Zfloor a))
  | _ => x
  end.

(** [x % y]: the remainder of the division that truncates, with the sign
    of [x]. *)
Definition rem (x y : num) : num :=
  match x, y with
  | Fin a, Fin b =>
      if Reqb b 0 then NaN
      else Fin (a - b * IZR (if Rleb 0 (a / b) then Zfloor (a / b) else Zceil (a / b)))
  | Fin a, (PInf | NInf) => Fin a
  | _, _ => NaN
  end.

End JS.

Declare Scope js_scope.
Delimit Scope js_scope with js.
Bind Scope js_scope with JS.num.
Infix "+" := JS.add : js_scope.
Infix "-" := JS.sub : js_scope.
Infix "*" := JS.mul : js_scope.
Infix "/" := JS.div : js_scope.
Infix "<?" := JS.ltb : js_scope.
Infix ">?" := JS.gtb : js_scope.
Infix "<=?" := JS.leb : js_scope.
Infix ">=?" := JS.geb : js_scope.

Arguments JS.add : simpl never.
Arguments JS.sub : simpl never.
Arguments JS.mul : simpl never.
Arguments JS.div : simpl never.
Arguments JS.ltb : simpl never.
Arguments JS.gtb : simpl never.
Arguments JS.leb : simpl never.
Arguments JS.geb : simpl never.
Arguments JS.Math_sqrt : simpl never.
Arguments JS.Math_pow : simpl never.
Arguments JS.Math_max : simpl never.
Arguments JS.Math_min : simpl never.
Arguments JS.of_Z : simpl never.
Arguments JS.of_nat : simpl never.
Arguments JS.of_byte : simpl never.

(** Decimal literals of the source, as exact reals. *)
Notation "# r" := (JS.Fin r%R) (at level 5, r at level 1, format "# r") : js_scope.

Local Open Scope js_scope.

(** ** Rounding

    Where an outcome of the program hangs on how binary64 rounds (a
    comparison between computed values, as in the two beat detectors; a
    bound that is only reached by rounding), the operations are followed by
    [rnd], the rounding of a real to a representable number.  Only this is
    used of it: it is monotone, and it leaves alone the numbers [m / 2^e]
    with an integer [m] of at most 53 bits, which binary64 represents.  Round
    to nearest, ties to even, is such a rounding as long as nothing
    overflows; the properties proved of rounded code hold for every such
    rounding. *)
Class Rounding := {
  rnd : R -> R;
  rnd_mono : forall x y : R, (x <= y)%R -> (rnd x <= rnd y)%R;
  rnd_dyadic :
    forall (m : Z) (e : nat),
      (Z.abs m <= 2 ^ 53)%Z -> (e <= 1000)%nat ->
      rnd (IZR m / 2 ^ e) = (IZR m / 2 ^ e)%R
}.

(** The rounding that changes nothing.  The runs on concrete inputs below
    are stated with it; each is an instance of a statement that holds for
    every rounding. *)
Definition real_arithmetic : Rounding :=
  {| rnd := fun x => x;
     rnd_mono := fun _ _ H => H;
     rnd_dyadic := fun _ _ _ _ => eq_refl |}.

(** The operations of the program, rounded. *)
Module Fl.

Definition round `{Rounding} (x : JS.num) : JS.num :=
  match x with
  | JS.Fin a => JS.Fin (rnd a)
  | _ => x
  end.

(** A decimal literal of the source: the representable number next to it. *)
Definition lit `{Rounding} (r : R) : JS.num := JS.Fin (rnd r).

Definition add `{Rounding} (x y : JS.num) : JS.num := round (x + y).
Definition sub `{Rounding} (x y : JS.num) : JS.num := round (x - y).
Definition mul `{Rounding} (x y : JS.num) : JS.num := round (x * y).
Definition div `{Rounding} (x y : JS.num) : JS.num := round (x / y).

(** [Math.sqrt] and [Math.pow], taken as correctly rounded. *)
Definition sqrt `{Rounding} (x : JS.num) : JS.num := round (JS.Math_sqrt x).
Definition pow `{Rounding} (x : JS.num) (y : R) : JS.num := round (JS.Math_pow x y).

(** [Math.sin]: a representable number for the sine.  Engines differ in
    its last digit; nothing below depends on more than its being a
    number. *)
Definition sin `{Rounding} (x : JS.num) : JS.num := round (JS.Math_sin x).

End Fl.

Declare Scope fl_scope.
Delimit Scope fl_scope with fl.

Arguments Fl.round {_} x%_fl : simpl never.
Arguments Fl.add {_} (x y)%_fl : simpl never.
Arguments Fl.sub {_} (x y)%_fl : simpl never.
Arguments Fl.mul {_} (x y)%_fl : simpl never.
Arguments Fl.div {_} (x y)%_fl : simpl never.
Arguments Fl.sqrt {_} x%_fl : simpl never.
Arguments Fl.pow {_} x%_fl y%_R : simpl never.
Arguments Fl.sin {_} x%_fl : simpl never.

Infix "+" := Fl.add : fl_scope.
Infix "-" := Fl.sub : fl_scope.
Infix "*" := Fl.mul : fl_scope.
Infix "/" := Fl.div : fl_scope.

(** Thrown exceptions. *)
Inductive exn : Type := TypeError | IndexSizeError.

Inductive result (A : Type) : Type :=
| Ok (a : A)
| Err (e : exn).
Arguments Ok {A} a.
Arguments Err {A} e.

(** [for (let i = from; i < from + count; i++) acc = body(acc, i)]. *)
Fixpoint for_loop {A : Type} (from : Z) (count : nat) (body : A -> Z -> A) (acc : A) : A :=
  match count with
  | O => acc
  | S k => for_loop (from + 1) k body (body acc from)
  end.

(** [for (let i = from; i < to; i++) ...] *)
Definition for_range {A : Type} (from to : Z) (body : A -> Z -> A) (acc : A) : A :=
  for_loop from (Z.to_nat (to - from)) body acc.

(** Indexing a typed array or an array of numbers, used as a number: an
    index outside the array reads [undefined], which becomes [NaN]. *)
Definition index_num {A : Type} (to_num : A -> JS.num) (arr : list A) (i : Z) : JS.num :=
  if (i <? 0)%Z then JS.NaN
  else match arr !! Z.to_nat i with
       | Some x => to_num x
       | None => JS.NaN
       end.

(** ** utils.js: MathUtils and AudioUtils *)

Module MathUtils.

Definition lerp (start end_ factor : JS.num) : JS.num :=
  start + (end_ - start) * factor.

(** [map(value, inMin, inMax, outMin, outMax)], every operation rounded. *)
Definition map `{Rounding} (value inMin inMax outMin outMax : JS.num) : JS.num :=
  ((value - inMin) * (outMax - outMin) / (inMax - inMin) + outMin)%fl.

(** [smoothStep(edge0, edge1, x)], every operation rounded; [Math.max] and
    [Math.min] return one of their arguments. *)
Definition smoothStep `{Rounding} (edge0 edge1 x : JS.num) : JS.num :=
  let t := JS.Math_max #0 (JS.Math_min #1 ((x - edge0) / (edge1 - edge0))%fl) in
  (t * t * (#3 - #2 * t))%fl.

(** [noise(x, y = 0)], every operation rounded; [Math.floor] is exact. *)
Definition noise `{Rounding} (x y : JS.num) : JS.num :=
  let n := (Fl.sin (x * Fl.lit 12.9898 + y * Fl.lit 78.233) * Fl.lit 43758.5453)%fl in
  (n - JS.Math_floor n)%fl.

End MathUtils.

Module AudioUtils.

(** The scan of [getDominantFrequency]: index and value of the first
    maximum. *)
Definition dominant_scan (frequencyData : list Byte.byte) : Z * JS.num :=
  for_range 0 (Z.of_nat (length frequencyData))
    (fun '(maxIndex, maxValue) i =>
       if index_num JS.of_byte frequencyData i >? maxValue
       then (i, index_num JS.of_byte frequencyData i)
       else (maxIndex, maxValue))
    (0%Z, #0).

Definition getDominantFrequency (frequencyData : list Byte.byte)
    (sampleRate : JS.num) (fftSize : Z) : JS.num :=
  (JS.of_Z (fst (dominant_scan frequencyData)) * sampleRate) / JS.of_Z fftSize.

(** [detectBeat(frequencyData, threshold = 0.3)].  The sum of bytes is an
    integer, on which binary64 is exact; the division and the product
    round.  The default threshold is [Fl.lit 0.3]. *)
Definition detectBeat `{Rounding} (frequencyData : list Byte.byte) (threshold : JS.num)
    : bool :=
  let sum := fold_left (fun acc val => acc + JS.of_byte val) frequencyData #0 in
  let average := Fl.div sum (JS.of_nat (length frequencyData)) in
  average >? (threshold * #255)%fl.

(** The object returned by [analyzeFrequencyBands]. *)
Record Bands := {
  bass : JS.num; lowMid : JS.num; mid : JS.num; highMid : JS.num; treble : JS.num
}.

(** [for (let i = from; i < to; i++) band += frequencyData[i]], from 0. *)
Definition accumulate (frequencyData : list Byte.byte) (from to : Z) : JS.num :=
  for_range from to (fun band i => band + index_num JS.of_byte frequencyData i) #0.

(** [analyzeFrequencyBands(frequencyData)]. *)
Definition analyzeFrequencyBands (frequencyData : list Byte.byte) : Bands :=
  let len := Z.of_nat (length frequencyData) in
  let bassEnd := Zfloor (IZR len * 0.1) in
  let lowMidEnd := Zfloor (IZR len * 0.25) in
  let midEnd := Zfloor (IZR len * 0.5) in
  let highMidEnd := Zfloor (IZR len * 0.75) in
  {| bass := accumulate frequencyData 0 bassEnd / JS.of_Z bassEnd;
     lowMid := accumulate frequencyData bassEnd lowMidEnd / JS.of_Z (lowMidEnd - bassEnd);
     mid := accumulate frequencyData lowMidEnd midEnd / JS.of_Z (midEnd - lowMidEnd);
     highMid := accumulate frequencyData midEnd highMidEnd / JS.of_Z (highMidEnd - midEnd);
     treble := accumulate frequencyData highMidEnd len / JS.of_Z (len - highMidEnd) |}.

End AudioUtils.

(** ** audio-analyzer.js *)

Module AudioAnalyzer.

Record Band := { band_start : R; band_end : R }.

Record AnalysisFrame := {
  volume : JS.num;
  energy : JS.num;
  beat : bool;
  dominantFrequency : JS.num;
  bands : list (string * JS.num);
  spectrum : list Byte.byte;
  waveform : list Byte.byte
}.

(** The audio graph of the browser, as far as the analyzer reads it. *)
Record AudioContext := { sampleRate : JS.num }.
Record AnalyserNode := { frequencyBinCount : nat }.

(** What the analyser node holds when it is polled: the byte spectrum and
    the byte waveform of the current render quantum. *)
Record HwFrame := { hw_freq : list Byte.byte; hw_time : list Byte.byte }.

Record t := {
  audioContext : option AudioContext;
  analyser : option AnalyserNode;
  source : bool;
  frequencyData : option (list Byte.byte);
  timeData : option (list Byte.byte);
  fftSize : Z;
  smoothingTimeConstant : JS.num;
  beatThreshold : JS.num;
  beatDecay : JS.num;
  beatMinInterval : Z;
  lastBeatTime : Z;
  energyHistory : list JS.num;
  maxEnergyHistorySize : nat;
  frequencyBands : list (string * Band);
  currentAnalysis : AnalysisFrame;
  lastFrequencyData : option (list JS.num)
}.

Definition defaultAnalysis : AnalysisFrame :=
  {| volume := #0; energy := #0; beat := false; dominantFrequency := #0;
     bands := []; spectrum := []; waveform := [] |}.

Definition defaultBands : list (string * Band) :=
  [ ("bass",    {| band_start := 0;    band_end := 0.1 |});
    ("lowMid",  {| band_start := 0.1;  band_end := 0.25 |});
    ("mid",     {| band_start := 0.25; band_end := 0.5 |});
    ("highMid", {| band_start := 0.5;  band_end := 0.75 |});
    ("treble",  {| band_start := 0.75; band_end := 1.0 |}) ]%string.

Definition constructor : t :=
  {| audioContext := None; analyser := None; source := false;
     frequencyData := None; timeData := None;
     fftSize := 2048; smoothingTimeConstant := #0.8;
     beatThreshold := #0.35; beatDecay := #0.98; beatMinInterval := 200;
     lastBeatTime := 0; energyHistory := []; maxEnergyHistorySize := 43;
     frequencyBands := defaultBands;
     currentAnalysis := defaultAnalysis;
     lastFrequencyData := None |}.

Definition set_beat (h : list JS.num) (last : Z) (a : t) : t :=
  {| audioContext := audioContext a; analyser := analyser a; source := source a;
     frequencyData := frequencyData a; timeData := timeData a;
     fftSize := fftSize a; smoothingTimeConstant := smoothingTimeConstant a;
     beatThreshold := beatThreshold a; beatDecay := beatDecay a;
     beatMinInterval := beatMinInterval a;
     lastBeatTime := last; energyHistory := h;
     maxEnergyHistorySize := maxEnergyHistorySize a;
     frequencyBands := frequencyBands a;
     currentAnalysis := currentAnalysis a;
     lastFrequencyData := lastFrequencyData a |}.

(** [calculateVolume] over the time-domain buffer. *)
Definition calculateVolume (timeData : list Byte.byte) : JS.num :=
  let sum :=
    fold_left (fun sum b =>
                 let sample := (JS.of_byte b - #128) / #128 in
                 sum + sample * sample)
              timeData #0 in
  JS.Math_sqrt (sum / JS.of_nat (length timeData)).

(** [calculateEnergy] over the frequency-domain buffer.  The sum of the
    squares of bytes and the divisor are integers, on which binary64 is
    exact; the division rounds. *)
Definition calculateEnergy `{Rounding} (frequencyData : list Byte.byte) : JS.num :=
  let sum :=
    fold_left (fun sum b => sum + JS.of_byte b * JS.of_byte b) frequencyData #0 in
  Fl.div sum (JS.of_nat (length frequencyData) * #255 * #255)%js.

(** [energyHistory.push(e)], then one [shift()] when the buffer is over its
    capacity. *)
Definition push_history (cap : nat) (h : list JS.num) (e : JS.num) : list JS.num :=
  let h' := h ++ [e] in
  if (cap <? length h')%nat then tail h' else h'.

(** The two [reduce] calls of [detectBeat], every operation rounded. *)
Definition averageEnergy `{Rounding} (h : list JS.num) : JS.num :=
  (fold_left (fun sum energy => sum + energy) h #0 / JS.of_nat (length h))%fl.

Definition variance_of `{Rounding} (h : list JS.num) : JS.num :=
  let avg := averageEnergy h in
  (fold_left (fun sum energy => sum + Fl.pow (energy - avg) 2) h #0
   / JS.of_nat (length h))%fl.

(** [detectBeat(currentEnergy)], with [now] the value of [Date.now()].  The
    threshold field is kept as the literal it was given and read as the
    representable number next to it. *)
Definition detectBeat `{Rounding} (now : Z) (currentEnergy : JS.num) (a : t) : bool * t :=
  let h := push_history (maxEnergyHistorySize a) (energyHistory a) currentEnergy in
  let avg := averageEnergy h in
  let variance := variance_of h in
  let timeSinceLastBeat := (now - lastBeatTime a)%Z in
  let beatDetected :=
    (currentEnergy >? (avg + Fl.round (beatThreshold a) * Fl.sqrt variance)%fl)
    && (timeSinceLastBeat >? beatMinInterval a)%Z in
  if beatDetected
  then (true, set_beat h now a)
  else (false, set_beat h (lastBeatTime a) a).

(** The bin interval [startBin, endBin) of a band:
    [Math.floor(band.start * binCount)], [Math.floor(band.end * binCount)]. *)
Definition startBin (binCount : nat) (band : Band) : Z :=
  Zfloor (band_start band * IZR (Z.of_nat binCount)).
Definition endBin (binCount : nat) (band : Band) : Z :=
  Zfloor (band_end band * IZR (Z.of_nat binCount)).

Definition band_value (frequencyData : list Byte.byte) (band : Band) : JS.num :=
  let binCount := length frequencyData in
  let sum :=
    for_range (startBin binCount band) (endBin binCount band)
      (fun sum i => sum + index_num JS.of_byte frequencyData i) #0 in
  sum / JS.of_Z (endBin binCount band - startBin binCount band) / #255.

(** [analyzeFrequencyBands]: one entry per key of [frequencyBands], in key
    order. *)
Definition analyzeFrequencyBands (bandTable : list (string * Band))
    (frequencyData : list Byte.byte) : list (string * JS.num) :=
  map (fun '(bandName, band) => (bandName, band_value frequencyData band)) bandTable.

Definition set_lastFrequencyData (l : option (list JS.num)) (a : t) : t :=
  {| audioContext := audioContext a; analyser := analyser a; source := source a;
     frequencyData := frequencyData a; timeData := timeData a;
     fftSize := fftSize a; smoothingTimeConstant := smoothingTimeConstant a;
     beatThreshold := beatThreshold a; beatDecay := beatDecay a;
     beatMinInterval := beatMinInterval a;
     lastBeatTime := lastBeatTime a; energyHistory := energyHistory a;
     maxEnergyHistorySize := maxEnergyHistorySize a;
     frequencyBands := frequencyBands a;
     currentAnalysis := currentAnalysis a;
     lastFrequencyData := l |}.

(** The loop of [getSmoothedFrequencyData]: slot [i] of the retained array
    is overwritten for every [i] below the length of the byte buffer; a slot
    the retained array does not have reads [undefined] and is created. *)
Definition smooth (smoothingFactor : JS.num) (last : list JS.num)
    (frequencyData : list Byte.byte) : list JS.num :=
  imap (fun i b =>
          MathUtils.lerp (index_num (fun x => x) last (Z.of_nat i)) (JS.of_byte b) smoothingFactor)
       frequencyData
  ++ drop (length frequencyData) last.

(** [getSmoothedFrequencyData(smoothingFactor = 0.7)]. *)
Definition getSmoothedFrequencyData (smoothingFactor : JS.num) (a : t)
    : result (list JS.num) * t :=
  match frequencyData a with
  | None => (Err TypeError, a)
  | Some fd =>
      match lastFrequencyData a with
      | None =>
          let l := map JS.of_byte fd in
          (Ok l, set_lastFrequencyData (Some l) a)
      | Some last =>
          let l := smooth smoothingFactor last fd in
          (Ok l, set_lastFrequencyData (Some l) a)
      end
  end.

(** The body of the bar loop of [getVisualizationData]. *)
Definition bar_value (smoothedData : list JS.num) (binSize : Z) (i : Z) : JS.num :=
  let start := (i * binSize)%Z in
  let end_ := (start + binSize)%Z in
  let sum := for_range start end_ (fun sum j => sum + index_num (fun x => x) smoothedData j) #0 in
  let value := (sum / JS.of_Z binSize) / #255 in
  JS.Math_pow value 0.7.

(** [Math.floor(smoothedData.length / barCount)]. *)
Definition binSize_of (len barCount : nat) : Z :=
  Zfloor (IZR (Z.of_nat len) / IZR (Z.of_nat barCount)).

Definition process (smoothedData : list JS.num) (barCount : nat) : list JS.num :=
  let binSize := binSize_of (length smoothedData) barCount in
  for_range 0 (Z.of_nat barCount)
    (fun processed i => processed ++ [bar_value smoothedData binSize i]) [].

(** [getVisualizationData(barCount = 64)], for a bar count that is a
    natural number. *)
Definition getVisualizationData (barCount : nat) (a : t) : result (list JS.num) * t :=
  match getSmoothedFrequencyData #0.7 a with
  | (Err e, a') => (Err e, a')
  | (Ok smoothedData, a') => (Ok (process smoothedData barCount), a')
  end.

(** What the browser does during [initialize]. *)
Inductive InitEvent : Type :=
| ContextUnavailable              (* [new AudioContext()] throws *)
| ResumeRejected (ctx : AudioContext)
| SourceAlreadyAttached (ctx : AudioContext)  (* [createMediaElementSource] throws *)
| Attached (ctx : AudioContext).

Definition set_graph (ctx : option AudioContext) (an : option AnalyserNode)
    (src : bool) (fd td : option (list Byte.byte)) (a : t) : t :=
  {| audioContext := ctx; analyser := an; source := src;
     frequencyData := fd; timeData := td;
     fftSize := fftSize a; smoothingTimeConstant := smoothingTimeConstant a;
     beatThreshold := beatThreshold a; beatDecay := beatDecay a;
     beatMinInterval := beatMinInterval a;
     lastBeatTime := lastBeatTime a; energyHistory := energyHistory a;
     maxEnergyHistorySize := maxEnergyHistorySize a;
     frequencyBands := frequencyBands a;
     currentAnalysis := currentAnalysis a;
     lastFrequencyData := lastFrequencyData a |}.

(** The analyser node created with [fftSize]: [frequencyBinCount] is half
    the transform size. *)
Definition createAnalyser (fft : Z) : AnalyserNode :=
  {| frequencyBinCount := Z.to_nat (fft / 2) |}.

Definition new_Uint8Array (n : nat) : list Byte.byte := replicate n Byte.x00.

(** [initialize(audioElement)]: the returned flag and the state left
    behind, also by an attempt that fails half-way. *)
Definition initialize (ev : InitEvent) (a : t) : bool * t :=
  match ev with
  | ContextUnavailable => (false, a)
  | ResumeRejected ctx =>
      (false, set_graph (Some ctx) (analyser a) (source a) (frequencyData a) (timeData a) a)
  | SourceAlreadyAttached ctx =>
      let an := createAnalyser (fftSize a) in
      if source a
      then (true, set_graph (Some ctx) (Some an) true
                    (Some (new_Uint8Array (frequencyBinCount an)))
                    (Some (new_Uint8Array (frequencyBinCount an))) a)
      else (false, set_graph (Some ctx) (Some an) false (frequencyData a) (timeData a) a)
  | Attached ctx =>
      let an := createAnalyser (fftSize a) in
      (true, set_graph (Some ctx) (Some an) true
               (Some (new_Uint8Array (frequencyBinCount an)))
               (Some (new_Uint8Array (frequencyBinCount an))) a)
  end.

(** [getByteFrequencyData] / [getByteTimeDomainData]: the node copies its
    bytes into the array; an array shorter than the data drops the excess,
    a longer one keeps its tail. *)
Definition fill_bytes (data arr : list Byte.byte) : list Byte.byte :=
  take (length arr) data ++ drop (length data) arr.

Definition set_currentAnalysis (f : AnalysisFrame) (a : t) : t :=
  {| audioContext := audioContext a; analyser := analyser a; source := source a;
     frequencyData := frequencyData a; timeData := timeData a;
     fftSize := fftSize a; smoothingTimeConstant := smoothingTimeConstant a;
     beatThreshold := beatThreshold a; beatDecay := beatDecay a;
     beatMinInterval := beatMinInterval a;
     lastBeatTime := lastBeatTime a; energyHistory := energyHistory a;
     maxEnergyHistorySize := maxEnergyHistorySize a;
     frequencyBands := frequencyBands a;
     currentAnalysis := f;
     lastFrequencyData := lastFrequencyData a |}.

(** [analyze()], polled while the node holds [hw] and [Date.now()] is
    [now]. *)
Definition analyze `{Rounding} (hw : HwFrame) (now : Z) (a : t)
    : result AnalysisFrame * t :=
  match analyser a with
  | None => (Ok (currentAnalysis a), a)
  | Some _ =>
      match frequencyData a, timeData a with
      | Some fd0, Some td0 =>
          let fd := fill_bytes (hw_freq hw) fd0 in
          let td := fill_bytes (hw_time hw) td0 in
          let a1 := set_graph (audioContext a) (analyser a) (source a) (Some fd) (Some td) a in
          let volume := calculateVolume td in
          let energy := calculateEnergy fd in
          let '(beat, a2) := detectBeat now energy a1 in
          match audioContext a2 with
          | None => (Err TypeError, a2)
          | Some ctx =>
              let dominantFrequency :=
                AudioUtils.getDominantFrequency fd (sampleRate ctx) (fftSize a2) in
              let bands := analyzeFrequencyBands (frequencyBands a2) fd in
              let frame :=
                {| volume := volume; energy := energy; beat := beat;
                   dominantFrequency := dominantFrequency; bands := bands;
                   spectrum := fd; waveform := td |} in
              (Ok frame, set_currentAnalysis frame a2)
          end
      | _, _ => (Err TypeError, a)
      end
  end.

(** [dispose()]. *)
Definition dispose (a : t) : t :=
  set_beat [] (lastBeatTime a) (set_graph None None false None None a).

(** How a call ends. *)
Inductive completion (A : Type) : Type :=
| Returns (a : A)
| Throws (e : exn)
| Diverges.
Arguments Returns {A} a.
Arguments Throws {A} e.
Arguments Diverges {A}.

(** The loop [for (let i = startBin; i < endBin; i++) sum += frequencyData[i]]
    of [getFrequencyRange], whose bounds are numbers: it does not run when
    the first comparison is false, and it does not end when the bound it
    counts towards is infinite or the counter starts at [-Infinity]. *)
Definition range_sum (frequencyData : list Byte.byte) (startBin endBin : JS.num)
    : option JS.num :=
  match startBin, endBin with
  | JS.Fin s, JS.Fin e =>
      Some (for_range (Zfloor s) (Zfloor e)
              (fun sum i => sum + index_num JS.of_byte frequencyData i) #0)
  | JS.Fin _, JS.PInf => None
  | JS.NInf, (JS.Fin _ | JS.PInf) => None
  | _, _ => Some #0
  end.

(** [getFrequencyRange(startHz, endHz)]. *)
Definition getFrequencyRange (startHz endHz : JS.num) (a : t) : completion JS.num :=
  match audioContext a with
  | None => Throws TypeError
  | Some ctx =>
      let nyquist := sampleRate ctx / #2 in
      match frequencyData a with
      | None => Throws TypeError
      | Some fd =>
          let startBin := JS.Math_floor ((startHz / nyquist) * JS.of_nat (length fd)) in
          let endBin := JS.Math_floor ((endHz / nyquist) * JS.of_nat (length fd)) in
          match range_sum fd startBin endBin with
          | None => Diverges
          | Some sum => Returns (sum / (endBin - startBin) / #255)
          end
      end
  end.

End AudioAnalyzer.

(** ** utils.js: ColorUtils *)

Module ColorUtils.

Record HSL := { h : JS.num; s : JS.num; l : JS.num }.

(** An [[r, g, b]] array. *)
Definition RGB : Type := JS.num * JS.num * JS.num.

Definition hue2rgb (p q t : JS.num) : JS.num :=
  let t := if t <? #0 then t + #1 else t in
  let t := if t >? #1 then t - #1 else t in
  if t <? #1 / #6 then p + (q - p) * #6 * t
  else if t <? #1 / #2 then q
  else if t <? #2 / #3 then p + (q - p) * (#2 / #3 - t) * #6
  else p.

Definition hslToRgb (h s l : JS.num) : RGB :=
  let h := h / #360 in
  let s := s / #100 in
  let l := l / #100 in
  let q := if l <? #0.5 then l * (#1 + s) else l + s - l * s in
  let p := #2 * l - q in
  let r := hue2rgb p q (h + #1 / #3) in
  let g := hue2rgb p q h in
  let b := hue2rgb p q (h - #1 / #3) in
  (JS.Math_round (r * #255), JS.Math_round (g * #255), JS.Math_round (b * #255)).

Definition hsl (h s l : Z) : HSL :=
  {| h := JS.of_Z h; s := JS.of_Z s; l := JS.of_Z l |}.

(** The own properties of the object literal [palettes]. *)
Definition palettes : gmap string (list HSL) :=
  list_to_map
    [ ("energetic",  [hsl 0 85 60;   hsl 30 90 55;  hsl 60 80 65;  hsl 340 85 60]);
      ("calm",       [hsl 210 60 70; hsl 180 40 75; hsl 120 30 80; hsl 240 45 75]);
      ("melancholy", [hsl 240 30 40; hsl 260 35 45; hsl 200 25 50; hsl 280 40 35]);
      ("uplifting",  [hsl 50 80 65;  hsl 120 70 60; hsl 200 85 65; hsl 300 75 70]);
      ("neutral",    [hsl 220 50 60; hsl 280 60 65; hsl 320 70 60; hsl 180 55 65]) ]%string.

(** The property names an object literal inherits from [Object.prototype]:
    [palettes[name]] finds them through the prototype chain although they
    are not own properties. *)
Definition Object_prototype : gset string :=
  list_to_set
    [ "constructor"; "__proto__"; "hasOwnProperty"; "isPrototypeOf";
      "propertyIsEnumerable"; "toLocaleString"; "toString"; "valueOf";
      "__defineGetter__"; "__defineSetter__";
      "__lookupGetter__"; "__lookupSetter__" ]%string.

(** What a property read on [palettes] evaluates to. *)
Inductive PropertyValue : Type :=
| PaletteArray (base : list HSL)
| InheritedMember            (* a function or object of [Object.prototype] *)
| Undefined.

(** [palettes[mood]]. *)
Definition get_palettes (mood : string) : PropertyValue :=
  match palettes !! mood with
  | Some base => PaletteArray base
  | None => if decide (mood ∈ Object_prototype) then InheritedMember else Undefined
  end.

(** [a || b] on property values: only [undefined] is falsy here. *)
Definition or_else (a b : PropertyValue) : PropertyValue :=
  match a with
  | Undefined => b
  | _ => a
  end.

Definition adjust (energy : JS.num) (color : HSL) : RGB :=
  let s := JS.Math_max #20 (JS.Math_min #100 (s color * (#0.5 + energy * #0.5))) in
  let l := JS.Math_max #30 (JS.Math_min #80 (l color * (#0.6 + energy * #0.4))) in
  hslToRgb (h color) s l.

(** [generateMoodPalette(mood, energy = 0.5)] for a string [mood]. *)
Definition generateMoodPalette (mood : string) (energy : JS.num) : result (list RGB) :=
  let basePalette := or_else (get_palettes mood) (get_palettes "neutral") in
  match basePalette with
  | PaletteArray base => Ok (map (adjust energy) base)
  | InheritedMember => Err TypeError    (* [basePalette.map] is not a function *)
  | Undefined => Err TypeError
  end.

(** The palette both visualizers start with:
    [ColorUtils.generateMoodPalette('neutral')]. *)
Definition neutralPalette : list RGB :=
  match generateMoodPalette "neutral" #0.5 with
  | Ok p => p
  | Err _ => []
  end.

(** [interpolateColor(color1, color2, factor)]. *)
Definition interpolateColor (color1 color2 : RGB) (factor : JS.num) : RGB :=
  let '(r1, g1, b1) := color1 in
  let '(r2, g2, b2) := color2 in
  (JS.Math_round (r1 + (r2 - r1) * factor),
   JS.Math_round (g1 + (g2 - g1) * factor),
   JS.Math_round (b1 + (b2 - b1) * factor)).

(** [rgbToCss(rgb, alpha)]: the string it builds is only handed to the
    canvas; reading the elements of [undefined] throws. *)
Definition rgbToCss (rgb : option RGB) : result unit :=
  match rgb with
  | Some _ => Ok ()
  | None => Err TypeError
  end.

End ColorUtils.

(** ** The browser: [Math.random] and the frame-callback queue *)

(** [Math.random()]: the [used]-th draw of an arbitrary sequence. *)
Record Rng := { draws : nat -> R; used : nat }.

Definition Math_random (g : Rng) : JS.num * Rng :=
  (JS.Fin (draws g (used g)), {| draws := draws g; used := S (used g) |}).

Module Host.

(** The functions this program hands to [requestAnimationFrame]: the
    [loop] closure of an animation loop (named by its slot in the closure
    store) and the bound [animate] of the scene visualizer. *)
Inductive callback : Type :=
| LoopOf (closure : nat)
| Animate3D.

Record t := {
  pending : list (Z * callback);   (* scheduled, not yet fired or cancelled *)
  nextHandle : Z
}.

Definition initial : t := {| pending := []; nextHandle := 1 |}.

Definition requestAnimationFrame (cb : callback) (hst : t) : Z * t :=
  (nextHandle hst,
   {| pending := pending hst ++ [(nextHandle hst, cb)];
      nextHandle := (nextHandle hst + 1)%Z |}).

Definition cancelAnimationFrame (handle : Z) (hst : t) : t :=
  {| pending := filter (fun e => fst e ≠ handle) (pending hst);
     nextHandle := nextHandle hst |}.

(** [ctx.arc(x, y, radius, startAngle, endAngle)] of the canvas, with
    finite angles: nothing is added to the path when an argument is not
    finite, and a negative radius throws an [IndexSizeError]. *)
Definition arc (x y radius : JS.num) : result unit :=
  match x, y, radius with
  | JS.Fin _, JS.Fin _, JS.Fin r => if JS.Rltb r 0 then Err IndexSizeError else Ok ()
  | _, _, _ => Ok ()
  end.

(** Truthiness of a variable that is [undefined]/[null] or a handle. *)
Definition truthy_handle (id : option Z) : option Z :=
  match id with
  | Some n => if (n =? 0)%Z then None else Some n
  | None => None
  end.

End Host.

(** ** utils.js: PerformanceUtils.createAnimationLoop *)

Module PerformanceUtils.

(** The two variables captured by the closures of one animation loop. *)
Record Closure := { isRunning : bool; animationId : option Z }.

(** Every animation loop ever created; a loop is referred to by its slot,
    so that the visualizer and the queued callback share one closure. *)
Abbreviation Store := (list Closure).

Definition createAnimationLoop (st : Store) : nat * Store :=
  (length st, st ++ [{| isRunning := false; animationId := None |}]).

(** [loop.start()]. *)
Definition start (k : nat) (st : Store) (hst : Host.t) : Store * Host.t :=
  match st !! k with
  | Some c =>
      if isRunning c then (st, hst)
      else
        let '(id, hst') := Host.requestAnimationFrame (Host.LoopOf k) hst in
        (<[k := {| isRunning := true; animationId := Some id |}]> st, hst')
  | None => (st, hst)
  end.

(** [loop.stop()]. *)
Definition stop (k : nat) (st : Store) (hst : Host.t) : Store * Host.t :=
  match st !! k with
  | Some c =>
      let st' := <[k := {| isRunning := false; animationId := animationId c |}]> st in
      match Host.truthy_handle (animationId c) with
      | Some id => (st', Host.cancelAnimationFrame id hst)
      | None => (st', hst)
      end
  | None => (st, hst)
  end.

End PerformanceUtils.

(** ** visualizer-2d.js *)

Module Visualizer2D.

Record Particle := {
  x : JS.num; y : JS.num; vx : JS.num; vy : JS.num;
  size : JS.num; life : JS.num; maxLife : JS.num; decay : JS.num
}.

(** The canvas context is only written to; draw calls leave the state of
    the visualizer alone and are not part of the record. *)
Record t := {
  width : JS.num;
  height : JS.num;
  animationLoop : option nat;
  isRunning : bool;
  colorPalette : list ColorUtils.RGB;
  currentColorIndex : nat;
  colorTransition : JS.num;
  particles : list Particle;
  maxParticles : nat;
  modes : list string;
  currentMode : nat;
  modeTransition : JS.num;
  beatIntensity : JS.num;
  beatDecay : JS.num;
  pulseScale : JS.num;
  backgroundAlpha : JS.num;
  gradientAngle : JS.num;
  frameCount : Z;
  lastFpsTime : JS.num;
  fps : JS.num;
  audioAnalyzer : bool             (* [setAudioAnalyzer] has been called *)
}.

Definition set_particles (ps : list Particle) (v : t) : t :=
  {| width := width v; height := height v; animationLoop := animationLoop v;
     isRunning := isRunning v; colorPalette := colorPalette v;
     currentColorIndex := currentColorIndex v; colorTransition := colorTransition v;
     particles := ps; maxParticles := maxParticles v; modes := modes v;
     currentMode := currentMode v; modeTransition := modeTransition v;
     beatIntensity := beatIntensity v; beatDecay := beatDecay v;
     pulseScale := pulseScale v; backgroundAlpha := backgroundAlpha v;
     gradientAngle := gradientAngle v; frameCount := frameCount v;
     lastFpsTime := lastFpsTime v; fps := fps v; audioAnalyzer := audioAnalyzer v |}.

Definition set_running (run : bool) (loop : option nat) (v : t) : t :=
  {| width := width v; height := height v; animationLoop := loop;
     isRunning := run; colorPalette := colorPalette v;
     currentColorIndex := currentColorIndex v; colorTransition := colorTransition v;
     particles := particles v; maxParticles := maxParticles v; modes := modes v;
     currentMode := currentMode v; modeTransition := modeTransition v;
     beatIntensity := beatIntensity v; beatDecay := beatDecay v;
     pulseScale := pulseScale v; backgroundAlpha := backgroundAlpha v;
     gradientAngle := gradientAngle v; frameCount := frameCount v;
     lastFpsTime := lastFpsTime v; fps := fps v; audioAnalyzer := audioAnalyzer v |}.

Definition set_fps (count : Z) (last f : JS.num) (v : t) : t :=
  {| width := width v; height := height v; animationLoop := animationLoop v;
     isRunning := isRunning v; colorPalette := colorPalette v;
     currentColorIndex := currentColorIndex v; colorTransition := colorTransition v;
     particles := particles v; maxParticles := maxParticles v; modes := modes v;
     currentMode := currentMode v; modeTransition := modeTransition v;
     beatIntensity := beatIntensity v; beatDecay := beatDecay v;
     pulseScale := pulseScale v; backgroundAlpha := backgroundAlpha v;
     gradientAngle := gradientAngle v; frameCount := count;
     lastFpsTime := last; fps := f; audioAnalyzer := audioAnalyzer v |}.

Definition set_mode (mode : nat) (transition : JS.num) (v : t) : t :=
  {| width := width v; height := height v; animationLoop := animationLoop v;
     isRunning := isRunning v; colorPalette := colorPalette v;
     currentColorIndex := currentColorIndex v; colorTransition := colorTransition v;
     particles := particles v; maxParticles := maxParticles v; modes := modes v;
     currentMode := mode; modeTransition := transition;
     beatIntensity := beatIntensity v; beatDecay := beatDecay v;
     pulseScale := pulseScale v; backgroundAlpha := backgroundAlpha v;
     gradientAngle := gradientAngle v; frameCount := frameCount v;
     lastFpsTime := lastFpsTime v; fps := fps v; audioAnalyzer := audioAnalyzer v |}.

Definition set_beat (intensity pulse : JS.num) (v : t) : t :=
  {| width := width v; height := height v; animationLoop := animationLoop v;
     isRunning := isRunning v; colorPalette := colorPalette v;
     currentColorIndex := currentColorIndex v; colorTransition := colorTransition v;
     particles := particles v; maxParticles := maxParticles v; modes := modes v;
     currentMode := currentMode v; modeTransition := modeTransition v;
     beatIntensity := intensity; beatDecay := beatDecay v;
     pulseScale := pulse; backgroundAlpha := backgroundAlpha v;
     gradientAngle := gradientAngle v; frameCount := frameCount v;
     lastFpsTime := lastFpsTime v; fps := fps v; audioAnalyzer := audioAnalyzer v |}.

Definition set_color (index : nat) (transition angle : JS.num) (v : t) : t :=
  {| width := width v; height := height v; animationLoop := animationLoop v;
     isRunning := isRunning v; colorPalette := colorPalette v;
     currentColorIndex := index; colorTransition := transition;
     particles := particles v; maxParticles := maxParticles v; modes := modes v;
     currentMode := currentMode v; modeTransition := modeTransition v;
     beatIntensity := beatIntensity v; beatDecay := beatDecay v;
     pulseScale := pulseScale v; backgroundAlpha := backgroundAlpha v;
     gradientAngle := angle; frameCount := frameCount v;
     lastFpsTime := lastFpsTime v; fps := fps v; audioAnalyzer := audioAnalyzer v |}.

Definition set_surface (w hgt : JS.num) (palette : list ColorUtils.RGB)
    (attached : bool) (v : t) : t :=
  {| width := w; height := hgt; animationLoop := animationLoop v;
     isRunning := isRunning v; colorPalette := palette;
     currentColorIndex := currentColorIndex v; colorTransition := colorTransition v;
     particles := particles v; maxParticles := maxParticles v; modes := modes v;
     currentMode := currentMode v; modeTransition := modeTransition v;
     beatIntensity := beatIntensity v; beatDecay := beatDecay v;
     pulseScale := pulseScale v; backgroundAlpha := backgroundAlpha v;
     gradientAngle := gradientAngle v; frameCount := frameCount v;
     lastFpsTime := lastFpsTime v; fps := fps v; audioAnalyzer := attached |}.

(** One iteration of the loop of [initializeParticles]. *)
Definition newParticle (w hgt : JS.num) (g : Rng) : Particle * Rng :=
  let '(r1, g) := Math_random g in
  let '(r2, g) := Math_random g in
  let '(r3, g) := Math_random g in
  let '(r4, g) := Math_random g in
  let '(r5, g) := Math_random g in
  let '(r6, g) := Math_random g in
  let '(r7, g) := Math_random g in
  let '(r8, g) := Math_random g in
  ({| x := r1 * w; y := r2 * hgt;
      vx := (r3 - #0.5) * #2; vy := (r4 - #0.5) * #2;
      size := r5 * #3 + #1; life := r6;
      maxLife := r7 * #0.5 + #0.5; decay := r8 * #0.02 + #0.005 |}, g).

Fixpoint pushParticles (n : nat) (w hgt : JS.num) (ps : list Particle) (g : Rng)
    : list Particle * Rng :=
  match n with
  | O => (ps, g)
  | S k => let '(p, g') := newParticle w hgt g in pushParticles k w hgt (ps ++ [p]) g'
  end.

(** [initializeParticles()]. *)
Definition initializeParticles (v : t) (g : Rng) : t * Rng :=
  let '(ps, g') := pushParticles (maxParticles v) (width v) (height v) [] g in
  (set_particles ps v, g').

(** [resize()]: the canvas takes the size of its bounding rectangle. *)
Definition resize (rect_width rect_height : JS.num) (v : t) : t :=
  set_surface rect_width rect_height (colorPalette v) (audioAnalyzer v) v.

(** [new Visualizer2D(canvas)], on a canvas whose bounding rectangle is
    [rect_width] by [rect_height]. *)
Definition constructor (rect_width rect_height : JS.num) (g : Rng) : t * Rng :=
  let v :=
    {| width := #0; height := #0; animationLoop := None; isRunning := false;
       colorPalette := ColorUtils.neutralPalette;
       currentColorIndex := 0; colorTransition := #0;
       particles := []; maxParticles := 150;
       modes := ["bars"; "circles"; "waves"; "particles"; "spiral"]%string;
       currentMode := 0; modeTransition := #0;
       beatIntensity := #0; beatDecay := #0.95; pulseScale := #1;
       backgroundAlpha := #0.1; gradientAngle := #0;
       frameCount := 0; lastFpsTime := #0; fps := #60;
       audioAnalyzer := false |} in
  initializeParticles (resize rect_width rect_height v) g.

Definition setAudioAnalyzer (v : t) : t :=
  set_surface (width v) (height v) (colorPalette v) true v.

(** [updateColorPalette(mood, energy = 0.5)]. *)
Definition updateColorPalette (mood : string) (energy : JS.num) (v : t) : result t :=
  match ColorUtils.generateMoodPalette mood energy with
  | Ok p => Ok (set_surface (width v) (height v) p (audioAnalyzer v) v)
  | Err e => Err e
  end.

(** [start()]. *)
Definition start (v : t) (st : PerformanceUtils.Store) (hst : Host.t)
    : t * PerformanceUtils.Store * Host.t :=
  if isRunning v then (v, st, hst)
  else
    let '(k, st1) := PerformanceUtils.createAnimationLoop st in
    let '(st2, hst2) := PerformanceUtils.start k st1 hst in
    (set_running true (Some k) v, st2, hst2).

(** [stop()]. *)
Definition stop (v : t) (st : PerformanceUtils.Store) (hst : Host.t)
    : t * PerformanceUtils.Store * Host.t :=
  let v' := set_running false (animationLoop v) v in
  match animationLoop v with
  | Some k => let '(st', hst') := PerformanceUtils.stop k st hst in (v', st', hst')
  | None => (v', st, hst)
  end.

(** [updateFPS(timestamp)]. *)
Definition updateFPS (timestamp : JS.num) (v : t) : t :=
  let count := (frameCount v + 1)%Z in
  if timestamp - lastFpsTime v >=? #1000
  then set_fps 0
         timestamp
         (JS.Math_round ((JS.of_Z count * #1000) / (timestamp - lastFpsTime v))) v
  else set_fps count (lastFpsTime v) (fps v) v.

(** [switchMode()]. *)
Definition switchMode (v : t) : t :=
  set_mode ((currentMode v + 1) mod length (modes v)) #1 v.

(** [updateVisualState(analysis)]. *)
Definition updateVisualState (analysis : AudioAnalyzer.AnalysisFrame) (v : t) (g : Rng)
    : t * Rng :=
  let '(v1, g1) :=
    if AudioAnalyzer.beat analysis
    then
      let v' := set_beat #1 #1.2 v in
      let '(r, g') := Math_random g in
      if r <? #0.1 then (switchMode v', g') else (v', g')
    else (v, g) in
  let v2 :=
    set_beat (beatIntensity v1 * beatDecay v1)
             (MathUtils.lerp (pulseScale v1) #1 #0.1) v1 in
  let transition := colorTransition v2 + #0.01 in
  let '(index, transition) :=
    if transition >=? #1
    then ((currentColorIndex v2 + 1) mod length (colorPalette v2), #0)
    else (currentColorIndex v2, transition) in
  (set_color index transition
     (gradientAngle v2 + AudioAnalyzer.energy analysis * #0.02) v2, g1).

(** [arr[i]] for a number [i]: [undefined] unless [i] is an index of the
    array. *)
Definition index_opt {A : Type} (arr : list A) (i : JS.num) : option A :=
  match i with
  | JS.Fin a =>
      if JS.is_integer a && JS.Rleb 0 a then arr !! Z.to_nat (Zfloor a) else None
  | _ => None
  end.

(** [getCurrentColor()]: [interpolateColor] reads an element of each of
    its two colours, and throws on [undefined]. *)
Definition getCurrentColor (v : t) : result ColorUtils.RGB :=
  let currentColor := colorPalette v !! currentColorIndex v in
  let nextColor :=
    index_opt (colorPalette v)
      (JS.rem (JS.of_nat (currentColorIndex v + 1)) (JS.of_nat (length (colorPalette v)))) in
  match currentColor, nextColor with
  | Some c1, Some c2 => Ok (ColorUtils.interpolateColor c1 c2 (colorTransition v))
  | _, _ => Err TypeError
  end.

(** [getColorByIndex(index, total)]; [None] is [undefined]. *)
Definition getColorByIndex (index total : JS.num) (v : t) : option ColorUtils.RGB :=
  let len := JS.of_nat (length (colorPalette v)) in
  let colorIndex := JS.Math_floor ((index / total) * len) in
  index_opt (colorPalette v) (JS.rem colorIndex len).

(** [getColorByValue(value)]; [None] is [undefined]. *)
Definition getColorByValue (value : JS.num) (v : t) : option ColorUtils.RGB :=
  let len := JS.of_nat (length (colorPalette v)) in
  let index := JS.Math_floor (value * len) in
  index_opt (colorPalette v) (JS.Math_min index (len - #1)).

(** [data[index % data.length]]. *)
Definition audioInfluence_at (data : list JS.num) (index : nat) : JS.num :=
  match length data with
  | O => JS.NaN
  | S _ => index_num (fun x => x) data (Z.of_nat (index mod length data))
  end.

(** The state change of one iteration of the [forEach] of
    [renderParticles], up to the drawing of the particle. *)
Definition updateParticle (data : list JS.num) (w hgt : JS.num) (index : nat)
    (particle : Particle) (g : Rng) : Particle * Rng :=
  let audioInfluence := audioInfluence_at data index in
  let x1 := x particle + (vx particle + audioInfluence * #2) in
  let y1 := y particle + (vy particle + audioInfluence * #2) in
  let life1 := life particle - decay particle in
  let '(p2, g2) :=
    if life1 <=? #0
    then
      let '(r1, g) := Math_random g in
      let '(r2, g) := Math_random g in
      let '(r3, g) := Math_random g in
      let '(r4, g) := Math_random g in
      ({| x := r1 * w; y := r2 * hgt;
          vx := (r3 - #0.5) * #2; vy := (r4 - #0.5) * #2;
          size := size particle; life := maxLife particle;
          maxLife := maxLife particle; decay := decay particle |}, g)
    else
      ({| x := x1; y := y1; vx := vx particle; vy := vy particle;
          size := size particle; life := life1;
          maxLife := maxLife particle; decay := decay particle |}, g) in
  let x3 := if x p2 <? #0 then w else x p2 in
  let x4 := if x3 >? w then #0 else x3 in
  let y3 := if y p2 <? #0 then hgt else y p2 in
  let y4 := if y3 >? hgt then #0 else y3 in
  ({| x := x4; y := y4; vx := vx p2; vy := vy p2; size := size p2;
      life := life p2; maxLife := maxLife p2; decay := decay p2 |}, g2).

(** The drawing of the particle, after its update: the circle, whose
    radius is the size scaled by the series value and the pulse, then the
    fill style from the colour of the series value.  The links to the
    neighbours reuse that colour and draw lines only. *)
Definition drawParticle (audioInfluence : JS.num) (particle : Particle) (v : t)
    : result unit :=
  let color := getColorByValue audioInfluence v in
  let size := size particle * (#1 + audioInfluence) * pulseScale v in
  match Host.arc (x particle) (y particle) size with
  | Err e => Err e
  | Ok _ => ColorUtils.rgbToCss color
  end.

(** [this.particles.forEach((particle, index) => ...)]: the particles are
    mutated where they are, in index order; when the drawing of a particle
    throws, the particles after it are not visited. *)
Fixpoint forEachParticle (data : list JS.num) (v : t) (index : nat)
    (ps : list Particle) (g : Rng) : result unit * list Particle * Rng :=
  match ps with
  | [] => (Ok (), [], g)
  | p :: rest =>
      let '(p', g1) := updateParticle data (width v) (height v) index p g in
      match drawParticle (audioInfluence_at data index) p' v with
      | Err e => (Err e, p' :: rest, g1)
      | Ok _ =>
          let '(res, rest', g2) := forEachParticle data v (S index) rest g1 in
          (res, p' :: rest', g2)
      end
  end.

(** [renderParticles(data, analysis)]. *)
Definition renderParticles (data : list JS.num) (v : t) (g : Rng)
    : result unit * t * Rng :=
  let '(res, ps, g') := forEachParticle data v 0 (particles v) g in
  (res, set_particles ps v, g').

(** [updateTransitions()]. *)
Definition updateTransitions (v : t) : t :=
  set_mode (currentMode v) (JS.Math_max #0 (modeTransition v - #0.02)) v.

(** The [switch] of [render]: of the five draw routines only
    [renderParticles] changes the state.  The other four are taken on the
    series that [render] passes, numbers of [0,1] from
    [getVisualizationData(64)], and a palette that is not empty: there they
    find a colour for every value and complete. *)
Definition renderMode (data : list JS.num) (v : t) (g : Rng) : result unit * t * Rng :=
  match modes v !! currentMode v with
  | Some mode =>
      if String.eqb mode "particles" then renderParticles data v g else (Ok (), v, g)
  | None => (Ok (), v, g)
  end.

(** [render(timestamp)], with the shared analyzer passed along. *)
Definition render `{Rounding} (timestamp : JS.num) (hw : AudioAnalyzer.HwFrame) (now : Z)
    (v : t) (an : AudioAnalyzer.t) (g : Rng)
    : result unit * t * AudioAnalyzer.t * Rng :=
  if negb (audioAnalyzer v) || negb (isRunning v) then (Ok (), v, an, g)
  else
    let v1 := updateFPS timestamp v in
    match AudioAnalyzer.analyze hw now an with
    | (Err e, an1) => (Err e, v1, an1, g)
    | (Ok analysis, an1) =>
        match AudioAnalyzer.getVisualizationData 64 an1 with
        | (Err e, an2) => (Err e, v1, an2, g)
        | (Ok visualData, an2) =>
            let '(v2, g2) := updateVisualState analysis v1 g in
            match colorPalette v2 with
            | [] => (Err TypeError, v2, an2, g2)   (* [renderBackground] reads a colour *)
            | _ :: _ =>
                match renderMode visualData v2 g2 with
                | (Err e, v3, g3) => (Err e, v3, an2, g3)
                | (Ok _, v3, g3) => (Ok (), updateTransitions v3, an2, g3)
                end
            end
        end
    end.

End Visualizer2D.

(** ** visualizer-3d.js *)

Module Visualizer3D.

(** The geometry a mesh is built from. *)
Inductive Shape : Type :=
| BoxGeometry (w hgt d : JS.num)
| SphereGeometry (radius : JS.num) (widthSegments heightSegments : Z)
| CylinderGeometry (radiusTop radiusBottom hgt : JS.num) (radialSegments : Z).

(** [userData], one layout per geometry variant. *)
Inductive UserData : Type :=
| BarData (originalY angle : JS.num) (index : Z) (baseHeight : JS.num)
| SphereData (originalPosition : JS.num * JS.num * JS.num) (index : Z) (baseScale : JS.num)
| TunnelData (ring point : Z) (baseRadius angle : JS.num)
| WaveData (gridX gridZ : Z) (baseY : JS.num).

(** A [THREE.Mesh], named by its identity.  Transform and material values
    (position, scale, rotation, colours) are written by the update rules
    and read back only to compute the next transform; they are left out. *)
Record Mesh := { mesh_id : nat; shape : Shape; userData : UserData }.

(** The visualizer between its construction and its disposal: scene,
    camera and renderer exist throughout.  The scene is the list of its
    children; [released] holds the meshes whose geometry and material have
    been disposed. *)
Record t := {
  scene : list nat;
  audioAnalyzer : bool;
  visualObjects : list Mesh;
  geometryType : string;
  animationId : option Z;
  isRunning : bool;
  time : JS.num;
  colorPalette : list ColorUtils.RGB;
  beatIntensity : JS.num;
  beatDecay : JS.num;
  pointLights : list nat;
  nextId : nat;
  released : gset nat
}.

Definition set_objects (children : list nat) (objs : list Mesh) (variant : string)
    (next : nat) (rel : gset nat) (v : t) : t :=
  {| scene := children; audioAnalyzer := audioAnalyzer v; visualObjects := objs;
     geometryType := variant; animationId := animationId v; isRunning := isRunning v;
     time := time v; colorPalette := colorPalette v;
     beatIntensity := beatIntensity v; beatDecay := beatDecay v;
     pointLights := pointLights v; nextId := next; released := rel |}.

Definition set_running (run : bool) (id : option Z) (v : t) : t :=
  {| scene := scene v; audioAnalyzer := audioAnalyzer v;
     visualObjects := visualObjects v; geometryType := geometryType v;
     animationId := id; isRunning := run;
     time := time v; colorPalette := colorPalette v;
     beatIntensity := beatIntensity v; beatDecay := beatDecay v;
     pointLights := pointLights v; nextId := nextId v; released := released v |}.

Definition set_frame (tm intensity : JS.num) (v : t) : t :=
  {| scene := scene v; audioAnalyzer := audioAnalyzer v;
     visualObjects := visualObjects v; geometryType := geometryType v;
     animationId := animationId v; isRunning := isRunning v;
     time := tm; colorPalette := colorPalette v;
     beatIntensity := intensity; beatDecay := beatDecay v;
     pointLights := pointLights v; nextId := nextId v; released := released v |}.

Definition set_inputs (attached : bool) (palette : list ColorUtils.RGB) (v : t) : t :=
  {| scene := scene v; audioAnalyzer := attached;
     visualObjects := visualObjects v; geometryType := geometryType v;
     animationId := animationId v; isRunning := isRunning v;
     time := time v; colorPalette := palette;
     beatIntensity := beatIntensity v; beatDecay := beatDecay v;
     pointLights := pointLights v; nextId := nextId v; released := released v |}.

(** [Object3D.remove(object)]: the first occurrence leaves the children. *)
Fixpoint scene_remove (obj : nat) (children : list nat) : list nat :=
  match children with
  | [] => []
  | c :: rest => if decide (c = obj) then rest else c :: scene_remove obj rest
  end.

(** [Object3D.add(object)]: an object that already has a parent is removed
    from it first, then appended. *)
Definition scene_add (obj : nat) (children : list nat) : list nat :=
  (if decide (obj ∈ children) then scene_remove obj children else children) ++ [obj].

(** The [forEach] of [clearScene]. *)
Fixpoint clear_each (objs : list Mesh) (children : list nat) (rel : gset nat)
    : list nat * gset nat :=
  match objs with
  | [] => (children, rel)
  | obj :: rest =>
      clear_each rest (scene_remove (mesh_id obj) children) ({[ mesh_id obj ]} ∪ rel)
  end.

(** [clearScene()]. *)
Definition clearScene (v : t) : t :=
  let '(children, rel) := clear_each (visualObjects v) (scene v) (released v) in
  set_objects children [] (geometryType v) (nextId v) rel v.

(** [this.visualObjects.push(mesh); this.scene.add(mesh)] for a mesh that
    has just been allocated. *)
Definition push_mesh (sh : Shape) (data : UserData) (v : t) : t :=
  let m := {| mesh_id := nextId v; shape := sh; userData := data |} in
  set_objects (scene_add (nextId v) (scene v)) (visualObjects v ++ [m])
    (geometryType v) (S (nextId v)) (released v) v.

Definition set_geometryType (variant : string) (v : t) : t :=
  set_objects (scene v) (visualObjects v) variant (nextId v) (released v) v.

(** Every mesh takes its colour from [colorPalette[k % colorPalette.length]];
    with an empty palette the first mesh of a variant already throws, before
    anything is pushed. *)
Definition build (variant : string) (layout : t -> t) (v : t) : result unit * t :=
  let v0 := clearScene v in
  match colorPalette v0 with
  | [] => (Err TypeError, v0)
  | _ :: _ => (Ok (), set_geometryType variant (layout v0))
  end.

(** [createBarsGeometry()]. *)
Definition bars_layout (v : t) : t :=
  let barCount := 64%Z in
  for_range 0 barCount
    (fun v i =>
       let angle := (JS.of_Z i / JS.of_Z barCount) * JS.Math_PI * #2 in
       push_mesh (BoxGeometry #0.5 #1 #0.5) (BarData #0 angle i #1) v)
    v.

Definition createBarsGeometry : t -> result unit * t := build "bars" bars_layout.

(** [createSphereGeometry()]. *)
Definition sphere_layout (v : t) : t :=
  let sphereCount := 100%Z in
  let radius := #30 in
  for_range 0 sphereCount
    (fun v i =>
       let phi := JS.Math_acos (#(-1) + (#2 * JS.of_Z i) / JS.of_Z sphereCount) in
       let theta := JS.Math_sqrt (JS.of_Z sphereCount * JS.Math_PI) * phi in
       let position :=
         (radius * JS.Math_sin phi * JS.Math_cos theta,
          radius * JS.Math_sin phi * JS.Math_sin theta,
          radius * JS.Math_cos phi) in
       push_mesh (SphereGeometry #0.3 8 8) (SphereData position i #1) v)
    v.

Definition createSphereGeometry : t -> result unit * t := build "sphere" sphere_layout.

(** [createTunnelGeometry()]. *)
Definition tunnel_layout (v : t) : t :=
  let ringCount := 20%Z in
  let pointsPerRing := 32%Z in
  for_range 0 ringCount
    (fun v ring =>
       let radius := #15 + JS.Math_sin (JS.of_Z ring * #0.5) * #5 in
       for_range 0 pointsPerRing
         (fun v point =>
            let angle := (JS.of_Z point / JS.of_Z pointsPerRing) * JS.Math_PI * #2 in
            push_mesh (CylinderGeometry #0.2 #0.2 #0.5 6)
                      (TunnelData ring point radius angle) v)
         v)
    v.

Definition createTunnelGeometry : t -> result unit * t := build "tunnel" tunnel_layout.

(** [createWaveGeometry()]. *)
Definition wave_layout (v : t) : t :=
  let gridSize := 32%Z in
  for_range 0 gridSize
    (fun v x =>
       for_range 0 gridSize
         (fun v z => push_mesh (BoxGeometry #0.3 #0.3 #0.3) (WaveData x z #0) v)
         v)
    v.

Definition createWaveGeometry : t -> result unit * t := build "wave" wave_layout.

Definition geometries : list string := ["bars"; "sphere"; "tunnel"; "wave"]%string.

(** [geometries.indexOf(name)], [-1] when absent. *)
Fixpoint indexOf (name : string) (l : list string) (from : Z) : Z :=
  match l with
  | [] => (-1)%Z
  | s :: rest => if String.eqb s name then from else indexOf name rest (from + 1)
  end.

(** [switchGeometry()]. *)
Definition switchGeometry (v : t) : result unit * t :=
  let currentIndex := indexOf (geometryType v) geometries 0 in
  let nextIndex := ((currentIndex + 1) mod Z.of_nat (length geometries))%Z in
  match geometries !! Z.to_nat nextIndex with
  | Some next =>
      if String.eqb next "bars" then createBarsGeometry v
      else if String.eqb next "sphere" then createSphereGeometry v
      else if String.eqb next "tunnel" then createTunnelGeometry v
      else if String.eqb next "wave" then createWaveGeometry v
      else (Ok (), v)
  | None => (Ok (), v)
  end.

(** The scene after [setupLights]: the ambient light, the directional
    light and four point lights, each placed with three random draws. *)
Definition setupLights (v : t) (g : Rng) : t * Rng :=
  let ambient := nextId v in
  let main := S ambient in
  let lights := seq (S main) 4 in
  ({| scene := scene v ++ [ambient; main] ++ lights;
      audioAnalyzer := audioAnalyzer v; visualObjects := visualObjects v;
      geometryType := geometryType v; animationId := animationId v;
      isRunning := isRunning v; time := time v; colorPalette := colorPalette v;
      beatIntensity := beatIntensity v; beatDecay := beatDecay v;
      pointLights := lights; nextId := S main + 4; released := released v |},
   {| draws := draws g; used := used g + 12 |}).

(** [new Visualizer3D(container)]. *)
Definition constructor (g : Rng) : t * Rng :=
  let v :=
    {| scene := []; audioAnalyzer := false; visualObjects := [];
       geometryType := "bars"; animationId := None; isRunning := false;
       time := #0; colorPalette := ColorUtils.neutralPalette;
       beatIntensity := #0; beatDecay := #0.95;
       pointLights := []; nextId := 0; released := ∅ |} in
  let '(v1, g1) := setupLights v g in
  (snd (createBarsGeometry v1), g1).

Definition setAudioAnalyzer (v : t) : t := set_inputs true (colorPalette v) v.

(** [updateColorPalette(mood, energy = 0.5)]; recolouring the materials
    changes nothing that is kept here. *)
Definition updateColorPalette (mood : string) (energy : JS.num) (v : t) : result t :=
  match ColorUtils.generateMoodPalette mood energy with
  | Ok p => Ok (set_inputs (audioAnalyzer v) p v)
  | Err e => Err e
  end.

(** [stop()]. *)
Definition stop (v : t) (hst : Host.t) : t * Host.t :=
  match Host.truthy_handle (animationId v) with
  | Some id => (set_running false None v, Host.cancelAnimationFrame id hst)
  | None => (set_running false (animationId v) v, hst)
  end.

(** [updateVisuals(visualData, analysis)]: the beat envelope and the
    random switch of variant; the per-variant update rule that follows
    only moves and recolours the meshes, and throws on an empty palette. *)
Definition updateVisuals (analysis : AudioAnalyzer.AnalysisFrame) (v : t) (g : Rng)
    : result unit * t * Rng :=
  let '(r1, v1, g1) :=
    if AudioAnalyzer.beat analysis
    then
      let v' := set_frame (time v) #1 v in
      let '(r, g') := Math_random g in
      if r <? #0.05
      then let '(res, v'') := switchGeometry v' in (res, v'', g')
      else (Ok (), v', g')
    else (Ok (), v, g) in
  match r1 with
  | Err e => (Err e, v1, g1)
  | Ok _ =>
      match colorPalette v1, visualObjects v1 with
      | [], _ :: _ => (Err TypeError, v1, g1)
      | _, _ => (Ok (), v1, g1)
      end
  end.

(** [animate()]: one fired frame callback (or the first call from
    [start]). *)
Definition animate `{Rounding} (hw : AudioAnalyzer.HwFrame) (now : Z)
    (v : t) (hst : Host.t) (an : AudioAnalyzer.t) (g : Rng)
    : result unit * t * Host.t * AudioAnalyzer.t * Rng :=
  if negb (isRunning v) then (Ok (), v, hst, an, g)
  else
    let '(id, hst1) := Host.requestAnimationFrame Host.Animate3D hst in
    let v1 := set_running (isRunning v) (Some id) v in
    let v2 := set_frame (time v1 + #0.016) (beatIntensity v1) v1 in
    let decay v := set_frame (time v) (beatIntensity v * beatDecay v) v in
    if audioAnalyzer v2
    then
      match AudioAnalyzer.analyze hw now an with
      | (Err e, an1) => (Err e, v2, hst1, an1, g)
      | (Ok analysis, an1) =>
          match AudioAnalyzer.getVisualizationData 64 an1 with
          | (Err e, an2) => (Err e, v2, hst1, an2, g)
          | (Ok visualData, an2) =>
              match updateVisuals analysis v2 g with
              | (Err e, v3, g3) => (Err e, v3, hst1, an2, g3)
              | (Ok _, v3, g3) =>
                  match colorPalette v3 with
                  | [] => (Err TypeError, v3, hst1, an2, g3)   (* [updateLights] *)
                  | _ :: _ => (Ok (), decay v3, hst1, an2, g3)
                  end
              end
          end
      end
    else (Ok (), decay v2, hst1, an, g).

(** [start()]. *)
Definition start `{Rounding} (hw : AudioAnalyzer.HwFrame) (now : Z)
    (v : t) (hst : Host.t) (an : AudioAnalyzer.t) (g : Rng)
    : result unit * t * Host.t * AudioAnalyzer.t * Rng :=
  if isRunning v then (Ok (), v, hst, an, g)
  else animate hw now (set_running true (animationId v) v) hst an g.

End Visualizer3D.

(** ** The page: one analyzer shared by the two visualizers *)

Module Page.

Record t := {
  analyzer : AudioAnalyzer.t;
  v2d : Visualizer2D.t;
  v3d : Visualizer3D.t;
  closures : PerformanceUtils.Store;
  host : Host.t;
  rng : Rng
}.

(** What can happen to the page: the calls the application makes, and the
    browser firing a scheduled frame callback. *)
Inductive event : Type :=
| Initialize (ev : AudioAnalyzer.InitEvent)
| DisposeAnalyzer
| SetAnalyzer2D
| SetAnalyzer3D
| Palette2D (mood : string) (energy : JS.num)
| Palette3D (mood : string) (energy : JS.num)
| Resize2D (rect_width rect_height : JS.num)
| Start2D
| Stop2D
| Start3D (hw : AudioAnalyzer.HwFrame) (now : Z)
| Stop3D
| Fire (handle : Z) (timestamp : JS.num) (hw : AudioAnalyzer.HwFrame) (now : Z).

(** [new MusicVizApp()], on a canvas of the given size. *)
Definition initial (rect_width rect_height : JS.num) (g : Rng) : t :=
  let '(v2, g1) := Visualizer2D.constructor rect_width rect_height g in
  let '(v3, g2) := Visualizer3D.constructor g1 in
  {| analyzer := AudioAnalyzer.constructor; v2d := v2; v3d := v3;
     closures := []; host := Host.initial; rng := g2 |}.

Fixpoint callback_of (handle : Z) (pending : list (Z * Host.callback))
    : option Host.callback :=
  match pending with
  | [] => None
  | (h, cb) :: rest => if (h =? handle)%Z then Some cb else callback_of handle rest
  end.

(** [visualizer2D.stop()]. *)
Definition stop2D (w : t) : t :=
  let '(v, st, hst) := Visualizer2D.stop (v2d w) (closures w) (host w) in
  {| analyzer := analyzer w; v2d := v; v3d := v3d w;
     closures := st; host := hst; rng := rng w |}.

(** [visualizer3D.stop()]. *)
Definition stop3D (w : t) : t :=
  let '(v, hst) := Visualizer3D.stop (v3d w) (host w) in
  {| analyzer := analyzer w; v2d := v2d w; v3d := v;
     closures := closures w; host := hst; rng := rng w |}.

(** The [loop] closure of animation loop [k], called by the browser. *)
Definition run_loop `{Rounding} (k : nat) (timestamp : JS.num)
    (hw : AudioAnalyzer.HwFrame) (now : Z) (w : t) : t :=
  match closures w !! k with
  | Some c =>
      if PerformanceUtils.isRunning c
      then
        match Visualizer2D.render timestamp hw now (v2d w) (analyzer w) (rng w) with
        | (Ok _, v, an, g) =>
            let '(id, hst) := Host.requestAnimationFrame (Host.LoopOf k) (host w) in
            {| analyzer := an; v2d := v; v3d := v3d w;
               closures :=
                 <[k := {| PerformanceUtils.isRunning := true;
                           PerformanceUtils.animationId := Some id |}]> (closures w);
               host := hst; rng := g |}
        | (Err _, v, an, g) =>
            {| analyzer := an; v2d := v; v3d := v3d w;
               closures := closures w; host := host w; rng := g |}
        end
      else w
  | None => w
  end.

Definition run_animate `{Rounding} (hw : AudioAnalyzer.HwFrame) (now : Z) (w : t) : t :=
  let '(_, v, hst, an, g) :=
    Visualizer3D.animate hw now (v3d w) (host w) (analyzer w) (rng w) in
  {| analyzer := an; v2d := v2d w; v3d := v;
     closures := closures w; host := hst; rng := g |}.

Definition step `{Rounding} (e : event) (w : t) : t :=
  match e with
  | Initialize ev =>
      {| analyzer := snd (AudioAnalyzer.initialize ev (analyzer w));
         v2d := v2d w; v3d := v3d w; closures := closures w;
         host := host w; rng := rng w |}
  | DisposeAnalyzer =>
      {| analyzer := AudioAnalyzer.dispose (analyzer w);
         v2d := v2d w; v3d := v3d w; closures := closures w;
         host := host w; rng := rng w |}
  | SetAnalyzer2D =>
      {| analyzer := analyzer w; v2d := Visualizer2D.setAudioAnalyzer (v2d w);
         v3d := v3d w; closures := closures w; host := host w; rng := rng w |}
  | SetAnalyzer3D =>
      {| analyzer := analyzer w; v2d := v2d w;
         v3d := Visualizer3D.setAudioAnalyzer (v3d w);
         closures := closures w; host := host w; rng := rng w |}
  | Palette2D mood energy =>
      match Visualizer2D.updateColorPalette mood energy (v2d w) with
      | Ok v =>
          {| analyzer := analyzer w; v2d := v; v3d := v3d w;
             closures := closures w; host := host w; rng := rng w |}
      | Err _ => w
      end
  | Palette3D mood energy =>
      match Visualizer3D.updateColorPalette mood energy (v3d w) with
      | Ok v =>
          {| analyzer := analyzer w; v2d := v2d w; v3d := v;
             closures := closures w; host := host w; rng := rng w |}
      | Err _ => w
      end
  | Resize2D rw rh =>
      {| analyzer := analyzer w; v2d := Visualizer2D.resize rw rh (v2d w);
         v3d := v3d w; closures := closures w; host := host w; rng := rng w |}
  | Start2D =>
      let '(v, st, hst) := Visualizer2D.start (v2d w) (closures w) (host w) in
      {| analyzer := analyzer w; v2d := v; v3d := v3d w;
         closures := st; host := hst; rng := rng w |}
  | Stop2D => stop2D w
  | Start3D hw now =>
      let '(_, v, hst, an, g) :=
        Visualizer3D.start hw now (v3d w) (host w) (analyzer w) (rng w) in
      {| analyzer := an; v2d := v2d w; v3d := v;
         closures := closures w; host := hst; rng := g |}
  | Stop3D => stop3D w
  | Fire handle timestamp hw now =>
      match callback_of handle (Host.pending (host w)) with
      | Some cb =>
          let w' :=
            {| analyzer := analyzer w; v2d := v2d w; v3d := v3d w;
               closures := closures w;
               host := Host.cancelAnimationFrame handle (host w);
               rng := rng w |} in
          match cb with
          | Host.LoopOf k => run_loop k timestamp hw now w'
          | Host.Animate3D => run_animate hw now w'
          end
      | None => w
      end
  end.

(** The page after a sequence of events, oldest first. *)
Definition run `{Rounding} (events : list event) (w : t) : t :=
  fold_left (fun w e => step e w) events w.

End Page.

(** ** Vocabulary of the specification *)

Module Spec.

(** The sum, the mean and the variance of a sequence of values, as the
    specification names them. *)
Definition sum (l : list JS.num) : JS.num := foldr JS.add #0 l.

Definition mean (l : list JS.num) : JS.num := sum l / JS.of_nat (length l).

Definition variance (l : list JS.num) : JS.num :=
  mean (map (fun e => (e - mean l) * (e - mean l)) l).

(** Blending a retained value 70% towards the new raw value. *)
Definition blend (retained : JS.num) (raw : Byte.byte) : JS.num :=
  #0.3 * retained + #0.7 * JS.of_byte raw.

(** The [i]-th of the contiguous groups of [size] bins. *)
Definition group (size i : nat) (bins : list JS.num) : list JS.num :=
  take size (drop (i * size) bins).

(** A group mean, normalised by 255 and compressed with exponent 0.7. *)
Definition compress (bins : list JS.num) : JS.num :=
  JS.Math_pow (mean bins / #255) 0.7.

(** The mean magnitude of the bins [from, to) of a byte spectrum, divided
    by 255. *)
Definition band_mean (spectrum : list Byte.byte) (from to : Z) : JS.num :=
  mean (map JS.of_byte (take (Z.to_nat (to - from)) (drop (Z.to_nat from) spectrum)))
  / #255.

(** The attack/decay envelope of the beat intensity over one frame. *)
Definition envelope (beat : bool) (intensity : JS.num) : JS.num :=
  (if beat then #1 else intensity) * #0.95.

(** The five moods of the palette generator. *)
Definition known_moods : list string :=
  ["energetic"; "calm"; "melancholy"; "uplifting"; "neutral"]%string.

(** Wrapping a coordinate around the screen. *)
Definition wrapped (limit x : JS.num) : JS.num :=
  if x <? #0 then limit else if x >? limit then #0 else x.

(** The sum, the mean and the variance in the arithmetic of the program:
    every operation rounded, the sum taken from the left. *)
Definition rounded_sum `{Rounding} (l : list JS.num) : JS.num := fold_left Fl.add l #0.

Definition rounded_mean `{Rounding} (l : list JS.num) : JS.num :=
  (rounded_sum l / JS.of_nat (length l))%fl.

Definition rounded_variance `{Rounding} (l : list JS.num) : JS.num :=
  rounded_mean (map (fun e => ((e - rounded_mean l) * (e - rounded_mean l))%fl) l).

(** The statistical test of the beat detector, in that arithmetic. *)
Definition exceeds_threshold `{Rounding} (e : JS.num) (history : list JS.num) : Prop :=
  (e >? (rounded_mean history + Fl.lit 0.35 * Fl.sqrt (rounded_variance history))%fl) = true.

End Spec.

(** ** Concrete runs used below *)

Module Runs.

(** The analyzer after a silent cycle at 900 ms, and after a loud one at
    1000 ms that follows it. *)
Definition before_first_beat `{Rounding} : AudioAnalyzer.t :=
  snd (AudioAnalyzer.detectBeat 900 #0 AudioAnalyzer.constructor).

Definition after_first_beat `{Rounding} : AudioAnalyzer.t :=
  snd (AudioAnalyzer.detectBeat 1000 #1 before_first_beat).

(** An analyzer attached to a 44.1 kHz context, and a silent frame. *)
Definition attached : AudioAnalyzer.t :=
  snd (AudioAnalyzer.initialize
         (AudioAnalyzer.Attached {| AudioAnalyzer.sampleRate := #44100 |})
         AudioAnalyzer.constructor).

Definition silence : AudioAnalyzer.HwFrame :=
  {| AudioAnalyzer.hw_freq := replicate 1024 Byte.x00;
     AudioAnalyzer.hw_time := replicate 1024 Byte.x80 |}.

(** The frame produced by that analyzer on silence, and the series that
    goes with it. *)
Definition silent_analysis `{Rounding} : AudioAnalyzer.AnalysisFrame :=
  match fst (AudioAnalyzer.analyze silence 0 attached) with
  | Ok frame => frame
  | Err _ => AudioAnalyzer.defaultAnalysis
  end.

Definition silent_series `{Rounding} : list JS.num :=
  match fst (AudioAnalyzer.getVisualizationData 64
               (snd (AudioAnalyzer.analyze silence 0 attached))) with
  | Ok series => series
  | Err _ => []
  end.

(** A loud frame: every bin of the spectrum at 255.  The analyzer polled
    on silence at 0 ms, then on the loud frame at 1000 ms, returns a frame
    that carries a beat. *)
Definition loud : AudioAnalyzer.HwFrame :=
  {| AudioAnalyzer.hw_freq := replicate 1024 Byte.xff;
     AudioAnalyzer.hw_time := replicate 1024 Byte.x80 |}.

Definition after_silence `{Rounding} : AudioAnalyzer.t :=
  snd (AudioAnalyzer.analyze silence 0 attached).

Definition loud_analysis `{Rounding} : AudioAnalyzer.AnalysisFrame :=
  match fst (AudioAnalyzer.analyze loud 1000 after_silence) with
  | Ok frame => frame
  | Err _ => AudioAnalyzer.defaultAnalysis
  end.

Definition loud_series `{Rounding} : list JS.num :=
  match fst (AudioAnalyzer.getVisualizationData 64
               (snd (AudioAnalyzer.analyze loud 1000 after_silence))) with
  | Ok series => series
  | Err _ => []
  end.

(** A frame that carries a beat. *)
Definition beat_frame : AudioAnalyzer.AnalysisFrame :=
  {| AudioAnalyzer.volume := #0.5; AudioAnalyzer.energy := #0.5;
     AudioAnalyzer.beat := true; AudioAnalyzer.dominantFrequency := #440;
     AudioAnalyzer.bands := []; AudioAnalyzer.spectrum := [];
     AudioAnalyzer.waveform := [] |}.

(** A random source that always draws one half. *)
Definition coin : Rng := {| draws := fun _ => (1 / 2)%R; used := 0 |}.

(** The raster visualizer on an 800 by 600 canvas, and the scene
    visualizer, as constructed. *)
Definition canvas : Visualizer2D.t := fst (Visualizer2D.constructor #800 #600 coin).

Definition stage : Visualizer3D.t := fst (Visualizer3D.constructor coin).

(** The scene visualizer with the analyzer attached, inside [start()]. *)
Definition stage_running : Visualizer3D.t :=
  Visualizer3D.set_running true None (Visualizer3D.setAudioAnalyzer stage).

End Runs.

(** ** States the analyzer can be in *)

Module Lifecycle.

Import AudioAnalyzer.

(** The analyzer after any sequence of the calls the application makes. *)
Inductive reachable `{Rounding} : AudioAnalyzer.t -> Prop :=
| reach_new : reachable constructor
| reach_initialize ev a : reachable a -> reachable (snd (initialize ev a))
| reach_analyze hw now a : reachable a -> reachable (snd (analyze hw now a))
| reach_series n a : reachable a -> reachable (snd (getVisualizationData n a))
| reach_dispose a : reachable a -> reachable (dispose a).

(** The same, before any call of [initialize] has returned [true]. *)
Inductive uninitialized `{Rounding} : AudioAnalyzer.t -> Prop :=
| uninit_new : uninitialized constructor
| uninit_failed ev a :
    uninitialized a -> fst (initialize ev a) = false ->
    uninitialized (snd (initialize ev a))
| uninit_analyze hw now a : uninitialized a -> uninitialized (snd (analyze hw now a))
| uninit_series n a : uninitialized a -> uninitialized (snd (getVisualizationData n a))
| uninit_dispose a : uninitialized a -> uninitialized (dispose a).

(** What every reachable analyzer satisfies. *)
Record invariant (a : AudioAnalyzer.t) : Prop := {
  inv_history : Forall JS.nonneg (energyHistory a);
  inv_fftSize : fftSize a = 2048%Z;
  inv_threshold : beatThreshold a = #0.35;
  inv_interval : beatMinInterval a = 200%Z;
  inv_capacity : maxEnergyHistorySize a = 43%nat;
  inv_bands : frequencyBands a = defaultBands;
  inv_frequencyData : forall fd, frequencyData a = Some fd -> length fd = 1024%nat;
  inv_timeData : forall td, timeData a = Some td -> length td = 1024%nat;
  inv_context : analyser a <> None -> audioContext a <> None;
  inv_smoothed :
    forall l, lastFrequencyData a = Some l ->
              length l = 1024%nat /\ Forall (JS.within 0 255) l
}.

End Lifecycle.

(** ** States the scene visualizer can be in *)

Module Scene.

Import Visualizer3D.

(** Object identities are allocated in increasing order, and the scene
    holds each child once. *)
Record well_formed (v : Visualizer3D.t) : Prop := {
  wf_scene_nodup : NoDup (scene v);
  wf_scene_allocated : forall id, id ∈ scene v -> (id < nextId v)%nat;
  wf_objects_allocated :
    forall m, m ∈ visualObjects v -> (mesh_id m < nextId v)%nat;
  wf_palette : colorPalette v <> []
}.

(** [u] is [v0] with freshly allocated meshes pushed and added. *)
Record grown (v0 u : Visualizer3D.t) : Prop := {
  grown_next : (nextId v0 <= nextId u)%nat;
  grown_scene_nodup : NoDup (scene u);
  grown_scene :
    forall id, id ∈ scene u -> id ∈ scene v0 \/ (nextId v0 <= id < nextId u)%nat;
  grown_objects :
    forall m, m ∈ visualObjects u ->
              m ∈ visualObjects v0
              \/ ((nextId v0 <= mesh_id m < nextId u)%nat /\ mesh_id m ∈ scene u);
  grown_kept :
    audioAnalyzer u = audioAnalyzer v0 /\ animationId u = animationId v0
    /\ isRunning u = isRunning v0 /\ time u = time v0
    /\ colorPalette u = colorPalette v0 /\ beatIntensity u = beatIntensity v0
    /\ beatDecay u = beatDecay v0 /\ pointLights u = pointLights v0
    /\ released u = released v0 /\ geometryType u = geometryType v0
}.

(** [v'] holds a freshly built variant in place of the objects of [v]:
    the collection has [count] meshes, all of them children of the scene;
    no mesh of [v] is a child of the scene or a member of the collection
    any more, and each has been disposed. *)
Definition replaced (v v' : Visualizer3D.t) (count : nat) (variant : string) : Prop :=
  length (visualObjects v') = count
  /\ geometryType v' = variant
  /\ (forall m, m ∈ visualObjects v ->
                 (mesh_id m ∉ scene v')
                 /\ mesh_id m ∈ released v'
                 /\ forall m', m' ∈ visualObjects v' -> mesh_id m' <> mesh_id m)
  /\ (forall m', m' ∈ visualObjects v' -> mesh_id m' ∈ scene v').

(** The number of objects of each variant. *)
Definition variant_count (variant : string) : nat :=
  if String.eqb variant "bars" then 64
  else if String.eqb variant "sphere" then 100
  else if String.eqb variant "tunnel" then 20 * 32
  else if String.eqb variant "wave" then 32 * 32
  else 0.

End Scene.

(** ** States the page can be in *)

Module Schedule.

(** What holds of the page after any sequence of events: the pool is
    full, the scene is well formed, and a frame callback is scheduled only
    for a visualizer that is running, under the handle it remembers. *)
Record invariant (w : Page.t) : Prop := {
  inv_pool : length (Visualizer2D.particles (Page.v2d w)) = 150%nat;
  inv_scene : Scene.well_formed (Page.v3d w);
  inv_next : (0 < Host.nextHandle (Page.host w))%Z;
  inv_fresh :
    forall h cb, (h, cb) ∈ Host.pending (Page.host w) ->
                 (0 < h < Host.nextHandle (Page.host w))%Z;
  inv_loop :
    forall h k, (h, Host.LoopOf k) ∈ Host.pending (Page.host w) ->
                Visualizer2D.isRunning (Page.v2d w) = true
                /\ Visualizer2D.animationLoop (Page.v2d w) = Some k
                /\ Page.closures w !! k
                   = Some {| PerformanceUtils.isRunning := true;
                             PerformanceUtils.animationId := Some h |};
  inv_animate :
    forall h, (h, Host.Animate3D) ∈ Host.pending (Page.host w) ->
              Visualizer3D.isRunning (Page.v3d w) = true
              /\ Visualizer3D.animationId (Page.v3d w) = Some h;
  inv_handle3d :
    forall h, Visualizer3D.animationId (Page.v3d w) = Some h -> h <> 0%Z
}.

(** No frame callback of the raster visualizer is scheduled. *)
Definition idle2D (w : Page.t) : Prop :=
  Visualizer2D.isRunning (Page.v2d w) = false
  /\ forall h k, (h, Host.LoopOf k) ∉ Host.pending (Page.host w).

(** No frame callback of the scene visualizer is scheduled. *)
Definition idle3D (w : Page.t) : Prop :=
  Visualizer3D.isRunning (Page.v3d w) = false
  /\ Visualizer3D.animationId (Page.v3d w) = None
  /\ forall h, (h, Host.Animate3D) ∉ Host.pending (Page.host w).

End Schedule.

(** ** utils.js: MathUtils.random and MathUtils.randomInt *)

Module RandomUtils.

(** [random(min, max)], every operation rounded. *)
Definition random `{Rounding} (min max : JS.num) (g : Rng) : JS.num * Rng :=
  let '(r, g') := Math_random g in
  ((r * (max - min) + min)%fl, g').

(** [randomInt(min, max)]. *)
Definition randomInt (min max : JS.num) (g : Rng) : JS.num * Rng :=
  let '(r, g') := Math_random g in
  (JS.Math_floor (r * (max - min + #1)) + min, g').

End RandomUtils.

(** ** ai-integration.js: the analysis that needs no network

    A string is a sequence of one-byte characters, read as the code units
    0 to 255. *)

Module AIIntegration.

(** [String.prototype.toLowerCase] on these characters: the capital
    letters A-Z, and the capital letters of the upper half except the
    multiplication sign. *)
Definition lower (c : Ascii.ascii) : Ascii.ascii :=
  let n := Ascii.nat_of_ascii c in
  if ((65 <=? n) && (n <=? 90))%nat then Ascii.ascii_of_nat (n + 32)
  else if ((192 <=? n) && (n <=? 222) && negb (n =? 215))%nat then Ascii.ascii_of_nat (n + 32)
  else c.

Fixpoint toLowerCase (s : string) : string :=
  match s with
  | EmptyString => EmptyString
  | String c rest => String (lower c) (toLowerCase rest)
  end.

Fixpoint startsWith (s sub : string) : bool :=
  match sub, s with
  | EmptyString, _ => true
  | String c sub', String d s' => Ascii.eqb c d && startsWith s' sub'
  | String _ _, EmptyString => false
  end.

(** [s.includes(sub)]. *)
Fixpoint includes (s sub : string) : bool :=
  startsWith s sub
  || match s with
     | EmptyString => false
     | String _ s' => includes s' sub
     end.

(** The fields of [metadata] that are read: a string, or [None] for a
    field that is missing, [undefined] or [null]. *)
Record Metadata := {
  title : option string;
  artist : option string;
  genre : option string
}.

Record MoodAnalysis := {
  mood : string;
  energy : JS.num;
  reasoning : string;
  source : string
}.

(** The entries of [defaultMoods], in the order of the object literal. *)
Definition defaultMoods : list (string * string) :=
  [ ("electronic", "energetic"); ("rock", "energetic"); ("pop", "uplifting");
    ("classical", "calm"); ("jazz", "neutral"); ("ambient", "calm");
    ("metal", "energetic"); ("blues", "melancholy"); ("country", "neutral");
    ("rap", "energetic"); ("hiphop", "energetic"); ("reggae", "uplifting");
    ("folk", "calm"); ("default", "neutral") ]%string.

Definition validMoods : list string :=
  ["energetic"; "calm"; "melancholy"; "uplifting"; "neutral"]%string.

(** [validateMood(mood)]. *)
Definition validateMood (mood : string) : string :=
  if List.existsb (String.eqb mood) validMoods then mood else "neutral"%string.

Definition energeticKeywords : list string :=
  ["dance"; "party"; "energy"; "power"; "rock"; "metal"; "fast"; "beat"; "pump"]%string.
Definition calmKeywords : list string :=
  ["slow"; "soft"; "peaceful"; "calm"; "ambient"; "chill"; "relax"; "meditation"]%string.
Definition melancholyKeywords : list string :=
  ["sad"; "blue"; "melancholy"; "sorrow"; "lonely"; "dark"; "pain"]%string.
Definition upliftingKeywords : list string :=
  ["happy"; "joy"; "bright"; "sunshine"; "love"; "hope"; "celebration"]%string.

(** [field || ''], lower-cased. *)
Definition lowered (field : option string) : string :=
  toLowerCase (default ""%string field).

(** [fallbackMoodAnalysis(metadata)]; nothing in it throws on such
    metadata.  The arithmetic on the energy is rounded, and a decimal
    literal is the representable number next to it; 0.5 and the integers
    are representable. *)
Definition fallbackMoodAnalysis `{Rounding} (metadata : Metadata) : MoodAnalysis :=
  let title := lowered (title metadata) in
  let artist := lowered (artist metadata) in
  let genre := lowered (genre metadata) in
  let mood :=
    match List.find (fun entry => includes genre (fst entry)) defaultMoods with
    | Some entry => snd entry
    | None => "neutral"%string
    end in
  let energy := #0.5 in
  let text := String.append title (String.append " " (String.append artist (String.append " " genre))) in
  let energeticCount := length (List.filter (fun keyword => includes text keyword) energeticKeywords) in
  let calmCount := length (List.filter (fun keyword => includes text keyword) calmKeywords) in
  let '(mood, energy) :=
    if (0 <? energeticCount)%nat
    then (if String.eqb mood "neutral" then "energetic"%string else mood,
          JS.Math_min #1 (Fl.lit 0.7 + JS.of_nat energeticCount * Fl.lit 0.1)%fl)
    else if (0 <? calmCount)%nat
    then (if String.eqb mood "neutral" then "calm"%string else mood,
          JS.Math_max #0 (Fl.lit 0.3 - JS.of_nat calmCount * Fl.lit 0.1)%fl)
    else (mood, energy) in
  let '(mood, energy) :=
    if List.existsb (fun keyword => includes text keyword) melancholyKeywords
    then ("melancholy"%string, JS.Math_max (Fl.lit 0.2) (energy - Fl.lit 0.3)%fl)
    else if List.existsb (fun keyword => includes text keyword) upliftingKeywords
    then ("uplifting"%string, JS.Math_min (Fl.lit 0.8) (energy + Fl.lit 0.2)%fl)
    else (mood, energy) in
  {| mood := validateMood mood;
     energy := JS.Math_max #0 (JS.Math_min #1 energy);
     reasoning := "Keyword-based analysis";
     source := "fallback" |}.

(** [ToInt32]: the two's-complement reading of the low 32 bits. *)
Definition toInt32 (z : Z) : Z := ((z + 2 ^ 31) mod 2 ^ 32 - 2 ^ 31)%Z.

(** One iteration of the loop of [simpleHash]:
    [hash = ((hash << 5) - hash) + char; hash = hash & hash]. *)
Definition hash_step (hash : Z) (c : Ascii.ascii) : Z :=
  let char := Z.of_nat (Ascii.nat_of_ascii c) in
  let hash := (toInt32 (Z.shiftl (toInt32 hash) 5) - hash + char)%Z in
  toInt32 (Z.land (toInt32 hash) (toInt32 hash)).

(** [simpleHash(str)]. *)
Definition simpleHash (str : string) : Z :=
  Z.abs (fold_left hash_step (String.list_ascii_of_string str) 0%Z).

(** [fallbackColorAnalysis(imageUrl)]. *)
Definition fallbackColorAnalysis (imageUrl : string) : list ColorUtils.RGB :=
  let hash := simpleHash imageUrl in
  for_range 0 5
    (fun colors i =>
       let hue := Z.rem (hash + i * 73) 360 in
       let saturation := (60 + Z.rem (hash + i * 37) 40)%Z in
       let lightness := (50 + Z.rem (hash + i * 23) 30)%Z in
       colors ++ [ColorUtils.hslToRgb (JS.of_Z hue) (JS.of_Z saturation) (JS.of_Z lightness)])
    [].

End AIIntegration.

(** ** app.js: starting and pausing the two visualizers *)

Module MusicVizApp.

(** [startVisualizers()] in the mode [is3DMode]: the visualizer of the
    mode is started and then the other one is stopped; when the first call
    throws the second is not made. *)
Definition startVisualizers `{Rounding} (is3DMode : bool) (hw : AudioAnalyzer.HwFrame)
    (now : Z) (w : Page.t) : result unit * Page.t :=
  if is3DMode
  then
    match Visualizer3D.start hw now (Page.v3d w) (Page.host w) (Page.analyzer w) (Page.rng w) with
    | (res, v, hst, an, g) =>
        let w1 :=
          {| Page.analyzer := an; Page.v2d := Page.v2d w; Page.v3d := v;
             Page.closures := Page.closures w; Page.host := hst; Page.rng := g |} in
        match res with
        | Ok _ => (Ok (), Page.stop2D w1)
        | Err e => (Err e, w1)
        end
    end
  else (Ok (), Page.stop3D (Page.step Page.Start2D w)).

(** [pauseVisualizers()]. *)
Definition pauseVisualizers (w : Page.t) : Page.t :=
  Page.stop3D (Page.stop2D w).

End MusicVizApp.

(** ** Vocabulary of the further properties *)

Module Channel.

(** A colour channel: an integer from 0 to 255. *)
Definition valid (c : JS.num) : Prop :=
  exists n : Z, c = JS.of_Z n /\ (0 <= n <= 255)%Z.

Definition rgb_valid (color : ColorUtils.RGB) : Prop :=
  valid (fst (fst color)) /\ valid (snd (fst color)) /\ valid (snd color).

(** [hue2rgb] on finite values, as a function of reals. *)
Definition hue (p q t : R) : R :=
  let t1 := if Rlt_dec t 0 then (t + 1)%R else t in
  let t2 := if Rlt_dec 1 t1 then (t1 - 1)%R else t1 in
  if Rlt_dec t2 (1 / 6) then (p + (q - p) * 6 * t2)%R
  else if Rlt_dec t2 (1 / 2) then q
  else if Rlt_dec t2 (2 / 3) then (p + (q - p) * (2 / 3 - t2) * 6)%R
  else p.

(** The [q] of [hslToRgb] on finite values. *)
Definition chroma_q (s l : R) : R :=
  if Rlt_dec l 0.5 then (l * (1 + s))%R else (l + s - l * s)%R.

(** A base colour of a palette: integer components, the hue from 0 to
    360. *)
Definition base_colour (c : ColorUtils.HSL) : Prop :=
  exists hz sz lz : Z, c = ColorUtils.hsl hz sz lz /\ (0 <= hz <= 360)%Z.

End Channel.

Module Hash.

(** The polynomial hash with base 31 of the character codes of a string,
    as an integer without wrap-around. *)
Definition polynomial (str : string) : Z :=
  fold_left (fun h c => (31 * h + Z.of_nat (Ascii.nat_of_ascii c))%Z)
            (String.list_ascii_of_string str) 0%Z.

End Hash.

Module Mood.

Import AIIntegration.

(** The text that [fallbackMoodAnalysis] searches for keywords: the
    lower-cased title, artist and genre, separated by spaces. *)
Definition text (metadata : Metadata) : string :=
  String.append (lowered (title metadata))
    (String.append " "
       (String.append (lowered (artist metadata))
          (String.append " " (lowered (genre metadata))))).

(** Some keyword of the list occurs in the text. *)
Definition mentions (metadata : Metadata) (keywords : list string) : bool :=
  List.existsb (fun keyword => includes (text metadata) keyword) keywords.

(** The mood of the first entry of [defaultMoods] whose key occurs in the
    lower-cased genre. *)
Definition of_genre (metadata : Metadata) : string :=
  match List.find (fun entry => includes (lowered (genre metadata)) (fst entry))
                  defaultMoods with
  | Some entry => snd entry
  | None => "neutral"%string
  end.

(** The energy that the counts of energetic and of calm keywords give. *)
Definition counted `{Rounding} (energetic calm : nat) : R :=
  if (0 <? energetic)%nat then Rmin 1 (rnd (rnd 0.7 + rnd (INR energetic * rnd 0.1)))
  else if (0 <? calm)%nat then Rmax 0 (rnd (rnd 0.3 - rnd (INR calm * rnd 0.1)))
  else 0.5%R.

End Mood.

Module Visual.

(** What every frame keeps of the display state of the raster visualizer:
    the intensities and transitions stay in their intervals, and the
    indices stay inside the palette and the list of modes. *)
Record invariant (v : Visualizer2D.t) : Prop := {
  inv_beat : JS.within 0 0.95 (Visualizer2D.beatIntensity v);
  inv_decay : Visualizer2D.beatDecay v = #0.95;
  inv_pulse : JS.within 1 1.2 (Visualizer2D.pulseScale v);
  inv_mode_transition : JS.within 0 1 (Visualizer2D.modeTransition v);
  inv_color_transition :
    exists r : R, Visualizer2D.colorTransition v = JS.Fin r /\ (0 <= r < 1)%R;
  inv_palette : length (Visualizer2D.colorPalette v) = 4%nat;
  inv_color_index : (Visualizer2D.currentColorIndex v < 4)%nat;
  inv_modes :
    Visualizer2D.modes v = ["bars"; "circles"; "waves"; "particles"; "spiral"]%string;
  inv_mode : (Visualizer2D.currentMode v < 5)%nat;
  inv_frames : (0 <= Visualizer2D.frameCount v)%Z
}.

(** The same between the attack and the decay of a frame: a beat has
    put the intensity to 1. *)
Record struck (v : Visualizer2D.t) : Prop := {
  struck_beat :
    JS.within 0 0.95 (Visualizer2D.beatIntensity v) \/ Visualizer2D.beatIntensity v = #1;
  struck_decay : Visualizer2D.beatDecay v = #0.95;
  struck_pulse : JS.within 1 1.2 (Visualizer2D.pulseScale v);
  struck_mode_transition : JS.within 0 1 (Visualizer2D.modeTransition v);
  struck_color_transition :
    exists r : R, Visualizer2D.colorTransition v = JS.Fin r /\ (0 <= r < 1)%R;
  struck_palette : length (Visualizer2D.colorPalette v) = 4%nat;
  struck_color_index : (Visualizer2D.currentColorIndex v < 4)%nat;
  struck_modes :
    Visualizer2D.modes v = ["bars"; "circles"; "waves"; "particles"; "spiral"]%string;
  struck_mode : (Visualizer2D.currentMode v < 5)%nat;
  struck_frames : (0 <= Visualizer2D.frameCount v)%Z
}.

End Visual.

Module Pool.

(** A particle whose position and velocity are numbers. *)
Definition moving (p : Visualizer2D.Particle) : Prop :=
  JS.finite (Visualizer2D.x p) /\ JS.finite (Visualizer2D.y p)
  /\ JS.finite (Visualizer2D.vx p) /\ JS.finite (Visualizer2D.vy p).

(** A particle inside a canvas of the given size. *)
Definition on_canvas (w hgt : R) (p : Visualizer2D.Particle) : Prop :=
  JS.within 0 w (Visualizer2D.x p) /\ JS.within 0 hgt (Visualizer2D.y p).

End Pool.

Module Frames.

Definition is_loop (cb : Host.callback) : bool :=
  match cb with
  | Host.LoopOf _ => true
  | Host.Animate3D => false
  end.

(** The scheduled frame callbacks of the raster visualizer. *)
Definition pending2D (hst : Host.t) : list (Z * Host.callback) :=
  List.filter (fun e => is_loop (snd e)) (Host.pending hst).

(** The scheduled frame callbacks of the scene visualizer. *)
Definition pending3D (hst : Host.t) : list (Z * Host.callback) :=
  List.filter (fun e => negb (is_loop (snd e))) (Host.pending hst).

(** The handles of the scheduled callbacks are pairwise different. *)
Definition distinct (hst : Host.t) : Prop :=
  NoDup (map fst (Host.pending hst)).

End Frames.

Module Shape.

Import Visualizer3D.

(** The scene visualizer shows one of its four variants: the collection
    has the number of objects of the variant, each of them a child of the
    scene, and there are four colours to draw them with. *)
Record invariant (v : Visualizer3D.t) : Prop := {
  shape_variant : geometryType v ∈ geometries;
  shape_count : length (visualObjects v) = Scene.variant_count (geometryType v);
  shape_children : forall m, m ∈ visualObjects v -> mesh_id m ∈ scene v;
  shape_palette : length (colorPalette v) = 4%nat
}.

End Shape.

(** * Properties *)

(** ** Arithmetic of the number model *)

Section NumberLaws.

Local Open Scope R_scope.

Lemma Rltb_true a b : JS.Rltb a b = true <-> a < b.
Proof. unfold JS.Rltb. destruct (Rlt_dec a b); split; intros; try lra; congruence. Qed.

Lemma Rltb_false a b : JS.Rltb a b = false <-> b <= a.
Proof. unfold JS.Rltb. destruct (Rlt_dec a b); split; intros; try lra; congruence. Qed.

Lemma Rleb_true a b : JS.Rleb a b = true <-> a <= b.
Proof. unfold JS.Rleb. destruct (Rle_dec a b); split; intros; try lra; congruence. Qed.

Lemma Rleb_false a b : JS.Rleb a b = false <-> b < a.
Proof. unfold JS.Rleb. destruct (Rle_dec a b); split; intros; try lra; congruence. Qed.

Lemma Reqb_true a b : JS.Reqb a b = true <-> a = b.
Proof. unfold JS.Reqb. destruct (Req_dec_T a b); split; intros; try lra; congruence. Qed.

Lemma Reqb_false a b : JS.Reqb a b = false <-> a <> b.
Proof. unfold JS.Reqb. destruct (Req_dec_T a b); split; intros; try lra; congruence. Qed.

End NumberLaws.

(** Decide the comparisons of reals that occur in the goal, closing the
    branch that linear arithmetic refutes. *)
Ltac real_cases :=
  repeat match goal with
    | |- context [Rlt_dec ?a ?b] => destruct (Rlt_dec a b); try (exfalso; lra)
    | |- context [Rle_dec ?a ?b] => destruct (Rle_dec a b); try (exfalso; lra)
    | |- context [Req_dec_T ?a ?b] => destruct (Req_dec_T a b); try (exfalso; lra)
    end.

Ltac js_unfold :=
  unfold JS.gtb, JS.geb, JS.ltb, JS.leb, JS.sub, JS.add, JS.neg, JS.mul, JS.div,
    JS.Math_sqrt, JS.Math_max, JS.Math_min, JS.of_nat, JS.of_byte, JS.of_Z,
    JS.inf_of_sign, JS.Rltb, JS.Rleb, JS.Reqb.

Section NumberAlgebra.

Lemma add_comm (x y : JS.num) : x + y = y + x.
Proof. destruct x, y; js_unfold; try reflexivity. f_equal. lra. Qed.

Lemma add_assoc (x y z : JS.num) : x + (y + z) = (x + y) + z.
Proof. destruct x, y, z; js_unfold; try reflexivity. f_equal. lra. Qed.

Lemma add_0_l (x : JS.num) : #0 + x = x.
Proof. destruct x; js_unfold; try reflexivity. f_equal. lra. Qed.

Lemma add_0_r (x : JS.num) : x + #0 = x.
Proof. rewrite add_comm. apply add_0_l. Qed.

(** A left fold of additions is the sum. *)
Lemma fold_left_add (l : list JS.num) (acc : JS.num) :
  fold_left (fun sum energy => sum + energy) l acc = acc + Spec.sum l.
Proof.
  revert acc. induction l as [|x l IH]; intros acc; simpl.
  - now rewrite add_0_r.
  - rewrite IH. now rewrite add_assoc.
Qed.

Lemma fold_left_add_map {A : Type} (f : A -> JS.num) (l : list A) (acc : JS.num) :
  fold_left (fun sum x => sum + f x) l acc = acc + Spec.sum (map f l).
Proof.
  revert acc. induction l as [|x l IH]; intros acc; simpl.
  - now rewrite add_0_r.
  - rewrite IH. now rewrite add_assoc.
Qed.

End NumberAlgebra.

Section PowerLaws.

Local Open Scope R_scope.

Lemma Rpower_2 (a : R) : 0 < a -> Rpower a 2 = a * a.
Proof.
  intros Ha. replace 2 with (INR 2) by (simpl; lra).
  rewrite Rpower_pow by assumption. simpl. lra.
Qed.

Lemma is_integer_2 : JS.is_integer 2 = true.
Proof. unfold JS.is_integer. rewrite (ZfloorZ 2). apply Reqb_true. reflexivity. Qed.

(** [Math.pow(x, 2)] is the square. *)
Lemma Math_pow_2 (x : JS.num) : JS.Math_pow x 2 = (x * x)%js.
Proof.
  unfold JS.Math_pow.
  assert (H2 : JS.Reqb 2 0 = false) by (apply Reqb_false; lra).
  assert (H02 : JS.Rltb 0 2 = true) by (apply Rltb_true; lra).
  rewrite H2, H02, is_integer_2, (ZfloorZ 2). simpl.
  destruct x as [a| | |]; try reflexivity.
  destruct (JS.Rltb 0 a) eqn:Hpos.
  - apply Rltb_true in Hpos. rewrite Rpower_2 by assumption. reflexivity.
  - apply Rltb_false in Hpos.
    destruct (JS.Reqb a 0) eqn:Hz.
    + apply Reqb_true in Hz. subst a. unfold JS.mul. f_equal. lra.
    + apply Reqb_false in Hz. rewrite Rpower_2 by lra. unfold JS.mul. f_equal. lra.
Qed.

End PowerLaws.

(** ** Rounding *)

Section RoundingLaws.

Context {rounding : Rounding}.
Local Open Scope R_scope.

Lemma rnd_Z (z : Z) : (Z.abs z <= 2 ^ 53)%Z -> rnd (IZR z) = IZR z.
Proof.
  intros Hz. pose proof (rnd_dyadic z 0 Hz ltac:(lia)) as E.
  simpl in E. now rewrite Rdiv_1_r in E.
Qed.

Lemma rnd_0 : rnd 0 = 0.
Proof. apply (rnd_Z 0). now vm_compute. Qed.

Lemma rnd_1 : rnd 1 = 1.
Proof. apply (rnd_Z 1). now vm_compute. Qed.

Lemma rnd_nonneg (x : R) : 0 <= x -> 0 <= rnd x.
Proof. intros Hx. rewrite <- rnd_0. now apply rnd_mono. Qed.

Lemma rnd_below (x : R) (m : Z) (e : nat) :
  (Z.abs m <= 2 ^ 53)%Z -> (e <= 1000)%nat -> x <= IZR m / 2 ^ e -> rnd x <= IZR m / 2 ^ e.
Proof. intros Hm He Hx. rewrite <- (rnd_dyadic m e Hm He). now apply rnd_mono. Qed.

Lemma rnd_above (x : R) (m : Z) (e : nat) :
  (Z.abs m <= 2 ^ 53)%Z -> (e <= 1000)%nat -> IZR m / 2 ^ e <= x -> IZR m / 2 ^ e <= rnd x.
Proof. intros Hm He Hx. rewrite <- (rnd_dyadic m e Hm He). now apply rnd_mono. Qed.

Lemma rnd_unit (x : R) : 0 <= x <= 1 -> 0 <= rnd x <= 1.
Proof.
  intros [H0 H1]. split; [now apply rnd_nonneg|].
  rewrite <- rnd_1. now apply rnd_mono.
Qed.

(** A comparison that holds after rounding holds before it. *)
Lemma rnd_lt_inv (x y : R) : rnd x < rnd y -> x < y.
Proof.
  intros Hlt. destruct (Rlt_dec x y) as [|Hge]; [assumption|].
  pose proof (rnd_mono y x ltac:(lra)). lra.
Qed.

Lemma round_nonneg (x : JS.num) : JS.nonneg x -> JS.nonneg (Fl.round x).
Proof. destruct x; simpl; auto. apply rnd_nonneg. Qed.

Lemma round_unit (x : JS.num) : JS.within 0 1 x -> JS.within 0 1 (Fl.round x).
Proof. destruct x; simpl; auto. apply rnd_unit. Qed.

Lemma round_zero : Fl.round #0 = #0.
Proof. unfold Fl.round. now rewrite rnd_0. Qed.

Lemma fl_add_fin (a b : R) : (JS.Fin a + JS.Fin b)%fl = JS.Fin (rnd (a + b)).
Proof. reflexivity. Qed.

Lemma fl_sub_fin (a b : R) : (JS.Fin a - JS.Fin b)%fl = JS.Fin (rnd (a - b)).
Proof. reflexivity. Qed.

Lemma fl_mul_fin (a b : R) : (JS.Fin a * JS.Fin b)%fl = JS.Fin (rnd (a * b)).
Proof. reflexivity. Qed.

Lemma fl_div_fin (a b : R) : b <> 0 -> (JS.Fin a / JS.Fin b)%fl = JS.Fin (rnd (a / b)).
Proof.
  intros Hb. unfold Fl.div, JS.div. now rewrite (proj2 (Reqb_false b 0) Hb).
Qed.

Lemma fl_sqrt_fin (a : R) : 0 <= a -> Fl.sqrt (JS.Fin a) = JS.Fin (rnd (sqrt a)).
Proof.
  intros Ha. unfold Fl.sqrt, JS.Math_sqrt. now rewrite (proj2 (Rltb_false a 0) Ha).
Qed.

Lemma fl_pow_2 (x : JS.num) : Fl.pow x 2 = (x * x)%fl.
Proof. unfold Fl.pow, Fl.mul. now rewrite Math_pow_2. Qed.

End RoundingLaws.

(** Bound the rounding of a real by the dyadic number [m / 2^e]. *)
Ltac rnd_upper m e :=
  match goal with
  | |- (rnd ?x <= ?d)%R =>
      apply (Rle_trans _ (IZR m / 2 ^ e)%R);
      [ apply rnd_below; [now vm_compute | lia | simpl; try lra] | simpl; lra ]
  end.

Ltac rnd_lower m e :=
  match goal with
  | |- (?d <= rnd ?x)%R =>
      apply (Rle_trans _ (IZR m / 2 ^ e)%R);
      [ simpl; lra | apply rnd_above; [now vm_compute | lia | simpl; try lra] ]
  end.

(** The rounding of the dyadic number [m / 2^e] is the number. *)
Ltac rnd_exact m e :=
  match goal with
  | |- rnd ?x = ?d =>
      transitivity (rnd (IZR m / 2 ^ e)%R);
      [ f_equal; simpl; lra
      | transitivity (IZR m / 2 ^ e)%R;
        [ apply rnd_dyadic; [now vm_compute | lia] | simpl; lra ] ]
  end.

(** ** The beat detector *)

Section BeatDetector.

Context {rounding : Rounding}.
Import AudioAnalyzer.

Lemma averageEnergy_mean (h : list JS.num) : averageEnergy h = Spec.rounded_mean h.
Proof. reflexivity. Qed.

Lemma fold_left_map_add {A : Type} (f : A -> JS.num) (l : list A) (acc : JS.num) :
  fold_left (fun sum x => (sum + f x)%fl) l acc = fold_left Fl.add (map f l) acc.
Proof.
  revert acc. induction l as [|x l IH]; intros acc; simpl; [reflexivity|apply IH].
Qed.

Lemma variance_of_variance (h : list JS.num) : variance_of h = Spec.rounded_variance h.
Proof.
  unfold variance_of, Spec.rounded_variance. cbv zeta.
  change (averageEnergy h) with (Spec.rounded_mean h).
  rewrite (fold_left_map_add (fun energy => Fl.pow (energy - Spec.rounded_mean h)%fl 2)).
  rewrite (map_ext _ (fun e => ((e - Spec.rounded_mean h) * (e - Spec.rounded_mean h))%fl))
    by (intros e; apply fl_pow_2).
  generalize (Spec.rounded_mean h). intros m.
  unfold Spec.rounded_mean, Spec.rounded_sum. now rewrite length_map.
Qed.

(** The history is a ring buffer: once within its capacity it stays there,
    holding the most recent values. *)
Lemma push_history_ring (cap : nat) (h : list JS.num) (e : JS.num) :
  (0 < cap)%nat -> (length h <= cap)%nat ->
  (length (push_history cap h e) <= cap)%nat /\
  push_history cap h e = drop (length (h ++ [e]) - cap) (h ++ [e]).
Proof.
  intros Hcap Hlen. unfold push_history.
  rewrite length_app. simpl.
  destruct (Nat.ltb_spec cap (length h + 1)) as [Hlt|Hge].
  - assert (Hh : length h = cap) by lia.
    replace (length h + 1 - cap)%nat with 1%nat by lia.
    destruct h as [|x h]; simpl in *; [lia|].
    rewrite drop_0. split; [|reflexivity]. rewrite length_app. simpl. lia.
  - replace (length h + 1 - cap)%nat with 0%nat by lia.
    rewrite drop_0, length_app. simpl. split; [lia|reflexivity].
Qed.

(** What [detectBeat] returns and what it leaves behind. *)
Lemma detectBeat_unfold (now : Z) (e : JS.num) (a : t) :
  let h := push_history (maxEnergyHistorySize a) (energyHistory a) e in
  let fired :=
    (e >? (Spec.rounded_mean h
           + Fl.round (beatThreshold a) * Fl.sqrt (Spec.rounded_variance h))%fl)
    && (now - lastBeatTime a >? beatMinInterval a)%Z in
  detectBeat now e a
  = (fired, set_beat h (if fired then now else lastBeatTime a) a).
Proof.
  unfold detectBeat. rewrite averageEnergy_mean, variance_of_variance. cbv zeta.
  destruct (_ && _); reflexivity.
Qed.

(** Within the refractory interval nothing fires. *)
Lemma detectBeat_refractory (now : Z) (e : JS.num) (a : t) :
  (now - lastBeatTime a <= beatMinInterval a)%Z -> fst (detectBeat now e a) = false.
Proof.
  intros H. rewrite detectBeat_unfold. cbv zeta. cbn [fst].
  destruct (Z.gtb_spec (now - lastBeatTime a) (beatMinInterval a)); [lia|].
  apply andb_false_r.
Qed.

End BeatDetector.

(** C1, as the program has it: a beat fires exactly when the current energy
    exceeds the mean of the energy history (the current value included) plus
    0.35 times the square root of its variance, all of it computed in the
    rounded arithmetic of the program with the sums taken in order, and MORE
    than 200 ms have passed since the last firing; a firing step records
    the current time as the last firing, any other step leaves it
    unchanged; either way the updated history is kept.  This holds for
    every rounding. *)
Theorem detectBeat_fires_iff {rounding : Rounding} (a : AudioAnalyzer.t) (now : Z) (e : JS.num) :
  AudioAnalyzer.beatThreshold a = #0.35 ->
  AudioAnalyzer.beatMinInterval a = 200%Z ->
  let h := AudioAnalyzer.push_history (AudioAnalyzer.maxEnergyHistorySize a)
             (AudioAnalyzer.energyHistory a) e in
  let fired := fst (AudioAnalyzer.detectBeat now e a) in
  let a' := snd (AudioAnalyzer.detectBeat now e a) in
  (fired = true <->
     Spec.exceeds_threshold e h /\ (now - AudioAnalyzer.lastBeatTime a > 200)%Z)
  /\ (fired = true -> AudioAnalyzer.lastBeatTime a' = now)
  /\ (fired = false -> AudioAnalyzer.lastBeatTime a' = AudioAnalyzer.lastBeatTime a)
  /\ AudioAnalyzer.energyHistory a' = h.
Proof.
  intros Hk Hmin h fired a'. subst fired a'.
  rewrite detectBeat_unfold. cbv zeta. fold h. rewrite Hk, Hmin. simpl.
  unfold Spec.exceeds_threshold.
  change (Fl.round #0.35) with (Fl.lit 0.35).
  destruct (e >? _) eqn:Hstat; simpl.
  - destruct (Z.gtb_spec (now - AudioAnalyzer.lastBeatTime a) 200) as [Hgt|Hle].
    + repeat split; auto; try discriminate. lia.
    + repeat split; auto; try discriminate. intros [_ ?]. lia.
  - repeat split; auto; try discriminate. intros [? _]. discriminate.
Qed.

Section BeatExamples.

Context {rounding : Rounding}.
Local Open Scope R_scope.

Lemma sqrt_le_bound (x y : R) : 0 <= y -> x <= y * y -> sqrt x <= y.
Proof.
  intros Hy Hx. rewrite <- (sqrt_square y) by assumption.
  now apply sqrt_le_1_alt.
Qed.

Lemma sqrt_quarter : sqrt (1 / 4) = 1 / 2.
Proof.
  replace (1 / 4) with ((1 / 2) * (1 / 2)) by lra. apply sqrt_square. lra.
Qed.

Lemma threshold_literal : 1 / 4 <= rnd 0.35 <= 3 / 8.
Proof. split; [rnd_lower 1%Z 2%nat | rnd_upper 3%Z 3%nat]. Qed.

(** A history that holds one zero: the threshold is zero. *)
Lemma not_exceeds_0 :
  (#0 >? (Spec.rounded_mean [ #0 ]
          + Fl.lit 0.35 * Fl.sqrt (Spec.rounded_variance [ #0 ]))%fl)%js = false.
Proof.
  assert (Hm : Spec.rounded_mean [ #0 ] = #0).
  { unfold Spec.rounded_mean, Spec.rounded_sum. cbn [fold_left length].
    rewrite fl_add_fin. replace (0 + 0) with 0 by lra. rewrite rnd_0.
    change (JS.of_nat 1) with (JS.Fin 1). rewrite fl_div_fin by lra.
    replace (0 / 1) with 0 by lra. now rewrite rnd_0. }
  assert (Hv : Spec.rounded_variance [ #0 ] = #0).
  { unfold Spec.rounded_variance. rewrite Hm. cbn [map].
    rewrite fl_sub_fin. replace (0 - 0) with 0 by lra. rewrite rnd_0.
    rewrite fl_mul_fin. replace (0 * 0) with 0 by lra. rewrite rnd_0. exact Hm. }
  rewrite Hm, Hv. unfold Fl.lit. rewrite fl_sqrt_fin by lra. rewrite sqrt_0, rnd_0.
  rewrite fl_mul_fin. replace (rnd 0.35 * 0) with 0 by lra. rewrite rnd_0.
  rewrite fl_add_fin. replace (0 + 0) with 0 by lra. rewrite rnd_0.
  js_unfold. real_cases. reflexivity.
Qed.

(** After a silent cycle, a cycle of energy 1 exceeds the threshold. *)
Lemma exceeds_01 : Spec.exceeds_threshold #1 [ #0; #1].
Proof.
  unfold Spec.exceeds_threshold.
  assert (Hm : Spec.rounded_mean [ #0; #1 ] = #(1 / 2)).
  { unfold Spec.rounded_mean, Spec.rounded_sum. cbn [fold_left length].
    rewrite !fl_add_fin. replace (0 + 0) with 0 by lra. rewrite rnd_0.
    replace (0 + 1) with 1 by lra. rewrite rnd_1.
    change (JS.of_nat 2) with (JS.Fin 2). rewrite fl_div_fin by lra.
    f_equal. rnd_exact 1%Z 1%nat. }
  assert (Hv : Spec.rounded_variance [ #0; #1 ] = #(1 / 4)).
  { unfold Spec.rounded_variance. rewrite Hm. cbn [map].
    rewrite !fl_sub_fin.
    assert (E0 : rnd (0 - 1 / 2) = - (1 / 2)) by rnd_exact (-1)%Z 1%nat.
    assert (E1 : rnd (1 - 1 / 2) = 1 / 2) by rnd_exact 1%Z 1%nat.
    rewrite E0, E1, !fl_mul_fin.
    assert (Q0 : rnd (- (1 / 2) * - (1 / 2)) = 1 / 4) by rnd_exact 1%Z 2%nat.
    assert (Q1 : rnd (1 / 2 * (1 / 2)) = 1 / 4) by rnd_exact 1%Z 2%nat.
    rewrite Q0, Q1.
    unfold Spec.rounded_mean, Spec.rounded_sum. cbn [fold_left length].
    rewrite !fl_add_fin.
    assert (S0 : rnd (0 + 1 / 4) = 1 / 4) by rnd_exact 1%Z 2%nat.
    rewrite S0.
    assert (S1 : rnd (1 / 4 + 1 / 4) = 1 / 2) by rnd_exact 1%Z 1%nat.
    rewrite S1.
    change (JS.of_nat 2) with (JS.Fin 2). rewrite fl_div_fin by lra.
    f_equal. rnd_exact 1%Z 2%nat. }
  rewrite Hm, Hv. unfold Fl.lit. rewrite fl_sqrt_fin by lra. rewrite sqrt_quarter.
  assert (E : rnd (1 / 2) = 1 / 2) by rnd_exact 1%Z 1%nat.
  rewrite E, fl_mul_fin, fl_add_fin.
  destruct threshold_literal as [Hlo Hhi].
  assert (Hp : rnd (rnd 0.35 * (1 / 2)) <= 1 / 4) by (rnd_upper 1%Z 2%nat).
  assert (Ht : rnd (1 / 2 + rnd (rnd 0.35 * (1 / 2))) <= 3 / 4) by (rnd_upper 3%Z 2%nat).
  js_unfold. real_cases. reflexivity.
Qed.

(** So does a second one. *)
Lemma exceeds_011 : Spec.exceeds_threshold #1 [ #0; #1; #1].
Proof.
  unfold Spec.exceeds_threshold.
  assert (Hm : exists m, Spec.rounded_mean [ #0; #1; #1 ] = JS.Fin m
                         /\ 5 / 8 <= m <= 11 / 16).
  { unfold Spec.rounded_mean, Spec.rounded_sum. cbn [fold_left length].
    rewrite !fl_add_fin. replace (0 + 0) with 0 by lra. rewrite rnd_0.
    replace (0 + 1) with 1 by lra. rewrite rnd_1.
    assert (E2 : rnd (1 + 1) = 2) by rnd_exact 2%Z 0%nat. rewrite E2.
    change (JS.of_nat 3) with (JS.Fin 3). rewrite fl_div_fin by lra.
    eexists. split; [reflexivity|].
    split; [rnd_lower 5%Z 3%nat | rnd_upper 11%Z 4%nat]. }
  destruct Hm as (m & Hm & Hm1 & Hm2).
  assert (Hv : exists v, Spec.rounded_variance [ #0; #1; #1 ] = JS.Fin v
                         /\ 0 <= v <= 17 / 64).
  { unfold Spec.rounded_variance. rewrite Hm. cbn [map].
    rewrite !fl_sub_fin, !fl_mul_fin.
    set (d0 := rnd (0 - m)). set (d1 := rnd (1 - m)).
    assert (Hd0 : - (11 / 16) <= d0 <= - (5 / 8)).
    { unfold d0. split; [rnd_lower (-11)%Z 4%nat | rnd_upper (-5)%Z 3%nat]. }
    assert (Hd1 : 5 / 16 <= d1 <= 3 / 8).
    { unfold d1. split; [rnd_lower 5%Z 4%nat | rnd_upper 3%Z 3%nat]. }
    set (q0 := rnd (d0 * d0)). set (q1 := rnd (d1 * d1)).
    assert (Hq0 : 0 <= q0 <= 121 / 256).
    { unfold q0. split; [apply rnd_nonneg; nra|].
      rnd_upper 121%Z 8%nat. nra. }
    assert (Hq1 : 0 <= q1 <= 9 / 64).
    { unfold q1. split; [apply rnd_nonneg; nra|].
      rnd_upper 9%Z 6%nat. nra. }
    unfold Spec.rounded_mean, Spec.rounded_sum. cbn [fold_left length].
    rewrite !fl_add_fin.
    set (s0 := rnd (0 + q0)).
    assert (Hs0 : 0 <= s0 <= 121 / 256).
    { unfold s0. split; [apply rnd_nonneg; lra | rnd_upper 121%Z 8%nat]. }
    set (s1 := rnd (s0 + q1)).
    assert (Hs1 : 0 <= s1 <= 157 / 256).
    { unfold s1. split; [apply rnd_nonneg; lra | rnd_upper 157%Z 8%nat]. }
    set (s2 := rnd (s1 + q1)).
    assert (Hs2 : 0 <= s2 <= 193 / 256).
    { unfold s2. split; [apply rnd_nonneg; lra | rnd_upper 193%Z 8%nat]. }
    change (JS.of_nat 3) with (JS.Fin 3). rewrite fl_div_fin by lra.
    eexists. split; [reflexivity|].
    split; [apply rnd_nonneg; lra | rnd_upper 17%Z 6%nat]. }
  destruct Hv as (v & Hv & Hv1 & Hv2).
  rewrite Hm, Hv. unfold Fl.lit. rewrite fl_sqrt_fin by lra.
  rewrite fl_mul_fin, fl_add_fin.
  destruct threshold_literal as [Hlo Hhi].
  assert (Hsq : 0 <= sqrt v <= 9 / 16).
  { split; [apply sqrt_pos | apply sqrt_le_bound; lra]. }
  set (r := rnd (sqrt v)).
  assert (Hr : 0 <= r <= 9 / 16).
  { unfold r. split; [apply rnd_nonneg; lra | rnd_upper 9%Z 4%nat]. }
  set (p := rnd (rnd 0.35 * r)).
  assert (Hp : p <= 27 / 128).
  { unfold p. rnd_upper 27%Z 7%nat. nra. }
  assert (Ht : rnd (m + p) <= 115 / 128) by (rnd_upper 115%Z 7%nat).
  js_unfold. real_cases. reflexivity.
Qed.

End BeatExamples.

Section BeatRefractory.

Context {rounding : Rounding}.
Import AudioAnalyzer.

(** The run of [Runs.before_first_beat]: the silent cycle does not fire. *)
Lemma before_first_beat_state :
  energyHistory Runs.before_first_beat = [ #0 ]
  /\ lastBeatTime Runs.before_first_beat = 0%Z
  /\ maxEnergyHistorySize Runs.before_first_beat = 43%nat
  /\ beatThreshold Runs.before_first_beat = #0.35
  /\ beatMinInterval Runs.before_first_beat = 200%Z.
Proof.
  unfold Runs.before_first_beat. rewrite detectBeat_unfold. cbv zeta.
  cbn [snd fst set_beat energyHistory lastBeatTime maxEnergyHistorySize
       beatThreshold beatMinInterval constructor push_history app length
       Nat.ltb Nat.leb].
  change (Fl.round #0.35) with (Fl.lit 0.35).
  rewrite not_exceeds_0. repeat split; reflexivity.
Qed.

(** The loud cycle that follows fires. *)
Lemma first_beat_fires : fst (detectBeat 1000 #1 Runs.before_first_beat) = true.
Proof.
  rewrite detectBeat_unfold. cbv zeta.
  destruct before_first_beat_state as (Hh & Hlast & Hcap & Hk & Hmin).
  rewrite Hh, Hlast, Hcap, Hk, Hmin.
  cbn [fst push_history app length Nat.ltb Nat.leb].
  change (Fl.round #0.35) with (Fl.lit 0.35).
  pose proof exceeds_01 as H1. unfold Spec.exceeds_threshold in H1.
  rewrite H1. reflexivity.
Qed.

(** The run of [Runs.after_first_beat]: the second cycle fires, at 1000 ms. *)
Lemma after_first_beat_state :
  energyHistory Runs.after_first_beat = [ #0; #1 ]
  /\ lastBeatTime Runs.after_first_beat = 1000%Z
  /\ maxEnergyHistorySize Runs.after_first_beat = 43%nat
  /\ beatThreshold Runs.after_first_beat = #0.35
  /\ beatMinInterval Runs.after_first_beat = 200%Z.
Proof.
  unfold Runs.after_first_beat, Runs.before_first_beat.
  rewrite !detectBeat_unfold. cbv zeta.
  cbn [snd fst set_beat energyHistory lastBeatTime maxEnergyHistorySize
       beatThreshold beatMinInterval constructor push_history app length
       Nat.ltb Nat.leb].
  change (Fl.round #0.35) with (Fl.lit 0.35).
  pose proof exceeds_01 as H1. unfold Spec.exceeds_threshold in H1.
  rewrite H1, not_exceeds_0. repeat split; reflexivity.
Qed.

(** Exactly 200 ms after a beat nothing fires, although the energy is above
    the statistical threshold: "at least 200 ms" is not the test of the
    program, for any rounding. *)
Lemma no_beat_at_200ms :
  let a := Runs.after_first_beat in
  let h := push_history (maxEnergyHistorySize a) (energyHistory a) #1 in
  ~ (fst (detectBeat 1200 #1 a) = true <->
     Spec.exceeds_threshold #1 h /\ (1200 - lastBeatTime a >= 200)%Z).
Proof.
  cbv zeta. rewrite detectBeat_unfold. cbv zeta.
  destruct after_first_beat_state as (Hh & Hlast & Hcap & Hk & Hmin).
  rewrite Hh, Hlast, Hcap, Hk, Hmin.
  cbn [fst push_history app length Nat.ltb Nat.leb].
  intros [_ Hfire].
  assert (Hgo : Spec.exceeds_threshold #1 [ #0; #1; #1 ] /\ (1200 - 1000 >= 200)%Z)
    by (split; [apply exceeds_011 | lia]).
  apply Hfire in Hgo. rewrite andb_false_r in Hgo. discriminate.
Qed.

End BeatRefractory.

Section BeatRuns.

Local Existing Instance real_arithmetic.

(** The theorem on the loud cycle at 1000 ms that follows a silent one:
    it fires. *)
Lemma detectBeat_fires_iff_witness :
  let a := Runs.before_first_beat in
  fst (AudioAnalyzer.detectBeat 1000 #1 a) = true
  /\ (let h := AudioAnalyzer.push_history (AudioAnalyzer.maxEnergyHistorySize a)
                 (AudioAnalyzer.energyHistory a) #1 in
      let fired := fst (AudioAnalyzer.detectBeat 1000 #1 a) in
      let a' := snd (AudioAnalyzer.detectBeat 1000 #1 a) in
      (fired = true <->
         Spec.exceeds_threshold #1 h /\ (1000 - AudioAnalyzer.lastBeatTime a > 200)%Z)
      /\ (fired = true -> AudioAnalyzer.lastBeatTime a' = 1000%Z)
      /\ (fired = false -> AudioAnalyzer.lastBeatTime a' = AudioAnalyzer.lastBeatTime a)
      /\ AudioAnalyzer.energyHistory a' = h).
Proof.
  split; [exact first_beat_fires|].
  apply (detectBeat_fires_iff Runs.before_first_beat 1000 #1).
  - exact (proj1 (proj2 (proj2 (proj2 before_first_beat_state)))).
  - exact (proj2 (proj2 (proj2 (proj2 before_first_beat_state)))).
Defined.

(** C1 as stated fails: 200 ms after a beat ("at least 200 ms"), with the
    energy above the statistical threshold, [detectBeat] returns false.
    The same run fails the claim under every rounding
    ([no_beat_at_200ms]). *)
Lemma detectBeat_at_200ms_does_not_fire :
  let a := Runs.after_first_beat in
  let h := AudioAnalyzer.push_history (AudioAnalyzer.maxEnergyHistorySize a)
             (AudioAnalyzer.energyHistory a) #1 in
  ~ (fst (AudioAnalyzer.detectBeat 1200 #1 a) = true <->
     Spec.exceeds_threshold #1 h /\ (1200 - AudioAnalyzer.lastBeatTime a >= 200)%Z).
Proof. exact no_beat_at_200ms. Qed.

End BeatRuns.

(** ** Silent input *)

Section Silence.

Context {rounding : Rounding}.
Import AudioAnalyzer.
Local Open Scope R_scope.

Lemma of_byte_nonneg (b : Byte.byte) : exists r, JS.of_byte b = JS.Fin r /\ 0 <= r <= 255.
Proof.
  unfold JS.of_byte, JS.of_Z. eexists. split; [reflexivity|].
  pose proof (Byte.to_N_bounded b) as Hb.
  split.
  - apply IZR_le. lia.
  - apply IZR_le. lia.
Qed.

Lemma sum_nonneg (l : list JS.num) : Forall JS.nonneg l -> JS.nonneg (Spec.sum l).
Proof.
  induction 1 as [|x l Hx _ IH]; simpl.
  - lra.
  - destruct x as [a| | |]; try contradiction.
    destruct (Spec.sum l) as [b| | |]; try contradiction.
    js_unfold. simpl in *. lra.
Qed.

Lemma div_nat_nonneg (x : JS.num) (n : nat) :
  (0 < n)%nat -> JS.nonneg x -> JS.nonneg (x / JS.of_nat n)%js.
Proof.
  intros Hn Hx. destruct x as [a| | |]; try contradiction.
  assert (Hpos : 0 < IZR (Z.of_nat n)) by (apply IZR_lt; lia).
  js_unfold. real_cases; simpl in *; unfold Rdiv;
    (apply Rmult_le_pos; [assumption | left; now apply Rinv_0_lt_compat]).
Qed.

Lemma mean_nonneg (l : list JS.num) :
  l <> [] -> Forall JS.nonneg l -> JS.nonneg (Spec.mean l).
Proof.
  intros Hne Hl. unfold Spec.mean. apply div_nat_nonneg.
  - destruct l; [congruence | simpl; lia].
  - now apply sum_nonneg.
Qed.

Lemma squares_nonneg (m : JS.num) (l : list JS.num) :
  JS.finite m -> Forall JS.finite l ->
  Forall JS.nonneg (map (fun e => (e - m) * (e - m))%js l).
Proof.
  intros Hm Hl. destruct m as [c| | |]; try contradiction.
  induction Hl as [|x l Hx _ IH]; simpl; constructor; auto.
  destruct x as [a| | |]; try contradiction.
  js_unfold. simpl. apply Rle_0_sqr.
Qed.

Lemma nonneg_finite (l : list JS.num) : Forall JS.nonneg l -> Forall JS.finite l.
Proof.
  intros H. eapply Forall_impl; [exact H|]. intros [a| | |]; simpl; auto.
Qed.

Lemma rounded_sum_nonneg (l : list JS.num) (acc : JS.num) :
  JS.nonneg acc -> Forall JS.nonneg l -> JS.nonneg (fold_left Fl.add l acc).
Proof.
  intros Hacc Hl. revert acc Hacc.
  induction Hl as [|x l Hx _ IH]; intros acc Hacc; simpl; [assumption|].
  apply IH. destruct acc as [a| | |], x as [b| | |]; try contradiction.
  rewrite fl_add_fin. simpl in *. apply rnd_nonneg. lra.
Qed.

Lemma rounded_mean_nonneg (l : list JS.num) :
  l <> [] -> Forall JS.nonneg l -> JS.nonneg (Spec.rounded_mean l).
Proof.
  intros Hne Hl. unfold Spec.rounded_mean, Spec.rounded_sum.
  pose proof (rounded_sum_nonneg l #0 ltac:(simpl; lra) Hl) as Hs.
  destruct (fold_left Fl.add l #0) as [a| | |]; try contradiction.
  assert (Hpos : 0 < IZR (Z.of_nat (length l)))
    by (apply IZR_lt; destruct l; [congruence | simpl; lia]).
  unfold JS.of_nat, JS.of_Z. rewrite fl_div_fin by lra.
  simpl in *. apply rnd_nonneg. unfold Rdiv.
  apply Rmult_le_pos; [assumption | left; now apply Rinv_0_lt_compat].
Qed.

Lemma rounded_squares_nonneg (m : JS.num) (l : list JS.num) :
  JS.finite m -> Forall JS.finite l ->
  Forall JS.nonneg (map (fun e => ((e - m) * (e - m))%fl) l).
Proof.
  intros Hm Hl. destruct m as [c| | |]; try contradiction.
  induction Hl as [|x l Hx _ IH]; simpl; constructor; auto.
  destruct x as [a| | |]; try contradiction.
  rewrite fl_sub_fin, fl_mul_fin. simpl. apply rnd_nonneg. apply Rle_0_sqr.
Qed.

(** Zero never exceeds the threshold of a history of non-negative
    energies. *)
Lemma zero_below_threshold (k : R) (h : list JS.num) :
  0 <= k -> Forall JS.nonneg h ->
  (#0 >? (Spec.rounded_mean h + Fl.round #k * Fl.sqrt (Spec.rounded_variance h))%fl)%js
  = false.
Proof.
  intros Hk Hh. destruct h as [|x h].
  - assert (Hnan : Spec.rounded_mean [] = JS.NaN).
    { unfold Spec.rounded_mean, Spec.rounded_sum. cbn [fold_left length].
      change (JS.of_nat 0) with (JS.Fin 0). unfold Fl.div, Fl.round.
      js_unfold. real_cases. reflexivity. }
    rewrite Hnan. reflexivity.
  - pose proof (rounded_mean_nonneg (x :: h) ltac:(discriminate) Hh) as Hm.
    assert (Hv : JS.nonneg (Spec.rounded_variance (x :: h))).
    { unfold Spec.rounded_variance. apply rounded_mean_nonneg; [discriminate|].
      apply rounded_squares_nonneg.
      - destruct (Spec.rounded_mean (x :: h)); simpl in *; auto.
      - now apply nonneg_finite. }
    destruct (Spec.rounded_mean (x :: h)) as [m| | |]; try contradiction.
    destruct (Spec.rounded_variance (x :: h)) as [v| | |]; try contradiction.
    simpl in Hm, Hv. pose proof (sqrt_pos v) as Hs.
    rewrite fl_sqrt_fin by assumption.
    change (Fl.round #k) with (JS.Fin (rnd k)).
    rewrite fl_mul_fin, fl_add_fin.
    pose proof (rnd_nonneg k Hk) as Hk'.
    pose proof (rnd_nonneg (sqrt v) Hs) as Hs'.
    assert (Hp : 0 <= rnd (rnd k * rnd (sqrt v))) by (apply rnd_nonneg; nra).
    assert (Ht : 0 <= rnd (m + rnd (rnd k * rnd (sqrt v)))) by (apply rnd_nonneg; lra).
    js_unfold. real_cases; try reflexivity; exfalso; lra.
Qed.

Lemma push_history_nonneg (cap : nat) (h : list JS.num) (e : JS.num) :
  Forall JS.nonneg h -> JS.nonneg e -> Forall JS.nonneg (push_history cap h e).
Proof.
  intros Hh He. unfold push_history.
  assert (Hall : Forall JS.nonneg (h ++ [e])).
  { apply Forall_app. split; [assumption|]. constructor; [assumption|constructor]. }
  destruct (_ <? _)%nat; [|assumption].
  destruct (h ++ [e]); simpl; [constructor|]. now inversion Hall.
Qed.

(** The energy of a non-empty buffer is a non-negative real. *)
Lemma energy_sum_nonneg (fd : list Byte.byte) (s : R) :
  0 <= s ->
  exists s', fold_left (fun sum b => sum + JS.of_byte b * JS.of_byte b)%js fd (JS.Fin s)
             = JS.Fin s' /\ 0 <= s'.
Proof.
  revert s. induction fd as [|b fd IH]; intros s Hs; simpl.
  - eauto.
  - destruct (of_byte_nonneg b) as (r & -> & Hr).
    js_unfold. apply IH. nra.
Qed.

Lemma calculateEnergy_nonneg (fd : list Byte.byte) :
  fd <> [] -> JS.nonneg (calculateEnergy fd).
Proof.
  intros Hne. unfold calculateEnergy. cbv zeta.
  destruct (energy_sum_nonneg fd 0 ltac:(lra)) as (s & -> & Hs).
  assert (Hn : 0 < IZR (Z.of_nat (length fd))).
  { apply IZR_lt. destruct fd; [congruence | simpl; lia]. }
  apply round_nonneg.
  js_unfold. real_cases; simpl; unfold Rdiv;
    (apply Rmult_le_pos; [assumption | left; apply Rinv_0_lt_compat; nra]).
Qed.

Lemma energy_sum_silent (fd : list Byte.byte) :
  Forall (eq Byte.x00) fd ->
  fold_left (fun sum b => sum + JS.of_byte b * JS.of_byte b)%js fd #0 = #0.
Proof.
  induction 1 as [|b fd <- _ IH]; simpl; [reflexivity|].
  rewrite <- IH at 2. f_equal. js_unfold. simpl. f_equal. lra.
Qed.

Lemma calculateEnergy_silent (fd : list Byte.byte) :
  fd <> [] -> Forall (eq Byte.x00) fd -> calculateEnergy fd = #0.
Proof.
  intros Hne Hz. unfold calculateEnergy. cbv zeta.
  rewrite energy_sum_silent by assumption.
  assert (Hn : 0 < IZR (Z.of_nat (length fd))).
  { apply IZR_lt. destruct fd; [congruence | simpl; lia]. }
  rewrite <- round_zero at 2. unfold Fl.div. f_equal.
  js_unfold. real_cases. f_equal. unfold Rdiv. lra.
Qed.

Lemma volume_sum_silent (td : list Byte.byte) :
  Forall (eq Byte.x80) td ->
  fold_left (fun sum b =>
               let sample := ((JS.of_byte b - #128) / #128)%js in
               (sum + sample * sample)%js) td #0 = #0.
Proof.
  induction 1 as [|b td <- _ IH]; simpl; [reflexivity|].
  rewrite <- IH at 2. f_equal. js_unfold. simpl. real_cases. f_equal. lra.
Qed.

Lemma calculateVolume_silent (td : list Byte.byte) :
  td <> [] -> Forall (eq Byte.x80) td -> calculateVolume td = #0.
Proof.
  intros Hne Hz. unfold calculateVolume. cbv zeta.
  rewrite volume_sum_silent by assumption.
  assert (Hn : 0 < IZR (Z.of_nat (length td))).
  { apply IZR_lt. destruct td; [congruence | simpl; lia]. }
  js_unfold. real_cases.
  f_equal. replace (0 / IZR (Z.of_nat (length td))) with 0 by (unfold Rdiv; lra).
  apply sqrt_0.
Qed.

End Silence.

(** ** The invariant of the analyzer *)

Section AnalyzerInvariant.

Context {rounding : Rounding}.
Import AudioAnalyzer Lifecycle.
Local Open Scope R_scope.

Lemma length_fill_bytes (data arr : list Byte.byte) :
  length (fill_bytes data arr) = length arr.
Proof.
  unfold fill_bytes. rewrite length_app, length_take, length_drop. lia.
Qed.

Lemma fill_bytes_full (data arr : list Byte.byte) :
  length data = length arr -> fill_bytes data arr = data.
Proof.
  intros H. unfold fill_bytes. rewrite <- H, firstn_all.
  rewrite drop_ge by lia. apply app_nil_r.
Qed.

Lemma lerp_within (lo hi x y : R) :
  lo <= x <= hi -> lo <= y <= hi ->
  JS.within lo hi (MathUtils.lerp (JS.Fin x) (JS.Fin y) #0.7).
Proof.
  intros Hx Hy. unfold MathUtils.lerp. js_unfold. simpl. lra.
Qed.

Lemma of_byte_within (b : Byte.byte) : JS.within 0 255 (JS.of_byte b).
Proof. destruct (of_byte_nonneg b) as (r & -> & Hr). exact Hr. Qed.

Lemma smooth_within (last : list JS.num) (fd : list Byte.byte) :
  length last = length fd -> Forall (JS.within 0 255) last ->
  length (smooth #0.7 last fd) = length fd
  /\ Forall (JS.within 0 255) (smooth #0.7 last fd).
Proof.
  intros Hlen Hlast. unfold smooth.
  rewrite drop_ge by lia. rewrite app_nil_r. split.
  - apply length_imap.
  - apply Forall_lookup. intros i x Hx.
    rewrite list_lookup_imap in Hx.
    destruct (fd !! i) as [b|] eqn:Hb; [|discriminate].
    simpl in Hx. injection Hx as <-.
    assert (Hi : (i < length last)%nat) by (rewrite Hlen; eapply lookup_lt_Some; eauto).
    destruct (lookup_lt_is_Some_2 last i Hi) as [y Hy].
    unfold index_num.
    destruct (Z.ltb_spec (Z.of_nat i) 0); [lia|].
    rewrite Nat2Z.id, Hy.
    pose proof (proj1 (Forall_lookup _ _) Hlast i y Hy) as Hwy.
    destruct y as [r| | |]; try contradiction.
    destruct (of_byte_nonneg b) as (rb & -> & Hrb).
    now apply lerp_within.
Qed.

Lemma invariant_new : invariant constructor.
Proof.
  constructor; simpl; try reflexivity; try discriminate; try congruence.
  constructor.
Qed.

Lemma invariant_initialize ev a : invariant a -> invariant (snd (initialize ev a)).
Proof.
  intros [Hh Hf Hk Hi Hc Hb Hfd Htd Hctx Hsm].
  destruct ev; simpl; [constructor; assumption | | |].
  - constructor; simpl; auto; try discriminate.
  - destruct (source a); simpl; constructor; simpl; auto; try discriminate;
      intros ? [= <-]; unfold new_Uint8Array; rewrite length_replicate, Hf; reflexivity.
  - constructor; simpl; auto; try discriminate;
      intros ? [= <-]; unfold new_Uint8Array; rewrite length_replicate, Hf; reflexivity.
Qed.

Lemma invariant_dispose a : invariant a -> invariant (dispose a).
Proof.
  intros [Hh Hf Hk Hi Hc Hb Hfd Htd Hctx Hsm].
  constructor; simpl; auto; try discriminate; try congruence.
Qed.

Lemma invariant_series n a : invariant a -> invariant (snd (getVisualizationData n a)).
Proof.
  intros Ha. pose proof Ha as [Hh Hf Hk Hi Hc Hb Hfd Htd Hctx Hsm].
  unfold getVisualizationData, getSmoothedFrequencyData.
  destruct (frequencyData a) as [fd|] eqn:Efd; simpl; [|assumption].
  specialize (Hfd fd eq_refl).
  destruct (lastFrequencyData a) as [last|] eqn:Elast; simpl.
  - destruct (Hsm last eq_refl) as [Hlen Hw].
    destruct (smooth_within last fd ltac:(lia) Hw) as [Hlen' Hw'].
    constructor; simpl; auto.
    + rewrite Efd. intros ? [= <-]. assumption.
    + intros l [= <-]. split; [lia | assumption].
  - constructor; simpl; auto.
    + rewrite Efd. intros ? [= <-]. assumption.
    + intros l [= <-]. split.
      * rewrite length_map. assumption.
      * apply Forall_map. apply Forall_forall. intros b _. apply of_byte_within.
Qed.

Lemma invariant_detectBeat now e a :
  invariant a -> JS.nonneg e -> invariant (snd (detectBeat now e a)).
Proof.
  intros [Hh Hf Hk Hi Hc Hb Hfd Htd Hctx Hsm] He.
  rewrite detectBeat_unfold. cbv zeta. simpl.
  constructor; simpl; auto. now apply push_history_nonneg.
Qed.

Lemma invariant_analyze hw now a : invariant a -> invariant (snd (analyze hw now a)).
Proof.
  intros Ha. pose proof Ha as [Hh Hf Hk Hi Hc Hb Hfd Htd Hctx Hsm].
  unfold analyze.
  destruct (analyser a) as [node|] eqn:Ean; [|assumption].
  destruct (frequencyData a) as [fd0|] eqn:Efd; [|destruct (timeData a); assumption].
  destruct (timeData a) as [td0|] eqn:Etd; [|assumption].
  specialize (Hfd fd0 eq_refl). specialize (Htd td0 eq_refl).
  set (fd := fill_bytes (hw_freq hw) fd0).
  set (td := fill_bytes (hw_time hw) td0).
  set (a1 := set_graph (audioContext a) (Some node) (source a) (Some fd) (Some td) a).
  assert (Ha1 : invariant a1).
  { constructor; simpl; auto.
    - intros ? [= <-]. unfold fd. now rewrite length_fill_bytes.
    - intros ? [= <-]. unfold td. now rewrite length_fill_bytes. }
  assert (Hne : fd <> []).
  { intros E. assert (L : length fd = 1024%nat)
      by (unfold fd; now rewrite length_fill_bytes).
    rewrite E in L. discriminate. }
  pose proof (invariant_detectBeat now (calculateEnergy fd) a1 Ha1
                (calculateEnergy_nonneg fd Hne)) as Ha2.
  destruct (detectBeat now (calculateEnergy fd) a1) as [beat a2]. simpl in Ha2.
  destruct (audioContext a2); [|assumption].
  destruct Ha2. constructor; simpl; auto.
Qed.

Theorem reachable_invariant a : reachable a -> invariant a.
Proof.
  induction 1.
  - apply invariant_new.
  - now apply invariant_initialize.
  - now apply invariant_analyze.
  - now apply invariant_series.
  - now apply invariant_dispose.
Qed.

End AnalyzerInvariant.

Section SilentCycle.

Context {rounding : Rounding}.
Import AudioAnalyzer Lifecycle.

Lemma silence_waveform :
  Forall (eq Byte.x80) (fill_bytes (hw_time Runs.silence) (replicate 1024 Byte.x00)).
Proof.
  unfold Runs.silence. cbn [hw_time hw_freq].
  rewrite fill_bytes_full by (now rewrite !length_replicate).
  apply Forall_replicate. reflexivity.
Qed.

Lemma silence_spectrum :
  Forall (eq Byte.x00) (fill_bytes (hw_freq Runs.silence) (replicate 1024 Byte.x00)).
Proof.
  unfold Runs.silence. cbn [hw_time hw_freq].
  rewrite fill_bytes_full by (now rewrite !length_replicate).
  apply Forall_replicate. reflexivity.
Qed.

Lemma attached_reachable : reachable Runs.attached.
Proof. unfold Runs.attached. apply reach_initialize, reach_new. Qed.

End SilentCycle.

(** C2: in every analysis cycle of a reachable analyzer in which the node
    delivers a waveform of 128s and a spectrum of 0s, [analyze] returns a
    frame, and that frame has volume 0, energy 0 and no beat. *)
Theorem silent_frame {rounding : Rounding} (a : AudioAnalyzer.t) (hw : AudioAnalyzer.HwFrame) (now : Z)
    (fd0 td0 : list Byte.byte) :
  Lifecycle.reachable a ->
  AudioAnalyzer.analyser a <> None ->
  AudioAnalyzer.frequencyData a = Some fd0 ->
  AudioAnalyzer.timeData a = Some td0 ->
  Forall (eq Byte.x80) (AudioAnalyzer.fill_bytes (AudioAnalyzer.hw_time hw) td0) ->
  Forall (eq Byte.x00) (AudioAnalyzer.fill_bytes (AudioAnalyzer.hw_freq hw) fd0) ->
  exists frame,
    fst (AudioAnalyzer.analyze hw now a) = Ok frame
    /\ AudioAnalyzer.volume frame = #0
    /\ AudioAnalyzer.energy frame = #0
    /\ AudioAnalyzer.beat frame = false.
Proof.
  intros Hreach Han Hfd Htd Hwave Hspec.
  pose proof (reachable_invariant a Hreach) as [Hh Hf Hk Hi Hc Hb Hlfd Hltd Hctx Hsm].
  specialize (Hlfd fd0 Hfd). specialize (Hltd td0 Htd). specialize (Hctx Han).
  unfold AudioAnalyzer.analyze.
  destruct (AudioAnalyzer.analyser a) as [node|]; [|congruence].
  rewrite Hfd, Htd.
  set (fd := AudioAnalyzer.fill_bytes (AudioAnalyzer.hw_freq hw) fd0) in *.
  set (td := AudioAnalyzer.fill_bytes (AudioAnalyzer.hw_time hw) td0) in *.
  assert (Hfdne : fd <> []).
  { intros E. assert (L : length fd = 1024%nat)
      by (unfold fd; now rewrite length_fill_bytes).
    rewrite E in L. discriminate. }
  assert (Htdne : td <> []).
  { intros E. assert (L : length td = 1024%nat)
      by (unfold td; now rewrite length_fill_bytes).
    rewrite E in L. discriminate. }
  rewrite detectBeat_unfold. cbv zeta.
  cbn [AudioAnalyzer.audioContext AudioAnalyzer.set_beat AudioAnalyzer.set_graph
       AudioAnalyzer.maxEnergyHistorySize AudioAnalyzer.energyHistory
       AudioAnalyzer.beatThreshold AudioAnalyzer.lastBeatTime
       AudioAnalyzer.beatMinInterval].
  destruct (AudioAnalyzer.audioContext a) as [ctx|]; [|congruence].
  eexists. split; [reflexivity|].
  cbn [AudioAnalyzer.volume AudioAnalyzer.energy AudioAnalyzer.beat].
  rewrite (calculateEnergy_silent fd Hfdne Hspec).
  split; [now apply calculateVolume_silent|]. split; [reflexivity|].
  rewrite Hk.
  rewrite zero_below_threshold; [reflexivity | lra |].
  apply push_history_nonneg; [assumption | simpl; lra].
Qed.

Section SilentFrameWitnessRun.

Local Existing Instance real_arithmetic.

Lemma silent_frame_witness :
  exists frame,
    fst (AudioAnalyzer.analyze Runs.silence 0 Runs.attached) = Ok frame
    /\ AudioAnalyzer.volume frame = #0
    /\ AudioAnalyzer.energy frame = #0
    /\ AudioAnalyzer.beat frame = false.
Proof.
  apply (silent_frame Runs.attached Runs.silence 0
           (replicate 1024 Byte.x00) (replicate 1024 Byte.x00)).
  - exact attached_reachable.
  - discriminate.
  - reflexivity.
  - reflexivity.
  - exact silence_waveform.
  - exact silence_spectrum.
Defined.

End SilentFrameWitnessRun.

(** ** Loops *)

Section Loops.

Context {rounding : Rounding}.

Lemma for_loop_app {B : Type} (f : Z -> B) (from : Z) (count : nat) (acc : list B) :
  for_loop from count (fun processed i => processed ++ [f i]) acc
  = acc ++ map f (seqZ from (Z.of_nat count)).
Proof.
  revert from acc. induction count as [|k IH]; intros from acc.
  - simpl. now rewrite app_nil_r.
  - cbn [for_loop]. rewrite IH.
    rewrite Nat2Z.inj_succ, (seqZ_cons from) by lia.
    rewrite <- app_assoc. simpl. do 4 f_equal. lia.
Qed.

(** Summing [arr[from..from+count)] in a loop is the sum of that slice. *)
Lemma for_loop_sum_map {A : Type} (to_num : A -> JS.num) (arr : list A)
    (from count : nat) (acc : JS.num) :
  (from + count <= length arr)%nat ->
  for_loop (Z.of_nat from) count
    (fun sum j => sum + index_num to_num arr j) acc
  = acc + Spec.sum (map to_num (take count (drop from arr))).
Proof.
  revert from acc. induction count as [|k IH]; intros from acc Hlen.
  - simpl. now rewrite add_0_r.
  - cbn [for_loop].
    replace (Z.of_nat from + 1)%Z with (Z.of_nat (S from)) by lia.
    rewrite IH by lia.
    destruct (lookup_lt_is_Some_2 arr from ltac:(lia)) as [x Hx].
    unfold index_num at 1.
    destruct (Z.ltb_spec (Z.of_nat from) 0); [lia|].
    rewrite Nat2Z.id, Hx.
    rewrite (drop_S arr x from Hx). simpl.
    now rewrite add_assoc.
Qed.

Lemma for_loop_sum (arr : list JS.num) (from count : nat) (acc : JS.num) :
  (from + count <= length arr)%nat ->
  for_loop (Z.of_nat from) count
    (fun sum j => sum + index_num (fun x => x) arr j) acc
  = acc + Spec.sum (take count (drop from arr)).
Proof.
  intros H. rewrite for_loop_sum_map by assumption. now rewrite map_id.
Qed.

End Loops.

(** ** The visualization series *)

Section Series.

Context {rounding : Rounding}.
Import AudioAnalyzer Lifecycle.
Local Open Scope R_scope.

(** [Math.floor(a / b)] on non-negative integers is integer division. *)
Lemma Zfloor_div (a b : Z) :
  (0 <= a)%Z -> (0 < b)%Z -> Zfloor (IZR a / IZR b) = (a / b)%Z.
Proof.
  intros Ha Hb. apply Zfloor_eq.
  pose proof (Z.div_mod a b ltac:(lia)) as Hdm.
  pose proof (Z.mod_pos_bound a b Hb) as Hr.
  assert (HB : 0 < IZR b) by (now apply IZR_lt).
  assert (HA : IZR a = IZR b * IZR (a / b) + IZR (a mod b))
    by (rewrite <- mult_IZR, <- plus_IZR; now f_equal).
  assert (Hr0 : 0 <= IZR (a mod b)) by (apply IZR_le; lia).
  assert (Hr1 : IZR (a mod b) < IZR b) by (apply IZR_lt; lia).
  assert (Hx : IZR a / IZR b = IZR (a / b) + IZR (a mod b) / IZR b)
    by (rewrite HA; field; lra).
  rewrite Hx.
  assert (0 <= IZR (a mod b) / IZR b < 1).
  { split.
    - apply Rmult_le_pos; [assumption|]. left. now apply Rinv_0_lt_compat.
    - apply (Rmult_lt_reg_r (IZR b)); [assumption|].
      unfold Rdiv. rewrite Rmult_assoc, Rinv_l by lra. lra. }
  lra.
Qed.

Lemma binSize_of_div (len n : nat) :
  (0 < n)%nat -> binSize_of len n = Z.of_nat (len / n).
Proof.
  intros Hn. unfold binSize_of. rewrite Zfloor_div by lia.
  now rewrite Nat2Z.inj_div.
Qed.

(** The power curve keeps the unit interval. *)
Lemma Math_pow_unit (v : R) :
  0 <= v <= 1 -> JS.within 0 1 (JS.Math_pow (JS.Fin v) 0.7).
Proof.
  intros [H0 H1]. unfold JS.Math_pow.
  assert (E : JS.Reqb 0.7 0 = false) by (apply Reqb_false; lra). rewrite E.
  destruct (JS.Rltb 0 v) eqn:Hpos.
  - apply Rltb_true in Hpos. simpl. unfold Rpower. split.
    + left. apply exp_pos.
    + rewrite <- exp_0. 
      assert (Hln : ln v <= 0).
      { rewrite <- ln_1. destruct (Req_dec v 1) as [->|Hne]; [lra|].
        left. apply ln_increasing; lra. }
      destruct (Req_dec (0.7 * ln v) 0) as [->|Hne]; [lra|].
      left. apply exp_increasing. lra.
  - apply Rltb_false in Hpos.
    assert (Ez : JS.Reqb v 0 = true) by (apply Reqb_true; lra). rewrite Ez.
    assert (E7 : JS.Rltb 0 0.7 = true) by (apply Rltb_true; lra). rewrite E7.
    simpl. lra.
Qed.

Lemma sum_within (l : list JS.num) :
  Forall (JS.within 0 255) l ->
  exists s, Spec.sum l = JS.Fin s /\ 0 <= s <= 255 * INR (length l).
Proof.
  induction 1 as [|x l Hx _ (s & Hs & Hb)].
  - exists 0. simpl. split; [reflexivity | lra].
  - destruct x as [a| | |]; try contradiction. simpl in Hx.
    exists (a + s). cbn [Spec.sum foldr]. fold (Spec.sum l). rewrite Hs.
    split; [reflexivity|]. rewrite length_cons, S_INR. lra.
Qed.

(** A non-empty group of bins in [0,255] compresses into [0,1]. *)
Lemma compress_within (bins : list JS.num) :
  bins <> [] -> Forall (JS.within 0 255) bins -> JS.within 0 1 (Spec.compress bins).
Proof.
  intros Hne Hall. unfold Spec.compress, Spec.mean.
  destruct (sum_within bins Hall) as (s & -> & Hs).
  assert (Hn : 0 < INR (length bins)).
  { apply lt_0_INR. destruct bins; [congruence | simpl; lia]. }
  unfold JS.of_nat, JS.of_Z. rewrite <- INR_IZR_INZ.
  js_unfold. real_cases.
  all: apply Math_pow_unit; split.
  all: try (apply Rmult_le_pos; [apply Rmult_le_pos; [lra | left; now apply Rinv_0_lt_compat] | lra]).
  all: apply (Rmult_le_reg_r 255); [lra|];
       apply (Rmult_le_reg_r (INR (length bins))); [assumption|];
       unfold Rdiv; field_simplify; lra.
Qed.

(** The bars of [process], one per group. *)
Lemma bar_value_group (sm : list JS.num) (b i : nat) :
  ((i + 1) * b <= length sm)%nat ->
  bar_value sm (Z.of_nat b) (Z.of_nat i) = Spec.compress (Spec.group b i sm).
Proof.
  intros Hlen. unfold bar_value, for_range. cbv zeta.
  replace (Z.of_nat i * Z.of_nat b)%Z with (Z.of_nat (i * b)) by lia.
  replace (Z.to_nat (Z.of_nat (i * b) + Z.of_nat b - Z.of_nat (i * b))) with b by lia.
  rewrite for_loop_sum by lia. rewrite add_0_l.
  unfold Spec.compress, Spec.mean, Spec.group.
  rewrite length_take, length_drop.
  replace (b `min` (length sm - i * b))%nat with b by lia.
  reflexivity.
Qed.

Lemma process_spec (sm : list JS.num) (n : nat) :
  (0 < n <= length sm)%nat ->
  let b := (length sm / n)%nat in
  process sm n = map (fun i => Spec.compress (Spec.group b i sm)) (seq 0 n).
Proof.
  intros Hn b. unfold process, for_range. cbv zeta.
  rewrite binSize_of_div by lia. fold b.
  rewrite Z.sub_0_r, Nat2Z.id, for_loop_app. simpl.
  assert (Hb : (n * b <= length sm)%nat) by (unfold b; apply Nat.Div0.mul_div_le).
  assert (Hseq : seqZ 0 (Z.of_nat n) = map Z.of_nat (seq 0 n)).
  { unfold seqZ. rewrite Nat2Z.id.
    apply map_ext. intros x. lia. }
  rewrite Hseq, map_map.
  apply map_ext_in. intros i Hi. apply in_seq in Hi.
  apply bar_value_group. nia.
Qed.

End Series.

Section SeriesBlend.

Context {rounding : Rounding}.
Import AudioAnalyzer Lifecycle.
Local Open Scope R_scope.

(** The smoothing loop blends every retained bin 70% towards the raw one. *)
Lemma smooth_blend (last : list JS.num) (fd : list Byte.byte) :
  length last = length fd -> Forall JS.finite last ->
  smooth #0.7 last fd = zip_with Spec.blend last fd.
Proof.
  intros Hlen Hfin. unfold smooth.
  rewrite drop_ge by lia. rewrite app_nil_r.
  apply list_eq. intros i.
  rewrite list_lookup_imap, lookup_zip_with.
  destruct (fd !! i) as [b|] eqn:Hb; simpl.
  - assert (Hi : (i < length last)%nat) by (rewrite Hlen; eapply lookup_lt_Some; eauto).
    destruct (lookup_lt_is_Some_2 last i Hi) as [y Hy]. rewrite Hy. simpl.
    unfold index_num. destruct (Z.ltb_spec (Z.of_nat i) 0); [lia|].
    rewrite Nat2Z.id, Hy. f_equal.
    pose proof (proj1 (Forall_lookup _ _) Hfin i y Hy) as Hy'.
    destruct y as [r| | |]; try contradiction.
    destruct (of_byte_nonneg b) as (rb & Erb & _).
    unfold Spec.blend, MathUtils.lerp. rewrite Erb. js_unfold. f_equal. lra.
  - destruct (last !! i); reflexivity.
Qed.

Lemma within_finite (lo hi : R) (l : list JS.num) :
  Forall (JS.within lo hi) l -> Forall JS.finite l.
Proof.
  intros H. eapply Forall_impl; [exact H|]. intros [a| | |]; simpl; auto.
Qed.

Lemma group_within (b i : nat) (sm : list JS.num) :
  Forall (JS.within 0 255) sm -> Forall (JS.within 0 255) (Spec.group b i sm).
Proof.
  intros H. unfold Spec.group. apply Forall_take, Forall_drop, H.
Qed.

Lemma group_nonempty (b i : nat) (sm : list JS.num) :
  (0 < b)%nat -> ((i + 1) * b <= length sm)%nat -> Spec.group b i sm <> [].
Proof.
  intros Hb Hlen E. apply (f_equal length) in E.
  unfold Spec.group in E. rewrite length_take, length_drop in E. simpl in E. lia.
Qed.

End SeriesBlend.

(** C3, as the program has it: for a requested length [n] between 1 and
    the number of spectrum bins, [getVisualizationData] replaces every
    retained smoothed bin by its 70% blend towards the raw value (the raw
    value itself when nothing is retained yet), and returns the [n] values
    obtained by averaging the smoothed bins over the first [n] contiguous
    groups of [floor(bins / n)], dividing by 255 and raising to the power
    0.7; each of the [n] values lies in [0,1]. *)
Theorem series_spec {rounding : Rounding} (a : AudioAnalyzer.t) (n : nat) (fd : list Byte.byte) :
  Lifecycle.reachable a ->
  AudioAnalyzer.frequencyData a = Some fd ->
  (1 <= n <= length fd)%nat ->
  let sm :=
    match AudioAnalyzer.lastFrequencyData a with
    | Some retained => zip_with Spec.blend retained fd
    | None => map JS.of_byte fd
    end in
  let series :=
    map (fun i => Spec.compress (Spec.group (length fd / n) i sm)) (seq 0 n) in
  AudioAnalyzer.getVisualizationData n a
  = (Ok series, AudioAnalyzer.set_lastFrequencyData (Some sm) a)
  /\ length series = n
  /\ Forall (JS.within 0 1) series.
Proof.
  intros Hreach Hfd Hn sm series.
  pose proof (reachable_invariant a Hreach) as [_ _ _ _ _ _ Hlfd _ _ Hsm].
  specialize (Hlfd fd Hfd).
  assert (Hsm' : length sm = length fd /\ Forall (JS.within 0 255) sm
                 /\ AudioAnalyzer.getSmoothedFrequencyData #0.7 a
                    = (Ok sm, AudioAnalyzer.set_lastFrequencyData (Some sm) a)).
  { unfold AudioAnalyzer.getSmoothedFrequencyData, sm. rewrite Hfd.
    destruct (AudioAnalyzer.lastFrequencyData a) as [retained|].
    - destruct (Hsm retained eq_refl) as [Hlen Hw].
      destruct (smooth_within retained fd ltac:(lia) Hw) as [Hlen' Hw'].
      rewrite smooth_blend in * by (try lia; eapply within_finite; eauto).
      auto.
    - rewrite length_map. repeat split.
      apply Forall_map, Forall_forall. intros b _. apply of_byte_within. }
  destruct Hsm' as (Hlen & Hw & Hsmooth).
  unfold AudioAnalyzer.getVisualizationData. rewrite Hsmooth.
  rewrite process_spec by lia. cbv zeta. rewrite Hlen. fold series.
  split; [reflexivity|]. split.
  - unfold series. now rewrite length_map, length_seq.
  - unfold series. apply Forall_map, Forall_forall. intros i Hi.
    apply list_elem_of_In, in_seq in Hi.
    assert (Hb : (0 < length fd / n)%nat) by (apply Nat.div_str_pos; lia).
    assert (Hnb : (n * (length fd / n) <= length fd)%nat) by apply Nat.Div0.mul_div_le.
    apply compress_within.
    + apply group_nonempty; [assumption | nia].
    + now apply group_within.
Qed.

Section SeriesSpecWitnessRun.

Local Existing Instance real_arithmetic.

Lemma series_spec_witness :
  let a := Runs.attached in
  let fd := replicate 1024 Byte.x00 in
  let sm := map JS.of_byte fd in
  let series :=
    map (fun i => Spec.compress (Spec.group (length fd / 64) i sm)) (seq 0 64) in
  AudioAnalyzer.getVisualizationData 64 a
  = (Ok series, AudioAnalyzer.set_lastFrequencyData (Some sm) a)
  /\ length series = 64%nat
  /\ Forall (JS.within 0 1) series.
Proof.
  apply (series_spec Runs.attached 64 (replicate 1024 Byte.x00)).
  - exact attached_reachable.
  - reflexivity.
  - rewrite length_replicate. lia.
Defined.

End SeriesSpecWitnessRun.

(** C3 as stated fails for a requested length above the number of bins:
    with 1024 bins and [n = 1025] the groups are empty and the entries are
    [NaN], not values of [0,1]. *)
Lemma series_longer_than_spectrum :
  exists series,
    fst (AudioAnalyzer.getVisualizationData 1025 Runs.attached) = Ok series
    /\ series !! 0%nat = Some JS.NaN
    /\ ~ Forall (JS.within 0 1) series.
Proof.
  exists (AudioAnalyzer.process (map JS.of_byte (replicate 1024 Byte.x00)) 1025).
  split; [reflexivity|].
  assert (Hhead : forall sm,
             length sm = 1024%nat ->
             exists rest, AudioAnalyzer.process sm 1025 = JS.NaN :: rest).
  { intros sm Hlen. unfold AudioAnalyzer.process, for_range. cbv zeta.
    rewrite Hlen, binSize_of_div by lia.
    change (1024 / 1025)%nat with 0%nat.
    rewrite Z.sub_0_r, Nat2Z.id, for_loop_app, app_nil_l, (seqZ_cons 0) by lia.
    cbn [map]. eexists. f_equal.
    unfold AudioAnalyzer.bar_value, for_range. cbv zeta.
    change (Z.to_nat (0 * Z.of_nat 0 + Z.of_nat 0 - 0 * Z.of_nat 0)) with 0%nat.
    cbn [for_loop]. change (JS.of_Z (Z.of_nat 0)) with (JS.Fin 0).
    unfold JS.Math_pow. js_unfold. real_cases. reflexivity. }
  destruct (Hhead (map JS.of_byte (replicate 1024 Byte.x00))) as [rest Hrest].
  { now rewrite length_map, length_replicate. }
  rewrite Hrest. split; [reflexivity|].
  intros Hall. inversion Hall as [|? ? Hnan _]. exact Hnan.
Qed.

(** ** Frequency bands *)

Section Bands.

Context {rounding : Rounding}.
Import AudioAnalyzer.
Local Open Scope R_scope.

Lemma floor_scaled_bounds (c : R) (n : nat) :
  0 <= c <= 1 -> (0 <= Zfloor (c * IZR (Z.of_nat n)) <= Z.of_nat n)%Z.
Proof.
  intros [H0 H1].
  assert (Hn : 0 <= IZR (Z.of_nat n)) by (apply IZR_le; lia).
  split.
  - apply Zfloor_lub. simpl. nra.
  - rewrite <- (ZfloorZ (Z.of_nat n)) at 2. apply Zfloor_le. nra.
Qed.

Lemma floor_scaled_mono (c d : R) (n : nat) :
  0 <= c <= d -> (Zfloor (c * IZR (Z.of_nat n)) <= Zfloor (d * IZR (Z.of_nat n)))%Z.
Proof.
  intros H. assert (Hn : 0 <= IZR (Z.of_nat n)) by (apply IZR_le; lia).
  apply Zfloor_le. nra.
Qed.

Lemma floor_scaled_0 (n : nat) : Zfloor (0 * IZR (Z.of_nat n)) = 0%Z.
Proof. rewrite Rmult_0_l. apply (ZfloorZ 0). Qed.

Lemma floor_scaled_1 (n : nat) : Zfloor (1.0 * IZR (Z.of_nat n)) = Z.of_nat n.
Proof.
  replace (1.0 * IZR (Z.of_nat n)) with (IZR (Z.of_nat n)) by lra.
  apply ZfloorZ.
Qed.

(** The loop of a band sums exactly the bins of its interval. *)
Lemma band_value_mean (fd : list Byte.byte) (band : Band) :
  0 <= band_start band <= band_end band -> band_end band <= 1 ->
  band_value fd band
  = Spec.band_mean fd (startBin (length fd) band) (endBin (length fd) band).
Proof.
  intros Hse He1. unfold band_value, Spec.band_mean, for_range. cbv zeta.
  pose proof (floor_scaled_bounds (band_start band) (length fd) ltac:(lra)) as Hs.
  pose proof (floor_scaled_bounds (band_end band) (length fd) ltac:(lra)) as He.
  pose proof (floor_scaled_mono (band_start band) (band_end band) (length fd) Hse) as Hm.
  fold (startBin (length fd) band) in *. fold (endBin (length fd) band) in *.
  set (sb := startBin (length fd) band) in *.
  set (eb := endBin (length fd) band) in *.
  rewrite <- (Z2Nat.id sb) at 1 by lia.
  rewrite for_loop_sum_map by lia. rewrite add_0_l.
  unfold Spec.mean. rewrite length_map, length_take, length_drop.
  replace (Z.to_nat (eb - sb) `min` (length fd - Z.to_nat sb))%nat
    with (Z.to_nat (eb - sb)) by lia.
  unfold JS.of_nat. rewrite Z2Nat.id by lia. reflexivity.
Qed.

End Bands.

(** C4: for a spectrum of any length, the five band intervals start at bin
    0, each begins where the previous one ends, the last one ends at the bin
    count; listed one after the other, their bins are exactly the bins
    0, 1, ..., n-1, each once; and every band value is the mean magnitude of
    the bins of its interval divided by 255. *)
Theorem band_partition (fd : list Byte.byte) :
  let n := length fd in
  let ranges :=
    map (fun entry => (AudioAnalyzer.startBin n (snd entry),
                       AudioAnalyzer.endBin n (snd entry)))
        AudioAnalyzer.defaultBands in
  (exists b1 b2 b3 b4 : Z,
     ranges = [(0, b1); (b1, b2); (b2, b3); (b3, b4); (b4, Z.of_nat n)]%Z
     /\ (0 <= b1 <= b2)%Z /\ (b2 <= b3 <= b4)%Z /\ (b4 <= Z.of_nat n)%Z)
  /\ concat (map (fun r => seqZ (fst r) (snd r - fst r)) ranges) = seqZ 0 (Z.of_nat n)
  /\ AudioAnalyzer.analyzeFrequencyBands AudioAnalyzer.defaultBands fd
     = map (fun entry =>
              (fst entry,
               Spec.band_mean fd (AudioAnalyzer.startBin n (snd entry))
                                 (AudioAnalyzer.endBin n (snd entry))))
           AudioAnalyzer.defaultBands.
Proof.
  intros n ranges.
  set (b1 := Zfloor (0.1 * IZR (Z.of_nat n))).
  set (b2 := Zfloor (0.25 * IZR (Z.of_nat n))).
  set (b3 := Zfloor (0.5 * IZR (Z.of_nat n))).
  set (b4 := Zfloor (0.75 * IZR (Z.of_nat n))).
  assert (H01 : (0 <= b1)%Z) by (apply (floor_scaled_bounds 0.1 n); lra).
  assert (H12 : (b1 <= b2)%Z) by (apply floor_scaled_mono; lra).
  assert (H23 : (b2 <= b3)%Z) by (apply floor_scaled_mono; lra).
  assert (H34 : (b3 <= b4)%Z) by (apply floor_scaled_mono; lra).
  assert (H4n : (b4 <= Z.of_nat n)%Z) by (apply (floor_scaled_bounds 0.75 n); lra).
  assert (Hranges :
            ranges = [(0, b1); (b1, b2); (b2, b3); (b3, b4); (b4, Z.of_nat n)]%Z).
  { unfold ranges, AudioAnalyzer.defaultBands, AudioAnalyzer.startBin,
      AudioAnalyzer.endBin. cbn [map snd AudioAnalyzer.band_start AudioAnalyzer.band_end].
    rewrite floor_scaled_0, floor_scaled_1. reflexivity. }
  split; [|split].
  - exists b1, b2, b3, b4. repeat split; assumption.
  - rewrite Hranges. cbn [map concat fst snd]. rewrite app_nil_r.
    rewrite Z.sub_0_r.
    replace (Z.of_nat n)
      with (b1 + ((b2 - b1) + ((b3 - b2) + ((b4 - b3) + (Z.of_nat n - b4)))))%Z
      at 2 by lia.
    rewrite !seqZ_app by lia. rewrite Z.add_0_l.
    repeat f_equal; lia.
  - unfold AudioAnalyzer.analyzeFrequencyBands, AudioAnalyzer.defaultBands.
    cbn [map fst snd].
    rewrite !band_value_mean by (simpl; lra). reflexivity.
Qed.

(** ** The beat envelope *)

Section BeatEnvelope.

Context {rounding : Rounding}.

Lemma updateVisualState_beat (analysis : AudioAnalyzer.AnalysisFrame)
    (v : Visualizer2D.t) (g : Rng) :
  Visualizer2D.beatIntensity (fst (Visualizer2D.updateVisualState analysis v g))
  = (if AudioAnalyzer.beat analysis then #1 else Visualizer2D.beatIntensity v)
    * Visualizer2D.beatDecay v
  /\ Visualizer2D.beatDecay (fst (Visualizer2D.updateVisualState analysis v g))
     = Visualizer2D.beatDecay v.
Proof.
  unfold Visualizer2D.updateVisualState.
  destruct (AudioAnalyzer.beat analysis).
  - destruct (Math_random g) as [r g'].
    destruct (r <? #0.1); destruct (_ >=? #1); split; reflexivity.
  - destruct (_ >=? #1); split; reflexivity.
Qed.

End BeatEnvelope.

(** ** The scene graph *)

Section SceneGraph.

Context {rounding : Rounding}.
Import Visualizer3D Scene.

Lemma for_loop_invariant {A : Type} (P : A -> Prop) (body : A -> Z -> A)
    (from : Z) (count : nat) (acc : A) :
  P acc -> (forall a i, P a -> P (body a i)) -> P (for_loop from count body acc).
Proof.
  intros Hacc Hbody. revert from acc Hacc.
  induction count as [|k IH]; intros from acc Hacc; simpl; auto.
Qed.

Lemma for_loop_measure {A : Type} (size : A -> nat) (k : nat) (body : A -> Z -> A)
    (from : Z) (count : nat) (acc : A) :
  (forall a i, size (body a i) = (size a + k)%nat) ->
  size (for_loop from count body acc) = (size acc + count * k)%nat.
Proof.
  intros Hbody. revert from acc.
  induction count as [|c IH]; intros from acc; simpl; [lia|].
  rewrite IH, Hbody. lia.
Qed.

Lemma scene_remove_subset (obj : nat) (children : list nat) (id : nat) :
  id ∈ scene_remove obj children -> id ∈ children.
Proof.
  induction children as [|c rest IH]; simpl; [auto|].
  destruct (decide (c = obj)); intros H.
  - apply elem_of_cons. now right.
  - apply elem_of_cons in H as [->|H]; apply elem_of_cons; [now left|].
    right. auto.
Qed.

Lemma scene_remove_nodup (obj : nat) (children : list nat) :
  NoDup children -> NoDup (scene_remove obj children).
Proof.
  induction 1 as [|c rest Hc Hnd IH]; simpl; [constructor|].
  destruct (decide (c = obj)); [assumption|].
  constructor; [|assumption]. intros H. apply Hc. eapply scene_remove_subset; eauto.
Qed.

Lemma scene_remove_gone (obj : nat) (children : list nat) :
  NoDup children -> obj ∉ scene_remove obj children.
Proof.
  induction 1 as [|c rest Hc Hnd IH]; simpl; [apply not_elem_of_nil|].
  destruct (decide (c = obj)) as [->|Hne]; [assumption|].
  intros H. apply elem_of_cons in H as [->|H]; [congruence | auto].
Qed.

(** What the loop of [clearScene] leaves: no cleared mesh is a child any
    more, every cleared mesh is released, nothing else is touched. *)
Lemma clear_each_spec (objs : list Mesh) (children : list nat) (rel : gset nat) :
  NoDup children ->
  let '(children', rel') := clear_each objs children rel in
  NoDup children'
  /\ (forall id, id ∈ children' -> id ∈ children)
  /\ (forall m, m ∈ objs -> mesh_id m ∉ children')
  /\ (forall m, m ∈ objs -> mesh_id m ∈ rel')
  /\ rel ⊆ rel'.
Proof.
  revert children rel. induction objs as [|obj rest IH]; intros children rel Hnd; simpl.
  - repeat split; auto; try (intros m Hm; now apply elem_of_nil in Hm).
  - specialize (IH (scene_remove (mesh_id obj) children) ({[mesh_id obj]} ∪ rel)
                  (scene_remove_nodup _ _ Hnd)).
    destruct (clear_each rest _ _) as [children' rel'].
    destruct IH as (Hnd' & Hsub & Hgone & Hrel & Hmono).
    repeat split; auto.
    + intros id Hid. eapply scene_remove_subset; eauto.
    + intros m Hm. apply elem_of_cons in Hm as [->|Hm]; [|auto].
      intros Hin. apply Hsub in Hin. revert Hin. now apply scene_remove_gone.
    + intros m Hm. apply elem_of_cons in Hm as [->|Hm]; [|auto].
      apply Hmono. set_solver.
    + set_solver.
Qed.

Lemma grown_refl (v : Visualizer3D.t) : NoDup (scene v) -> grown v v.
Proof.
  intros Hnd. constructor; auto; try lia. repeat split; reflexivity.
Qed.

Lemma grown_push (v0 u : Visualizer3D.t) (sh : Shape) (data : UserData) :
  (forall id, id ∈ scene v0 -> (id < nextId v0)%nat) ->
  grown v0 u -> grown v0 (push_mesh sh data u).
Proof.
  intros Halloc [Hnext Hnd Hscene Hobjs Hkept].
  assert (Hfresh : nextId u ∉ scene u).
  { intros Hin. destruct (Hscene _ Hin) as [H|H]; [apply Halloc in H|]; lia. }
  unfold push_mesh, scene_add.
  destruct (decide (nextId u ∈ scene u)); [contradiction|].
  constructor; simpl.
  - lia.
  - apply NoDup_app. repeat split; auto.
    + intros x Hx Hx'. apply list_elem_of_singleton in Hx'. subst. contradiction.
    + apply NoDup_singleton.
  - intros id Hid. apply elem_of_app in Hid as [Hid|Hid].
    + destruct (Hscene _ Hid); [auto | right; lia].
    + apply list_elem_of_singleton in Hid. subst. right. lia.
  - intros m Hm. apply elem_of_app in Hm as [Hm|Hm].
    + destruct (Hobjs _ Hm) as [|[Hr Hin]]; [auto|].
      right. split; [lia|]. apply elem_of_app. auto.
    + apply list_elem_of_singleton in Hm. subst. simpl. right.
      split; [lia|]. apply elem_of_app. right. apply list_elem_of_singleton. reflexivity.
  - exact Hkept.
Qed.

Lemma push_mesh_count (sh : Shape) (data : UserData) (u : Visualizer3D.t) :
  length (visualObjects (push_mesh sh data u)) = (length (visualObjects u) + 1)%nat.
Proof. unfold push_mesh. simpl. rewrite length_app. reflexivity. Qed.

(** The four layouts: how many meshes they push, all of them fresh. *)
Definition layout_adds (layout : Visualizer3D.t -> Visualizer3D.t) (count : nat) : Prop :=
  forall v0,
    NoDup (scene v0) ->
    (forall id, id ∈ scene v0 -> (id < nextId v0)%nat) ->
    grown v0 (layout v0)
    /\ length (visualObjects (layout v0)) = (length (visualObjects v0) + count)%nat.

Lemma bars_layout_adds : layout_adds bars_layout 64.
Proof.
  intros v0 Hnd Halloc. unfold bars_layout, for_range. cbv zeta. split.
  - apply for_loop_invariant; [now apply grown_refl|].
    intros a i Ha. now apply grown_push.
  - rewrite (for_loop_measure (fun v => length (visualObjects v)) 1).
    + reflexivity.
    + intros a i. apply push_mesh_count.
Qed.

Lemma sphere_layout_adds : layout_adds sphere_layout 100.
Proof.
  intros v0 Hnd Halloc. unfold sphere_layout, for_range. cbv zeta. split.
  - apply for_loop_invariant; [now apply grown_refl|].
    intros a i Ha. now apply grown_push.
  - rewrite (for_loop_measure (fun v => length (visualObjects v)) 1).
    + reflexivity.
    + intros a i. apply push_mesh_count.
Qed.

Lemma tunnel_layout_adds : layout_adds tunnel_layout 640.
Proof.
  intros v0 Hnd Halloc. unfold tunnel_layout, for_range. cbv zeta. split.
  - apply for_loop_invariant; [now apply grown_refl|].
    intros a ring Ha.
    apply for_loop_invariant; [assumption|].
    intros b point Hb. now apply grown_push.
  - rewrite (for_loop_measure (fun v => length (visualObjects v)) 32).
    + reflexivity.
    + intros a ring.
      rewrite (for_loop_measure (fun v => length (visualObjects v)) 1).
      * reflexivity.
      * intros b point. apply push_mesh_count.
Qed.

Lemma wave_layout_adds : layout_adds wave_layout 1024.
Proof.
  intros v0 Hnd Halloc. unfold wave_layout, for_range. cbv zeta. split.
  - apply for_loop_invariant; [now apply grown_refl|].
    intros a x Ha.
    apply for_loop_invariant; [assumption|].
    intros b z Hb. now apply grown_push.
  - rewrite (for_loop_measure (fun v => length (visualObjects v)) 32).
    + reflexivity.
    + intros a x.
      rewrite (for_loop_measure (fun v => length (visualObjects v)) 1).
      * reflexivity.
      * intros b z. apply push_mesh_count.
Qed.

End SceneGraph.

Section VariantConstruction.

Context {rounding : Rounding}.
Import Visualizer3D Scene.

Lemma neutralPalette_length : length ColorUtils.neutralPalette = 4%nat.
Proof. reflexivity. Qed.

Lemma build_spec (variant : string) (layout : Visualizer3D.t -> Visualizer3D.t)
    (count : nat) (v : Visualizer3D.t) :
  layout_adds layout count -> well_formed v ->
  fst (build variant layout v) = Ok ()
  /\ replaced v (snd (build variant layout v)) count variant
  /\ well_formed (snd (build variant layout v))
  /\ beatIntensity (snd (build variant layout v)) = beatIntensity v
  /\ beatDecay (snd (build variant layout v)) = beatDecay v
  /\ isRunning (snd (build variant layout v)) = isRunning v
  /\ animationId (snd (build variant layout v)) = animationId v
  /\ colorPalette (snd (build variant layout v)) = colorPalette v
  /\ audioAnalyzer (snd (build variant layout v)) = audioAnalyzer v.
Proof.
  intros Hlayout [Hnd Halloc Hobj Hpal].
  unfold build, clearScene.
  pose proof (clear_each_spec (visualObjects v) (scene v) (released v) Hnd) as Hclear.
  destruct (clear_each (visualObjects v) (scene v) (released v)) as [children rel].
  destruct Hclear as (Hnd' & Hsub & Hgone & Hrel & Hmono).
  cbn [colorPalette set_objects].
  destruct (colorPalette v) as [|c palette] eqn:Epal; [congruence|].
  set (v0 := set_objects children [] (geometryType v) (nextId v) rel v).
  destruct (Hlayout v0) as [Hg Hlen].
  { exact Hnd'. }
  { intros id Hid. simpl in Hid. simpl. auto. }
  destruct Hg as [Hnext Hndu Hscene Hobjs
                    (Ka & Kid & Krun & Ktime & Kpal & Kint & Kdec & Kl & Krel & Kty)].
  simpl in *.
  split; [reflexivity|]. split; [|split].
  - repeat split.
    + simpl. lia.
    + intros Hin. simpl in Hin.
      destruct (Hscene _ Hin) as [Hold|Hnew].
      * revert Hold. now apply Hgone.
      * apply Hobj in H. lia.
    + simpl. rewrite Krel. auto.
    + intros m' Hm'. simpl in Hm'.
      destruct (Hobjs _ Hm') as [Hold|[Hnew _]].
      * now apply elem_of_nil in Hold.
      * apply Hobj in H. lia.
    + intros m' Hm'. simpl in Hm'.
      destruct (Hobjs _ Hm') as [Hold|[_ Hin]]; [now apply elem_of_nil in Hold | exact Hin].
  - constructor; simpl.
    + exact Hndu.
    + intros id Hid. destruct (Hscene _ Hid) as [Hold|Hnew]; [|lia].
      apply Hsub, Halloc in Hold. lia.
    + intros m Hm. destruct (Hobjs _ Hm) as [Hold|[Hnew _]]; [|lia].
      now apply elem_of_nil in Hold.
    + rewrite Kpal, Epal. discriminate.
  - simpl. rewrite Kint, Kdec, Krun, Kid, Kpal, Ka, Epal. repeat split; reflexivity.
Qed.

Lemma setupLights_well_formed (g : Rng) :
  let v :=
    {| scene := []; audioAnalyzer := false; visualObjects := [];
       geometryType := "bars"; animationId := None; isRunning := false;
       time := #0; colorPalette := ColorUtils.neutralPalette;
       beatIntensity := #0; beatDecay := #0.95;
       pointLights := []; nextId := 0; released := ∅ |} in
  well_formed (fst (setupLights v g)).
Proof.
  cbv zeta. constructor; simpl.
  - apply (bool_decide_unpack _). vm_compute. exact I.
  - intros id Hid. repeat (apply elem_of_cons in Hid as [->|Hid]; [lia|]).
    now apply elem_of_nil in Hid.
  - intros m Hm. now apply elem_of_nil in Hm.
  - intros E. pose proof neutralPalette_length as L. rewrite E in L. discriminate.
Qed.

Lemma constructor_well_formed (g : Rng) : well_formed (fst (constructor g)).
Proof.
  unfold constructor.
  pose proof (setupLights_well_formed g) as Hwf. cbv zeta in Hwf.
  destruct (setupLights _ g) as [v1 g1]. simpl in *.
  apply (build_spec "bars" bars_layout 64 v1 bars_layout_adds Hwf).
Qed.

End VariantConstruction.

Section SceneFrames.

Context {rounding : Rounding}.
Import Visualizer3D Scene.

Lemma well_formed_same (v u : Visualizer3D.t) :
  scene u = scene v -> visualObjects u = visualObjects v ->
  nextId u = nextId v -> colorPalette u = colorPalette v ->
  well_formed v -> well_formed u.
Proof.
  intros Es Eo En Ep [H1 H2 H3 H4].
  constructor; rewrite ?Es, ?Eo, ?En, ?Ep; assumption.
Qed.

(** A switch of variant is one of the four constructions. *)
Lemma switchGeometry_is_build (v : Visualizer3D.t) :
  exists variant layout count,
    layout_adds layout count
    /\ switchGeometry v = build variant layout v.
Proof.
  unfold switchGeometry.
  set (idx := indexOf (geometryType v) geometries 0).
  assert (Hidx : (idx = -1 \/ idx = 0 \/ idx = 1 \/ idx = 2 \/ idx = 3)%Z).
  { unfold idx, geometries. cbn [indexOf].
    repeat (destruct (String.eqb _ _); [lia|]). lia. }
  destruct Hidx as [-> | [-> | [-> | [-> | ->]]]]; simpl.
  - exists "bars"%string, bars_layout, 64%nat. split; [apply bars_layout_adds | reflexivity].
  - exists "sphere"%string, sphere_layout, 100%nat.
    split; [apply sphere_layout_adds | reflexivity].
  - exists "tunnel"%string, tunnel_layout, 640%nat.
    split; [apply tunnel_layout_adds | reflexivity].
  - exists "wave"%string, wave_layout, 1024%nat.
    split; [apply wave_layout_adds | reflexivity].
  - exists "bars"%string, bars_layout, 64%nat. split; [apply bars_layout_adds | reflexivity].
Qed.

Lemma switchGeometry_kept (v : Visualizer3D.t) :
  well_formed v ->
  fst (switchGeometry v) = Ok ()
  /\ well_formed (snd (switchGeometry v))
  /\ beatIntensity (snd (switchGeometry v)) = beatIntensity v
  /\ beatDecay (snd (switchGeometry v)) = beatDecay v
  /\ isRunning (snd (switchGeometry v)) = isRunning v
  /\ animationId (snd (switchGeometry v)) = animationId v
  /\ colorPalette (snd (switchGeometry v)) = colorPalette v
  /\ audioAnalyzer (snd (switchGeometry v)) = audioAnalyzer v.
Proof.
  intros Hwf. destruct (switchGeometry_is_build v) as (variant & layout & count & Hl & Heq).
  rewrite Heq.
  destruct (build_spec variant layout count v Hl Hwf) as (H1 & _ & H3). auto.
Qed.

(** [updateVisuals] on a well-formed scene: it completes, and the beat
    intensity is 1 after a beat and untouched otherwise. *)
Lemma updateVisuals_spec (analysis : AudioAnalyzer.AnalysisFrame)
    (v : Visualizer3D.t) (g : Rng) :
  well_formed v ->
  exists v' g',
    updateVisuals analysis v g = (Ok (), v', g')
    /\ beatIntensity v' = (if AudioAnalyzer.beat analysis then #1 else beatIntensity v)
    /\ well_formed v'
    /\ beatDecay v' = beatDecay v /\ isRunning v' = isRunning v
    /\ animationId v' = animationId v /\ audioAnalyzer v' = audioAnalyzer v.
Proof.
  intros Hwf. unfold updateVisuals.
  destruct (AudioAnalyzer.beat analysis).
  - set (v1 := set_frame (time v) #1 v).
    assert (Hwf1 : well_formed v1)
      by (apply (well_formed_same v); [reflexivity .. | assumption]).
    destruct (Math_random g) as [r g'].
    destruct (r <? #0.05).
    + destruct (switchGeometry_kept v1 Hwf1) as (Hok & Hwf2 & Hi & Hd & Hr & Hid & Hp & Ha).
      destruct (switchGeometry v1) as [res v2]. simpl in *. subst res.
      destruct Hwf2 as [? ? ? Hpal].
      destruct (colorPalette v2) eqn:E; [congruence|].
      exists v2, g'. repeat split; auto. congruence.
    + destruct Hwf1 as [? ? ? Hpal].
      destruct (colorPalette v1) eqn:E; [congruence|].
      exists v1, g'. repeat split; auto. congruence.
  - destruct Hwf as [? ? ? Hpal].
    destruct (colorPalette v) eqn:E; [congruence|].
    exists v, g. repeat split; auto. congruence.
Qed.

(** A frame of the scene visualizer with the analyzer attached. *)
Lemma animate_spec (hw : AudioAnalyzer.HwFrame) (now : Z) (v : Visualizer3D.t)
    (hst : Host.t) (an : AudioAnalyzer.t) (g : Rng)
    (analysis : AudioAnalyzer.AnalysisFrame) (data : list JS.num) :
  well_formed v ->
  isRunning v = true -> audioAnalyzer v = true ->
  fst (AudioAnalyzer.analyze hw now an) = Ok analysis ->
  fst (AudioAnalyzer.getVisualizationData 64 (snd (AudioAnalyzer.analyze hw now an)))
  = Ok data ->
  exists v' hst' an' g',
    animate hw now v hst an g = (Ok (), v', hst', an', g')
    /\ beatIntensity v'
       = (if AudioAnalyzer.beat analysis then #1 else beatIntensity v) * beatDecay v.
Proof.
  intros Hwf Hrun Hattached Hanalysis Hdata. unfold animate.
  rewrite Hrun. cbn [negb].
  destruct (Host.requestAnimationFrame Host.Animate3D hst) as [id hst1].
  cbn [audioAnalyzer set_frame set_running]. rewrite Hattached.
  destruct (AudioAnalyzer.analyze hw now an) as [ra an1]. simpl in Hanalysis, Hdata.
  subst ra.
  destruct (AudioAnalyzer.getVisualizationData 64 an1) as [rd an2]. simpl in Hdata.
  subst rd.
  match goal with
  | |- context [updateVisuals analysis ?u g] => set (v2 := u)
  end.
  assert (Hwf2 : well_formed v2)
    by (apply (well_formed_same v); [reflexivity .. | assumption]).
  destruct (updateVisuals_spec analysis v2 g Hwf2)
    as (v3 & g3 & -> & Hint & Hwf3 & Hdec & _).
  destruct Hwf3 as [? ? ? Hpal].
  destruct (colorPalette v3) eqn:E; [congruence|].
  do 4 eexists. split; [reflexivity|].
  cbn [beatIntensity set_frame]. rewrite Hint, Hdec. reflexivity.
Qed.

End SceneFrames.

Section EnvelopeRuns.

Context {rounding : Rounding}.
Import AudioAnalyzer.

Lemma constructor2d_beatDecay (w hgt : JS.num) (g : Rng) :
  Visualizer2D.beatDecay (fst (Visualizer2D.constructor w hgt g)) = #0.95.
Proof.
  unfold Visualizer2D.constructor, Visualizer2D.initializeParticles.
  cbn [Visualizer2D.maxParticles Visualizer2D.resize Visualizer2D.set_surface
       Visualizer2D.width Visualizer2D.height].
  generalize (Visualizer2D.pushParticles 150 w hgt [] g).
  intros [ps g']. reflexivity.
Qed.

Lemma constructor3d_beatDecay (g : Rng) :
  Visualizer3D.beatDecay (fst (Visualizer3D.constructor g)) = #0.95.
Proof.
  unfold Visualizer3D.constructor.
  pose proof (setupLights_well_formed g) as Hwf. cbv zeta in Hwf.
  destruct (Visualizer3D.setupLights _ g) as [v1 g1] eqn:E. cbn [fst snd] in *.
  destruct (build_spec "bars" _ 64 v1 bars_layout_adds Hwf) as (_ & _ & _ & _ & Hd & _).
  unfold Visualizer3D.createBarsGeometry. rewrite Hd.
  unfold Visualizer3D.setupLights in E. injection E as <- _. reflexivity.
Qed.

Lemma attach_run_well_formed (v : Visualizer3D.t) (run : bool) (id : option Z) :
  Scene.well_formed v ->
  Scene.well_formed (Visualizer3D.set_running run id (Visualizer3D.setAudioAnalyzer v)).
Proof. apply well_formed_same; reflexivity. Qed.

Lemma stage_running_flags :
  Visualizer3D.isRunning Runs.stage_running = true
  /\ Visualizer3D.audioAnalyzer Runs.stage_running = true.
Proof.
  unfold Runs.stage_running. generalize Runs.stage. intros v. split; reflexivity.
Qed.

Lemma canvas_beatDecay : Visualizer2D.beatDecay Runs.canvas = #0.95.
Proof. exact (constructor2d_beatDecay #800 #600 Runs.coin). Qed.

Lemma attach_run_beatDecay (v : Visualizer3D.t) (run : bool) (id : option Z) :
  Visualizer3D.beatDecay (Visualizer3D.set_running run id (Visualizer3D.setAudioAnalyzer v))
  = Visualizer3D.beatDecay v.
Proof. reflexivity. Qed.

Lemma stage_running_beatDecay : Visualizer3D.beatDecay Runs.stage_running = #0.95.
Proof.
  unfold Runs.stage_running. rewrite attach_run_beatDecay.
  exact (constructor3d_beatDecay Runs.coin).
Qed.

Lemma stage_running_well_formed : Scene.well_formed Runs.stage_running.
Proof. apply attach_run_well_formed, constructor_well_formed. Qed.

(** After a cycle that produced a frame, the series is available. *)
Lemma analyze_ok_series (hw : HwFrame) (now : Z) (a : AudioAnalyzer.t)
    (frame : AnalysisFrame) (n : nat) :
  analyser a <> None ->
  fst (analyze hw now a) = Ok frame ->
  exists series, fst (getVisualizationData n (snd (analyze hw now a))) = Ok series.
Proof.
  intros Han. unfold analyze.
  destruct (analyser a) as [node|]; [|congruence].
  destruct (frequencyData a) as [fd0|]; [|destruct (timeData a); discriminate].
  destruct (timeData a) as [td0|]; [|discriminate].
  rewrite detectBeat_unfold. cbv zeta.
  cbn [audioContext set_beat set_graph].
  destruct (audioContext a) as [ctx|]; [|discriminate].
  intros _. cbn [snd]. unfold getVisualizationData, getSmoothedFrequencyData.
  cbn [frequencyData set_currentAnalysis set_beat set_graph lastFrequencyData].
  destruct (lastFrequencyData a); eexists; reflexivity.
Qed.

(** With the node, its buffers and the context in place, a cycle returns
    a frame. *)
Lemma analyze_returns (hw : HwFrame) (now : Z) (a : AudioAnalyzer.t) :
  analyser a <> None -> frequencyData a <> None -> timeData a <> None ->
  audioContext a <> None ->
  exists frame, fst (analyze hw now a) = Ok frame.
Proof.
  intros Han Hfd Htd Hctx. unfold analyze.
  destruct (analyser a) as [node|]; [|congruence].
  destruct (frequencyData a) as [fd0|]; [|congruence].
  destruct (timeData a) as [td0|]; [|congruence].
  rewrite detectBeat_unfold. cbv zeta. cbn [audioContext set_beat set_graph].
  destruct (audioContext a) as [ctx|]; [|congruence].
  eexists. reflexivity.
Qed.

Lemma silent_analysis_ok :
  fst (analyze Runs.silence 0 Runs.attached) = Ok Runs.silent_analysis.
Proof.
  destruct (analyze_returns Runs.silence 0 Runs.attached) as (frame & Hframe);
    try discriminate.
  unfold Runs.silent_analysis. now rewrite Hframe.
Qed.

Lemma silent_series_ok :
  fst (getVisualizationData 64 (snd (analyze Runs.silence 0 Runs.attached)))
  = Ok Runs.silent_series.
Proof.
  destruct (analyze_ok_series Runs.silence 0 Runs.attached Runs.silent_analysis 64
              ltac:(discriminate) silent_analysis_ok) as (series & Hs).
  unfold Runs.silent_series. now rewrite Hs.
Qed.

Lemma envelope_beat (intensity : JS.num) : Spec.envelope true intensity = #0.95.
Proof. unfold Spec.envelope. js_unfold. f_equal. lra. Qed.

End EnvelopeRuns.

Section LoudRun.

Context {rounding : Rounding}.
Import AudioAnalyzer.
Local Open Scope R_scope.

(** The loud cycle after the silent one. *)
Lemma energy_sum_loud (n : nat) (s : R) :
  fold_left (fun sum b => sum + JS.of_byte b * JS.of_byte b)%js
    (replicate n Byte.xff) (JS.Fin s)
  = JS.Fin (s + INR n * 65025).
Proof.
  revert s. induction n as [|n IH]; intros s.
  - simpl. f_equal. lra.
  - rewrite S_INR. cbn [replicate fold_left]. 
    replace (JS.Fin s + JS.of_byte Byte.xff * JS.of_byte Byte.xff)%js
      with (JS.Fin (s + 65025)).
    + rewrite IH. f_equal. lra.
    + unfold JS.of_byte, JS.of_Z. js_unfold. f_equal. simpl. lra.
Qed.

Lemma calculateEnergy_loud : calculateEnergy (replicate 1024 Byte.xff) = #1.
Proof.
  unfold calculateEnergy. cbv zeta. rewrite energy_sum_loud, length_replicate.
  unfold JS.of_nat, JS.of_Z. 
  replace (INR 1024) with 1024 by (rewrite INR_IZR_INZ; reflexivity).
  change (Z.of_nat 1024) with 1024%Z.
  replace (JS.Fin 1024 * #255 * #255)%js with (JS.Fin 66585600)
    by (js_unfold; f_equal; lra).
  rewrite fl_div_fin by lra.
  replace ((0 + 1024 * 65025) / 66585600) with 1 by lra.
  now rewrite rnd_1.
Qed.

(** After the silent cycle the history holds one zero, and no beat has
    fired. *)
Lemma after_silence_state :
  analyser Runs.after_silence <> None
  /\ audioContext Runs.after_silence <> None
  /\ frequencyData Runs.after_silence = Some (replicate 1024 Byte.x00)
  /\ timeData Runs.after_silence = Some (replicate 1024 Byte.x80)
  /\ energyHistory Runs.after_silence = [ #0 ]
  /\ lastBeatTime Runs.after_silence = 0%Z
  /\ maxEnergyHistorySize Runs.after_silence = 43%nat
  /\ beatThreshold Runs.after_silence = #0.35
  /\ beatMinInterval Runs.after_silence = 200%Z.
Proof.
  unfold Runs.after_silence, analyze.
  change (analyser Runs.attached) with (Some (createAnalyser 2048)).
  change (frequencyData Runs.attached) with (Some (replicate 1024 Byte.x00)).
  change (timeData Runs.attached) with (Some (replicate 1024 Byte.x00)).
  cbv beta iota zeta. rewrite detectBeat_unfold. cbv zeta.
  rewrite !fill_bytes_full by (now rewrite !length_replicate).
  change (hw_freq Runs.silence) with (replicate 1024 Byte.x00).
  change (hw_time Runs.silence) with (replicate 1024 Byte.x80).
  rewrite calculateEnergy_silent
    by (try discriminate; apply Forall_replicate; reflexivity).
  cbn [audioContext set_beat set_graph Runs.attached initialize snd fst
       set_currentAnalysis analyser frequencyData timeData energyHistory
       lastBeatTime maxEnergyHistorySize beatThreshold beatMinInterval
       constructor push_history app length Nat.ltb Nat.leb].
  change (Fl.round #0.35) with (Fl.lit 0.35).
  rewrite not_exceeds_0. cbn [andb].
  repeat split; try reflexivity; discriminate.
Qed.

(** The beat flag of the frame a cycle returns. *)
Lemma analyze_beat (hw : HwFrame) (now : Z) (a : AudioAnalyzer.t)
    (fd0 td0 : list Byte.byte) :
  analyser a <> None -> audioContext a <> None ->
  frequencyData a = Some fd0 -> timeData a = Some td0 ->
  let e := calculateEnergy (fill_bytes (hw_freq hw) fd0) in
  let h := push_history (maxEnergyHistorySize a) (energyHistory a) e in
  exists frame,
    fst (analyze hw now a) = Ok frame
    /\ energy frame = e
    /\ beat frame
       = (e >? (Spec.rounded_mean h
                + Fl.round (beatThreshold a) * Fl.sqrt (Spec.rounded_variance h))%fl)%js
         && (now - lastBeatTime a >? beatMinInterval a)%Z.
Proof.
  intros Han Hctx Hfd Htd. unfold analyze.
  destruct (analyser a) as [node|]; [|congruence].
  rewrite Hfd, Htd. cbv zeta. rewrite detectBeat_unfold. cbv zeta.
  cbn [audioContext set_beat set_graph maxEnergyHistorySize energyHistory
       beatThreshold lastBeatTime beatMinInterval].
  destruct (audioContext a) as [ctx|]; [|congruence].
  eexists. split; [reflexivity|]. split; reflexivity.
Qed.

Lemma loud_analysis_ok :
  fst (analyze Runs.loud 1000 Runs.after_silence) = Ok Runs.loud_analysis
  /\ beat Runs.loud_analysis = true.
Proof.
  destruct after_silence_state as (Han & Hctx & Hfd & Htd & Hh & Hlast & Hcap & Hk & Hmin).
  destruct (analyze_beat Runs.loud 1000 Runs.after_silence _ _ Han Hctx Hfd Htd)
    as (frame & Hframe & _ & Hbeat).
  unfold Runs.loud_analysis. rewrite Hframe. split; [reflexivity|].
  rewrite Hbeat, Hh, Hlast, Hcap, Hk, Hmin.
  rewrite fill_bytes_full by (now rewrite !length_replicate).
  change (hw_freq Runs.loud) with (replicate 1024 Byte.xff).
  rewrite calculateEnergy_loud.
  cbn [push_history app length Nat.ltb Nat.leb].
  change (Fl.round #0.35) with (Fl.lit 0.35).
  pose proof exceeds_01 as H1. unfold Spec.exceeds_threshold in H1.
  rewrite H1. reflexivity.
Qed.

Lemma loud_series_ok :
  fst (getVisualizationData 64 (snd (analyze Runs.loud 1000 Runs.after_silence)))
  = Ok Runs.loud_series.
Proof.
  destruct after_silence_state as (Han & _).
  destruct (analyze_ok_series Runs.loud 1000 Runs.after_silence Runs.loud_analysis 64
              Han (proj1 loud_analysis_ok)) as (series & Hs).
  unfold Runs.loud_series. now rewrite Hs.
Qed.

End LoudRun.

(** C5, as the program has it: in both renderers a frame sets the beat
    intensity to 1 when its analysis frame carries a beat (the scene
    visualizer in [updateVisuals]) and then, on every frame, beat or not,
    multiplies it by the decay constant 0.95 (at the end of
    [updateVisualState] and at the end of [animate]); so right after the
    update of a beat frame the beat intensity is 0.95. *)
Theorem beat_envelope {rounding : Rounding} (v2 : Visualizer2D.t) (v3 : Visualizer3D.t)
    (analysis : AudioAnalyzer.AnalysisFrame) (data : list JS.num)
    (hw : AudioAnalyzer.HwFrame) (now : Z) (hst : Host.t)
    (an : AudioAnalyzer.t) (g : Rng) :
  Visualizer2D.beatDecay v2 = #0.95 ->
  Visualizer3D.beatDecay v3 = #0.95 ->
  Scene.well_formed v3 ->
  Visualizer3D.isRunning v3 = true ->
  Visualizer3D.audioAnalyzer v3 = true ->
  fst (AudioAnalyzer.analyze hw now an) = Ok analysis ->
  fst (AudioAnalyzer.getVisualizationData 64 (snd (AudioAnalyzer.analyze hw now an)))
  = Ok data ->
  Visualizer2D.beatIntensity (fst (Visualizer2D.updateVisualState analysis v2 g))
  = Spec.envelope (AudioAnalyzer.beat analysis) (Visualizer2D.beatIntensity v2)
  /\ (exists v3' g',
        Visualizer3D.updateVisuals analysis v3 g = (Ok (), v3', g')
        /\ Visualizer3D.beatIntensity v3'
           = if AudioAnalyzer.beat analysis then #1 else Visualizer3D.beatIntensity v3)
  /\ (exists v3' hst' an' g',
        Visualizer3D.animate hw now v3 hst an g = (Ok (), v3', hst', an', g')
        /\ Visualizer3D.beatIntensity v3'
           = Spec.envelope (AudioAnalyzer.beat analysis) (Visualizer3D.beatIntensity v3))
  /\ (forall intensity, Spec.envelope true intensity = #0.95).
Proof.
  intros Hd2 Hd3 Hwf Hrun Hatt Hanalysis Hdata. split; [|split; [|split]].
  - destruct (updateVisualState_beat analysis v2 g) as [-> _].
    now rewrite Hd2.
  - destruct (updateVisuals_spec analysis v3 g Hwf) as (v' & g' & Heq & Hint & _).
    exists v', g'. split; assumption.
  - destruct (animate_spec hw now v3 hst an g analysis data Hwf Hrun Hatt Hanalysis Hdata)
      as (v' & hst' & an' & g' & Heq & Hint).
    exists v', hst', an', g'. split; [assumption|]. now rewrite Hint, Hd3.
  - apply envelope_beat.
Qed.

Section BeatEnvelopeWitnessRun.

Local Existing Instance real_arithmetic.

Lemma beat_envelope_witness :
  AudioAnalyzer.beat Runs.loud_analysis = true
  /\ (Visualizer2D.beatIntensity
        (fst (Visualizer2D.updateVisualState Runs.loud_analysis Runs.canvas Runs.coin))
      = Spec.envelope (AudioAnalyzer.beat Runs.loud_analysis)
          (Visualizer2D.beatIntensity Runs.canvas)
      /\ (exists v3' g',
            Visualizer3D.updateVisuals Runs.loud_analysis Runs.stage_running Runs.coin
            = (Ok (), v3', g')
            /\ Visualizer3D.beatIntensity v3'
               = if AudioAnalyzer.beat Runs.loud_analysis then #1
                 else Visualizer3D.beatIntensity Runs.stage_running)
      /\ (exists v3' hst' an' g',
            Visualizer3D.animate Runs.loud 1000 Runs.stage_running Host.initial
              Runs.after_silence Runs.coin
            = (Ok (), v3', hst', an', g')
            /\ Visualizer3D.beatIntensity v3'
               = Spec.envelope (AudioAnalyzer.beat Runs.loud_analysis)
                   (Visualizer3D.beatIntensity Runs.stage_running))
      /\ (forall intensity, Spec.envelope true intensity = #0.95)).
Proof.
  split; [exact (proj2 loud_analysis_ok)|].
  apply (beat_envelope Runs.canvas Runs.stage_running Runs.loud_analysis
           Runs.loud_series Runs.loud 1000 Host.initial Runs.after_silence Runs.coin).
  - exact canvas_beatDecay.
  - exact stage_running_beatDecay.
  - exact stage_running_well_formed.
  - exact (proj1 stage_running_flags).
  - exact (proj2 stage_running_flags).
  - exact (proj1 loud_analysis_ok).
  - exact loud_series_ok.
Defined.

End BeatEnvelopeWitnessRun.

(** C5 as stated fails: the update of a beat frame leaves the beat
    intensity of the raster visualizer at 0.95, not at 1. *)
Lemma beat_frame_intensity_is_not_one :
  AudioAnalyzer.beat Runs.beat_frame = true
  /\ Visualizer2D.beatIntensity
       (fst (Visualizer2D.updateVisualState Runs.beat_frame Runs.canvas Runs.coin))
     <> #1.
Proof.
  split; [reflexivity|].
  destruct (updateVisualState_beat Runs.beat_frame Runs.canvas Runs.coin) as [-> _].
  unfold Runs.canvas. rewrite constructor2d_beatDecay. cbn [AudioAnalyzer.beat Runs.beat_frame].
  js_unfold. intros H. injection H as H. lra.
Qed.

(** ** Before initialization *)

Section BeforeInitialize.

Context {rounding : Rounding}.
Import AudioAnalyzer Lifecycle.

(** Without a successful [initialize] there are no buffers and no frame has
    been produced. *)
Lemma uninitialized_state (a : AudioAnalyzer.t) :
  uninitialized a ->
  currentAnalysis a = defaultAnalysis
  /\ frequencyData a = None /\ timeData a = None /\ source a = false.
Proof.
  induction 1 as [|ev a Ha (Hc & Hf & Ht & Hs) Hfail
                  |hw now a Ha (Hc & Hf & Ht & Hs)
                  |n a Ha (Hc & Hf & Ht & Hs)
                  |a Ha (Hc & Hf & Ht & Hs)].
  - repeat split; reflexivity.
  - destruct ev; simpl in *; auto.
    + rewrite Hs in *. simpl. auto.
    + discriminate.
  - unfold analyze. rewrite Hf.
    destruct (analyser a); simpl; auto.
  - unfold getVisualizationData, getSmoothedFrequencyData. rewrite Hf. simpl. auto.
  - simpl. auto.
Qed.

(** An attempt that created the analyser node but could not attach the
    source leaves a node without buffers: polling it throws. *)
Lemma analyze_after_half_initialize (ctx : AudioContext) (hw : HwFrame) (now : Z) :
  let a := snd (initialize (SourceAlreadyAttached ctx) constructor) in
  fst (initialize (SourceAlreadyAttached ctx) constructor) = false
  /\ analyser a <> None
  /\ fst (analyze hw now a) = Err TypeError.
Proof. simpl. repeat split. discriminate. Qed.

End BeforeInitialize.

(** C10: while no [initialize] has succeeded and the analyser node is
    absent, [analyze] returns the default snapshot (volume 0, energy 0, no
    beat, dominant frequency 0, no bands, empty spectrum and waveform)
    without throwing and leaves the analyzer as it was. *)
Theorem analyze_before_initialize {rounding : Rounding} (a : AudioAnalyzer.t)
    (hw : AudioAnalyzer.HwFrame) (now : Z) :
  Lifecycle.uninitialized a ->
  AudioAnalyzer.analyser a = None ->
  AudioAnalyzer.analyze hw now a = (Ok AudioAnalyzer.defaultAnalysis, a)
  /\ AudioAnalyzer.defaultAnalysis
     = {| AudioAnalyzer.volume := #0; AudioAnalyzer.energy := #0;
          AudioAnalyzer.beat := false; AudioAnalyzer.dominantFrequency := #0;
          AudioAnalyzer.bands := []; AudioAnalyzer.spectrum := [];
          AudioAnalyzer.waveform := [] |}.
Proof.
  intros Hun Hnone. split; [|reflexivity].
  destruct (uninitialized_state a Hun) as (Hc & _).
  unfold AudioAnalyzer.analyze. rewrite Hnone, Hc. reflexivity.
Qed.

Section AnalyzeBeforeInitializeWitnessRun.

Local Existing Instance real_arithmetic.

Lemma analyze_before_initialize_witness :
  AudioAnalyzer.analyze Runs.silence 0 AudioAnalyzer.constructor
  = (Ok AudioAnalyzer.defaultAnalysis, AudioAnalyzer.constructor)
  /\ AudioAnalyzer.defaultAnalysis
     = {| AudioAnalyzer.volume := #0; AudioAnalyzer.energy := #0;
          AudioAnalyzer.beat := false; AudioAnalyzer.dominantFrequency := #0;
          AudioAnalyzer.bands := []; AudioAnalyzer.spectrum := [];
          AudioAnalyzer.waveform := [] |}.
Proof.
  apply (analyze_before_initialize AudioAnalyzer.constructor Runs.silence 0).
  - exact Lifecycle.uninit_new.
  - reflexivity.
Defined.

End AnalyzeBeforeInitializeWitnessRun.

(** ** The palette generator *)

Section Palette.

Context {rounding : Rounding}.
Import ColorUtils.

Lemma palettes_unknown (mood : string) :
  mood ∉ Spec.known_moods -> palettes !! mood = None.
Proof.
  intros H. unfold palettes. apply not_elem_of_list_to_map_1. exact H.
Qed.

Lemma palettes_known (mood : string) :
  mood ∈ Spec.known_moods -> exists base, palettes !! mood = Some base /\ length base = 4%nat.
Proof.
  intros H. unfold Spec.known_moods in H.
  repeat (apply elem_of_cons in H as [->|H]; [eexists; split; reflexivity|]).
  now apply elem_of_nil in H.
Qed.

(** One of the five moods gives four colours. *)
Lemma generateMoodPalette_known (mood : string) (energy : JS.num) :
  mood ∈ Spec.known_moods ->
  exists p, generateMoodPalette mood energy = Ok p /\ length p = 4%nat.
Proof.
  intros H. destruct (palettes_known mood H) as (base & Hb & Hlen).
  unfold generateMoodPalette, get_palettes at 1. rewrite Hb. simpl.
  eexists. split; [reflexivity|]. now rewrite length_map.
Qed.

(** A mood that is neither one of the five nor a member of
    [Object.prototype] falls back to the neutral palette. *)
Lemma generateMoodPalette_fallback (mood : string) (energy : JS.num) :
  mood ∉ Spec.known_moods -> mood ∉ Object_prototype ->
  generateMoodPalette mood energy = generateMoodPalette "neutral" energy.
Proof.
  intros Hk Hp. unfold generateMoodPalette, get_palettes at 1.
  rewrite (palettes_unknown mood Hk).
  destruct (decide (mood ∈ Object_prototype)); [contradiction|]. reflexivity.
Qed.

(** A member of [Object.prototype] is found by the lookup, is truthy, and
    has no [map]: the call throws. *)
Lemma generateMoodPalette_inherited (mood : string) (energy : JS.num) :
  mood ∈ Object_prototype -> generateMoodPalette mood energy = Err TypeError.
Proof.
  intros Hp. unfold generateMoodPalette, get_palettes at 1.
  assert (Hk : mood ∉ Spec.known_moods).
  { intros Hk. unfold Spec.known_moods in Hk.
    repeat (apply elem_of_cons in Hk as [->|Hk];
            [revert Hp; apply (bool_decide_unpack _); vm_compute; exact I|]).
    now apply elem_of_nil in Hk. }
  rewrite (palettes_unknown mood Hk).
  destruct (decide (mood ∈ Object_prototype)); [reflexivity | contradiction].
Qed.

End Palette.

(** C8, at the failing input: the mood string "constructor" is outside
    the five moods, yet [generateMoodPalette] throws on it instead of
    returning the four colours it returns for "neutral". *)
Theorem generateMoodPalette_constructor_throws (energy : JS.num) :
("constructor"%string ∉ Spec.known_moods)
  /\ ColorUtils.generateMoodPalette "constructor" energy = Err TypeError
  /\ exists p,
       ColorUtils.generateMoodPalette "neutral" energy = Ok p /\ length p = 4%nat.
Proof.
  split; [|split].
  - apply (bool_decide_unpack _). vm_compute. exact I.
  - apply generateMoodPalette_inherited.
    apply (bool_decide_unpack _). vm_compute. exact I.
  - apply generateMoodPalette_known.
    apply (bool_decide_unpack _). vm_compute. exact I.
Qed.

(** ** The particle pool *)

Section ColourLookups.

Import Visualizer2D.
Local Open Scope R_scope.

Lemma min_fin (a b : R) : JS.Math_min (JS.Fin a) (JS.Fin b) = JS.Fin (Rmin a b).
Proof.
  unfold JS.Math_min, JS.ltb, JS.Rltb, Rmin.
  destruct (Rlt_dec b a), (Rle_dec a b); try (exfalso; lra); try reflexivity; f_equal; lra.
Qed.

Lemma max_fin (a b : R) : JS.Math_max (JS.Fin a) (JS.Fin b) = JS.Fin (Rmax a b).
Proof.
  unfold JS.Math_max, JS.ltb, JS.Rltb, Rmax.
  destruct (Rlt_dec a b), (Rle_dec a b); try (exfalso; lra); try reflexivity; f_equal; lra.
Qed.

Lemma is_integer_IZR (z : Z) : JS.is_integer (IZR z) = true.
Proof. unfold JS.is_integer. rewrite ZfloorZ. apply Reqb_true. reflexivity. Qed.

Lemma index_opt_Z {A : Type} (arr : list A) (z : Z) :
  (0 <= z)%Z -> index_opt arr (JS.Fin (IZR z)) = arr !! Z.to_nat z.
Proof.
  intros Hz. unfold index_opt. rewrite is_integer_IZR, ZfloorZ.
  assert (E : JS.Rleb 0 (IZR z) = true) by (apply Rleb_true; now apply IZR_le).
  now rewrite E.
Qed.

Lemma Rmin_IZR (a b : Z) : Rmin (IZR a) (IZR b) = IZR (Z.min a b).
Proof.
  unfold Rmin. destruct (Rle_dec (IZR a) (IZR b)) as [H|H].
  - apply le_IZR in H. now rewrite Z.min_l.
  - assert (b < a)%Z by (apply lt_IZR; lra). now rewrite Z.min_r by lia.
Qed.

Lemma getColorByValue_Z (value : R) (v : t) :
  let n := Z.of_nat (length (colorPalette v)) in
  (0 <= Zfloor (value * IZR n))%Z -> (0 < n)%Z ->
  getColorByValue (JS.Fin value) v
  = colorPalette v !! Z.to_nat (Z.min (Zfloor (value * IZR n)) (n - 1)).
Proof.
  cbv zeta. intros Hz Hn. unfold getColorByValue, JS.of_nat, JS.of_Z.
  change (JS.Fin value * JS.Fin (IZR (Z.of_nat (length (colorPalette v)))))%js
    with (JS.Fin (value * IZR (Z.of_nat (length (colorPalette v))))).
  unfold JS.Math_floor.
  change (JS.Fin (IZR (Z.of_nat (length (colorPalette v)))) - #1)%js
    with (JS.Fin (IZR (Z.of_nat (length (colorPalette v))) + - (1))).
  replace (IZR (Z.of_nat (length (colorPalette v))) + - (1))
    with (IZR (Z.of_nat (length (colorPalette v)) - 1)) by (rewrite minus_IZR; lra).
  rewrite min_fin, Rmin_IZR, index_opt_Z by lia. reflexivity.
Qed.

(** A series value of [0,1] has a colour in a palette that is not empty. *)
Lemma getColorByValue_unit (value : R) (v : t) :
  0 <= value <= 1 -> colorPalette v <> [] ->
  exists c, getColorByValue (JS.Fin value) v = Some c /\ c ∈ colorPalette v.
Proof.
  intros Hv Hne.
  set (n := Z.of_nat (length (colorPalette v))).
  assert (Hn : (0 < n)%Z)
    by (unfold n; destruct (colorPalette v); [congruence | cbn; lia]).
  assert (Hn' : 0 < IZR n) by (now apply IZR_lt).
  assert (Hz : (0 <= Zfloor (value * IZR n))%Z) by (apply Zfloor_lub; cbn; nra).
  rewrite getColorByValue_Z by assumption. fold n.
  destruct (lookup_lt_is_Some_2 (colorPalette v)
              (Z.to_nat (Z.min (Zfloor (value * IZR n)) (n - 1)))) as [c Hc];
    [unfold n in *; lia|].
  exists c. split; [exact Hc|]. eapply list_elem_of_lookup_2. exact Hc.
Qed.

End ColourLookups.

Section Particles.

Context {rounding : Rounding}.
Import Visualizer2D.

Lemma pushParticles_length (n : nat) (w hgt : JS.num) (ps : list Particle) (g : Rng) :
  length (fst (pushParticles n w hgt ps g)) = (length ps + n)%nat.
Proof.
  revert ps g. induction n as [|k IH]; intros ps g; simpl; [lia|].
  rewrite IH, length_app. simpl. lia.
Qed.

Lemma constructor_particles (w hgt : JS.num) (g : Rng) :
  length (particles (fst (constructor w hgt g))) = 150%nat.
Proof.
  unfold constructor, initializeParticles.
  cbn [maxParticles resize set_surface width height].
  pose proof (pushParticles_length 150 w hgt [] g) as H.
  destruct (pushParticles 150 w hgt [] g) as [ps g']. exact H.
Qed.

Lemma updateParticle_size (data : list JS.num) (w hgt : JS.num) (index : nat)
    (p : Particle) (g : Rng) :
  size (fst (updateParticle data w hgt index p g)) = size p.
Proof.
  unfold updateParticle. cbv zeta. unfold Math_random.
  destruct (life p - decay p <=? #0); reflexivity.
Qed.

Lemma audioInfluence_member (data : list JS.num) (index : nat) :
  data <> [] -> audioInfluence_at data index ∈ data.
Proof.
  intros Hne. unfold audioInfluence_at.
  destruct data as [|d data]; [congruence|].
  set (l := d :: data) in *. cbn [length]. fold (length l).
  change (S (length data)) with (length l).
  assert (Hlt : (index mod length l < length l)%nat)
    by (apply Nat.mod_upper_bound; cbn; lia).
  destruct (lookup_lt_is_Some_2 l _ Hlt) as [a Ha].
  unfold index_num.
  destruct (Z.of_nat (index mod length l) <? 0)%Z eqn:E; [apply Z.ltb_lt in E; lia|].
  rewrite Nat2Z.id, Ha. eapply list_elem_of_lookup_2. exact Ha.
Qed.

(** The drawing of a particle completes when the series value is a number
    of [0,1], the palette is not empty and neither the size of the particle
    nor the pulse scale is negative. *)
Lemma drawParticle_completes (a : JS.num) (p : Particle) (v : t) :
  JS.within 0 1 a -> colorPalette v <> [] ->
  JS.nonneg (pulseScale v) -> JS.nonneg (size p) ->
  drawParticle a p v = Ok ().
Proof.
  intros Ha Hne Hq Hs. unfold drawParticle. cbv zeta.
  destruct a as [a| | |]; try contradiction. cbn in Ha.
  destruct (getColorByValue_unit a v Ha Hne) as (c & -> & _).
  destruct (pulseScale v) as [q| | |]; try contradiction.
  destruct (size p) as [sz| | |]; try contradiction. cbn in Hq, Hs.
  change (JS.Fin sz * (#1 + JS.Fin a) * JS.Fin q)
    with (JS.Fin (sz * (1 + a) * q)).
  unfold Host.arc.
  assert (E : JS.Rltb (sz * (1 + a) * q) 0 = false).
  { apply Rltb_false. apply Rmult_le_pos; [|assumption].
    apply Rmult_le_pos; [assumption | lra]. }
  rewrite E. destruct (x p), (y p); reflexivity.
Qed.

(** The [forEach] rewrites every slot where it is, as far as it gets: all
    of them when no drawing throws, and otherwise the slots up to the
    particle whose drawing throws, the later ones staying as they were. *)
Lemma forEachParticle_slots (data : list JS.num) (v : t) (index : nat)
    (ps : list Particle) (g : Rng) :
  let r := forEachParticle data v index ps g in
  length (snd (fst r)) = length ps
  /\ (fst (fst r) = Ok () ->
      forall i p,
        ps !! i = Some p ->
        exists gi,
          snd (fst r) !! i
          = Some (fst (updateParticle data (width v) (height v) (index + i) p gi)))
  /\ (forall e,
        fst (fst r) = Err e ->
        exists k,
          (k < length ps)%nat
          /\ (forall i p,
                (i <= k)%nat -> ps !! i = Some p ->
                exists gi,
                  snd (fst r) !! i
                  = Some (fst (updateParticle data (width v) (height v) (index + i) p gi)))
          /\ (forall i, (k < i)%nat -> snd (fst r) !! i = ps !! i)).
Proof.
  cbv zeta. revert index g. induction ps as [|q rest IH]; intros index g.
  - cbn. split; [reflexivity|]. split; [intros _ i p Hp; discriminate|].
    intros e He. discriminate.
  - cbn [forEachParticle].
    destruct (updateParticle data (width v) (height v) index q g) as [q' g1] eqn:Eq.
    destruct (drawParticle (audioInfluence_at data index) q' v) as [[]|err].
    + specialize (IH (S index) g1).
      destruct (forEachParticle data v (S index) rest g1) as [[res rest'] g2].
      cbn [fst snd] in *. destruct IH as (Hlen & Hok & Herr).
      split; [cbn; lia|]. split.
      * intros Hres [|i] p Hp.
        -- injection Hp as <-. exists g. rewrite Nat.add_0_r, Eq. reflexivity.
        -- change (rest !! i = Some p) in Hp.
           destruct (Hok Hres i p Hp) as [gi Hgi]. exists gi.
           change ((q' :: rest') !! S i) with (rest' !! i).
           rewrite Hgi. do 3 f_equal. lia.
      * intros e He. destruct (Herr e He) as (k & Hk & Hupto & Hafter).
        exists (S k). split; [cbn; lia|]. split.
        -- intros [|i] p Hi Hp.
           ++ injection Hp as <-. exists g. rewrite Nat.add_0_r, Eq. reflexivity.
           ++ change (rest !! i = Some p) in Hp.
              destruct (Hupto i p ltac:(lia) Hp) as [gi Hgi]. exists gi.
              change ((q' :: rest') !! S i) with (rest' !! i).
              rewrite Hgi. do 3 f_equal. lia.
        -- intros [|i] Hi; [lia|].
           change ((q' :: rest') !! S i) with (rest' !! i).
           change ((q :: rest) !! S i) with (rest !! i).
           apply Hafter. lia.
    + cbn [fst snd]. split; [reflexivity|]. split; [discriminate|].
      intros e _. exists 0%nat. split; [cbn; lia|]. split.
      * intros [|i] p Hi Hp; [|lia]. injection Hp as <-.
        exists g. rewrite Nat.add_0_r, Eq. reflexivity.
      * intros [|i] Hi; [lia|]. reflexivity.
Qed.

(** The [forEach] completes on a series of numbers of [0,1] that is not
    empty, with a palette that is not empty and no negative size or
    scale. *)
Lemma forEachParticle_completes (data : list JS.num) (v : t) (index : nat)
    (ps : list Particle) (g : Rng) :
  colorPalette v <> [] -> data <> [] -> Forall (JS.within 0 1) data ->
  JS.nonneg (pulseScale v) -> Forall (fun p => JS.nonneg (size p)) ps ->
  fst (fst (forEachParticle data v index ps g)) = Ok ().
Proof.
  intros Hne Hdata Hall Hq Hps. revert index g.
  induction Hps as [|q rest Hsz _ IH]; intros index g; [reflexivity|].
  cbn [forEachParticle].
  pose proof (updateParticle_size data (width v) (height v) index q g) as Es.
  destruct (updateParticle data (width v) (height v) index q g) as [q' g1].
  cbn [fst] in Es.
  rewrite drawParticle_completes; try assumption.
  - specialize (IH (S index) g1).
    destruct (forEachParticle data v (S index) rest g1) as [[res rest'] g2].
    exact IH.
  - rewrite Forall_forall in Hall. apply Hall. now apply audioInfluence_member.
  - now rewrite Es.
Qed.

Lemma renderParticles_length (data : list JS.num) (v : t) (g : Rng) :
  length (particles (snd (fst (renderParticles data v g)))) = length (particles v).
Proof.
  unfold renderParticles.
  pose proof (forEachParticle_slots data v 0 (particles v) g) as [H0 _].
  destruct (forEachParticle _ _ _ _ _) as [[res ps] g']. exact H0.
Qed.

Lemma updateVisualState_particles (analysis : AudioAnalyzer.AnalysisFrame) (v : t) (g : Rng) :
  particles (fst (updateVisualState analysis v g)) = particles v.
Proof.
  unfold updateVisualState.
  destruct (AudioAnalyzer.beat analysis).
  - destruct (Math_random g) as [r g'].
    destruct (r <? #0.1); destruct (_ >=? #1); reflexivity.
  - destruct (_ >=? #1); reflexivity.
Qed.

Lemma renderMode_length (data : list JS.num) (v : t) (g : Rng) :
  length (particles (snd (fst (renderMode data v g)))) = length (particles v).
Proof.
  unfold renderMode. destruct (modes v !! currentMode v) as [mode|]; [|reflexivity].
  destruct (String.eqb mode "particles"); [apply renderParticles_length | reflexivity].
Qed.

(** No frame changes the number of particles. *)
Lemma render_length (timestamp : JS.num) (hw : AudioAnalyzer.HwFrame) (now : Z)
    (v : t) (an : AudioAnalyzer.t) (g : Rng) :
  length (particles (snd (fst (fst (render timestamp hw now v an g)))))
  = length (particles v).
Proof.
  unfold render.
  destruct (negb (audioAnalyzer v) || negb (isRunning v)); [reflexivity|].
  assert (Hfps : particles (updateFPS timestamp v) = particles v)
    by (unfold updateFPS; destruct (_ >=? _); reflexivity).
  destruct (AudioAnalyzer.analyze hw now an) as [[analysis|e] an1]; simpl;
    [|now rewrite Hfps].
  destruct (AudioAnalyzer.getVisualizationData 64 an1) as [[data|e] an2]; simpl;
    [|now rewrite Hfps].
  pose proof (updateVisualState_particles analysis (updateFPS timestamp v) g) as Hvs.
  destruct (updateVisualState analysis (updateFPS timestamp v) g) as [v2 g2].
  simpl in Hvs.
  destruct (colorPalette v2); simpl; [now rewrite Hvs, Hfps|].
  pose proof (renderMode_length data v2 g2) as Hrm.
  destruct (renderMode data v2 g2) as [[[[]|err] v3] g3]; simpl in *;
    now rewrite Hrm, Hvs, Hfps.
Qed.

(** The sequential wrap tests of [renderParticles] wrap the coordinate. *)
Lemma wrap_steps (limit x : JS.num) :
  (let x3 := if x <? #0 then limit else x in
   if x3 >? limit then #0 else x3) = Spec.wrapped limit x.
Proof.
  unfold Spec.wrapped. cbv zeta. destruct (x <? #0); [|reflexivity].
  assert (H : (limit >? limit) = false).
  { destruct limit; js_unfold; real_cases; reflexivity. }
  now rewrite H.
Qed.

(** An expired particle is respawned in its slot from the next four
    random draws. *)
Lemma updateParticle_respawn (data : list JS.num) (w hgt : JS.num) (index : nat)
    (p : Particle) (g : Rng) :
  (life p - decay p <=? #0) = true ->
  let p' := fst (updateParticle data w hgt index p g) in
  let r k := JS.Fin (draws g (used g + k)) in
  life p' = maxLife p
  /\ x p' = Spec.wrapped w (r 0%nat * w)
  /\ y p' = Spec.wrapped hgt (r 1%nat * hgt)
  /\ vx p' = (r 2%nat - #0.5) * #2
  /\ vy p' = (r 3%nat - #0.5) * #2
  /\ size p' = size p /\ maxLife p' = maxLife p /\ decay p' = decay p.
Proof.
  intros Hexp. unfold updateParticle. cbv zeta. rewrite Hexp.
  unfold Math_random. cbn [draws used fst x y vx vy size life maxLife decay].
  rewrite Nat.add_0_r.
  replace (S (used g)) with (used g + 1)%nat by lia.
  replace (S (used g + 1)) with (used g + 2)%nat by lia.
  replace (S (used g + 2)) with (used g + 3)%nat by lia.
  repeat split; try reflexivity; apply wrap_steps.
Qed.

End Particles.

(** ** Scheduling *)

Section Scheduling.

Context {rounding : Rounding}.
Import Schedule.

Lemma cancel_subset (handle : Z) (hst : Host.t) (e : Z * Host.callback) :
  e ∈ Host.pending (Host.cancelAnimationFrame handle hst) ->
  e ∈ Host.pending hst /\ fst e <> handle.
Proof.
  unfold Host.cancelAnimationFrame. simpl. intros H.
  apply list_elem_of_filter in H. tauto.
Qed.

Lemma cancel_cancel (handle : Z) (hst : Host.t) :
  Host.cancelAnimationFrame handle (Host.cancelAnimationFrame handle hst)
  = Host.cancelAnimationFrame handle hst.
Proof.
  unfold Host.cancelAnimationFrame. simpl. f_equal.
  induction (Host.pending hst) as [|e l IH]; [reflexivity|].
  rewrite filter_cons. destruct (decide (fst e <> handle)).
  - rewrite filter_cons. destruct (decide (fst e <> handle)); [|contradiction].
    now rewrite IH.
  - exact IH.
Qed.

Lemma callback_of_pending (handle : Z) (pending : list (Z * Host.callback))
    (cb : Host.callback) :
  Page.callback_of handle pending = Some cb -> (handle, cb) ∈ pending.
Proof.
  induction pending as [|[h c] rest IH]; simpl; [discriminate|].
  destruct (Z.eqb_spec h handle) as [->|Hne].
  - intros [= ->]. apply elem_of_cons. now left.
  - intros H. apply elem_of_cons. right. auto.
Qed.

(** [loop.stop()] twice is [loop.stop()] once. *)
Lemma loop_stop_twice (k : nat) (st : PerformanceUtils.Store) (hst : Host.t) :
  (let '(st1, hst1) := PerformanceUtils.stop k st hst in PerformanceUtils.stop k st1 hst1)
  = PerformanceUtils.stop k st hst.
Proof.
  unfold PerformanceUtils.stop.
  destruct (st !! k) as [c|] eqn:Hk.
  - assert (Hlt : (k < length st)%nat) by (eapply lookup_lt_Some; eauto).
    destruct (Host.truthy_handle (PerformanceUtils.animationId c)) as [id|] eqn:Hid.
    + rewrite list_lookup_insert_eq by assumption. simpl. rewrite Hid.
      now rewrite list_insert_insert_eq, cancel_cancel.
    + rewrite list_lookup_insert_eq by assumption. simpl. rewrite Hid.
      now rewrite list_insert_insert_eq.
  - now rewrite Hk.
Qed.

(** Stopping the raster visualizer twice is stopping it once. *)
Lemma stop2D_twice (w : Page.t) : Page.stop2D (Page.stop2D w) = Page.stop2D w.
Proof.
  unfold Page.stop2D, Visualizer2D.stop.
  destruct (Visualizer2D.animationLoop (Page.v2d w)) as [k|] eqn:Hloop.
  - pose proof (loop_stop_twice k (Page.closures w) (Page.host w)) as H.
    destruct (PerformanceUtils.stop k (Page.closures w) (Page.host w)) as [st1 hst1].
    cbn -[PerformanceUtils.stop].
    destruct (PerformanceUtils.stop k st1 hst1) as [st2 hst2].
    injection H as -> ->. reflexivity.
  - cbn. reflexivity.
Qed.

(** Stopping the scene visualizer twice is stopping it once. *)
Lemma stop3D_twice (w : Page.t) : Page.stop3D (Page.stop3D w) = Page.stop3D w.
Proof.
  unfold Page.stop3D, Visualizer3D.stop.
  destruct (Host.truthy_handle (Visualizer3D.animationId (Page.v3d w))) as [id|] eqn:Hid.
  - simpl. reflexivity.
  - simpl. rewrite Hid. reflexivity.
Qed.

End Scheduling.

Section PageInvariant.

Context {rounding : Rounding}.
Import Schedule.

Lemma generateMoodPalette_ok_length (mood : string) (energy : JS.num)
    (p : list ColorUtils.RGB) :
  ColorUtils.generateMoodPalette mood energy = Ok p -> length p = 4%nat.
Proof.
  destruct (decide (mood ∈ Spec.known_moods)) as [Hk|Hk].
  - destruct (generateMoodPalette_known mood energy Hk) as (q & -> & Hq).
    now intros [= <-].
  - destruct (decide (mood ∈ ColorUtils.Object_prototype)) as [Hp|Hp].
    + rewrite generateMoodPalette_inherited by assumption. discriminate.
    + rewrite generateMoodPalette_fallback by assumption.
      destruct (generateMoodPalette_known "neutral" energy) as (q & -> & Hq).
      * apply (bool_decide_unpack _). vm_compute. exact I.
      * now intros [= <-].
Qed.

(** A frame of the raster visualizer changes neither the size of the pool
    nor what [start] and [stop] maintain. *)
Lemma render_keeps (timestamp : JS.num) (hw : AudioAnalyzer.HwFrame) (now : Z)
    (v : Visualizer2D.t) (an : AudioAnalyzer.t) (g : Rng) :
  let v' := snd (fst (fst (Visualizer2D.render timestamp hw now v an g))) in
  Visualizer2D.isRunning v' = Visualizer2D.isRunning v
  /\ Visualizer2D.animationLoop v' = Visualizer2D.animationLoop v.
Proof.
  unfold Visualizer2D.render.
  destruct (negb (Visualizer2D.audioAnalyzer v) || negb (Visualizer2D.isRunning v));
    [split; reflexivity|].
  assert (Hfps : Visualizer2D.isRunning (Visualizer2D.updateFPS timestamp v)
                 = Visualizer2D.isRunning v
                 /\ Visualizer2D.animationLoop (Visualizer2D.updateFPS timestamp v)
                    = Visualizer2D.animationLoop v)
    by (unfold Visualizer2D.updateFPS; destruct (_ >=? _); split; reflexivity).
  destruct (AudioAnalyzer.analyze hw now an) as [[analysis|e] an1]; simpl;
    [|exact Hfps].
  destruct (AudioAnalyzer.getVisualizationData 64 an1) as [[data|e] an2]; simpl;
    [|exact Hfps].
  assert (Hvs : forall u h,
             Visualizer2D.isRunning (fst (Visualizer2D.updateVisualState analysis u h))
             = Visualizer2D.isRunning u
             /\ Visualizer2D.animationLoop (fst (Visualizer2D.updateVisualState analysis u h))
                = Visualizer2D.animationLoop u).
  { intros u h. unfold Visualizer2D.updateVisualState.
    destruct (AudioAnalyzer.beat analysis).
    - destruct (Math_random h) as [r h'].
      destruct (r <? #0.1); destruct (_ >=? #1); split; reflexivity.
    - destruct (_ >=? #1); split; reflexivity. }
  specialize (Hvs (Visualizer2D.updateFPS timestamp v) g).
  destruct (Visualizer2D.updateVisualState analysis (Visualizer2D.updateFPS timestamp v) g)
    as [v2 g2]. simpl in Hvs.
  destruct (Visualizer2D.colorPalette v2); simpl; [intuition congruence|].
  assert (Hrm : Visualizer2D.isRunning (snd (fst (Visualizer2D.renderMode data v2 g2)))
                = Visualizer2D.isRunning v2
                /\ Visualizer2D.animationLoop
                     (snd (fst (Visualizer2D.renderMode data v2 g2)))
                   = Visualizer2D.animationLoop v2).
  { unfold Visualizer2D.renderMode.
    destruct (Visualizer2D.modes v2 !! Visualizer2D.currentMode v2) as [mode|];
      [|split; reflexivity].
    destruct (String.eqb mode "particles"); [|split; reflexivity].
    unfold Visualizer2D.renderParticles.
    destruct (Visualizer2D.forEachParticle _ _ _ _ _) as [[res ps] g']. split; reflexivity. }
  destruct (Visualizer2D.renderMode data v2 g2) as [[[[]|err] v3] g3]; simpl in *;
    intuition congruence.
Qed.

(** A frame of the scene visualizer schedules exactly one continuation. *)
Lemma animate_schedule (hw : AudioAnalyzer.HwFrame) (now : Z) (v : Visualizer3D.t)
    (hst : Host.t) (an : AudioAnalyzer.t) (g : Rng) :
  Scene.well_formed v -> Visualizer3D.isRunning v = true ->
  exists res v' an' g',
    Visualizer3D.animate hw now v hst an g
    = (res, v', snd (Host.requestAnimationFrame Host.Animate3D hst), an', g')
    /\ Visualizer3D.isRunning v' = true
    /\ Visualizer3D.animationId v' = Some (Host.nextHandle hst)
    /\ Scene.well_formed v'.
Proof.
  intros Hwf Hrun. unfold Visualizer3D.animate. rewrite Hrun. cbn [negb].
  unfold Host.requestAnimationFrame.
  cbn [snd Visualizer3D.audioAnalyzer Visualizer3D.set_frame Visualizer3D.set_running].
  match goal with
  | |- context [Visualizer3D.updateVisuals _ ?u _] => set (v2 := u)
  end.
  assert (Hwf2 : Scene.well_formed v2)
    by (apply (well_formed_same v); [reflexivity .. | assumption]).
  assert (Hr2 : Visualizer3D.isRunning v2 = true) by reflexivity.
  assert (Hi2 : Visualizer3D.animationId v2 = Some (Host.nextHandle hst)) by reflexivity.
  clearbody v2.
  assert (Hdecay : forall u,
             Scene.well_formed u ->
             Scene.well_formed
               (Visualizer3D.set_frame (Visualizer3D.time u)
                  (Visualizer3D.beatIntensity u * Visualizer3D.beatDecay u) u))
    by (intros u Hu; apply (well_formed_same u); [reflexivity .. | assumption]).
  destruct (Visualizer3D.audioAnalyzer v).
  - destruct (AudioAnalyzer.analyze hw now an) as [[analysis|e] an1];
      [|do 4 eexists; split; [reflexivity|]; tauto].
    destruct (AudioAnalyzer.getVisualizationData 64 an1) as [[data|e] an2];
      [|do 4 eexists; split; [reflexivity|]; tauto].
    destruct (updateVisuals_spec analysis v2 g Hwf2)
      as (v3 & g3 & -> & _ & Hwf3 & _ & Hrun3 & Hid3 & _).
    pose proof Hwf3 as [_ _ _ Hpal].
    destruct (Visualizer3D.colorPalette v3) eqn:E; [congruence|].
    do 4 eexists. split; [reflexivity|].
    cbn [Visualizer3D.isRunning Visualizer3D.animationId Visualizer3D.set_frame].
    split; [congruence|]. split; [congruence|]. now apply Hdecay.
  - do 4 eexists. split; [reflexivity|].
    cbn [Visualizer3D.isRunning Visualizer3D.animationId Visualizer3D.set_frame].
    split; [assumption|]. split; [assumption|]. now apply Hdecay.
Qed.

Lemma invariant_same (w w' : Page.t) :
  invariant w ->
  length (Visualizer2D.particles (Page.v2d w'))
  = length (Visualizer2D.particles (Page.v2d w)) ->
  Visualizer2D.isRunning (Page.v2d w') = Visualizer2D.isRunning (Page.v2d w) ->
  Visualizer2D.animationLoop (Page.v2d w') = Visualizer2D.animationLoop (Page.v2d w) ->
  Page.closures w' = Page.closures w ->
  Page.host w' = Page.host w ->
  Scene.well_formed (Page.v3d w') ->
  Visualizer3D.isRunning (Page.v3d w') = Visualizer3D.isRunning (Page.v3d w) ->
  Visualizer3D.animationId (Page.v3d w') = Visualizer3D.animationId (Page.v3d w) ->
  invariant w'.
Proof.
  intros [Hpool Hscene Hnext Hfresh Hloop Hanim Hh3] Ep Er El Ec Eh Hwf Er3 Ei3.
  constructor; rewrite ?Ep, ?Er, ?El, ?Ec, ?Eh, ?Er3, ?Ei3; assumption.
Qed.

End PageInvariant.

Section PageSteps.

Context {rounding : Rounding}.
Import Schedule.

Lemma constructor3d_flags (g : Rng) :
  Visualizer3D.isRunning (fst (Visualizer3D.constructor g)) = false
  /\ Visualizer3D.animationId (fst (Visualizer3D.constructor g)) = None.
Proof.
  unfold Visualizer3D.constructor.
  pose proof (setupLights_well_formed g) as Hwf. cbv zeta in Hwf.
  destruct (Visualizer3D.setupLights _ g) as [v1 g1] eqn:E. cbn [fst snd] in *.
  destruct (build_spec "bars" _ 64 v1 bars_layout_adds Hwf)
    as (_ & _ & _ & _ & _ & Hr & Hi & _).
  unfold Visualizer3D.createBarsGeometry. rewrite Hr, Hi.
  unfold Visualizer3D.setupLights in E. injection E as <- _. split; reflexivity.
Qed.

Lemma invariant_initial (w hgt : JS.num) (g : Rng) : invariant (Page.initial w hgt g).
Proof.
  unfold Page.initial.
  pose proof (constructor_particles w hgt g) as Hp.
  destruct (Visualizer2D.constructor w hgt g) as [v2 g1].
  pose proof (constructor_well_formed g1) as Hwf.
  pose proof (constructor3d_flags g1) as [Hr Hi].
  destruct (Visualizer3D.constructor g1) as [v3 g2].
  cbn [fst] in *.
  constructor; cbn [Page.v2d Page.v3d Page.host Page.closures Host.pending
                    Host.nextHandle Host.initial]; auto; try lia.
  - intros h cb H. now apply elem_of_nil in H.
  - intros h k H. now apply elem_of_nil in H.
  - intros h H. now apply elem_of_nil in H.
  - intros h H. congruence.
Qed.

Lemma truthy_handle_some (h : Z) : h <> 0%Z -> Host.truthy_handle (Some h) = Some h.
Proof.
  intros H. unfold Host.truthy_handle. destruct (Z.eqb_spec h 0); [contradiction|reflexivity].
Qed.

Lemma truthy_handle_inv (id : option Z) (h : Z) :
  Host.truthy_handle id = Some h -> id = Some h /\ h <> 0%Z.
Proof.
  destruct id as [n|]; simpl; [|discriminate].
  destruct (Z.eqb_spec n 0); [discriminate|]. intros [= <-]. auto.
Qed.

(** [stop()] of the raster visualizer leaves nothing of it scheduled. *)
Lemma stop2D_spec (w : Page.t) :
  invariant w -> invariant (Page.stop2D w) /\ idle2D (Page.stop2D w).
Proof.
  intros Hinv. pose proof Hinv as [Hpool Hscene Hnext Hfresh Hloop Hanim Hh3].
  assert (Hgone : forall h k, (h, Host.LoopOf k) ∉ Host.pending (Page.host (Page.stop2D w))).
  { intros h k Hin. unfold Page.stop2D, Visualizer2D.stop in Hin.
    destruct (Visualizer2D.animationLoop (Page.v2d w)) as [k0|] eqn:El.
    - unfold PerformanceUtils.stop in Hin.
      destruct (Page.closures w !! k0) as [c|] eqn:Ec.
      + destruct (Host.truthy_handle (PerformanceUtils.animationId c)) as [id|] eqn:Et;
          cbn in Hin.
        * apply cancel_subset in Hin as [Hin Hne]. simpl in Hne.
          destruct (Hloop h k Hin) as (_ & Hk & Hc).
          assert (k = k0) by congruence. subst k0.
          rewrite Ec in Hc. injection Hc as ->.
          cbn [PerformanceUtils.animationId] in Et.
          apply truthy_handle_inv in Et as [[= ->] _]. contradiction.
        * destruct (Hloop h k Hin) as (_ & Hk & Hc).
          assert (k = k0) by congruence. subst k0.
          rewrite Ec in Hc. injection Hc as ->.
          cbn [PerformanceUtils.animationId] in Et.
          rewrite truthy_handle_some in Et; [discriminate|].
          specialize (Hfresh _ _ Hin). lia.
      + cbn in Hin. destruct (Hloop h k Hin) as (_ & Hk & Hc). congruence.
    - cbn in Hin. destruct (Hloop h k Hin) as (_ & Hk & _). congruence. }
  assert (Hsub : forall e, e ∈ Host.pending (Page.host (Page.stop2D w)) ->
                           e ∈ Host.pending (Page.host w)).
  { intros e. unfold Page.stop2D, Visualizer2D.stop, PerformanceUtils.stop.
    destruct (Visualizer2D.animationLoop (Page.v2d w)) as [k0|]; [|cbn; auto].
    destruct (Page.closures w !! k0) as [c|]; [|cbn; auto].
    destruct (Host.truthy_handle (PerformanceUtils.animationId c)); cbn; [|auto].
    intros H. now apply cancel_subset in H. }
  assert (Hsame : Page.v3d (Page.stop2D w) = Page.v3d w
                  /\ Host.nextHandle (Page.host (Page.stop2D w))
                     = Host.nextHandle (Page.host w)
                  /\ Visualizer2D.particles (Page.v2d (Page.stop2D w))
                     = Visualizer2D.particles (Page.v2d w)
                  /\ Visualizer2D.isRunning (Page.v2d (Page.stop2D w)) = false).
  { unfold Page.stop2D, Visualizer2D.stop, PerformanceUtils.stop.
    destruct (Visualizer2D.animationLoop (Page.v2d w)) as [k0|]; [|cbn; auto].
    destruct (Page.closures w !! k0) as [c|]; [|cbn; auto].
    destruct (Host.truthy_handle (PerformanceUtils.animationId c)); cbn; auto. }
  destruct Hsame as (E3 & En & Ep & Er).
  split; [|split; assumption].
  constructor; rewrite ?E3, ?En, ?Ep; auto.
  - intros h cb Hin. apply Hsub in Hin. eauto.
  - intros h k Hin. exfalso. revert Hin. apply Hgone.
Qed.

(** [stop()] of the scene visualizer leaves nothing of it scheduled. *)
Lemma stop3D_spec (w : Page.t) :
  invariant w -> invariant (Page.stop3D w) /\ idle3D (Page.stop3D w).
Proof.
  intros Hinv. pose proof Hinv as [Hpool Hscene Hnext Hfresh Hloop Hanim Hh3].
  unfold Page.stop3D, Visualizer3D.stop, idle3D.
  destruct (Host.truthy_handle (Visualizer3D.animationId (Page.v3d w))) as [id|] eqn:Et;
    cbn.
  - apply truthy_handle_inv in Et as [Eid Hne].
    assert (Hgone : forall h, (h, Host.Animate3D)
                              ∉ Host.pending (Host.cancelAnimationFrame id (Page.host w))).
    { intros h Hin. apply cancel_subset in Hin as [Hin Hh]. simpl in Hh.
      destruct (Hanim h Hin) as [_ Hid]. congruence. }
    split; [|auto].
    constructor; cbn; auto.
    + apply (well_formed_same (Page.v3d w)); [reflexivity .. | assumption].
    + intros h cb Hin. apply cancel_subset in Hin as [Hin _]. eauto.
    + intros h k Hin. apply cancel_subset in Hin as [Hin _]. eauto.
    + intros h Hin. exfalso. revert Hin. apply Hgone.
  - assert (Hnone : Visualizer3D.animationId (Page.v3d w) = None).
    { destruct (Visualizer3D.animationId (Page.v3d w)) as [n|] eqn:E; [|reflexivity].
      rewrite truthy_handle_some in Et; [discriminate | eauto]. }
    assert (Hgone : forall h, (h, Host.Animate3D) ∉ Host.pending (Page.host w)).
    { intros h Hin. destruct (Hanim h Hin) as [_ Hid]. congruence. }
    split; [|auto].
    constructor; cbn; auto.
    + apply (well_formed_same (Page.v3d w)); [reflexivity .. | assumption].
    + intros h Hin. exfalso. revert Hin. apply Hgone.
Qed.

End PageSteps.

Section PageReachable.

Context {rounding : Rounding}.
Import Schedule.

Lemma invariant_start2D (w : Page.t) : invariant w -> invariant (Page.step Page.Start2D w).
Proof.
  intros Hinv. pose proof Hinv as [Hpool Hscene Hnext Hfresh Hloop Hanim Hh3].
  cbn [Page.step]. unfold Visualizer2D.start.
  destruct (Visualizer2D.isRunning (Page.v2d w)) eqn:Erun.
  - apply (invariant_same w); auto.
  - unfold PerformanceUtils.createAnimationLoop, PerformanceUtils.start.
    set (k := length (Page.closures w)).
    rewrite lookup_app_r by (unfold k; lia).
    replace (k - length (Page.closures w))%nat with 0%nat by (unfold k; lia).
    cbn.
    constructor; cbn; auto; try lia.
    + intros h cb Hin. apply elem_of_app in Hin as [Hin|Hin].
      * specialize (Hfresh _ _ Hin). lia.
      * apply list_elem_of_singleton in Hin. injection Hin as -> _. lia.
    + intros h k' Hin. apply elem_of_app in Hin as [Hin|Hin].
      * destruct (Hloop _ _ Hin) as (Hr & _). congruence.
      * apply list_elem_of_singleton in Hin. injection Hin as -> ->.
        repeat split. apply list_lookup_insert_eq.
        rewrite length_app. simpl. unfold k. lia.
    + intros h Hin. apply elem_of_app in Hin as [Hin|Hin]; [eauto|].
      apply list_elem_of_singleton in Hin. discriminate.
Qed.

Lemma invariant_start3D (hw : AudioAnalyzer.HwFrame) (now : Z) (w : Page.t) :
  invariant w -> invariant (Page.step (Page.Start3D hw now) w).
Proof.
  intros Hinv. pose proof Hinv as [Hpool Hscene Hnext Hfresh Hloop Hanim Hh3].
  cbn [Page.step]. unfold Visualizer3D.start.
  destruct (Visualizer3D.isRunning (Page.v3d w)) eqn:Erun.
  - apply (invariant_same w); auto.
  - set (v := Visualizer3D.set_running true (Visualizer3D.animationId (Page.v3d w))
                (Page.v3d w)).
    assert (Hwf : Scene.well_formed v)
      by (apply (well_formed_same (Page.v3d w)); [reflexivity .. | assumption]).
    destruct (animate_schedule hw now v (Page.host w) (Page.analyzer w) (Page.rng w)
                Hwf eq_refl) as (res & v' & an' & g' & -> & Hr & Hi & Hwf').
    constructor; cbn; auto; try lia.
    + intros h cb Hin. apply elem_of_app in Hin as [Hin|Hin].
      * specialize (Hfresh _ _ Hin). lia.
      * apply list_elem_of_singleton in Hin. injection Hin as -> _. lia.
    + intros h k Hin. apply elem_of_app in Hin as [Hin|Hin]; [eauto|].
      apply list_elem_of_singleton in Hin. discriminate.
    + intros h Hin. apply elem_of_app in Hin as [Hin|Hin].
      * destruct (Hanim _ Hin). congruence.
      * apply list_elem_of_singleton in Hin. injection Hin as ->. auto.
    + intros h Hh. rewrite Hi in Hh. injection Hh as <-. lia.
Qed.

Lemma invariant_fire (handle : Z) (timestamp : JS.num) (hw : AudioAnalyzer.HwFrame)
    (now : Z) (w : Page.t) :
  invariant w -> invariant (Page.step (Page.Fire handle timestamp hw now) w).
Proof.
  intros Hinv. pose proof Hinv as [Hpool Hscene Hnext Hfresh Hloop Hanim Hh3].
  cbn [Page.step].
  destruct (Page.callback_of handle (Host.pending (Page.host w))) as [cb|] eqn:Ecb;
    [|assumption].
  apply callback_of_pending in Ecb.
  destruct cb as [k|].
  - destruct (Hloop _ _ Ecb) as (Hrun & Hk & Hc).
    unfold Page.run_loop. cbn [Page.closures Page.v2d Page.analyzer Page.rng Page.host].
    rewrite Hc. cbn [PerformanceUtils.isRunning].
    pose proof (render_length timestamp hw now (Page.v2d w) (Page.analyzer w) (Page.rng w))
      as Hlen.
    pose proof (render_keeps timestamp hw now (Page.v2d w) (Page.analyzer w) (Page.rng w))
      as [Hr' Hl'].
    destruct (Visualizer2D.render timestamp hw now (Page.v2d w) (Page.analyzer w)
                (Page.rng w)) as [[[res v] an] g].
    cbn [fst snd] in *.
    assert (Hnone : forall h k',
               (h, Host.LoopOf k')
               ∉ Host.pending (Host.cancelAnimationFrame handle (Page.host w))).
    { intros h k' Hin. apply cancel_subset in Hin as [Hin Hne]. simpl in Hne.
      destruct (Hloop _ _ Hin) as (_ & Hk' & Hc').
      assert (k' = k) by congruence. subst k'. rewrite Hc in Hc'. congruence. }
    destruct res as [[]|e].
    + cbn.
      constructor; cbn; auto; try lia.
      * intros h cb Hin. apply elem_of_app in Hin as [Hin|Hin].
        -- apply list_elem_of_filter in Hin as [_ Hin].
           specialize (Hfresh _ _ Hin). lia.
        -- apply list_elem_of_singleton in Hin. injection Hin as -> _. lia.
      * intros h k' Hin. apply elem_of_app in Hin as [Hin|Hin].
        -- exfalso. revert Hin. apply Hnone.
        -- apply list_elem_of_singleton in Hin. injection Hin as -> ->.
           repeat split; try congruence.
           apply list_lookup_insert_eq. eapply lookup_lt_Some; eauto.
      * intros h Hin. apply elem_of_app in Hin as [Hin|Hin].
        -- apply list_elem_of_filter in Hin as [_ Hin]. eauto.
        -- apply list_elem_of_singleton in Hin. discriminate.
    + constructor; cbn; auto; try lia.
      * intros h cb Hin. apply list_elem_of_filter in Hin as [_ Hin]. eauto.
      * intros h k' Hin. exfalso. revert Hin. apply Hnone.
      * intros h Hin. apply list_elem_of_filter in Hin as [_ Hin]. eauto.
  - destruct (Hanim _ Ecb) as (Hrun & Hid).
    unfold Page.run_animate. cbn [Page.closures Page.v3d Page.analyzer Page.rng Page.host].
    destruct (animate_schedule hw now (Page.v3d w)
                (Host.cancelAnimationFrame handle (Page.host w))
                (Page.analyzer w) (Page.rng w) Hscene Hrun)
      as (res & v' & an' & g' & -> & Hr & Hi & Hwf').
    constructor; cbn; auto; try lia.
    + intros h cb Hin. apply elem_of_app in Hin as [Hin|Hin].
      * apply list_elem_of_filter in Hin as [_ Hin]. specialize (Hfresh _ _ Hin). lia.
      * apply list_elem_of_singleton in Hin. injection Hin as -> _. lia.
    + intros h k Hin. apply elem_of_app in Hin as [Hin|Hin].
      * apply list_elem_of_filter in Hin as [_ Hin]. eauto.
      * apply list_elem_of_singleton in Hin. discriminate.
    + intros h Hin. apply elem_of_app in Hin as [Hin|Hin].
      * apply list_elem_of_filter in Hin as [Hne Hin]. simpl in Hne.
        destruct (Hanim _ Hin) as [_ Hid']. congruence.
      * apply list_elem_of_singleton in Hin. injection Hin as ->. auto.
    + intros h Hh. cbn in Hi. rewrite Hi in Hh. injection Hh as <-. lia.
Qed.

(** Every event keeps the invariant. *)
Lemma invariant_step (e : Page.event) (w : Page.t) :
  invariant w -> invariant (Page.step e w).
Proof.
  intros Hinv. pose proof Hinv as [Hpool Hscene Hnext Hfresh Hloop Hanim Hh3].
  destruct e.
  - apply (invariant_same w); auto.
  - apply (invariant_same w); auto.
  - apply (invariant_same w); auto.
  - apply (invariant_same w); auto.
    apply (well_formed_same (Page.v3d w)); [reflexivity .. | assumption].
  - cbn [Page.step]. unfold Visualizer2D.updateColorPalette.
    destruct (ColorUtils.generateMoodPalette mood energy); [|assumption].
    apply (invariant_same w); auto.
  - cbn [Page.step]. unfold Visualizer3D.updateColorPalette.
    destruct (ColorUtils.generateMoodPalette mood energy) as [p|] eqn:Ep; [|assumption].
    apply (invariant_same w); auto.
    destruct Hscene as [H1 H2 H3 H4]. constructor; auto. cbn.
    apply generateMoodPalette_ok_length in Ep. intros ->. discriminate.
  - apply (invariant_same w); auto.
  - now apply invariant_start2D.
  - now apply stop2D_spec.
  - now apply invariant_start3D.
  - now apply stop3D_spec.
  - now apply invariant_fire.
Qed.

Theorem invariant_run (events : list Page.event) (w : Page.t) :
  invariant w -> invariant (Page.run events w).
Proof.
  revert w. induction events as [|e events IH]; intros w Hinv; simpl; [assumption|].
  apply IH. now apply invariant_step.
Qed.

End PageReachable.

Lemma constructor2d_animationLoop (w hgt : JS.num) (g : Rng) :
  Visualizer2D.animationLoop (fst (Visualizer2D.constructor w hgt g)) = None.
Proof.
  unfold Visualizer2D.constructor, Visualizer2D.initializeParticles.
  cbn [Visualizer2D.maxParticles Visualizer2D.resize Visualizer2D.set_surface
       Visualizer2D.width Visualizer2D.height].
  generalize (Visualizer2D.pushParticles 150 w hgt [] g).
  intros [ps g']. reflexivity.
Qed.

(** C6: after the construction of the raster visualizer and after any
    sequence of events of the page (frames included) the pool holds exactly
    150 particles; a frame never changes the length of the pool, whether it
    completes or throws; the [forEach] of [renderParticles] rewrites every
    slot where it is when it completes, which it does on a series of numbers
    of [0,1] with a palette that is not empty and no negative size or pulse
    scale; when the drawing of a particle throws (a series value without a
    colour, a negative radius) the slots up to that particle are rewritten
    and the later ones stay as they were; and an expired particle gets, in
    its slot, its full life back and a position and a velocity from the
    next four random draws. *)
Theorem particle_pool {rounding : Rounding} :
  (forall (w hgt : JS.num) (g : Rng) (events : list Page.event),
      length (Visualizer2D.particles (Page.v2d (Page.run events (Page.initial w hgt g))))
      = 150%nat)
  /\ (forall timestamp hw now v an g,
         length (Visualizer2D.particles
                   (snd (fst (fst (Visualizer2D.render timestamp hw now v an g)))))
         = length (Visualizer2D.particles v))
  /\ (forall data v g,
         let r := Visualizer2D.renderParticles data v g in
         let rewritten i p :=
           exists gi,
             Visualizer2D.particles (snd (fst r)) !! i
             = Some (fst (Visualizer2D.updateParticle data (Visualizer2D.width v)
                            (Visualizer2D.height v) i p gi)) in
         length (Visualizer2D.particles (snd (fst r)))
         = length (Visualizer2D.particles v)
         /\ (fst (fst r) = Ok () ->
             forall i p, Visualizer2D.particles v !! i = Some p -> rewritten i p)
         /\ (forall e,
               fst (fst r) = Err e ->
               exists k,
                 (k < length (Visualizer2D.particles v))%nat
                 /\ (forall i p,
                       (i <= k)%nat -> Visualizer2D.particles v !! i = Some p ->
                       rewritten i p)
                 /\ (forall i,
                       (k < i)%nat ->
                       Visualizer2D.particles (snd (fst r)) !! i
                       = Visualizer2D.particles v !! i))
         /\ (Visualizer2D.colorPalette v <> [] ->
             data <> [] -> Forall (JS.within 0 1) data ->
             JS.nonneg (Visualizer2D.pulseScale v) ->
             Forall (fun p => JS.nonneg (Visualizer2D.size p)) (Visualizer2D.particles v) ->
             fst (fst r) = Ok ()))
  /\ (forall data w hgt index p g,
         (Visualizer2D.life p - Visualizer2D.decay p <=? #0) = true ->
         let p' := fst (Visualizer2D.updateParticle data w hgt index p g) in
         let r k := JS.Fin (draws g (used g + k)) in
         Visualizer2D.life p' = Visualizer2D.maxLife p
         /\ Visualizer2D.x p' = Spec.wrapped w (r 0%nat * w)
         /\ Visualizer2D.y p' = Spec.wrapped hgt (r 1%nat * hgt)
         /\ Visualizer2D.vx p' = (r 2%nat - #0.5) * #2
         /\ Visualizer2D.vy p' = (r 3%nat - #0.5) * #2
         /\ Visualizer2D.size p' = Visualizer2D.size p
         /\ Visualizer2D.maxLife p' = Visualizer2D.maxLife p
         /\ Visualizer2D.decay p' = Visualizer2D.decay p).
Proof.
  split; [|split; [|split]].
  - intros w hgt g events.
    apply (Schedule.inv_pool _ (invariant_run events _ (invariant_initial w hgt g))).
  - intros. apply render_length.
  - intros data v g. cbv zeta.
    pose proof (forEachParticle_slots data v 0 (Visualizer2D.particles v) g)
      as (Hlen & Hok & Herr).
    pose proof (forEachParticle_completes data v 0 (Visualizer2D.particles v) g) as Hdone.
    unfold Visualizer2D.renderParticles.
    destruct (Visualizer2D.forEachParticle _ _ _ _ _) as [[res ps] g'].
    cbn [fst snd Visualizer2D.particles Visualizer2D.set_particles
         Visualizer2D.colorPalette Visualizer2D.pulseScale] in *.
    split; [assumption|]. split; [|split].
    + intros Hres i p Hp. exact (Hok Hres i p Hp).
    + intros e He. exact (Herr e He).
    + intros Hne Hdata Hall Hq Hps. now apply Hdone.
  - intros data w hgt index p g Hexp. now apply updateParticle_respawn.
Qed.

(** C9: whatever has happened to the page, stopping a visualizer twice
    gives the same page as stopping it once, and after [stop] the
    visualizer is inactive: its running flag is false and no frame callback
    of it is scheduled (the scene visualizer also holds no handle).  This
    includes the page as constructed, where nothing was ever started, and
    there [stop] also leaves the callback queue as it was. *)
Theorem stop_idempotent {rounding : Rounding} (w hgt : JS.num) (g : Rng) (events : list Page.event) :
  let p := Page.run events (Page.initial w hgt g) in
  (Page.stop2D (Page.stop2D p) = Page.stop2D p /\ Schedule.idle2D (Page.stop2D p))
  /\ (Page.stop3D (Page.stop3D p) = Page.stop3D p /\ Schedule.idle3D (Page.stop3D p))
  /\ Page.host (Page.stop2D (Page.initial w hgt g)) = Host.initial
  /\ Page.host (Page.stop3D (Page.initial w hgt g)) = Host.initial.
Proof.
  intros p.
  assert (Hinv : Schedule.invariant p)
    by (apply invariant_run, invariant_initial).
  split; [|split; [|split]].
  - split; [apply stop2D_twice | now apply stop2D_spec].
  - split; [apply stop3D_twice | now apply stop3D_spec].
  - unfold Page.initial.
    pose proof (constructor2d_animationLoop w hgt g) as Hl.
    destruct (Visualizer2D.constructor w hgt g) as [v2 g1]. cbn [fst] in Hl.
    destruct (Visualizer3D.constructor g1) as [v3 g2].
    unfold Page.stop2D, Visualizer2D.stop. cbn [Page.v2d Page.closures Page.host].
    rewrite Hl. reflexivity.
  - unfold Page.initial.
    destruct (Visualizer2D.constructor w hgt g) as [v2 g1].
    pose proof (constructor3d_flags g1) as [_ Hid].
    destruct (Visualizer3D.constructor g1) as [v3 g2]. cbn [fst] in Hid.
    unfold Page.stop3D, Visualizer3D.stop. cbn [Page.v3d Page.host].
    rewrite Hid. reflexivity.
Qed.

(** C7: whatever has happened to the page, each variant construction of
    the scene visualizer succeeds and leaves exactly 64, 100, 20*32 = 640
    and 32*32 = 1024 objects for bars, sphere, tunnel and wave; every object
    of the previous collection has been disposed and is neither in the
    collection nor in the scene afterwards; and a switch of variant is one
    of these constructions. *)
Theorem variant_construction {rounding : Rounding} (w hgt : JS.num) (g : Rng) (events : list Page.event) :
  let v := Page.v3d (Page.run events (Page.initial w hgt g)) in
  (fst (Visualizer3D.createBarsGeometry v) = Ok ()
   /\ Scene.replaced v (snd (Visualizer3D.createBarsGeometry v)) 64 "bars")
  /\ (fst (Visualizer3D.createSphereGeometry v) = Ok ()
      /\ Scene.replaced v (snd (Visualizer3D.createSphereGeometry v)) 100 "sphere")
  /\ (fst (Visualizer3D.createTunnelGeometry v) = Ok ()
      /\ Scene.replaced v (snd (Visualizer3D.createTunnelGeometry v)) 640 "tunnel")
  /\ (fst (Visualizer3D.createWaveGeometry v) = Ok ()
      /\ Scene.replaced v (snd (Visualizer3D.createWaveGeometry v)) 1024 "wave")
  /\ (exists variant,
        variant ∈ Visualizer3D.geometries
        /\ fst (Visualizer3D.switchGeometry v) = Ok ()
        /\ Scene.replaced v (snd (Visualizer3D.switchGeometry v))
             (Scene.variant_count variant) variant).
Proof.
  intros v.
  assert (Hwf : Scene.well_formed v)
    by apply (Schedule.inv_scene _ (invariant_run events _ (invariant_initial w hgt g))).
  clearbody v.
  pose proof (build_spec "bars" _ 64 v bars_layout_adds Hwf) as (Bok & Brep & _).
  pose proof (build_spec "sphere" _ 100 v sphere_layout_adds Hwf) as (Sok & Srep & _).
  pose proof (build_spec "tunnel" _ 640 v tunnel_layout_adds Hwf) as (Tok & Trep & _).
  pose proof (build_spec "wave" _ 1024 v wave_layout_adds Hwf) as (Wok & Wrep & _).
  do 4 (split; [split; assumption|]).
  unfold Visualizer3D.switchGeometry.
  set (idx := Visualizer3D.indexOf (Visualizer3D.geometryType v) Visualizer3D.geometries 0).
  assert (Hidx : (idx = -1 \/ idx = 0 \/ idx = 1 \/ idx = 2 \/ idx = 3)%Z).
  { unfold idx, Visualizer3D.geometries. cbn [Visualizer3D.indexOf].
    repeat (destruct (String.eqb _ _); [lia|]). lia. }
  destruct Hidx as [-> | [-> | [-> | [-> | ->]]]]; simpl.
  - exists "bars"%string. split; [set_solver|]. split; assumption.
  - exists "sphere"%string. split; [set_solver|]. split; assumption.
  - exists "tunnel"%string. split; [set_solver|]. split; assumption.
  - exists "wave"%string. split; [set_solver|]. split; assumption.
  - exists "bars"%string. split; [set_solver|]. split; assumption.
Qed.

(** * Further properties of the code *)

(** ** utils.js: interpolation, range mapping, smooth step, noise and random *)

Section Interpolation.

Context {rounding : Rounding}.

Local Open Scope R_scope.

Lemma lerp_fin (a b f : R) :
  MathUtils.lerp (JS.Fin a) (JS.Fin b) (JS.Fin f) = JS.Fin (a + (b - a) * f).
Proof. unfold MathUtils.lerp. js_unfold. f_equal; lra. Qed.

Lemma clamp_unit (q : R) : 0 <= Rmax 0 (Rmin 1 q) <= 1.
Proof.
  unfold Rmin. destruct (Rle_dec 1 q); unfold Rmax;
    repeat match goal with
      | |- context [Rle_dec ?a ?b] => destruct (Rle_dec a b)
      end; lra.
Qed.

(** The rounding of a number between two integers stays between them. *)
Lemma rnd_between (x : R) (lo hi : Z) :
  (Z.abs lo <= 2 ^ 53)%Z -> (Z.abs hi <= 2 ^ 53)%Z ->
  IZR lo <= x <= IZR hi -> IZR lo <= rnd x <= IZR hi.
Proof.
  intros Hlo Hhi [H1 H2]. split.
  - rewrite <- (rnd_Z lo Hlo). now apply rnd_mono.
  - rewrite <- (rnd_Z hi Hhi). now apply rnd_mono.
Qed.

(** What [map] computes between two integer ranges: the differences of
    the ends are exact. *)
Lemma map_integer_fin (a b c d : Z) (v : R) :
  (a < b)%Z ->
  (Z.abs a <= 2 ^ 25)%Z -> (Z.abs b <= 2 ^ 25)%Z ->
  (Z.abs c <= 2 ^ 25)%Z -> (Z.abs d <= 2 ^ 25)%Z ->
  MathUtils.map (JS.Fin v) (JS.of_Z a) (JS.of_Z b) (JS.of_Z c) (JS.of_Z d)
  = JS.Fin (rnd (rnd (rnd (rnd (v - IZR a) * IZR (d - c)) / IZR (b - a)) + IZR c)).
Proof.
  intros Hab Ha Hb Hc Hd. unfold MathUtils.map, JS.of_Z.
  rewrite !fl_sub_fin, fl_mul_fin.
  assert (Edc : rnd (IZR d - IZR c) = IZR (d - c)).
  { rewrite <- minus_IZR. apply rnd_Z. lia. }
  assert (Eba : rnd (IZR b - IZR a) = IZR (b - a)).
  { rewrite <- minus_IZR. apply rnd_Z. lia. }
  rewrite Edc, Eba.
  assert (Hpos : 1 <= IZR (b - a)) by (apply IZR_le; lia).
  rewrite fl_div_fin by lra. now rewrite fl_add_fin.
Qed.

(** The polynomial of [smoothStep] on a clamped argument. *)
Lemma hermite_rounded (t : R) :
  0 <= t <= 1 ->
  exists s, (JS.Fin t * JS.Fin t * (#3 - #2 * JS.Fin t))%fl = JS.Fin s
            /\ 0 <= s /\ (t = 0 -> s = 0) /\ (t = 1 -> s = 1).
Proof.
  intros Ht. rewrite !fl_mul_fin, fl_sub_fin, fl_mul_fin.
  eexists. split; [reflexivity|].
  assert (H2 : 0 <= rnd (2 * t) <= 2).
  { apply (rnd_between _ 0 2); [now vm_compute | now vm_compute | lra]. }
  assert (H3 : 1 <= rnd (3 - rnd (2 * t)) <= 3).
  { apply (rnd_between _ 1 3); [now vm_compute | now vm_compute | lra]. }
  assert (Hq : 0 <= rnd (t * t)) by (apply rnd_nonneg; nra).
  split; [apply rnd_nonneg; nra|]. split.
  - intros ->. replace (0 * 0) with 0 by lra. rewrite rnd_0.
    replace (0 * _) with 0 by lra. apply rnd_0.
  - intros ->. replace (1 * 1) with 1 by lra. rewrite rnd_1.
    replace (2 * 1) with (IZR 2) by lra. rewrite (rnd_Z 2) by now vm_compute.
    replace (3 - IZR 2) with 1 by lra. rewrite rnd_1.
    replace (1 * 1) with 1 by lra. apply rnd_1.
Qed.

End Interpolation.

(** X2.  Between two ranges with integer ends of at most 25 bits, the
    input range not a single point and the output range increasing, [map]
    sends the lower end to the lower end and the upper end to the upper
    end, and a value of the input range to a number of the output range,
    whatever the rounding; on an input range that is a single point the
    value at that point is [NaN]. *)
Theorem map_integer_ranges {rounding : Rounding} (a b c d : Z) (v : R) :
  (a < b)%Z -> (c <= d)%Z ->
  (Z.abs a <= 2 ^ 25)%Z -> (Z.abs b <= 2 ^ 25)%Z ->
  (Z.abs c <= 2 ^ 25)%Z -> (Z.abs d <= 2 ^ 25)%Z ->
  MathUtils.map (JS.of_Z a) (JS.of_Z a) (JS.of_Z b) (JS.of_Z c) (JS.of_Z d) = JS.of_Z c
  /\ MathUtils.map (JS.of_Z b) (JS.of_Z a) (JS.of_Z b) (JS.of_Z c) (JS.of_Z d) = JS.of_Z d
  /\ ((IZR a <= v <= IZR b)%R ->
      JS.within (IZR c) (IZR d)
        (MathUtils.map (JS.Fin v) (JS.of_Z a) (JS.of_Z b) (JS.of_Z c) (JS.of_Z d)))
  /\ MathUtils.map (JS.of_Z a) (JS.of_Z a) (JS.of_Z a) (JS.of_Z c) (JS.of_Z d) = JS.NaN.
Proof.
  intros Hab Hcd Ha Hb Hc Hd.
  assert (Hpos : (1 <= IZR (b - a))%R) by (apply IZR_le; lia).
  assert (Hspan : (0 <= IZR (d - c))%R) by (apply IZR_le; lia).
  split; [|split; [|split]].
  - unfold JS.of_Z at 1. rewrite map_integer_fin by assumption.
    replace (IZR a - IZR a)%R with 0%R by lra. rewrite rnd_0.
    replace (0 * IZR (d - c))%R with 0%R by lra. rewrite rnd_0.
    replace (0 / IZR (b - a))%R with 0%R by (unfold Rdiv; lra). rewrite rnd_0.
    replace (0 + IZR c)%R with (IZR c) by lra. unfold JS.of_Z. f_equal. apply rnd_Z. lia.
  - unfold JS.of_Z at 1. rewrite map_integer_fin by assumption.
    rewrite <- minus_IZR, (rnd_Z (b - a)) by lia.
    rewrite <- mult_IZR, (rnd_Z ((b - a) * (d - c))) by nia.
    replace (IZR ((b - a) * (d - c)) / IZR (b - a))%R with (IZR (d - c)).
    2:{ rewrite mult_IZR. field. lra. }
    rewrite (rnd_Z (d - c)) by lia.
    rewrite <- plus_IZR. replace (d - c + c)%Z with d by lia.
    unfold JS.of_Z. f_equal. apply rnd_Z. lia.
  - intros Hv. rewrite map_integer_fin by assumption. unfold JS.within.
    assert (H1 : (0 <= rnd (v - IZR a) <= IZR (b - a))%R).
    { replace 0%R with (IZR 0) by reflexivity.
      apply rnd_between; [now vm_compute | lia | rewrite minus_IZR; simpl; lra]. }
    assert (H2 : (0 <= rnd (rnd (v - IZR a) * IZR (d - c)) <= IZR ((b - a) * (d - c)))%R).
    { replace 0%R with (IZR 0) by reflexivity.
      apply rnd_between; [now vm_compute | nia | rewrite mult_IZR; simpl; nra]. }
    assert (H3 : (0 <= rnd (rnd (rnd (v - IZR a) * IZR (d - c)) / IZR (b - a))
                  <= IZR (d - c))%R).
    { replace 0%R with (IZR 0) by reflexivity.
      apply rnd_between; [now vm_compute | lia |].
      assert (Hi : (0 < / IZR (b - a))%R) by (apply Rinv_0_lt_compat; lra).
      rewrite mult_IZR in H2. simpl. unfold Rdiv. split; [nra|].
      apply (Rmult_le_reg_r (IZR (b - a))); [lra|].
      rewrite Rmult_assoc, Rinv_l by lra. lra. }
    pose proof (minus_IZR d c) as Edc.
    apply rnd_between; [lia | lia | lra].
  - unfold MathUtils.map, JS.of_Z. rewrite !fl_sub_fin, fl_mul_fin.
    replace (IZR a - IZR a)%R with 0%R by lra. rewrite rnd_0.
    replace (0 * _)%R with 0%R by lra. rewrite rnd_0.
    unfold Fl.div, JS.div. rewrite (proj2 (Reqb_true 0 0) eq_refl). reflexivity.
Qed.

Section MapIntegerRangesRun.

Local Existing Instance real_arithmetic.

Lemma map_integer_ranges_witness :
  MathUtils.map (JS.of_Z 0) (JS.of_Z 0) (JS.of_Z 10) (JS.of_Z 0) (JS.of_Z 1) = JS.of_Z 0
  /\ MathUtils.map (JS.of_Z 10) (JS.of_Z 0) (JS.of_Z 10) (JS.of_Z 0) (JS.of_Z 1)
     = JS.of_Z 1
  /\ ((IZR 0 <= 5 <= IZR 10)%R ->
      JS.within (IZR 0) (IZR 1)
        (MathUtils.map #5 (JS.of_Z 0) (JS.of_Z 10) (JS.of_Z 0) (JS.of_Z 1)))
  /\ MathUtils.map (JS.of_Z 0) (JS.of_Z 0) (JS.of_Z 0) (JS.of_Z 0) (JS.of_Z 1) = JS.NaN.
Proof. apply (map_integer_ranges 0 10 0 1 5); lia. Defined.

End MapIntegerRangesRun.

(** X3.  Between two integer edges [e0 < e1] of at most 52 bits
    [smoothStep] is a number that is not negative, 0 up to the lower edge
    and 1 from the upper edge on, whatever the rounding; with two equal
    edges its value at the edge is [NaN]. *)
Theorem smoothStep_edges {rounding : Rounding} (e0 e1 : Z) (x : R) :
  (e0 < e1)%Z -> (Z.abs e0 <= 2 ^ 52)%Z -> (Z.abs e1 <= 2 ^ 52)%Z ->
  (exists s : R,
     MathUtils.smoothStep (JS.of_Z e0) (JS.of_Z e1) (JS.Fin x) = JS.Fin s
     /\ (0 <= s)%R
     /\ ((x <= IZR e0)%R -> s = 0%R)
     /\ ((IZR e1 <= x)%R -> s = 1%R))
  /\ MathUtils.smoothStep (JS.of_Z e0) (JS.of_Z e0) (JS.of_Z e0) = JS.NaN.
Proof.
  intros Hlt H0 H1. split.
  - unfold MathUtils.smoothStep, JS.of_Z. rewrite !fl_sub_fin.
    assert (Ed : rnd (IZR e1 - IZR e0) = IZR (e1 - e0)).
    { rewrite <- minus_IZR. apply rnd_Z. lia. }
    assert (Hd : (1 <= IZR (e1 - e0))%R) by (apply IZR_le; lia).
    rewrite Ed, fl_div_fin by lra.
    set (q := rnd (rnd (x - IZR e0) / IZR (e1 - e0))).
    rewrite !min_fin, !max_fin.
    set (t := Rmax 0 (Rmin 1 q)).
    assert (Ht : (0 <= t <= 1)%R) by apply clamp_unit.
    destruct (hermite_rounded t Ht) as (s & Es & Hs0 & Hz & Ho).
    cbv zeta. exists s. split; [exact Es|]. split; [exact Hs0|]. split.
    + intros Hx. apply Hz.
      assert (Hn : (rnd (x - IZR e0) <= 0)%R).
      { rewrite <- rnd_0. apply rnd_mono. lra. }
      assert (Hq : (q <= 0)%R).
      { unfold q. rewrite <- rnd_0. apply rnd_mono.
        unfold Rdiv. assert (0 < / IZR (e1 - e0))%R by (apply Rinv_0_lt_compat; lra). nra. }
      unfold t, Rmax, Rmin. destruct (Rle_dec 1 q); destruct (Rle_dec 0 _); lra.
    + intros Hx. apply Ho.
      assert (Hn : (IZR (e1 - e0) <= rnd (x - IZR e0))%R).
      { rewrite <- Ed. apply rnd_mono. lra. }
      assert (Hq : (1 <= q)%R).
      { unfold q. rewrite <- rnd_1. apply rnd_mono.
        apply (Rmult_le_reg_r (IZR (e1 - e0))); [lra|].
        unfold Rdiv. rewrite Rmult_assoc, Rinv_l by lra. lra. }
      unfold t, Rmax, Rmin. destruct (Rle_dec 1 q); destruct (Rle_dec 0 _); lra.
  - unfold MathUtils.smoothStep, JS.of_Z. rewrite !fl_sub_fin.
    replace (IZR e0 - IZR e0)%R with 0%R by lra. rewrite rnd_0.
    unfold Fl.div, JS.div. rewrite (proj2 (Reqb_true 0 0) eq_refl). reflexivity.
Qed.

Section SmoothStepEdgesRun.

Local Existing Instance real_arithmetic.

Lemma smoothStep_edges_witness :
  (exists s : R,
     MathUtils.smoothStep (JS.of_Z 0) (JS.of_Z 1) #2 = JS.Fin s
     /\ (0 <= s)%R
     /\ ((2 <= IZR 0)%R -> s = 0%R)
     /\ ((IZR 1 <= 2)%R -> s = 1%R))
  /\ MathUtils.smoothStep (JS.of_Z 0) (JS.of_Z 0) (JS.of_Z 0) = JS.NaN.
Proof. apply (smoothStep_edges 0 1 2); lia. Defined.

End SmoothStepEdgesRun.

(** X4.  [noise] of two arguments below 1e300 in magnitude, where no
    product overflows, is a number from 0 to 1, whatever the rounding; the
    upper end is reached when the difference to the floor rounds up. *)
Theorem noise_unit_interval {rounding : Rounding} (x y : R) :
  (Rabs x <= 1e300)%R -> (Rabs y <= 1e300)%R ->
  exists r : R, MathUtils.noise (JS.Fin x) (JS.Fin y) = JS.Fin r /\ (0 <= r <= 1)%R.
Proof.
  intros _ _.
  unfold MathUtils.noise, Fl.lit, Fl.sin. rewrite !fl_mul_fin, fl_add_fin.
  unfold JS.Math_sin, Fl.round. rewrite fl_mul_fin. cbv zeta.
  set (n := rnd (rnd (sin _) * rnd 43758.5453)).
  change (JS.Math_floor (JS.Fin n)) with (JS.Fin (IZR (Zfloor n))).
  rewrite fl_sub_fin. eexists. split; [reflexivity|].
  pose proof (Zfloor_bound n). apply rnd_unit. lra.
Qed.

Section NoiseUnitIntervalRun.

Local Existing Instance real_arithmetic.

Lemma noise_unit_interval_witness :
  exists r : R, MathUtils.noise #1 #0 = JS.Fin r /\ (0 <= r <= 1)%R.
Proof.
  apply (noise_unit_interval 1 0).
  - rewrite Rabs_R1. lra.
  - rewrite Rabs_R0. lra.
Defined.

End NoiseUnitIntervalRun.

(** X5.  When [Math.random] draws from [0,1), [randomInt] of two integers
    [lo <= hi] is an integer from [lo] to [hi], and [random] of two
    integers of at most 52 bits is a number from [lo] to [hi], both ends
    included, whatever the rounding; each uses up one draw. *)
Theorem random_in_range {rounding : Rounding} (lo hi : Z) (g : Rng) :
  (lo <= hi)%Z -> (Z.abs lo <= 2 ^ 52)%Z -> (Z.abs hi <= 2 ^ 52)%Z ->
  (0 <= draws g (used g) < 1)%R ->
  (exists n : Z,
     RandomUtils.randomInt (JS.of_Z lo) (JS.of_Z hi) g
     = (JS.of_Z n, {| draws := draws g; used := S (used g) |})
     /\ (lo <= n <= hi)%Z)
  /\ (exists r : R,
        RandomUtils.random (JS.of_Z lo) (JS.of_Z hi) g
        = (JS.Fin r, {| draws := draws g; used := S (used g) |})
        /\ (IZR lo <= r <= IZR hi)%R).
Proof.
  intros Hle Hlo Hhi [Hr0 Hr1]. set (r := draws g (used g)) in *.
  assert (Hspan : (0 <= IZR hi - IZR lo)%R) by (apply IZR_le in Hle; lra).
  split.
  - unfold RandomUtils.randomInt, Math_random. fold r.
    unfold JS.of_Z, JS.sub, JS.add, JS.neg, JS.mul, JS.Math_floor.
    set (k := Zfloor (r * (IZR hi + - IZR lo + 1))).
    exists (k + lo)%Z. split; [now rewrite plus_IZR|].
    assert (Hk0 : (0 <= k)%Z) by (apply Zfloor_lub; simpl; nra).
    assert (Hk1 : (k < hi - lo + 1)%Z).
    { apply lt_IZR. pose proof (Zfloor_bound (r * (IZR hi + - IZR lo + 1))) as Hb.
      fold k in Hb. rewrite plus_IZR, minus_IZR. simpl. nra. }
    lia.
  - unfold RandomUtils.random, Math_random. fold r.
    unfold JS.of_Z. rewrite fl_sub_fin, fl_mul_fin, fl_add_fin.
    eexists. split; [reflexivity|].
    assert (Ed : rnd (IZR hi - IZR lo) = IZR (hi - lo)).
    { rewrite <- minus_IZR. apply rnd_Z. lia. }
    rewrite Ed.
    assert (Hp : (0 <= rnd (r * IZR (hi - lo)) <= IZR (hi - lo))%R).
    { replace 0%R with (IZR 0) by reflexivity.
      apply rnd_between; [now vm_compute | lia | rewrite minus_IZR; simpl; nra]. }
    pose proof (minus_IZR hi lo) as Ehl.
    apply rnd_between; [lia | lia | lra].
Qed.

Section RandomInRangeRun.

Local Existing Instance real_arithmetic.

Lemma random_in_range_witness :
  (exists n : Z,
     RandomUtils.randomInt (JS.of_Z 1) (JS.of_Z 6) Runs.coin
     = (JS.of_Z n, {| draws := draws Runs.coin; used := S (used Runs.coin) |})
     /\ (1 <= n <= 6)%Z)
  /\ (exists r : R,
        RandomUtils.random (JS.of_Z 1) (JS.of_Z 6) Runs.coin
        = (JS.Fin r, {| draws := draws Runs.coin; used := S (used Runs.coin) |})
        /\ (IZR 1 <= r <= IZR 6)%R).
Proof. apply (random_in_range 1 6 Runs.coin); [lia | lia | lia | simpl; lra]. Defined.

End RandomInRangeRun.

(** ** utils.js: colours *)

(** Decide the comparisons of the goal from the inside out, reducing the
    number model on the finite values that appear. *)
Ltac js_cases :=
  repeat (cbv beta iota zeta;
          match goal with
          | |- context [Rlt_dec ?a ?b] =>
              lazymatch a with context [sumbool_rec] => fail | context [Rlt_dec] => fail
              | context [Rle_dec] => fail | context [Req_dec_T] => fail | _ =>
              lazymatch b with context [Rlt_dec] => fail
              | context [Rle_dec] => fail | context [Req_dec_T] => fail | _ =>
              destruct (Rlt_dec a b); try (exfalso; lra) end end
          | |- context [Rle_dec ?a ?b] =>
              lazymatch a with context [Rlt_dec] => fail
              | context [Rle_dec] => fail | context [Req_dec_T] => fail | _ =>
              lazymatch b with context [Rlt_dec] => fail
              | context [Rle_dec] => fail | context [Req_dec_T] => fail | _ =>
              destruct (Rle_dec a b); try (exfalso; lra) end end
          | |- context [Req_dec_T ?a ?b] =>
              lazymatch a with context [Rlt_dec] => fail
              | context [Rle_dec] => fail | context [Req_dec_T] => fail | _ =>
              lazymatch b with context [Rlt_dec] => fail
              | context [Rle_dec] => fail | context [Req_dec_T] => fail | _ =>
              destruct (Req_dec_T a b); try (exfalso; lra) end end
          end);
  cbv beta iota zeta.

Section Colours.

Context {rounding : Rounding}.
Import ColorUtils Channel.
Local Open Scope R_scope.

Lemma div_fin (a b : R) : b <> 0 -> (JS.Fin a / JS.Fin b)%js = JS.Fin (a / b).
Proof.
  intros Hb. unfold JS.div.
  assert (E : JS.Reqb b 0 = false) by (now apply Reqb_false). now rewrite E.
Qed.

Lemma ltb_fin (a b : R) : (JS.Fin a <? JS.Fin b)%js = JS.Rltb a b.
Proof. reflexivity. Qed.

Lemma gtb_fin (a b : R) : (JS.Fin a >? JS.Fin b)%js = JS.Rltb b a.
Proof. reflexivity. Qed.

Lemma hue2rgb_fin (p q t : R) :
  hue2rgb (JS.Fin p) (JS.Fin q) (JS.Fin t) = JS.Fin (hue p q t).
Proof.
  unfold hue2rgb, hue, JS.gtb, JS.ltb, JS.sub, JS.add, JS.neg, JS.mul, JS.div,
    JS.Rltb, JS.Reqb.
  js_cases; f_equal; lra.
Qed.

Lemma hue_between (p q t : R) : p <= q -> -1 <= t <= 2 -> p <= hue p q t <= q.
Proof.
  intros Hpq Ht. unfold hue.
  destruct (Rlt_dec t 0); cbv zeta.
  - destruct (Rlt_dec 1 (t + 1)); [lra|].
    repeat match goal with
      | |- context [Rlt_dec ?a ?b] => destruct (Rlt_dec a b)
      end; nra.
  - destruct (Rlt_dec 1 t);
      repeat match goal with
        | |- context [Rlt_dec ?a ?b] => destruct (Rlt_dec a b)
        end; nra.
Qed.


Lemma hslToRgb_fin (h s l : R) :
  let q := Channel.chroma_q (s / 100) (l / 100) in
  let p := 2 * (l / 100) - q in
  hslToRgb (JS.Fin h) (JS.Fin s) (JS.Fin l)
  = (JS.Math_round (JS.Fin (hue p q (h / 360 + 1 / 3) * 255)),
     JS.Math_round (JS.Fin (hue p q (h / 360) * 255)),
     JS.Math_round (JS.Fin (hue p q (h / 360 - 1 / 3) * 255))).
Proof.
  cbv zeta. unfold hslToRgb. rewrite !div_fin by lra.
  rewrite ltb_fin. unfold Channel.chroma_q, JS.Rltb.
  destruct (Rlt_dec (l / 100) 0.5).
  - change (JS.Fin (l / 100) * (#1 + JS.Fin (s / 100)))%js
      with (JS.Fin (l / 100 * (1 + s / 100))).
    change (#2 * JS.Fin (l / 100) - JS.Fin (l / 100 * (1 + s / 100)))%js
      with (JS.Fin (2 * (l / 100) + - (l / 100 * (1 + s / 100)))).
    change (JS.Fin (h / 360) + JS.Fin (1 / 3))%js with (JS.Fin (h / 360 + 1 / 3)).
    change (JS.Fin (h / 360) - JS.Fin (1 / 3))%js with (JS.Fin (h / 360 + - (1 / 3))).
    rewrite !hue2rgb_fin. reflexivity.
  - change (JS.Fin (l / 100) + JS.Fin (s / 100) - JS.Fin (l / 100) * JS.Fin (s / 100))%js
      with (JS.Fin (l / 100 + s / 100 + - (l / 100 * (s / 100)))).
    change (#2 * JS.Fin (l / 100) - JS.Fin (l / 100 + s / 100 + - (l / 100 * (s / 100))))%js
      with (JS.Fin (2 * (l / 100) + - (l / 100 + s / 100 + - (l / 100 * (s / 100))))).
    change (JS.Fin (h / 360) + JS.Fin (1 / 3))%js with (JS.Fin (h / 360 + 1 / 3)).
    change (JS.Fin (h / 360) - JS.Fin (1 / 3))%js with (JS.Fin (h / 360 + - (1 / 3))).
    rewrite !hue2rgb_fin. reflexivity.
Qed.

Lemma round_channel (r : R) : 0 <= r <= 1 -> Channel.valid (JS.Math_round (JS.Fin (r * 255))).
Proof.
  intros Hr. exists (Zfloor (r * 255 + / 2)). split; [reflexivity|]. split.
  - apply Zfloor_lub. simpl. lra.
  - assert (H : (Zfloor (r * 255 + / 2) <= Zfloor (IZR 255 + / 2))%Z)
      by (apply Zfloor_le; lra).
    rewrite (Zfloor_eq 255 (IZR 255 + / 2)) in H by lra. exact H.
Qed.

Lemma round_integer (n : Z) : JS.Math_round (JS.of_Z n) = JS.of_Z n.
Proof.
  unfold JS.Math_round, JS.of_Z. f_equal. f_equal. apply Zfloor_eq. lra.
Qed.

Lemma chroma_bounds (s l : R) :
  0 <= s <= 1 -> 0 <= l <= 1 ->
  0 <= 2 * l - Channel.chroma_q s l /\ 2 * l - Channel.chroma_q s l <= Channel.chroma_q s l /\ Channel.chroma_q s l <= 1.
Proof.
  intros Hs Hl. unfold Channel.chroma_q. destruct (Rlt_dec l 0.5); repeat split; nra.
Qed.

Lemma hslToRgb_valid (h s l : R) :
  0 <= h <= 360 -> 0 <= s <= 100 -> 0 <= l <= 100 ->
  Channel.rgb_valid (hslToRgb (JS.Fin h) (JS.Fin s) (JS.Fin l)).
Proof.
  intros Hh Hs Hl. rewrite hslToRgb_fin. cbv zeta.
  destruct (chroma_bounds (s / 100) (l / 100)) as (Hp0 & Hpq & Hq1); [lra | lra |].
  set (q := Channel.chroma_q (s / 100) (l / 100)) in *.
  set (p := 2 * (l / 100) - q) in *.
  repeat split; cbn [fst snd]; apply round_channel.
  - pose proof (hue_between p q (h / 360 + 1 / 3) Hpq ltac:(lra)). lra.
  - pose proof (hue_between p q (h / 360) Hpq ltac:(lra)). lra.
  - pose proof (hue_between p q (h / 360 - 1 / 3) Hpq ltac:(lra)). lra.
Qed.

Lemma clamp_between (lo hi x : R) :
  lo <= hi ->
  exists r, JS.Math_max (JS.Fin lo) (JS.Math_min (JS.Fin hi) (JS.Fin x)) = JS.Fin r
            /\ lo <= r <= hi.
Proof.
  intros Hle. unfold JS.Math_min, JS.Math_max, JS.ltb, JS.Rltb.
  js_cases; eexists; (split; [reflexivity | lra]).
Qed.

Lemma palettes_entry (mood : string) (base : list HSL) :
  palettes !! mood = Some base -> length base = 4%nat /\ Forall base_colour base.
Proof.
  intros H. unfold palettes in H. apply elem_of_list_to_map_2 in H.
  repeat (apply elem_of_cons in H as [H|H];
          [injection H as -> ->; split; [reflexivity|];
           repeat constructor; eexists _, _, _; (split; [reflexivity | lia]) |]).
  now apply elem_of_nil in H.
Qed.

Lemma adjust_valid (e : R) (c : HSL) :
  base_colour c -> Channel.rgb_valid (adjust (JS.Fin e) c).
Proof.
  intros (hz & sz & lz & -> & Hh). unfold adjust, hsl. cbn [h s l].
  unfold JS.of_Z.
  change (JS.Fin (IZR sz) * (#0.5 + JS.Fin e * #0.5))%js
    with (JS.Fin (IZR sz * (0.5 + e * 0.5))).
  change (JS.Fin (IZR lz) * (#0.6 + JS.Fin e * #0.4))%js
    with (JS.Fin (IZR lz * (0.6 + e * 0.4))).
  destruct (clamp_between 20 100 (IZR sz * (0.5 + e * 0.5)) ltac:(lra)) as (s' & -> & Hs).
  destruct (clamp_between 30 80 (IZR lz * (0.6 + e * 0.4)) ltac:(lra)) as (l' & -> & Hl).
  apply hslToRgb_valid; [|lra|lra].
  destruct Hh as [H0 H1]. apply IZR_le in H0, H1. lra.
Qed.

Lemma generateMoodPalette_valid (mood : string) (e : R) (p : list RGB) :
  generateMoodPalette mood (JS.Fin e) = Ok p ->
  length p = 4%nat /\ Forall Channel.rgb_valid p.
Proof.
  assert (Hbase : forall base, length base = 4%nat /\ Forall base_colour base ->
            length (map (adjust (JS.Fin e)) base) = 4%nat
            /\ Forall Channel.rgb_valid (map (adjust (JS.Fin e)) base)).
  { intros base [Hlen Hall]. split; [now rewrite length_map|].
    apply Forall_map. eapply Forall_impl; [exact Hall|]. intros c. apply adjust_valid. }
  unfold generateMoodPalette, get_palettes at 1.
  destruct (palettes !! mood) as [base|] eqn:Hm.
  - cbn [or_else]. intros [= <-]. apply Hbase, (palettes_entry mood), Hm.
  - destruct (decide (mood ∈ Object_prototype)); cbn [or_else]; [discriminate|].
    destruct (palettes_known "neutral") as (base & Hn & _).
    { apply (bool_decide_unpack _). vm_compute. exact I. }
    unfold get_palettes. rewrite Hn.
    intros [= <-]. apply Hbase, (palettes_entry "neutral"), Hn.
Qed.

End Colours.

Section Moods.

Context {rounding : Rounding}.
Import AIIntegration.

Lemma validateMood_valid (m : string) : validateMood m ∈ Spec.known_moods.
Proof.
  unfold validateMood.
  destruct (List.existsb (String.eqb m) validMoods) eqn:E.
  - apply List.existsb_exists in E as (x & Hx & Heq).
    apply String.eqb_eq in Heq. subst x. now apply list_elem_of_In.
  - apply (bool_decide_unpack _). vm_compute. exact I.
Qed.

Lemma validateMood_fixes (m : string) : m ∈ validMoods -> validateMood m = m.
Proof.
  intros H. unfold validateMood.
  assert (E : List.existsb (String.eqb m) validMoods = true).
  { apply List.existsb_exists. exists m. split; [now apply list_elem_of_In|].
    apply String.eqb_refl. }
  now rewrite E.
Qed.

End Moods.

(** X6.  For a hue from 0 to 360 and a saturation and a lightness from 0
    to 100, every channel that [hslToRgb] returns is an integer from 0 to
    255; the three primary hues at full saturation and half lightness give
    pure red, green and blue. *)
Theorem hslToRgb_channels (h s l : R) :
  (0 <= h <= 360)%R -> (0 <= s <= 100)%R -> (0 <= l <= 100)%R ->
  Channel.rgb_valid (ColorUtils.hslToRgb (JS.Fin h) (JS.Fin s) (JS.Fin l))
  /\ ColorUtils.hslToRgb #0 #100 #50 = (#255, #0, #0)
  /\ ColorUtils.hslToRgb #120 #100 #50 = (#0, #255, #0)
  /\ ColorUtils.hslToRgb #240 #100 #50 = (#0, #0, #255).
Proof.
  intros Hh Hs Hl. split; [now apply hslToRgb_valid|].
  assert (R0 : forall x : R, x = 0%R -> JS.Math_round (JS.Fin (x * 255)) = #0).
  { intros x ->. unfold JS.Math_round. f_equal. f_equal. apply (Zfloor_eq 0). lra. }
  assert (R1 : forall x : R, x = 1%R -> JS.Math_round (JS.Fin (x * 255)) = #255).
  { intros x ->. unfold JS.Math_round. f_equal. f_equal. apply (Zfloor_eq 255). lra. }
  assert (Q : Channel.chroma_q (100 / 100) (50 / 100) = 1%R).
  { unfold Channel.chroma_q. destruct (Rlt_dec (50 / 100) 0.5); lra. }
  repeat split; rewrite hslToRgb_fin; cbv zeta; rewrite Q;
    repeat f_equal; first [apply R0 | apply R1]; unfold Channel.hue; js_cases; lra.
Qed.

Lemma hslToRgb_channels_witness :
  Channel.rgb_valid (ColorUtils.hslToRgb #210 #60 #70)
  /\ ColorUtils.hslToRgb #0 #100 #50 = (#255, #0, #0)
  /\ ColorUtils.hslToRgb #120 #100 #50 = (#0, #255, #0)
  /\ ColorUtils.hslToRgb #240 #100 #50 = (#0, #0, #255).
Proof. apply (hslToRgb_channels 210 60 70); lra. Defined.


(** X8.  Between two colours whose channels are integers from 0 to 255,
    [interpolateColor] with a factor from 0 to 1 gives such a colour again;
    factor 0 gives the first colour and factor 1 the second. *)
Theorem interpolateColor_between (color1 color2 : ColorUtils.RGB) (factor : R) :
  Channel.rgb_valid color1 -> Channel.rgb_valid color2 -> (0 <= factor <= 1)%R ->
  Channel.rgb_valid (ColorUtils.interpolateColor color1 color2 (JS.Fin factor))
  /\ ColorUtils.interpolateColor color1 color2 #0 = color1
  /\ ColorUtils.interpolateColor color1 color2 #1 = color2.
Proof.
  intros H1 H2 Hf.
  destruct color1 as [[r1 g1] b1], color2 as [[r2 g2] b2].
  unfold Channel.rgb_valid in H1, H2. cbn [fst snd] in H1, H2.
  destruct H1 as ((n1 & -> & Hn1) & (n2 & -> & Hn2) & (n3 & -> & Hn3)).
  destruct H2 as ((m1 & -> & Hm1) & (m2 & -> & Hm2) & (m3 & -> & Hm3)).
  assert (Hmix : forall n m : Z, (0 <= n <= 255)%Z -> (0 <= m <= 255)%Z ->
            Channel.valid (JS.Math_round (JS.of_Z n + (JS.of_Z m - JS.of_Z n) * JS.Fin factor))).
  { intros n m [Hn0 Hn1'] [Hm0 Hm1']. apply IZR_le in Hn0, Hn1', Hm0, Hm1'.
    unfold JS.of_Z, JS.sub, JS.add, JS.neg, JS.mul.
    replace (IZR n + (IZR m + - IZR n) * factor)%R
      with (((IZR n + (IZR m - IZR n) * factor) / 255) * 255)%R by (field; lra).
    apply round_channel.
    assert (0 <= IZR n + (IZR m - IZR n) * factor <= 255)%R by nra.
    split.
    - apply Rmult_le_pos; lra.
    - apply (Rmult_le_reg_r 255); [lra|]. unfold Rdiv. rewrite Rmult_assoc, Rinv_l; lra. }
  assert (Hfirst : forall n m : Z,
            JS.Math_round (JS.of_Z n + (JS.of_Z m - JS.of_Z n) * #0) = JS.of_Z n).
  { intros n m. transitivity (JS.Math_round (JS.of_Z n)); [|apply round_integer].
    f_equal. unfold JS.of_Z, JS.sub, JS.add, JS.neg, JS.mul. f_equal. lra. }
  assert (Hsecond : forall n m : Z,
            JS.Math_round (JS.of_Z n + (JS.of_Z m - JS.of_Z n) * #1) = JS.of_Z m).
  { intros n m. transitivity (JS.Math_round (JS.of_Z m)); [|apply round_integer].
    f_equal. unfold JS.of_Z, JS.sub, JS.add, JS.neg, JS.mul. f_equal. lra. }
  unfold ColorUtils.interpolateColor. split; [|split].
  - repeat split; cbn [fst snd]; now apply Hmix.
  - now rewrite !Hfirst.
  - now rewrite !Hsecond.
Qed.

Lemma interpolateColor_between_witness :
  Channel.rgb_valid (ColorUtils.interpolateColor (JS.of_Z 0, JS.of_Z 0, JS.of_Z 0)
                       (JS.of_Z 255, JS.of_Z 255, JS.of_Z 255) (JS.Fin (1 / 2)))
  /\ ColorUtils.interpolateColor (JS.of_Z 0, JS.of_Z 0, JS.of_Z 0)
        (JS.of_Z 255, JS.of_Z 255, JS.of_Z 255) #0
     = (JS.of_Z 0, JS.of_Z 0, JS.of_Z 0)
  /\ ColorUtils.interpolateColor (JS.of_Z 0, JS.of_Z 0, JS.of_Z 0)
        (JS.of_Z 255, JS.of_Z 255, JS.of_Z 255) #1
     = (JS.of_Z 255, JS.of_Z 255, JS.of_Z 255).
Proof.
  apply (interpolateColor_between (JS.of_Z 0, JS.of_Z 0, JS.of_Z 0)
           (JS.of_Z 255, JS.of_Z 255, JS.of_Z 255) (1 / 2)).
  - repeat split; exists 0%Z; (split; [reflexivity | lia]).
  - repeat split; exists 255%Z; (split; [reflexivity | lia]).
  - lra.
Defined.

(** X9.  [validateMood] returns one of the five moods and leaves each of
    them as it is; on its result [generateMoodPalette] never throws, for
    any finite energy: it returns four colours whose channels are integers
    from 0 to 255. *)
Theorem validated_palette (mood : string) (energy : R) :
  AIIntegration.validateMood mood ∈ AIIntegration.validMoods
  /\ Forall (fun m => AIIntegration.validateMood m = m) AIIntegration.validMoods
  /\ exists p,
       ColorUtils.generateMoodPalette (AIIntegration.validateMood mood) (JS.Fin energy) = Ok p
       /\ length p = 4%nat
       /\ Forall Channel.rgb_valid p.
Proof.
  split; [apply validateMood_valid|]. split.
  - apply Forall_forall. intros m Hm. now apply validateMood_fixes.
  - destruct (generateMoodPalette_known (AIIntegration.validateMood mood) (JS.Fin energy)
                (validateMood_valid mood)) as (p & Hp & Hlen).
    exists p. split; [exact Hp|]. exact (generateMoodPalette_valid _ energy p Hp).
Qed.

(** X10.  A mood that is neither one of the five palette names nor a
    property name inherited from [Object.prototype] gets exactly the
    palette of "neutral": four colours with channels from 0 to 255. *)
Theorem unknown_mood_is_neutral (mood : string) (energy : R) :
  mood ∉ Spec.known_moods -> mood ∉ ColorUtils.Object_prototype ->
  ColorUtils.generateMoodPalette mood (JS.Fin energy)
  = ColorUtils.generateMoodPalette "neutral" (JS.Fin energy)
  /\ exists p, ColorUtils.generateMoodPalette mood (JS.Fin energy) = Ok p
               /\ length p = 4%nat /\ Forall Channel.rgb_valid p.
Proof.
  intros Hk Hp. split; [now apply generateMoodPalette_fallback|].
  rewrite generateMoodPalette_fallback by assumption.
  destruct (generateMoodPalette_known "neutral" (JS.Fin energy)) as (p & Hq & Hlen).
  { apply (bool_decide_unpack _). vm_compute. exact I. }
  exists p. split; [exact Hq|]. exact (generateMoodPalette_valid _ energy p Hq).
Qed.

Lemma unknown_mood_is_neutral_witness :
  ColorUtils.generateMoodPalette "dreamy" #0.5 = ColorUtils.generateMoodPalette "neutral" #0.5
  /\ exists p, ColorUtils.generateMoodPalette "dreamy" #0.5 = Ok p
               /\ length p = 4%nat /\ Forall Channel.rgb_valid p.
Proof.
  apply (unknown_mood_is_neutral "dreamy" 0.5).
  - apply (bool_decide_unpack _). vm_compute. exact I.
  - apply (bool_decide_unpack _). vm_compute. exact I.
Defined.

(** ** utils.js: the audio helpers *)

Section AudioHelpers.

Context {rounding : Rounding}.

Local Open Scope R_scope.

Lemma for_loop_indexed {A : Type} (P : Z -> A -> Prop) (body : A -> Z -> A)
    (from : Z) (count : nat) (acc : A) :
  P from acc ->
  (forall a i, (from <= i < from + Z.of_nat count)%Z -> P i a -> P (i + 1)%Z (body a i)) ->
  P (from + Z.of_nat count)%Z (for_loop from count body acc).
Proof.
  revert from acc. induction count as [|k IH]; intros from acc H0 Hstep.
  - simpl. now rewrite Z.add_0_r.
  - cbn [for_loop]. replace (from + Z.of_nat (S k))%Z with (from + 1 + Z.of_nat k)%Z by lia.
    apply IH.
    + apply Hstep; [lia | assumption].
    + intros a i Hi. apply Hstep. lia.
Qed.

Lemma gtb_of_Z (a b : Z) : (JS.of_Z a >? JS.of_Z b)%js = (b <? a)%Z.
Proof.
  unfold JS.gtb, JS.ltb, JS.of_Z, JS.Rltb.
  destruct (Rlt_dec (IZR b) (IZR a)) as [H|H].
  - apply lt_IZR in H. symmetry. now apply Z.ltb_lt.
  - symmetry. apply Z.ltb_ge. apply le_IZR. lra.
Qed.

Lemma index_byte (fd : list Byte.byte) (i : nat) (b : Byte.byte) :
  fd !! i = Some b ->
  index_num JS.of_byte fd (Z.of_nat i) = JS.of_Z (Z.of_N (Byte.to_N b)).
Proof.
  intros H. unfold index_num.
  destruct (Z.of_nat i <? 0)%Z eqn:E; [apply Z.ltb_lt in E; lia|].
  now rewrite Nat2Z.id, H.
Qed.

Lemma byte_val_nonneg (b : Byte.byte) : (0 <= Z.of_N (Byte.to_N b))%Z.
Proof. lia. Qed.

Lemma utils_detectBeat_empty (threshold : JS.num) :
  AudioUtils.detectBeat [] threshold = false.
Proof.
  unfold AudioUtils.detectBeat, JS.of_nat, JS.of_Z, Fl.div, JS.div.
  cbn [fold_left length]. change (Z.of_nat 0) with 0%Z.
  rewrite (proj2 (Reqb_true 0 0) eq_refl). cbn [Fl.round].
  unfold JS.gtb, JS.ltb. now destruct (threshold * #255)%fl.
Qed.

(** What [detectBeat] compares, on a spectrum that is not empty. *)
Lemma utils_detectBeat_fin (frequencyData : list Byte.byte) (s t : R) :
  frequencyData <> [] ->
  Spec.sum (map JS.of_byte frequencyData) = JS.Fin s ->
  AudioUtils.detectBeat frequencyData (JS.Fin t)
  = JS.Rltb (rnd (t * 255)) (rnd (s / INR (length frequencyData))).
Proof.
  intros Hne Hs. unfold AudioUtils.detectBeat.
  rewrite fold_left_add_map, Hs, add_0_l.
  assert (Hlen : 0 < INR (length frequencyData)).
  { apply lt_0_INR. destruct frequencyData; [congruence | cbn; lia]. }
  unfold JS.of_nat, JS.of_Z. rewrite <- INR_IZR_INZ.
  rewrite fl_div_fin by lra. rewrite fl_mul_fin. reflexivity.
Qed.

(** The default threshold, scaled: between 76 and 77. *)
Lemma default_threshold_scaled : 609 / 8 <= rnd (rnd 0.3 * 255) <= 307 / 4.
Proof.
  assert (H : 153 / 512 <= rnd 0.3 <= 77 / 256).
  { split; [rnd_lower 153%Z 9%nat | rnd_upper 77%Z 8%nat]. }
  split; [rnd_lower 609%Z 3%nat | rnd_upper 307%Z 2%nat].
Qed.

End AudioHelpers.

Section DominantBin.

Context {rounding : Rounding}.

(** What the scan of [getDominantFrequency] leaves: the index of the first
    bin that holds the largest magnitude. *)
Lemma dominant_scan_first (fd : list Byte.byte) :
  let k := fst (AudioUtils.dominant_scan fd) in
  match fd !! Z.to_nat k with
  | Some top =>
      (0 <= k < Z.of_nat (length fd))%Z
      /\ (forall i b, fd !! i = Some b -> (Byte.to_N b <= Byte.to_N top)%N)
      /\ (forall i b, fd !! i = Some b -> (Z.of_nat i < k)%Z ->
                      (Byte.to_N b < Byte.to_N top)%N)
  | None => fd = []
  end.
Proof.
  cbv zeta.
  set (Inv := fun (n : Z) (st : Z * JS.num) =>
    exists m : Z,
      snd st = JS.of_Z m /\ (0 <= m)%Z /\ (0 <= fst st)%Z
      /\ (forall i b, fd !! i = Some b -> (Z.of_nat i < n)%Z -> (Z.of_N (Byte.to_N b) <= m)%Z)
      /\ ((m = 0%Z /\ fst st = 0%Z)
          \/ ((0 < m)%Z /\ (fst st < n)%Z
              /\ (exists b, fd !! Z.to_nat (fst st) = Some b /\ Z.of_N (Byte.to_N b) = m)
              /\ forall i b, fd !! i = Some b -> (Z.of_nat i < fst st)%Z ->
                             (Z.of_N (Byte.to_N b) < m)%Z))).
  assert (Hfinal : Inv (0 + Z.of_nat (Z.to_nat (Z.of_nat (length fd) - 0)))%Z
                       (AudioUtils.dominant_scan fd)).
  { unfold AudioUtils.dominant_scan, for_range. apply for_loop_indexed.
    - exists 0%Z. cbn [fst snd]. split; [reflexivity|]. split; [lia|]. split; [lia|].
      split; [intros; lia | left; split; reflexivity].
    - intros [k mv] i Hi (m & Hmv & Hm0 & Hk0 & Hmax & Hcase). cbn [fst snd] in *.
      subst mv.
      assert (Hlt : (Z.to_nat i < length fd)%nat) by lia.
      destruct (lookup_lt_is_Some_2 fd (Z.to_nat i) Hlt) as [b Hb].
      pose proof (index_byte fd (Z.to_nat i) b Hb) as Hidx.
      rewrite Z2Nat.id in Hidx by lia. rewrite Hidx, gtb_of_Z.
      destruct (m <? Z.of_N (Byte.to_N b))%Z eqn:Hcmp.
      + apply Z.ltb_lt in Hcmp. exists (Z.of_N (Byte.to_N b)). cbn [fst snd].
        repeat split; try lia.
        * intros j c Hc Hj. destruct (decide (j = Z.to_nat i)) as [->|Hne].
          -- rewrite Hb in Hc. injection Hc as <-. lia.
          -- specialize (Hmax j c Hc ltac:(lia)). lia.
        * right. repeat split; try lia.
          -- exists b. split; [exact Hb | reflexivity].
          -- intros j c Hc Hj. specialize (Hmax j c Hc ltac:(lia)). lia.
      + apply Z.ltb_ge in Hcmp. exists m. cbn [fst snd].
        repeat split; try lia.
        * intros j c Hc Hj. destruct (decide (j = Z.to_nat i)) as [->|Hne].
          -- rewrite Hb in Hc. injection Hc as <-. lia.
          -- apply (Hmax j c Hc). lia.
        * destruct Hcase as [[-> ->]|(Hpos & Hkn & Hat & Hfirst)].
          -- left. split; reflexivity.
          -- right. repeat split; try lia; assumption. }
  destruct Hfinal as (m & _ & Hm0 & Hk0 & Hmax & Hcase).
  replace (0 + Z.of_nat (Z.to_nat (Z.of_nat (length fd) - 0)))%Z
    with (Z.of_nat (length fd)) in * by lia.
  set (k := fst (AudioUtils.dominant_scan fd)) in *.
  assert (Hall : forall i b, fd !! i = Some b -> (Z.of_N (Byte.to_N b) <= m)%Z).
  { intros i b Hb. apply (Hmax i b Hb). apply lookup_lt_Some in Hb. lia. }
  destruct Hcase as [[-> Hk]|(Hpos & Hkn & (top & Htop & Hval) & Hfirst)].
  - rewrite Hk. change (Z.to_nat 0) with 0%nat. destruct (fd !! 0%nat) as [top|] eqn:Htop.
    + split; [apply lookup_lt_Some in Htop; lia|]. split.
      * intros i b Hb. pose proof (Hall i b Hb). pose proof (Hall 0%nat top Htop). lia.
      * intros i b Hb Hi. lia.
    + destruct fd; [reflexivity | discriminate].
  - rewrite Htop. split; [lia|]. split.
    + intros i b Hb. specialize (Hall i b Hb). lia.
    + intros i b Hb Hi. specialize (Hfirst i b Hb Hi). lia.
Qed.

End DominantBin.

(** X11.  [getDominantFrequency] scales by [sampleRate / fftSize] the index
    of the first bin that holds the largest magnitude: no bin is larger,
    and every bin before it is smaller.  On an empty spectrum the index is
    0. *)
Theorem dominant_is_first_maximum (frequencyData : list Byte.byte)
    (sampleRate : JS.num) (fftSize : Z) :
  let k := fst (AudioUtils.dominant_scan frequencyData) in
  AudioUtils.getDominantFrequency frequencyData sampleRate fftSize
  = (JS.of_Z k * sampleRate) / JS.of_Z fftSize
  /\ AudioUtils.dominant_scan [] = (0%Z, #0)
  /\ match frequencyData !! Z.to_nat k with
     | Some top =>
         (0 <= k < Z.of_nat (length frequencyData))%Z
         /\ (forall i b, frequencyData !! i = Some b -> (Byte.to_N b <= Byte.to_N top)%N)
         /\ (forall i b, frequencyData !! i = Some b -> (Z.of_nat i < k)%Z ->
                         (Byte.to_N b < Byte.to_N top)%N)
     | None => frequencyData = []
     end.
Proof.
  cbv zeta. split; [reflexivity|]. split; [reflexivity|].
  apply dominant_scan_first.
Qed.

(** X12.  [AudioUtils.detectBeat] compares the rounded mean magnitude of
    the spectrum with the rounded product of the threshold and 255.  When
    it answers true the spectrum is not empty and its mean exceeds 255
    times the threshold; with the default threshold 0.3 it answers true on
    every spectrum whose mean is 77 or more and false on every spectrum
    whose mean is 76 or less, whatever the rounding; on an empty spectrum
    the mean is [NaN] and the answer is false. *)
Theorem utils_detectBeat_mean {rounding : Rounding} (frequencyData : list Byte.byte)
    (threshold : R) :
  exists s : R,
    Spec.sum (map JS.of_byte frequencyData) = JS.Fin s
    /\ (AudioUtils.detectBeat frequencyData (JS.Fin threshold) = true ->
        frequencyData <> [] /\ (threshold * 255 < s / INR (length frequencyData))%R)
    /\ (frequencyData <> [] -> (77 * INR (length frequencyData) <= s)%R ->
        AudioUtils.detectBeat frequencyData (Fl.lit 0.3) = true)
    /\ ((s <= 76 * INR (length frequencyData))%R ->
        AudioUtils.detectBeat frequencyData (Fl.lit 0.3) = false)
    /\ AudioUtils.detectBeat [] (JS.Fin threshold) = false.
Proof.
  destruct (sum_within (map JS.of_byte frequencyData)) as (s & Hs & Hb).
  { apply Forall_map, Forall_forall. intros b _. apply of_byte_within. }
  exists s. split; [exact Hs|].
  pose proof default_threshold_scaled as [Hlo Hhi].
  destruct frequencyData as [|b fd].
  - rewrite !utils_detectBeat_empty.
    split; [discriminate|]. split; [intros H; now elim H|]. split; reflexivity.
  - set (l := b :: fd) in *.
    assert (Hne : l <> []) by discriminate.
    assert (Hlen : (0 < INR (length l))%R) by (apply lt_0_INR; cbn; lia).
    assert (Hi : (0 < / INR (length l))%R) by now apply Rinv_0_lt_compat.
    unfold Fl.lit. rewrite !(utils_detectBeat_fin l s) by assumption.
    split; [|split; [|split]].
    + intros H. apply Rltb_true in H. split; [exact Hne|]. now apply rnd_lt_inv.
    + intros _ H77. apply Rltb_true.
      assert (Hm : (77 <= s / INR (length l))%R).
      { apply (Rmult_le_reg_r (INR (length l))); [lra|].
        unfold Rdiv. rewrite Rmult_assoc, Rinv_l by lra. lra. }
      set (m := (s / INR (length l))%R) in *.
      assert (H : (77 <= rnd m)%R) by (rnd_lower 77%Z 0%nat).
      lra.
    + intros H76. apply Rltb_false.
      assert (Hm : (s / INR (length l) <= 76)%R).
      { apply (Rmult_le_reg_r (INR (length l))); [lra|].
        unfold Rdiv. rewrite Rmult_assoc, Rinv_l by lra. lra. }
      set (m := (s / INR (length l))%R) in *.
      assert (H : (rnd m <= 76)%R) by (rnd_upper 76%Z 0%nat).
      lra.
    + apply utils_detectBeat_empty.
Qed.

(** X13.  The band analysis of [AudioUtils] and that of the analyzer cut
    the spectrum at the same bins: each band of the analyzer is the band of
    [AudioUtils.analyzeFrequencyBands] divided by 255. *)
Theorem band_analyses_agree (frequencyData : list Byte.byte) :
  let bands := AudioUtils.analyzeFrequencyBands frequencyData in
  AudioAnalyzer.analyzeFrequencyBands AudioAnalyzer.defaultBands frequencyData
  = [ ("bass", AudioUtils.bass bands / #255);
      ("lowMid", AudioUtils.lowMid bands / #255);
      ("mid", AudioUtils.mid bands / #255);
      ("highMid", AudioUtils.highMid bands / #255);
      ("treble", AudioUtils.treble bands / #255) ]%string.
Proof.
  cbv zeta.
  unfold AudioAnalyzer.analyzeFrequencyBands, AudioAnalyzer.defaultBands,
    AudioUtils.analyzeFrequencyBands, AudioAnalyzer.band_value,
    AudioAnalyzer.startBin, AudioAnalyzer.endBin, AudioUtils.accumulate.
  cbn [map AudioAnalyzer.band_start AudioAnalyzer.band_end
       AudioUtils.bass AudioUtils.lowMid AudioUtils.mid AudioUtils.highMid AudioUtils.treble].
  rewrite floor_scaled_0, floor_scaled_1.
  set (n := IZR (Z.of_nat (length frequencyData))).
  rewrite !(Rmult_comm _ n), Z.sub_0_r. reflexivity.
Qed.

(** ** audio-analyzer.js: ranges of the features, the history, disposal *)

Section FeatureRanges.

Context {rounding : Rounding}.
Import AudioAnalyzer Lifecycle.
Local Open Scope R_scope.

Lemma volume_sum_bound (td : list Byte.byte) (s0 : R) :
  exists s,
    fold_left (fun sum b =>
                 let sample := ((JS.of_byte b - #128) / #128)%js in
                 (sum + sample * sample)%js) td (JS.Fin s0) = JS.Fin s
    /\ s0 <= s <= s0 + INR (length td).
Proof.
  revert s0. induction td as [|b td IH]; intros s0.
  - exists s0. cbn. split; [reflexivity | lra].
  - cbn [fold_left]. destruct (of_byte_nonneg b) as (r & -> & Hr).
    assert (E : ((JS.Fin r - #128) / #128)%js = JS.Fin ((r - 128) / 128)).
    { unfold JS.sub, JS.add, JS.neg, JS.div.
      assert (E0 : JS.Reqb 128 0 = false) by (apply Reqb_false; lra).
      rewrite E0. f_equal; lra. }
    cbv zeta. rewrite E.
    change (JS.Fin s0 + JS.Fin ((r - 128) / 128) * JS.Fin ((r - 128) / 128))%js
      with (JS.Fin (s0 + (r - 128) / 128 * ((r - 128) / 128))).
    destruct (IH (s0 + (r - 128) / 128 * ((r - 128) / 128))) as (s & Hs & Hb).
    exists s. split; [exact Hs|].
    assert (Hu : -1 <= (r - 128) / 128 <= 1) by lra.
    assert (Hsq : 0 <= (r - 128) / 128 * ((r - 128) / 128) <= 1)
      by (revert Hu; generalize ((r - 128) / 128); intros u Hu; nra).
    rewrite length_cons, S_INR. lra.
Qed.

Lemma calculateVolume_unit (td : list Byte.byte) :
  td <> [] -> JS.within 0 1 (calculateVolume td).
Proof.
  intros Hne. unfold calculateVolume. cbv zeta.
  destruct (volume_sum_bound td 0) as (s & Hsum & Hs). cbv zeta in Hsum. rewrite Hsum.
  assert (Hlen : 0 < INR (length td)).
  { apply lt_0_INR. destruct td; [congruence | cbn; lia]. }
  unfold JS.of_nat, JS.of_Z, JS.div.
  assert (E : JS.Reqb (IZR (Z.of_nat (length td))) 0 = false).
  { apply Reqb_false. rewrite <- INR_IZR_INZ. lra. }
  rewrite E, <- INR_IZR_INZ. unfold JS.Math_sqrt.
  assert (Hq : 0 <= s / INR (length td) <= 1).
  { split.
    - apply Rmult_le_pos; [lra | left; now apply Rinv_0_lt_compat].
    - apply (Rmult_le_reg_r (INR (length td))); [assumption|].
      unfold Rdiv. rewrite Rmult_assoc, Rinv_l; lra. }
  assert (E1 : JS.Rltb (s / INR (length td)) 0 = false) by (apply Rltb_false; lra).
  rewrite E1. cbn. split; [apply sqrt_pos|].
  rewrite <- sqrt_1. apply sqrt_le_1_alt. lra.
Qed.

Lemma energy_sum_bound (fd : list Byte.byte) (s0 : R) :
  exists s,
    fold_left (fun sum b => sum + JS.of_byte b * JS.of_byte b)%js fd (JS.Fin s0) = JS.Fin s
    /\ s0 <= s <= s0 + 255 * 255 * INR (length fd).
Proof.
  revert s0. induction fd as [|b fd IH]; intros s0.
  - exists s0. cbn. split; [reflexivity | lra].
  - cbn [fold_left]. destruct (of_byte_nonneg b) as (r & -> & Hr).
    change (JS.Fin s0 + JS.Fin r * JS.Fin r)%js with (JS.Fin (s0 + r * r)).
    destruct (IH (s0 + r * r)) as (s & Hs & Hb).
    exists s. split; [exact Hs|].
    assert (Hsq : 0 <= r * r <= 255 * 255) by nra.
    rewrite length_cons, S_INR. lra.
Qed.

Lemma calculateEnergy_unit (fd : list Byte.byte) :
  fd <> [] -> JS.within 0 1 (calculateEnergy fd).
Proof.
  intros Hne. unfold calculateEnergy. cbv zeta.
  destruct (energy_sum_bound fd 0) as (s & -> & Hs).
  assert (Hlen : 0 < INR (length fd)).
  { apply lt_0_INR. destruct fd; [congruence | cbn; lia]. }
  apply round_unit.
  unfold JS.of_nat, JS.of_Z, JS.mul, JS.div. rewrite <- INR_IZR_INZ.
  assert (E : JS.Reqb (INR (length fd) * 255 * 255) 0 = false).
  { apply Reqb_false. nra. }
  rewrite E. cbn. split.
  - apply Rmult_le_pos; [lra | left; apply Rinv_0_lt_compat; nra].
  - apply (Rmult_le_reg_r (INR (length fd) * 255 * 255)); [nra|].
    unfold Rdiv. rewrite Rmult_assoc, Rinv_l; nra.
Qed.

(** The mean of a non-empty list of magnitudes, divided by 255. *)
Lemma mean_unit (l : list JS.num) :
  l <> [] -> Forall (JS.within 0 255) l -> JS.within 0 1 (Spec.mean l / #255)%js.
Proof.
  intros Hne Hall. unfold Spec.mean.
  destruct (sum_within l Hall) as (s & -> & Hs).
  assert (Hlen : 0 < INR (length l)).
  { apply lt_0_INR. destruct l; [congruence | cbn; lia]. }
  unfold JS.of_nat, JS.of_Z, JS.div. rewrite <- INR_IZR_INZ.
  assert (E : JS.Reqb (INR (length l)) 0 = false) by (apply Reqb_false; lra).
  assert (E255 : JS.Reqb 255 0 = false) by (apply Reqb_false; lra).
  rewrite E, E255. cbn.
  assert (Hq : 0 <= s / INR (length l) <= 255).
  { split.
    - apply Rmult_le_pos; [lra | left; now apply Rinv_0_lt_compat].
    - apply (Rmult_le_reg_r (INR (length l))); [assumption|].
      unfold Rdiv. rewrite Rmult_assoc, Rinv_l; lra. }
  lra.
Qed.

Lemma band_mean_unit (fd : list Byte.byte) (from to : Z) :
  (0 <= from < to)%Z -> (to <= Z.of_nat (length fd))%Z ->
  JS.within 0 1 (Spec.band_mean fd from to).
Proof.
  intros Hft Hto. unfold Spec.band_mean. apply mean_unit.
  - intros E. apply (f_equal length) in E.
    rewrite length_map, length_take, length_drop in E. cbn in E. lia.
  - apply Forall_map, Forall_forall. intros b _. apply of_byte_within.
Qed.

Lemma bins_1024 :
  map (fun entry => (startBin 1024 (snd entry), endBin 1024 (snd entry))) defaultBands
  = [(0, 102); (102, 256); (256, 512); (512, 768); (768, 1024)]%Z.
Proof.
  unfold defaultBands, startBin, endBin. cbn [map snd band_start band_end].
  change (Z.of_nat 1024) with 1024%Z.
  repeat f_equal; apply Zfloor_eq; lra.
Qed.

Lemma bands_unit (fd : list Byte.byte) :
  length fd = 1024%nat ->
  Forall (fun entry => JS.within 0 1 (snd entry)) (analyzeFrequencyBands defaultBands fd)
  /\ map fst (analyzeFrequencyBands defaultBands fd)
     = ["bass"; "lowMid"; "mid"; "highMid"; "treble"]%string.
Proof.
  intros Hlen. split; [|reflexivity].
  pose proof bins_1024 as Hbins.
  unfold analyzeFrequencyBands, defaultBands in *.
  cbn [map fst snd] in *.
  injection Hbins as Hs0 He0 Hs1 He1 Hs2 He2 Hs3 He3 Hs4 He4.
  repeat (apply Forall_cons; split;
          [cbn [snd]; rewrite band_value_mean by (cbn; lra); rewrite Hlen;
           first [rewrite Hs0, He0 | rewrite Hs1, He1 | rewrite Hs2, He2
                 | rewrite Hs3, He3 | rewrite Hs4, He4];
           apply band_mean_unit; rewrite ?Hlen; lia |]).
  apply Forall_nil. constructor.
Qed.

(** History of energies: what [analyze] does to it. *)
Lemma analyze_history (hw : HwFrame) (now : Z) (a : AudioAnalyzer.t) :
  match fst (analyze hw now a), analyser a with
  | Ok frame, Some _ =>
      energyHistory (snd (analyze hw now a))
      = push_history (maxEnergyHistorySize a) (energyHistory a) (energy frame)
  | Ok _, None => energyHistory (snd (analyze hw now a)) = energyHistory a
  | Err _, _ =>
      energyHistory (snd (analyze hw now a)) = energyHistory a
      \/ exists e, energyHistory (snd (analyze hw now a))
                   = push_history (maxEnergyHistorySize a) (energyHistory a) e
  end.
Proof.
  unfold analyze.
  destruct (analyser a) as [node|]; [|reflexivity].
  destruct (frequencyData a) as [fd0|]; [|now left].
  destruct (timeData a) as [td0|]; [|now left].
  rewrite detectBeat_unfold. cbv zeta.
  cbn [audioContext set_beat set_graph maxEnergyHistorySize energyHistory].
  destruct (audioContext a) as [ctx|]; cbn [fst snd energyHistory set_currentAnalysis set_beat energy].
  - reflexivity.
  - right. eexists. reflexivity.
Qed.

Lemma history_bounded (a : AudioAnalyzer.t) :
  reachable a -> (length (energyHistory a) <= 43)%nat.
Proof.
  induction 1 as [|ev a Hr IH|hw now a Hr IH|n a Hr IH|a Hr IH].
  - cbn. lia.
  - destruct ev; cbn [initialize snd]; try exact IH;
      try (destruct (source a)); cbn [snd set_graph energyHistory]; exact IH.
  - pose proof (reachable_invariant a Hr) as Hinv.
    pose proof (inv_capacity a Hinv) as Hcap.
    pose proof (analyze_history hw now a) as Hh. rewrite Hcap in Hh.
    destruct (fst (analyze hw now a)), (analyser a).
    + rewrite Hh. apply push_history_ring; [lia | exact IH].
    + now rewrite Hh.
    + destruct Hh as [->|(e0 & ->)]; [exact IH | apply push_history_ring; [lia | exact IH]].
    + destruct Hh as [->|(e0 & ->)]; [exact IH | apply push_history_ring; [lia | exact IH]].
  - unfold getVisualizationData, getSmoothedFrequencyData.
    destruct (frequencyData a); [|exact IH].
    destruct (lastFrequencyData a); exact IH.
  - cbn. lia.
Qed.

End FeatureRanges.

(** X14.  Every frame that [analyze] computes on an initialised analyzer
    is normalised, whatever the analyser node delivers: volume, energy and
    the five bands are numbers of [0,1], spectrum and waveform have 1024
    entries, and the dominant frequency is [k * sampleRate / 2048] for a
    bin [k] below 1024, hence below half the sample rate. *)
Theorem analysis_frame_ranges {rounding : Rounding} (a : AudioAnalyzer.t) (hw : AudioAnalyzer.HwFrame)
    (now : Z) (fd0 td0 : list Byte.byte) :
  Lifecycle.reachable a ->
  AudioAnalyzer.analyser a <> None ->
  AudioAnalyzer.frequencyData a = Some fd0 ->
  AudioAnalyzer.timeData a = Some td0 ->
  exists frame ctx,
    fst (AudioAnalyzer.analyze hw now a) = Ok frame
    /\ AudioAnalyzer.audioContext a = Some ctx
    /\ JS.within 0 1 (AudioAnalyzer.volume frame)
    /\ JS.within 0 1 (AudioAnalyzer.energy frame)
    /\ Forall (fun entry => JS.within 0 1 (snd entry)) (AudioAnalyzer.bands frame)
    /\ map fst (AudioAnalyzer.bands frame)
       = ["bass"; "lowMid"; "mid"; "highMid"; "treble"]%string
    /\ length (AudioAnalyzer.spectrum frame) = 1024%nat
    /\ length (AudioAnalyzer.waveform frame) = 1024%nat
    /\ exists k : Z,
         (0 <= k < 1024)%Z
         /\ AudioAnalyzer.dominantFrequency frame
            = (JS.of_Z k * AudioAnalyzer.sampleRate ctx) / JS.of_Z 2048.
Proof.
  intros Hreach Han Hfd Htd.
  pose proof (reachable_invariant a Hreach) as [Hh Hf Hk Hi Hc Hb Hlfd Hltd Hctx Hsm].
  specialize (Hlfd fd0 Hfd). specialize (Hltd td0 Htd). specialize (Hctx Han).
  unfold AudioAnalyzer.analyze.
  destruct (AudioAnalyzer.analyser a) as [node|]; [|congruence].
  rewrite Hfd, Htd.
  set (fd := AudioAnalyzer.fill_bytes (AudioAnalyzer.hw_freq hw) fd0) in *.
  set (td := AudioAnalyzer.fill_bytes (AudioAnalyzer.hw_time hw) td0) in *.
  assert (Lfd : length fd = 1024%nat) by (unfold fd; now rewrite length_fill_bytes).
  assert (Ltd : length td = 1024%nat) by (unfold td; now rewrite length_fill_bytes).
  assert (Hfdne : fd <> []) by (intros E; rewrite E in Lfd; discriminate).
  assert (Htdne : td <> []) by (intros E; rewrite E in Ltd; discriminate).
  rewrite detectBeat_unfold. cbv zeta.
  cbn [AudioAnalyzer.audioContext AudioAnalyzer.set_beat AudioAnalyzer.set_graph
       AudioAnalyzer.fftSize AudioAnalyzer.frequencyBands].
  destruct (AudioAnalyzer.audioContext a) as [ctx|]; [|congruence].
  eexists _, ctx. split; [reflexivity|]. split; [reflexivity|].
  cbn [AudioAnalyzer.volume AudioAnalyzer.energy AudioAnalyzer.bands
       AudioAnalyzer.spectrum AudioAnalyzer.waveform AudioAnalyzer.dominantFrequency].
  split; [now apply calculateVolume_unit|].
  split; [now apply calculateEnergy_unit|].
  rewrite Hb. destruct (bands_unit fd Lfd) as [Hbands Hnames].
  split; [exact Hbands|]. split; [exact Hnames|].
  split; [exact Lfd|]. split; [exact Ltd|].
  exists (fst (AudioUtils.dominant_scan fd)). rewrite Hf. split; [|reflexivity].
  pose proof (dominant_scan_first fd) as Hscan. cbv zeta in Hscan.
  destruct (fd !! Z.to_nat (fst (AudioUtils.dominant_scan fd))) as [top|].
  - destruct Hscan as [Hk' _]. rewrite Lfd in Hk'. exact Hk'.
  - contradiction.
Qed.

Section AnalysisFrameRangesWitnessRun.

Local Existing Instance real_arithmetic.

Lemma analysis_frame_ranges_witness :
  exists frame ctx,
    fst (AudioAnalyzer.analyze Runs.silence 0 Runs.attached) = Ok frame
    /\ AudioAnalyzer.audioContext Runs.attached = Some ctx
    /\ JS.within 0 1 (AudioAnalyzer.volume frame)
    /\ JS.within 0 1 (AudioAnalyzer.energy frame)
    /\ Forall (fun entry => JS.within 0 1 (snd entry)) (AudioAnalyzer.bands frame)
    /\ map fst (AudioAnalyzer.bands frame)
       = ["bass"; "lowMid"; "mid"; "highMid"; "treble"]%string
    /\ length (AudioAnalyzer.spectrum frame) = 1024%nat
    /\ length (AudioAnalyzer.waveform frame) = 1024%nat
    /\ exists k : Z,
         (0 <= k < 1024)%Z
         /\ AudioAnalyzer.dominantFrequency frame
            = (JS.of_Z k * AudioAnalyzer.sampleRate ctx) / JS.of_Z 2048.
Proof.
  apply (analysis_frame_ranges Runs.attached Runs.silence 0
           (replicate 1024 Byte.x00) (replicate 1024 Byte.x00)).
  - exact attached_reachable.
  - discriminate.
  - reflexivity.
  - reflexivity.
Defined.

End AnalysisFrameRangesWitnessRun.

(** X15.  The energy history never holds more than 43 values: on every
    reachable analyzer it is at most that long, and a frame computed by
    [analyze] leaves the most recent 43 of the old values followed by the
    energy of the frame. *)
Theorem history_window {rounding : Rounding} (a : AudioAnalyzer.t) (hw : AudioAnalyzer.HwFrame) (now : Z)
    (frame : AudioAnalyzer.AnalysisFrame) :
  Lifecycle.reachable a ->
  AudioAnalyzer.analyser a <> None ->
  fst (AudioAnalyzer.analyze hw now a) = Ok frame ->
  let h := AudioAnalyzer.energyHistory a in
  (length h <= 43)%nat
  /\ AudioAnalyzer.energyHistory (snd (AudioAnalyzer.analyze hw now a))
     = drop (length h + 1 - 43) (h ++ [AudioAnalyzer.energy frame])
  /\ (length (AudioAnalyzer.energyHistory (snd (AudioAnalyzer.analyze hw now a))) <= 43)%nat.
Proof.
  intros Hreach Han Hframe. cbv zeta.
  pose proof (history_bounded a Hreach) as Hlen.
  pose proof (reachable_invariant a Hreach) as Hinv.
  pose proof (Lifecycle.inv_capacity a Hinv) as Hcap.
  pose proof (analyze_history hw now a) as Hh. rewrite Hframe, Hcap in Hh.
  destruct (AudioAnalyzer.analyser a) as [node|]; [|congruence].
  destruct (push_history_ring 43 (AudioAnalyzer.energyHistory a)
              (AudioAnalyzer.energy frame) ltac:(lia) Hlen) as [Hb Heq].
  rewrite Hh. split; [exact Hlen|]. split; [|exact Hb].
  rewrite Heq, length_app. reflexivity.
Qed.

Section HistoryWindowWitnessRun.

Local Existing Instance real_arithmetic.

Lemma history_window_witness :
  let h := AudioAnalyzer.energyHistory Runs.attached in
  (length h <= 43)%nat
  /\ AudioAnalyzer.energyHistory (snd (AudioAnalyzer.analyze Runs.silence 0 Runs.attached))
     = drop (length h + 1 - 43) (h ++ [AudioAnalyzer.energy Runs.silent_analysis])
  /\ (length (AudioAnalyzer.energyHistory
                (snd (AudioAnalyzer.analyze Runs.silence 0 Runs.attached))) <= 43)%nat.
Proof.
  apply (history_window Runs.attached Runs.silence 0 Runs.silent_analysis).
  - exact attached_reachable.
  - discriminate.
  - exact silent_analysis_ok.
Defined.

End HistoryWindowWitnessRun.

(** X16.  [dispose] forgets the audio graph but not the last frame: after
    it [analyze] keeps returning the frame computed before the disposal and
    changes nothing, whereas [getVisualizationData] and [getFrequencyRange]
    throw a [TypeError]; disposing twice is disposing once. *)
Theorem dispose_effects {rounding : Rounding} (a : AudioAnalyzer.t) (hw : AudioAnalyzer.HwFrame) (now : Z)
    (n : nat) (startHz endHz : JS.num) :
  let d := AudioAnalyzer.dispose a in
  AudioAnalyzer.analyze hw now d = (Ok (AudioAnalyzer.currentAnalysis a), d)
  /\ AudioAnalyzer.getVisualizationData n d = (Err TypeError, d)
  /\ AudioAnalyzer.getFrequencyRange startHz endHz d = AudioAnalyzer.Throws TypeError
  /\ AudioAnalyzer.energyHistory d = []
  /\ AudioAnalyzer.dispose d = d.
Proof. cbv zeta. repeat split. Qed.

Section FrequencyRange.

Context {rounding : Rounding}.
Import AudioAnalyzer.
Local Open Scope R_scope.

Lemma bin_fin (hz nyquist : R) (n : nat) :
  0 < nyquist ->
  JS.Math_floor ((JS.Fin hz / JS.Fin nyquist) * JS.of_nat n)%js
  = JS.Fin (IZR (Zfloor (hz / nyquist * IZR (Z.of_nat n)))).
Proof.
  intros Hn. rewrite div_fin by lra. reflexivity.
Qed.

Lemma mean_empty : Spec.mean [] = JS.NaN.
Proof.
  unfold Spec.mean, Spec.sum, JS.of_nat, JS.of_Z, JS.div. cbn [foldr length].
  change (Z.of_nat 0) with 0%Z.
  assert (E : JS.Reqb 0 0 = true) by (apply Reqb_true; reflexivity).
  now rewrite E.
Qed.

Lemma getFrequencyRange_band (a : AudioAnalyzer.t) (ctx : AudioContext)
    (fd : list Byte.byte) (sr lo hi : R) :
  audioContext a = Some ctx -> sampleRate ctx = JS.Fin sr -> 0 < sr ->
  frequencyData a = Some fd ->
  getFrequencyRange (JS.Fin lo) (JS.Fin hi) a
  = Returns (band_value fd {| band_start := lo / (sr / 2); band_end := hi / (sr / 2) |}).
Proof.
  intros Hctx Hsr Hpos Hfd. unfold getFrequencyRange. rewrite Hctx, Hfd, Hsr.
  rewrite (div_fin sr 2) by lra. cbv zeta.
  rewrite !bin_fin by lra. unfold range_sum. rewrite !ZfloorZ.
  unfold band_value, startBin, endBin. cbn [band_start band_end]. cbv zeta.
  do 3 f_equal. unfold JS.sub, JS.add, JS.neg, JS.of_Z. f_equal.
  rewrite minus_IZR. lra.
Qed.

End FrequencyRange.

(** X17.  On an analyzer with a spectrum buffer and a context of positive
    sample rate, [getFrequencyRange] of two frequencies between 0 and half
    the sample rate returns the mean magnitude of the bins from the bin of
    the first to the bin of the second, divided by 255; two frequencies of
    the same bin give [NaN], and an upper frequency of [Infinity] makes the
    loop run for ever. *)
Theorem getFrequencyRange_mean (a : AudioAnalyzer.t) (ctx : AudioAnalyzer.AudioContext)
    (fd : list Byte.byte) (sr lo hi : R) :
  AudioAnalyzer.audioContext a = Some ctx ->
  AudioAnalyzer.sampleRate ctx = JS.Fin sr -> (0 < sr)%R ->
  AudioAnalyzer.frequencyData a = Some fd -> fd <> [] ->
  (0 <= lo <= hi)%R -> (hi <= sr / 2)%R ->
  let bin (hz : R) := Zfloor (hz / (sr / 2) * IZR (Z.of_nat (length fd))) in
  AudioAnalyzer.getFrequencyRange (JS.Fin lo) (JS.Fin hi) a
  = AudioAnalyzer.Returns (Spec.band_mean fd (bin lo) (bin hi))
  /\ (bin lo = bin hi ->
      AudioAnalyzer.getFrequencyRange (JS.Fin lo) (JS.Fin hi) a
      = AudioAnalyzer.Returns JS.NaN)
  /\ AudioAnalyzer.getFrequencyRange (JS.Fin lo) JS.PInf a = AudioAnalyzer.Diverges.
Proof.
  intros Hctx Hsr Hpos Hfd Hne Hlo Hhi. cbv zeta.
  assert (Hq : forall u, (0 <= u)%R -> (0 <= u / (sr / 2))%R).
  { intros u Hu. apply Rmult_le_pos; [assumption|].
    left. apply Rinv_0_lt_compat. lra. }
  assert (Hq1 : (hi / (sr / 2) <= 1)%R).
  { apply (Rmult_le_reg_r (sr / 2)); [lra|].
    unfold Rdiv at 1. rewrite Rmult_assoc, Rinv_l; lra. }
  assert (Hmono : (lo / (sr / 2) <= hi / (sr / 2))%R).
  { unfold Rdiv at 1 3. apply Rmult_le_compat_r; [|lra].
    left. apply Rinv_0_lt_compat. lra. }
  assert (Hband : AudioAnalyzer.getFrequencyRange (JS.Fin lo) (JS.Fin hi) a
                  = AudioAnalyzer.Returns
                      (Spec.band_mean fd
                         (Zfloor (lo / (sr / 2) * IZR (Z.of_nat (length fd))))
                         (Zfloor (hi / (sr / 2) * IZR (Z.of_nat (length fd)))))).
  { rewrite (getFrequencyRange_band a ctx fd sr lo hi) by assumption.
    rewrite band_value_mean; [reflexivity | |]; cbn.
    - split; [apply Hq; lra | exact Hmono].
    - exact Hq1. }
  split; [exact Hband|]. split.
  - intros Hsame. rewrite Hband, Hsame. unfold Spec.band_mean.
    rewrite Z.sub_diag. change (Z.to_nat 0) with 0%nat. rewrite take_0. cbn [map].
    now rewrite mean_empty.
  - unfold AudioAnalyzer.getFrequencyRange. rewrite Hctx, Hfd, Hsr.
    rewrite (div_fin sr 2) by lra. cbv zeta. rewrite bin_fin by lra.
    assert (Hlen : (0 < IZR (Z.of_nat (length fd)))%R).
    { apply IZR_lt. destruct fd; [congruence | cbn; lia]. }
    unfold JS.div, JS.mul, JS.of_nat, JS.of_Z, JS.inf_of_sign.
    assert (E1 : JS.Rleb 0 (sr / 2) = true) by (apply Rleb_true; lra).
    assert (E2 : JS.Reqb (IZR (Z.of_nat (length fd))) 0 = false)
      by (apply Reqb_false; lra).
    assert (E3 : JS.Rltb 0 (IZR (Z.of_nat (length fd))) = true) by (now apply Rltb_true).
    rewrite E1. cbv beta iota. rewrite E2, E3. reflexivity.
Qed.

Lemma getFrequencyRange_mean_witness :
  let a := Runs.attached in
  let fd := replicate 1024 Byte.x00 in
  let bin (hz : R) := Zfloor (hz / (44100 / 2) * IZR (Z.of_nat (length fd))) in
  AudioAnalyzer.getFrequencyRange #20 #250 a
  = AudioAnalyzer.Returns (Spec.band_mean fd (bin 20%R) (bin 250%R))
  /\ (bin 20%R = bin 250%R ->
      AudioAnalyzer.getFrequencyRange #20 #250 a = AudioAnalyzer.Returns JS.NaN)
  /\ AudioAnalyzer.getFrequencyRange #20 JS.PInf a = AudioAnalyzer.Diverges.
Proof.
  apply (getFrequencyRange_mean Runs.attached {| AudioAnalyzer.sampleRate := #44100 |}
           (replicate 1024 Byte.x00) 44100 20 250).
  - reflexivity.
  - reflexivity.
  - lra.
  - reflexivity.
  - discriminate.
  - lra.
  - lra.
Defined.

(** ** ai-integration.js: the keyword analysis and the hash colours *)

Section MoodAnalysis.

Context {rounding : Rounding}.
Import AIIntegration.
Local Open Scope R_scope.

Lemma counted_unit (energetic calm : nat) : 0 <= Mood.counted energetic calm <= 1.
Proof.
  unfold Mood.counted.
  destruct (0 <? energetic)%nat eqn:E.
  - apply Nat.ltb_lt in E. apply lt_0_INR in E.
    assert (H7 : 0 <= rnd 0.7) by (apply rnd_nonneg; lra).
    assert (H1 : 0 <= rnd 0.1) by (apply rnd_nonneg; lra).
    assert (Hp : 0 <= rnd (INR energetic * rnd 0.1)) by (apply rnd_nonneg; nra).
    assert (Hs : 0 <= rnd (rnd 0.7 + rnd (INR energetic * rnd 0.1)))
      by (apply rnd_nonneg; lra).
    unfold Rmin. destruct (Rle_dec 1 _); lra.
  - destruct (0 <? calm)%nat eqn:C; [|lra].
    apply Nat.ltb_lt in C. apply lt_0_INR in C.
    assert (H3 : rnd 0.3 <= 1) by (rnd_upper 1%Z 0%nat).
    assert (H1 : 0 <= rnd 0.1) by (apply rnd_nonneg; lra).
    assert (Hp : 0 <= rnd (INR calm * rnd 0.1)) by (apply rnd_nonneg; nra).
    assert (Hs : rnd (rnd 0.3 - rnd (INR calm * rnd 0.1)) <= 1) by (rnd_upper 1%Z 0%nat).
    unfold Rmax. destruct (Rle_dec 0 _); lra.
Qed.

(** [fallbackMoodAnalysis], with its branches named. *)
Lemma fallbackMoodAnalysis_unfold (metadata : Metadata) :
  let energetic :=
    length (List.filter (fun keyword => includes (Mood.text metadata) keyword)
              energeticKeywords) in
  let calm :=
    length (List.filter (fun keyword => includes (Mood.text metadata) keyword)
              calmKeywords) in
  let base := Mood.of_genre metadata in
  let mood1 :=
    if (0 <? energetic)%nat
    then (if String.eqb base "neutral" then "energetic"%string else base)
    else if (0 <? calm)%nat
    then (if String.eqb base "neutral" then "calm"%string else base)
    else base in
  let e1 := Mood.counted energetic calm in
  fallbackMoodAnalysis metadata
  = if Mood.mentions metadata melancholyKeywords
    then {| mood := "melancholy";
            energy := JS.Fin (Rmax 0 (Rmin 1 (Rmax (rnd 0.2) (rnd (e1 - rnd 0.3)))));
            reasoning := "Keyword-based analysis"; source := "fallback" |}
    else if Mood.mentions metadata upliftingKeywords
    then {| mood := "uplifting";
            energy := JS.Fin (Rmax 0 (Rmin 1 (Rmin (rnd 0.8) (rnd (e1 + rnd 0.2)))));
            reasoning := "Keyword-based analysis"; source := "fallback" |}
    else {| mood := validateMood mood1; energy := JS.Fin (Rmax 0 (Rmin 1 e1));
            reasoning := "Keyword-based analysis"; source := "fallback" |}.
Proof.
  cbv zeta. unfold fallbackMoodAnalysis, Mood.mentions, Mood.of_genre, Mood.counted.
  fold (Mood.text metadata).
  set (text := Mood.text metadata).
  set (energetic := length (List.filter (fun keyword => includes text keyword) energeticKeywords)).
  set (calm := length (List.filter (fun keyword => includes text keyword) calmKeywords)).
  set (base := match List.find _ defaultMoods with Some entry => snd entry | None => _ end).
  unfold Fl.lit.
  assert (Een : (JS.Fin (rnd 0.7) + JS.of_nat energetic * JS.Fin (rnd 0.1))%fl
                = JS.Fin (rnd (rnd 0.7 + rnd (INR energetic * rnd 0.1)))).
  { unfold JS.of_nat, JS.of_Z. rewrite fl_mul_fin, fl_add_fin. now rewrite <- INR_IZR_INZ. }
  assert (Eca : (JS.Fin (rnd 0.3) - JS.of_nat calm * JS.Fin (rnd 0.1))%fl
                = JS.Fin (rnd (rnd 0.3 - rnd (INR calm * rnd 0.1)))).
  { unfold JS.of_nat, JS.of_Z. rewrite fl_mul_fin, fl_sub_fin. now rewrite <- INR_IZR_INZ. }
  rewrite Een, Eca, !min_fin, !max_fin.
  destruct (0 <? energetic)%nat; [|destruct (0 <? calm)%nat];
    destruct (List.existsb _ melancholyKeywords);
    try destruct (List.existsb _ upliftingKeywords);
    rewrite ?fl_sub_fin, ?fl_add_fin, ?min_fin, ?max_fin, ?min_fin, ?max_fin;
    reflexivity.
Qed.

Lemma defaultMoods_valid (metadata : Metadata) : Mood.of_genre metadata ∈ validMoods.
Proof.
  unfold Mood.of_genre.
  destruct (List.find _ defaultMoods) as [entry|] eqn:E.
  - apply List.find_some in E as [Hin _]. unfold defaultMoods in Hin.
    cbn [List.In] in Hin.
    repeat (destruct Hin as [<-|Hin];
            [apply (bool_decide_unpack _); vm_compute; exact I|]).
    contradiction.
  - apply (bool_decide_unpack _). vm_compute. exact I.
Qed.

Lemma clamp_id (r : R) : 0 <= r <= 1 -> Rmax 0 (Rmin 1 r) = r.
Proof.
  intros Hr. unfold Rmin. destruct (Rle_dec 1 r); unfold Rmax;
    match goal with |- context [Rle_dec ?a ?b] => destruct (Rle_dec a b) end; lra.
Qed.

(** The literals of the analysis, to three binary decimals more than the
    bounds below need. *)
Lemma mood_literals :
  716 / 1024 <= rnd 0.7 /\ 102 / 1024 <= rnd 0.1
  /\ 306 / 1024 <= rnd 0.3 <= 308 / 1024
  /\ 204 / 1024 <= rnd 0.2 <= 205 / 1024
  /\ 819 / 1024 <= rnd 0.8 <= 820 / 1024.
Proof.
  split; [rnd_lower 716%Z 10%nat|]. split; [rnd_lower 102%Z 10%nat|].
  split; [split; [rnd_lower 306%Z 10%nat | rnd_upper 308%Z 10%nat]|].
  split; [split; [rnd_lower 204%Z 10%nat | rnd_upper 205%Z 10%nat]|].
  split; [rnd_lower 819%Z 10%nat | rnd_upper 820%Z 10%nat].
Qed.

(** The two refinements, on an energy of [0,1]. *)
Lemma melancholy_energy (e1 : R) :
  0 <= e1 <= 1 ->
  0.19 <= Rmax 0 (Rmin 1 (Rmax (rnd 0.2) (rnd (e1 - rnd 0.3)))) <= 0.71
  /\ (818 / 1024 <= e1 -> 0.49 <= Rmax 0 (Rmin 1 (Rmax (rnd 0.2) (rnd (e1 - rnd 0.3))))).
Proof.
  intros He. destruct mood_literals as (H7 & H1 & H3 & H2 & H8).
  assert (Hd : rnd (e1 - rnd 0.3) <= 719 / 1024) by (rnd_upper 719%Z 10%nat).
  assert (Hm : 204 / 1024 <= Rmax (rnd 0.2) (rnd (e1 - rnd 0.3)) <= 719 / 1024).
  { unfold Rmax. destruct (Rle_dec _ _); lra. }
  rewrite clamp_id by lra. split; [lra|].
  intros Hhi.
  assert (Hl : 510 / 1024 <= rnd (e1 - rnd 0.3)) by (rnd_lower 510%Z 10%nat).
  unfold Rmax. destruct (Rle_dec _ _); lra.
Qed.

Lemma uplifting_energy (e1 : R) :
  0 <= e1 <= 1 ->
  0.19 <= Rmax 0 (Rmin 1 (Rmin (rnd 0.8) (rnd (e1 + rnd 0.2)))) <= 0.81
  /\ (818 / 1024 <= e1 -> 0.49 <= Rmax 0 (Rmin 1 (Rmin (rnd 0.8) (rnd (e1 + rnd 0.2))))).
Proof.
  intros He. destruct mood_literals as (H7 & H1 & H3 & H2 & H8).
  assert (Hd : 204 / 1024 <= rnd (e1 + rnd 0.2)) by (rnd_lower 204%Z 10%nat).
  assert (Hm : 204 / 1024 <= Rmin (rnd 0.8) (rnd (e1 + rnd 0.2)) <= 820 / 1024).
  { unfold Rmin. destruct (Rle_dec _ _); lra. }
  rewrite clamp_id by lra. split; [lra|].
  intros Hhi.
  assert (Hl : 512 / 1024 <= rnd (e1 + rnd 0.2)) by (rnd_lower 512%Z 10%nat).
  unfold Rmin. destruct (Rle_dec _ _); lra.
Qed.

(** With an energetic keyword the counted energy is next to 0.8 or above. *)
Lemma counted_energetic (energetic calm : nat) :
  (0 < energetic)%nat -> 818 / 1024 <= Mood.counted energetic calm.
Proof.
  intros Hen. unfold Mood.counted. apply Nat.ltb_lt in Hen as Hb. rewrite Hb.
  destruct mood_literals as (H7 & H1 & H3 & H2 & H8).
  assert (Hn : 1 <= INR energetic) by (apply (le_INR 1); lia).
  assert (Hp : 102 / 1024 <= rnd (INR energetic * rnd 0.1)).
  { rnd_lower 102%Z 10%nat. nra. }
  assert (Hs : 818 / 1024 <= rnd (rnd 0.7 + rnd (INR energetic * rnd 0.1)))
    by (rnd_lower 818%Z 10%nat).
  unfold Rmin. destruct (Rle_dec _ _); lra.
Qed.

End MoodAnalysis.

Section MoodCounts.

Context {rounding : Rounding}.
Import AIIntegration.

Lemma filter_none {A : Type} (f : A -> bool) (l : list A) :
  List.existsb f l = false -> length (List.filter f l) = 0%nat.
Proof.
  induction l as [|x l IH]; [reflexivity|]. cbn.
  destruct (f x); cbn; [discriminate | exact IH].
Qed.

Lemma filter_some {A : Type} (f : A -> bool) (l : list A) :
  List.existsb f l = true -> (0 < length (List.filter f l))%nat.
Proof.
  induction l as [|x l IH]; [discriminate|]. cbn.
  destruct (f x); cbn; [lia | exact IH].
Qed.

End MoodCounts.

(** X18.  Whatever the metadata, [fallbackMoodAnalysis] returns one of the
    five moods, an energy that is a number of [0,1], and the source
    "fallback". *)
Theorem fallback_mood_wellformed {rounding : Rounding}
    (metadata : AIIntegration.Metadata) :
  let r := AIIntegration.fallbackMoodAnalysis metadata in
  AIIntegration.mood r ∈ AIIntegration.validMoods
  /\ JS.within 0 1 (AIIntegration.energy r)
  /\ AIIntegration.source r = "fallback"%string
  /\ AIIntegration.reasoning r = "Keyword-based analysis"%string.
Proof.
  cbv zeta. rewrite fallbackMoodAnalysis_unfold. cbv zeta.
  assert (Hc : forall r : R, (0 <= Rmax 0 (Rmin 1 r) <= 1)%R) by apply clamp_unit.
  destruct (Mood.mentions metadata AIIntegration.melancholyKeywords);
    [|destruct (Mood.mentions metadata AIIntegration.upliftingKeywords)];
    cbn [AIIntegration.mood AIIntegration.energy AIIntegration.source
         AIIntegration.reasoning JS.within];
    (split; [|split; [apply Hc | split; reflexivity]]).
  - apply (bool_decide_unpack _). vm_compute. exact I.
  - apply (bool_decide_unpack _). vm_compute. exact I.
  - apply validateMood_valid.
Qed.

(** X19.  In [fallbackMoodAnalysis] the keywords of the text take
    precedence over the genre: a melancholy keyword gives "melancholy"
    with an energy next to the interval from 0.2 to 0.7; otherwise an
    uplifting keyword gives "uplifting" with an energy next to the
    interval from 0.2 to 0.8; an energetic keyword keeps the energy above
    0.49 (the rounded 0.7 + 0.1 - 0.3 may lie below 0.5); and a text
    without any keyword gets the mood of its genre with the energy 0.5.
    The bounds hold whatever the rounding. *)
Theorem fallback_mood_precedence {rounding : Rounding} (metadata : AIIntegration.Metadata) :
  let r := AIIntegration.fallbackMoodAnalysis metadata in
  let mentions := Mood.mentions metadata in
  (mentions AIIntegration.melancholyKeywords = true ->
     AIIntegration.mood r = "melancholy"%string /\ JS.within 0.19 0.71 (AIIntegration.energy r))
  /\ (mentions AIIntegration.melancholyKeywords = false ->
      mentions AIIntegration.upliftingKeywords = true ->
        AIIntegration.mood r = "uplifting"%string
        /\ JS.within 0.19 0.81 (AIIntegration.energy r))
  /\ (mentions AIIntegration.energeticKeywords = true ->
        JS.within 0.49 1 (AIIntegration.energy r))
  /\ (mentions AIIntegration.melancholyKeywords = false ->
      mentions AIIntegration.upliftingKeywords = false ->
      mentions AIIntegration.energeticKeywords = false ->
      mentions AIIntegration.calmKeywords = false ->
        AIIntegration.mood r = Mood.of_genre metadata
        /\ AIIntegration.energy r = #0.5).
Proof.
  cbv zeta. rewrite fallbackMoodAnalysis_unfold. cbv zeta.
  set (energetic := length (List.filter _ AIIntegration.energeticKeywords)).
  set (calm := length (List.filter _ AIIntegration.calmKeywords)).
  pose proof (counted_unit energetic calm) as He1.
  pose proof (counted_energetic energetic calm) as Hen1.
  set (e1 := Mood.counted energetic calm) in *.
  destruct (melancholy_energy e1 He1) as [Hmel Hmel'].
  destruct (uplifting_energy e1 He1) as [Hup Hup'].
  split; [|split; [|split]].
  - intros ->. cbn. split; [reflexivity | exact Hmel].
  - intros -> ->. cbn. split; [reflexivity | exact Hup].
  - intros Hen. apply filter_some in Hen. fold energetic in Hen.
    specialize (Hen1 Hen).
    destruct (Mood.mentions metadata AIIntegration.melancholyKeywords);
      [|destruct (Mood.mentions metadata AIIntegration.upliftingKeywords)];
      cbn [AIIntegration.energy JS.within].
    + specialize (Hmel' Hen1). lra.
    + specialize (Hup' Hen1). lra.
    + rewrite clamp_id; lra.
  - intros -> -> Hen Hca. apply filter_none in Hen, Hca.
    fold energetic in Hen. fold calm in Hca.
    cbn [AIIntegration.mood AIIntegration.energy].
    assert (E : e1 = 0.5%R) by (unfold e1, Mood.counted; now rewrite Hen, Hca).
    rewrite Hen, Hca. cbn [Nat.ltb Nat.leb]. split.
    + apply validateMood_fixes, defaultMoods_valid.
    + rewrite E, clamp_id by lra. reflexivity.
Qed.

Section HashColours.

Context {rounding : Rounding}.
Import AIIntegration.

Lemma toInt32_wraps (z : Z) : exists k : Z, toInt32 z = (z + k * 2 ^ 32)%Z.
Proof.
  unfold toInt32. exists (- ((z + 2 ^ 31) / 2 ^ 32))%Z.
  pose proof (Z.div_mod (z + 2 ^ 31) (2 ^ 32) ltac:(lia)). lia.
Qed.

Lemma toInt32_range (z : Z) : (- 2 ^ 31 <= toInt32 z < 2 ^ 31)%Z.
Proof.
  unfold toInt32. pose proof (Z.mod_pos_bound (z + 2 ^ 31) (2 ^ 32) ltac:(lia)). lia.
Qed.

Lemma toInt32_congruent (a b k : Z) : a = (b + k * 2 ^ 32)%Z -> toInt32 a = toInt32 b.
Proof.
  intros ->. unfold toInt32. f_equal.
  replace (b + k * 2 ^ 32 + 2 ^ 31)%Z with (b + 2 ^ 31 + k * 2 ^ 32)%Z by lia.
  apply Z_mod_plus_full.
Qed.

Lemma hash_step_polynomial (p : Z) (c : Ascii.ascii) :
  hash_step (toInt32 p) c = toInt32 (31 * p + Z.of_nat (Ascii.nat_of_ascii c)).
Proof.
  unfold hash_step. cbv zeta. rewrite Z.land_diag, Z.shiftl_mul_pow2 by lia.
  set (code := Z.of_nat (Ascii.nat_of_ascii c)).
  destruct (toInt32_wraps p) as (k1 & E1).
  destruct (toInt32_wraps (toInt32 p)) as (k2 & E2).
  destruct (toInt32_wraps (toInt32 (toInt32 p) * 2 ^ 5)) as (k3 & E3).
  destruct (toInt32_wraps (toInt32 (toInt32 (toInt32 p) * 2 ^ 5) - toInt32 p + code))
    as (k4 & E4).
  apply (toInt32_congruent _ _ (k4 + k3 + 32 * k2 + 31 * k1)).
  rewrite E4, E3, E2, E1. lia.
Qed.

Lemma fold_left_through {A B C : Type} (f : A -> C -> A) (g : B -> C -> B) (phi : B -> A) :
  (forall b c, f (phi b) c = phi (g b c)) ->
  forall l b, fold_left f l (phi b) = phi (fold_left g l b).
Proof.
  intros H l. induction l as [|c l IH]; intros b; [reflexivity|].
  cbn [fold_left]. rewrite H. apply IH.
Qed.

Lemma simpleHash_wrapped (str : string) :
  simpleHash str = Z.abs (toInt32 (Hash.polynomial str)).
Proof.
  unfold simpleHash, Hash.polynomial. f_equal.
  exact (fold_left_through hash_step
           (fun h c => (31 * h + Z.of_nat (Ascii.nat_of_ascii c))%Z) toInt32
           hash_step_polynomial (String.list_ascii_of_string str) 0%Z).
Qed.

Lemma simpleHash_bounds (str : string) : (0 <= simpleHash str <= 2 ^ 31)%Z.
Proof.
  rewrite simpleHash_wrapped.
  pose proof (toInt32_range (Hash.polynomial str)) as H.
  revert H. generalize (toInt32 (Hash.polynomial str)). intros z H. lia.
Qed.

End HashColours.

(** X20.  [simpleHash] is the absolute value of the polynomial hash with
    base 31 of the character codes, wrapped to a signed 32-bit integer; it
    lies between 0 and 2^31 inclusive, and is 0 on the empty string. *)
Theorem simpleHash_polynomial (str : string) :
  AIIntegration.simpleHash str = Z.abs (AIIntegration.toInt32 (Hash.polynomial str))
  /\ (0 <= AIIntegration.simpleHash str <= 2 ^ 31)%Z
  /\ AIIntegration.simpleHash "" = 0%Z.
Proof.
  split; [|split].
  - apply simpleHash_wrapped.
  - apply simpleHash_bounds.
  - reflexivity.
Qed.


Section HashPalette.

Context {rounding : Rounding}.
Import AIIntegration.

Lemma hashed_colour_valid (hash i : Z) :
  Channel.rgb_valid
    (ColorUtils.hslToRgb (JS.of_Z ((hash + i * 73) mod 360))
       (JS.of_Z (60 + (hash + i * 37) mod 40))
       (JS.of_Z (50 + (hash + i * 23) mod 30))).
Proof.
  pose proof (Z.mod_pos_bound (hash + i * 73) 360 ltac:(lia)) as [Hh0 Hh1].
  pose proof (Z.mod_pos_bound (hash + i * 37) 40 ltac:(lia)) as [Hs0 Hs1].
  pose proof (Z.mod_pos_bound (hash + i * 23) 30 ltac:(lia)) as [Hl0 Hl1].
  revert Hh0 Hh1 Hs0 Hs1 Hl0 Hl1.
  generalize ((hash + i * 73) mod 360)%Z, ((hash + i * 37) mod 40)%Z,
             ((hash + i * 23) mod 30)%Z.
  intros hz sz lz Hh0 Hh1 Hs0 Hs1 Hl0 Hl1.
  unfold JS.of_Z. rewrite plus_IZR, plus_IZR.
  apply IZR_le in Hh0, Hs0, Hl0. apply IZR_lt in Hh1, Hs1, Hl1.
  apply hslToRgb_valid; lra.
Qed.

End HashPalette.

(** X21.  For every image address [fallbackColorAnalysis] returns five
    colours whose channels are integers from 0 to 255; their hues are
    [(hash + 73 i) mod 360], their saturations [60 + (hash + 37 i) mod 40]
    and their lightnesses [50 + (hash + 23 i) mod 30] for [i] from 0 to 4,
    with [hash] the hash of the address. *)
Theorem fallbackColorAnalysis_colours (imageUrl : string) :
  AIIntegration.fallbackColorAnalysis imageUrl
  = map (fun i =>
           let hash := AIIntegration.simpleHash imageUrl in
           ColorUtils.hslToRgb (JS.of_Z ((hash + i * 73) mod 360))
             (JS.of_Z (60 + (hash + i * 37) mod 40))
             (JS.of_Z (50 + (hash + i * 23) mod 30)))
        [0; 1; 2; 3; 4]%Z
  /\ length (AIIntegration.fallbackColorAnalysis imageUrl) = 5%nat
  /\ Forall Channel.rgb_valid (AIIntegration.fallbackColorAnalysis imageUrl).
Proof.
  pose proof (simpleHash_bounds imageUrl) as Hh.
  assert (E : AIIntegration.fallbackColorAnalysis imageUrl
     = map (fun i =>
              let hash := AIIntegration.simpleHash imageUrl in
              ColorUtils.hslToRgb (JS.of_Z ((hash + i * 73) mod 360))
                (JS.of_Z (60 + (hash + i * 37) mod 40))
                (JS.of_Z (50 + (hash + i * 23) mod 30)))
           [0; 1; 2; 3; 4]%Z).
  { unfold AIIntegration.fallbackColorAnalysis, for_range. cbv zeta.
    revert Hh. generalize (AIIntegration.simpleHash imageUrl). intros hash Hh.
    change (Z.to_nat (5 - 0)) with 5%nat. cbn [for_loop app map Z.add Pos.add Pos.succ].
    rewrite !Z.rem_mod_nonneg by lia. reflexivity. }
  split; [exact E|]. rewrite E. split; [reflexivity|].
  apply Forall_map, Forall_forall. intros i _. cbv zeta. apply hashed_colour_valid.
Qed.

(** ** visualizer-2d.js: the display state *)

Section DisplayState.

Context {rounding : Rounding}.
Import Visualizer2D.
Local Open Scope R_scope.

Lemma visual_constructor (w hgt : JS.num) (g : Rng) :
  Visual.invariant (fst (constructor w hgt g)).
Proof.
  unfold constructor, initializeParticles.
  cbn [maxParticles resize set_surface width height].
  generalize (pushParticles 150 w hgt [] g). intros [ps g'].
  cbn [fst set_particles].
  constructor;
    cbn [beatIntensity beatDecay pulseScale modeTransition colorTransition
         colorPalette currentColorIndex modes currentMode frameCount JS.within
         set_particles resize set_surface];
    try lra; try lia; try reflexivity.
  exists 0. split; [reflexivity | lra].
Qed.

Lemma visual_set_particles (ps : list Particle) (v : t) :
  Visual.invariant v -> Visual.invariant (set_particles ps v).
Proof. intros [? ? ? ? ? ? ? ? ? ?]. constructor; assumption. Qed.

Lemma visual_set_running (run : bool) (loop : option nat) (v : t) :
  Visual.invariant v -> Visual.invariant (set_running run loop v).
Proof. intros [? ? ? ? ? ? ? ? ? ?]. constructor; assumption. Qed.

Lemma visual_set_surface (w hgt : JS.num) (palette : list ColorUtils.RGB)
    (attached : bool) (v : t) :
  length palette = 4%nat ->
  Visual.invariant v -> Visual.invariant (set_surface w hgt palette attached v).
Proof. intros Hp [? ? ? ? ? ? ? ? ? ?]. constructor; assumption. Qed.

Lemma visual_updateFPS (timestamp : JS.num) (v : t) :
  Visual.invariant v -> Visual.invariant (updateFPS timestamp v).
Proof.
  intros [? ? ? ? ? ? ? ? ? ?]. unfold updateFPS.
  destruct (_ >=? _)%js; constructor; cbn; try assumption; lia.
Qed.

Lemma struck_of_invariant (v : t) : Visual.invariant v -> Visual.struck v.
Proof. intros [? ? ? ? ? ? ? ? ? ?]. constructor; auto. Qed.

Lemma struck_attack (v : t) : Visual.invariant v -> Visual.struck (set_beat #1%js #1.2%js v).
Proof.
  intros [? ? ? ? ? ? ? ? ? ?]. constructor; cbn; try assumption; try lra. now right.
Qed.

Lemma struck_switchMode (v : t) : Visual.struck v -> Visual.struck (switchMode v).
Proof.
  intros [? ? ? ? ? ? ? Hmodes ? ?]. unfold switchMode.
  constructor; cbn; try assumption; try lra.
  rewrite Hmodes. cbn [length]. apply Nat.mod_upper_bound. lia.
Qed.

Lemma visual_updateTransitions (v : t) :
  Visual.invariant v -> Visual.invariant (updateTransitions v).
Proof.
  intros [? ? ? Hmt ? ? ? ? ? ?]. unfold updateTransitions.
  constructor; cbn; try assumption.
  destruct (modeTransition v) as [r| | |]; try contradiction. cbn in Hmt.
  unfold JS.sub, JS.add, JS.neg. rewrite max_fin. cbn. unfold Rmax.
  match goal with |- context [Rle_dec ?a ?b] => destruct (Rle_dec a b) end; lra.
Qed.

(** The second half of [updateVisualState]: decay, relaxation of the
    pulse, colour cycling. *)
Lemma visual_decay (energy : JS.num) (v : t) :
  Visual.struck v ->
  let v2 := set_beat (beatIntensity v * beatDecay v)%js
                     (MathUtils.lerp (pulseScale v) #1%js #0.1%js) v in
  let transition := (colorTransition v2 + #0.01)%js in
  Visual.invariant
    (let '(index, transition) :=
       if (transition >=? #1)%js
       then ((currentColorIndex v2 + 1) mod length (colorPalette v2), #0%js)
       else (currentColorIndex v2, transition) in
     set_color index transition (gradientAngle v2 + energy * #0.02)%js v2).
Proof.
  intros [Hb Hd Hp Hmt (r & Hr & Hr01) Hlen Hci Hmodes Hmode Hfc]. cbv zeta.
  cbn [colorTransition currentColorIndex colorPalette set_beat gradientAngle].
  rewrite Hr, Hlen.
  change (JS.Fin r + #0.01)%js with (JS.Fin (r + 0.01)).
  change (JS.Fin (r + 0.01) >=? #1)%js with (JS.Rleb 1 (r + 0.01)).
  assert (Hbeat : JS.within 0 0.95 (beatIntensity v * beatDecay v)%js).
  { rewrite Hd. destruct Hb as [Hb| ->].
    - destruct (beatIntensity v) as [b| | |]; try contradiction. cbn in *.
      unfold JS.mul. cbn. nra.
    - unfold JS.mul. cbn. lra. }
  assert (Hpulse : JS.within 1 1.2 (MathUtils.lerp (pulseScale v) #1%js #0.1%js)).
  { destruct (pulseScale v) as [p| | |]; try contradiction. cbn in Hp.
    rewrite lerp_fin. cbn. lra. }
  unfold JS.Rleb. destruct (Rle_dec 1 (r + 0.01));
    constructor; cbn [beatIntensity beatDecay pulseScale modeTransition colorTransition
                      colorPalette currentColorIndex modes currentMode frameCount
                      set_color set_beat]; try assumption.
  - exists 0. split; [reflexivity | lra].
  - apply Nat.mod_upper_bound. lia.
  - exists (r + 0.01). split; [reflexivity | lra].
Qed.

Lemma visual_updateVisualState (analysis : AudioAnalyzer.AnalysisFrame) (v : t) (g : Rng) :
  Visual.invariant v -> Visual.invariant (fst (updateVisualState analysis v g)).
Proof.
  intros Hv. unfold updateVisualState.
  destruct (AudioAnalyzer.beat analysis).
  - unfold Math_random.
    destruct (_ <? _)%js; cbv zeta; cbn [fst].
    + pose proof (visual_decay (AudioAnalyzer.energy analysis) _
                    (struck_switchMode _ (struck_attack v Hv))) as H.
      cbv zeta in H.
      match goal with
      | |- Visual.invariant (fst (let '(index, transition) := ?c in _)) =>
          destruct c as [index transition]
      end. exact H.
    + pose proof (visual_decay (AudioAnalyzer.energy analysis) _ (struck_attack v Hv)) as H.
      cbv zeta in H.
      match goal with
      | |- Visual.invariant (fst (let '(index, transition) := ?c in _)) =>
          destruct c as [index transition]
      end. exact H.
  - cbv zeta; cbn [fst].
    pose proof (visual_decay (AudioAnalyzer.energy analysis) _ (struck_of_invariant v Hv)) as H.
    cbv zeta in H.
    match goal with
    | |- Visual.invariant (fst (let '(index, transition) := ?c in _)) =>
        destruct c as [index transition]
    end. exact H.
Qed.

End DisplayState.

Section DisplayFrames.

Context {rounding : Rounding}.
Import Visualizer2D.

Lemma visual_renderMode (data : list JS.num) (v : t) (g : Rng) :
  Visual.invariant v -> Visual.invariant (snd (fst (renderMode data v g))).
Proof.
  intros Hv. unfold renderMode.
  destruct (modes v !! currentMode v) as [mode|]; [|exact Hv].
  destruct (String.eqb mode "particles"); [|exact Hv].
  unfold renderParticles.
  destruct (forEachParticle data v 0 (particles v) g) as [[res ps] g'].
  now apply visual_set_particles.
Qed.

Lemma visual_render (timestamp : JS.num) (hw : AudioAnalyzer.HwFrame) (now : Z)
    (v : t) (an : AudioAnalyzer.t) (g : Rng) :
  Visual.invariant v ->
  Visual.invariant (snd (fst (fst (render timestamp hw now v an g)))).
Proof.
  intros Hv. unfold render.
  destruct (negb (audioAnalyzer v) || negb (isRunning v)); [exact Hv|].
  pose proof (visual_updateFPS timestamp v Hv) as H1.
  destruct (AudioAnalyzer.analyze hw now an) as [[analysis|e] an1]; [|exact H1].
  destruct (AudioAnalyzer.getVisualizationData 64 an1) as [[visualData|e] an2]; [|exact H1].
  pose proof (visual_updateVisualState analysis _ g H1) as H2.
  destruct (updateVisualState analysis (updateFPS timestamp v) g) as [v2 g2].
  cbn [fst] in H2.
  destruct (colorPalette v2); [exact H2|].
  pose proof (visual_renderMode visualData v2 g2 H2) as H3.
  destruct (renderMode visualData v2 g2) as [[[[]|err] v3] g3]; cbn [fst snd] in *;
    [now apply visual_updateTransitions | exact H3].
Qed.

Lemma visual_step (e : Page.event) (w : Page.t) :
  Visual.invariant (Page.v2d w) -> Visual.invariant (Page.v2d (Page.step e w)).
Proof.
  intros Hv. destruct e; cbn [Page.step Page.v2d]; try exact Hv.
  - unfold setAudioAnalyzer. apply visual_set_surface; [apply Hv | exact Hv].
  - unfold updateColorPalette.
    destruct (ColorUtils.generateMoodPalette mood energy) as [p|] eqn:Hp; [|exact Hv].
    cbn [Page.v2d]. apply visual_set_surface; [|exact Hv].
    now apply (generateMoodPalette_ok_length mood energy).
  - destruct (Visualizer3D.updateColorPalette mood energy (Page.v3d w)); exact Hv.
  - unfold resize. apply visual_set_surface; [apply Hv | exact Hv].
  - unfold start. destruct (isRunning (Page.v2d w)); [exact Hv|].
    destruct (PerformanceUtils.createAnimationLoop (Page.closures w)) as [k st1].
    destruct (PerformanceUtils.start k st1 (Page.host w)) as [st2 hst2].
    cbn [Page.v2d]. now apply visual_set_running.
  - unfold Page.stop2D, stop.
    destruct (animationLoop (Page.v2d w)) as [k|].
    + destruct (PerformanceUtils.stop k (Page.closures w) (Page.host w)) as [st' hst'].
      cbn [Page.v2d]. now apply visual_set_running.
    + cbn [Page.v2d]. now apply visual_set_running.
  - destruct (Visualizer3D.start hw now (Page.v3d w) (Page.host w) (Page.analyzer w)
                (Page.rng w)) as [[[[res v] hst] an] g].
    exact Hv.
  - unfold Page.stop3D.
    destruct (Visualizer3D.stop (Page.v3d w) (Page.host w)) as [v hst]. exact Hv.
  - destruct (Page.callback_of handle (Host.pending (Page.host w))) as [[k|]|]; [| |exact Hv].
    + unfold Page.run_loop. cbn [Page.closures Page.v2d Page.analyzer Page.rng].
      destruct (Page.closures w !! k) as [c|]; [|exact Hv].
      destruct (PerformanceUtils.isRunning c); [|exact Hv].
      pose proof (visual_render timestamp hw now (Page.v2d w) (Page.analyzer w)
                    (Page.rng w) Hv) as Hr.
      destruct (render timestamp hw now (Page.v2d w) (Page.analyzer w) (Page.rng w))
        as [[[[u|e] v] an] g]; cbn [fst snd] in Hr.
      * destruct (Host.requestAnimationFrame _ _) as [id hst]. exact Hr.
      * exact Hr.
    + unfold Page.run_animate. cbn [Page.v3d Page.host Page.analyzer Page.rng Page.v2d].
      destruct (Visualizer3D.animate _ _ _ _ _ _) as [[[[res v] hst] an] g]. exact Hv.
Qed.

Lemma visual_run (events : list Page.event) (w : Page.t) :
  Visual.invariant (Page.v2d w) -> Visual.invariant (Page.v2d (Page.run events w)).
Proof.
  revert w. induction events as [|e events IH]; intros w Hv; [exact Hv|].
  cbn [Page.run fold_left]. apply IH. now apply visual_step.
Qed.

Lemma visual_initial (w hgt : JS.num) (g : Rng) :
  Visual.invariant (Page.v2d (Page.initial w hgt g)).
Proof.
  unfold Page.initial.
  pose proof (visual_constructor w hgt g) as H.
  destruct (Visualizer2D.constructor w hgt g) as [v2 g1].
  destruct (Visualizer3D.constructor g1) as [v3 g2]. exact H.
Qed.

Lemma visual_reachable (w hgt : JS.num) (g : Rng) (events : list Page.event) :
  Visual.invariant (Page.v2d (Page.run events (Page.initial w hgt g))).
Proof. apply visual_run, visual_initial. Qed.

End DisplayFrames.

(** X22.  After any sequence of events of the page the display state of
    the raster visualizer is in range: the beat intensity is a number from
    0 to 0.95, the pulse scale from 1 to 1.2, the mode transition from 0
    to 1 and the colour transition from 0 to below 1; the palette has four
    colours, the colour index is below 4 and the mode index below 5, so
    that every frame finds its mode in the list of modes. *)
Theorem display_state_in_range {rounding : Rounding} (w hgt : JS.num) (g : Rng) (events : list Page.event) :
  let v := Page.v2d (Page.run events (Page.initial w hgt g)) in
  Visual.invariant v
  /\ exists mode,
       Visualizer2D.modes v !! Visualizer2D.currentMode v = Some mode
       /\ mode ∈ ["bars"; "circles"; "waves"; "particles"; "spiral"]%string.
Proof.
  cbv zeta. pose proof (visual_reachable w hgt g events) as Hv.
  split; [exact Hv|].
  destruct Hv as [_ _ _ _ _ _ _ Hmodes Hmode _].
  rewrite Hmodes.
  destruct (lookup_lt_is_Some_2 ["bars"; "circles"; "waves"; "particles"; "spiral"]%string
              (Visualizer2D.currentMode
                 (Page.v2d (Page.run events (Page.initial w hgt g))))) as [mode Hm].
  { cbn [length]. exact Hmode. }
  exists mode. split; [exact Hm|]. eapply list_elem_of_lookup_2. exact Hm.
Qed.

Section PaletteLookups.

Context {rounding : Rounding}.
Import Visualizer2D.
Local Open Scope R_scope.

Lemma rem_Z (a b : Z) :
  (0 <= a)%Z -> (0 < b)%Z -> JS.rem (JS.of_Z a) (JS.of_Z b) = JS.of_Z (a mod b).
Proof.
  intros Ha Hb. unfold JS.rem, JS.of_Z.
  assert (Hb' : 0 < IZR b) by (now apply IZR_lt).
  assert (E : JS.Reqb (IZR b) 0 = false) by (apply Reqb_false; lra).
  rewrite E, Zfloor_div by assumption.
  assert (Hq : 0 <= IZR a / IZR b).
  { apply Rmult_le_pos; [now apply IZR_le | left; now apply Rinv_0_lt_compat]. }
  assert (E1 : JS.Rleb 0 (IZR a / IZR b) = true) by (now apply Rleb_true).
  rewrite E1. f_equal. rewrite <- mult_IZR, <- minus_IZR. f_equal.
  pose proof (Z.div_mod a b ltac:(lia)). lia.
Qed.

Lemma interpolateColor_valid (color1 color2 : ColorUtils.RGB) (factor : R) :
  Channel.rgb_valid color1 -> Channel.rgb_valid color2 -> 0 <= factor <= 1 ->
  Channel.rgb_valid (ColorUtils.interpolateColor color1 color2 (JS.Fin factor)).
Proof.
  intros H1 H2 Hf.
  destruct color1 as [[r1 g1] b1], color2 as [[r2 g2] b2].
  unfold Channel.rgb_valid in H1, H2. cbn [fst snd] in H1, H2.
  destruct H1 as ((n1 & -> & Hn1) & (n2 & -> & Hn2) & (n3 & -> & Hn3)).
  destruct H2 as ((m1 & -> & Hm1) & (m2 & -> & Hm2) & (m3 & -> & Hm3)).
  assert (Hmix : forall n m : Z, (0 <= n <= 255)%Z -> (0 <= m <= 255)%Z ->
            Channel.valid
              (JS.Math_round (JS.of_Z n + (JS.of_Z m - JS.of_Z n) * JS.Fin factor)%js)).
  { intros n m [Hn0 Hn1'] [Hm0 Hm1']. apply IZR_le in Hn0, Hn1', Hm0, Hm1'.
    unfold JS.of_Z, JS.sub, JS.add, JS.neg, JS.mul.
    replace (IZR n + (IZR m + - IZR n) * factor)
      with (((IZR n + (IZR m - IZR n) * factor) / 255) * 255) by (field; lra).
    apply round_channel.
    assert (0 <= IZR n + (IZR m - IZR n) * factor <= 255) by nra.
    split.
    - apply Rmult_le_pos; lra.
    - apply (Rmult_le_reg_r 255); [lra|]. unfold Rdiv. rewrite Rmult_assoc, Rinv_l; lra. }
  unfold ColorUtils.interpolateColor.
  repeat split; cbn [fst snd]; now apply Hmix.
Qed.

Lemma getCurrentColor_ok (v : t) :
  Visual.invariant v ->
  exists c1 c2 r,
    colorPalette v !! currentColorIndex v = Some c1
    /\ colorPalette v !! ((currentColorIndex v + 1) mod 4)%nat = Some c2
    /\ colorTransition v = JS.Fin r /\ 0 <= r < 1
    /\ getCurrentColor v = Ok (ColorUtils.interpolateColor c1 c2 (JS.Fin r)).
Proof.
  intros [_ _ _ _ (r & Hr & Hr01) Hlen Hci _ _ _].
  destruct (lookup_lt_is_Some_2 (colorPalette v) (currentColorIndex v)) as [c1 H1];
    [lia|].
  destruct (lookup_lt_is_Some_2 (colorPalette v) ((currentColorIndex v + 1) mod 4)%nat)
    as [c2 H2].
  { rewrite Hlen. apply Nat.mod_upper_bound. lia. }
  exists c1, c2, r. repeat split; try assumption; try lra.
  unfold getCurrentColor. rewrite H1, Hlen.
  unfold JS.of_nat. rewrite rem_Z by lia.
  unfold JS.of_Z at 1. rewrite index_opt_Z by (apply Z.mod_pos_bound; lia).
  change (Z.of_nat 4) with 4%Z.
  replace (Z.to_nat (Z.of_nat (currentColorIndex v + 1) mod 4))
    with ((currentColorIndex v + 1) mod 4)%nat.
  - now rewrite H2, Hr.
  - rewrite <- (Nat2Z.id ((currentColorIndex v + 1) mod 4)). f_equal.
    now rewrite Nat2Z.inj_mod.
Qed.

End PaletteLookups.

(** X23.  After any sequence of events of the page [getCurrentColor]
    returns a colour and never throws: both palette entries it blends
    exist; and when the palette holds integer channels from 0 to 255, so
    does the blended colour. *)
Theorem current_colour_defined {rounding : Rounding} (w hgt : JS.num) (g : Rng) (events : list Page.event) :
  let v := Page.v2d (Page.run events (Page.initial w hgt g)) in
  exists c,
    Visualizer2D.getCurrentColor v = Ok c
    /\ (Forall Channel.rgb_valid (Visualizer2D.colorPalette v) -> Channel.rgb_valid c).
Proof.
  cbv zeta.
  destruct (getCurrentColor_ok _ (visual_reachable w hgt g events))
    as (c1 & c2 & r & H1 & H2 & Hr & Hr01 & Hc).
  eexists. split; [exact Hc|].
  intros Hall. rewrite Forall_forall in Hall.
  apply interpolateColor_valid; [| |lra].
  - apply Hall. eapply list_elem_of_lookup_2. exact H1.
  - apply Hall. eapply list_elem_of_lookup_2. exact H2.
Qed.

(** X24.  With a palette that is not empty, [getColorByValue] of a value
    from 0 to 1 and [getColorByIndex] of an index below the total both
    return a colour of the palette, never [undefined]; the value 1 selects
    the last colour, and the value [NaN] selects nothing. *)
Theorem colour_lookups_defined (v : Visualizer2D.t) (value : R) (index total : nat) :
  Visualizer2D.colorPalette v <> [] ->
  (0 <= value <= 1)%R -> (index < total)%nat ->
  (exists c, Visualizer2D.getColorByValue (JS.Fin value) v = Some c
             /\ c ∈ Visualizer2D.colorPalette v)
  /\ Visualizer2D.getColorByValue #1 v = last (Visualizer2D.colorPalette v)
  /\ (exists c, Visualizer2D.getColorByIndex (JS.of_nat index) (JS.of_nat total) v = Some c
                /\ c ∈ Visualizer2D.colorPalette v)
  /\ Visualizer2D.getColorByValue JS.NaN v = None.
Proof.
  intros Hne Hv Hit.
  set (palette := Visualizer2D.colorPalette v) in *.
  set (n := Z.of_nat (length palette)).
  assert (Hn : (0 < n)%Z) by (unfold n; destruct palette; [congruence | cbn; lia]).
  assert (Hn' : (0 < IZR n)%R) by (now apply IZR_lt).
  split; [|split; [|split]].
  - assert (Hz : (0 <= Zfloor (value * IZR n))%Z) by (apply Zfloor_lub; cbn; nra).
    rewrite getColorByValue_Z by assumption. fold palette. fold n.
    destruct (lookup_lt_is_Some_2 palette
                (Z.to_nat (Z.min (Zfloor (value * IZR n)) (n - 1)))) as [c Hc];
      [unfold n in *; lia|].
    exists c. split; [exact Hc|]. eapply list_elem_of_lookup_2. exact Hc.
  - assert (Hz : Zfloor (1 * IZR n) = n) by (rewrite Rmult_1_l; apply ZfloorZ).
    rewrite getColorByValue_Z; fold palette; fold n; rewrite ?Hz; try lia.
    rewrite Z.min_r by lia. rewrite last_lookup. f_equal. unfold n. lia.
  - unfold Visualizer2D.getColorByIndex. fold palette.
    assert (Ht : (0 < IZR (Z.of_nat total))%R) by (apply IZR_lt; lia).
    unfold JS.of_nat at 1 2. unfold JS.of_Z at 1 2. rewrite div_fin by lra.
    change (JS.of_nat (length palette)) with (JS.Fin (IZR n)).
    change (JS.Fin (IZR (Z.of_nat index) / IZR (Z.of_nat total)) * JS.Fin (IZR n))%js
      with (JS.Fin (IZR (Z.of_nat index) / IZR (Z.of_nat total) * IZR n)).
    unfold JS.Math_floor.
    set (q := (IZR (Z.of_nat index) / IZR (Z.of_nat total))%R).
    assert (Hq0 : (0 <= q)%R).
    { apply Rmult_le_pos; [apply IZR_le; lia | left; now apply Rinv_0_lt_compat]. }
    assert (Hq1 : (q < 1)%R).
    { apply (Rmult_lt_reg_r (IZR (Z.of_nat total))); [assumption|].
      unfold q, Rdiv. rewrite Rmult_assoc, Rinv_l, Rmult_1_r, Rmult_1_l by lra.
      apply IZR_lt. lia. }
    assert (Hz0 : (0 <= Zfloor (q * IZR n))%Z) by (apply Zfloor_lub; cbn; nra).
    assert (Hz1 : (Zfloor (q * IZR n) < n)%Z).
    { apply lt_IZR. pose proof (Zfloor_bound (q * IZR n)). nra. }
    change (JS.Fin (IZR (Zfloor (q * IZR n)))) with (JS.of_Z (Zfloor (q * IZR n))).
    change (JS.Fin (IZR n)) with (JS.of_Z n).
    rewrite rem_Z by assumption. rewrite Z.mod_small by lia.
    unfold JS.of_Z. rewrite index_opt_Z by assumption.
    destruct (lookup_lt_is_Some_2 palette (Z.to_nat (Zfloor (q * IZR n)))) as [c Hc];
      [unfold n in *; lia|].
    exists c. split; [exact Hc|]. eapply list_elem_of_lookup_2. exact Hc.
  - reflexivity.
Qed.

Lemma constructor_palette (w hgt : JS.num) (g : Rng) :
  Visualizer2D.colorPalette (fst (Visualizer2D.constructor w hgt g))
  = ColorUtils.neutralPalette.
Proof.
  unfold Visualizer2D.constructor, Visualizer2D.initializeParticles.
  cbn [Visualizer2D.maxParticles Visualizer2D.resize Visualizer2D.set_surface
       Visualizer2D.width Visualizer2D.height].
  generalize (Visualizer2D.pushParticles 150 w hgt [] g). intros [ps g']. reflexivity.
Qed.

Lemma canvas_palette : Visualizer2D.colorPalette Runs.canvas <> [].
Proof.
  unfold Runs.canvas. rewrite constructor_palette.
  intros E. pose proof neutralPalette_length as H. rewrite E in H. discriminate H.
Qed.

Lemma colour_lookups_defined_witness :
  (exists c, Visualizer2D.getColorByValue (JS.Fin (1 / 2)) Runs.canvas = Some c
             /\ c ∈ Visualizer2D.colorPalette Runs.canvas)
  /\ Visualizer2D.getColorByValue #1 Runs.canvas
     = last (Visualizer2D.colorPalette Runs.canvas)
  /\ (exists c, Visualizer2D.getColorByIndex (JS.of_nat 3) (JS.of_nat 64) Runs.canvas = Some c
                /\ c ∈ Visualizer2D.colorPalette Runs.canvas)
  /\ Visualizer2D.getColorByValue JS.NaN Runs.canvas = None.
Proof.
  apply (colour_lookups_defined Runs.canvas (1 / 2) 3 64).
  - exact canvas_palette.
  - lra.
  - lia.
Defined.

Section ParticleMotion.

Context {rounding : Rounding}.
Import Visualizer2D.
Local Open Scope R_scope.

Lemma audioInfluence_finite (data : list JS.num) (index : nat) :
  data <> [] -> Forall JS.finite data -> JS.finite (audioInfluence_at data index).
Proof.
  intros Hne Hall. unfold audioInfluence_at.
  destruct data as [|d data]; [congruence|].
  set (l := d :: data) in *. cbn [length]. fold (length l).
  change (S (length data)) with (length l).
  assert (Hlt : (index mod length l < length l)%nat)
    by (apply Nat.mod_upper_bound; cbn; lia).
  destruct (lookup_lt_is_Some_2 l _ Hlt) as [a Ha].
  unfold index_num.
  destruct (Z.of_nat (index mod length l) <? 0)%Z eqn:E; [apply Z.ltb_lt in E; lia|].
  rewrite Nat2Z.id, Ha.
  rewrite Forall_forall in Hall. apply Hall. eapply list_elem_of_lookup_2. exact Ha.
Qed.

Lemma wrapped_within (limit x : R) :
  0 <= limit ->
  JS.within 0 limit
    (let x3 := if (JS.Fin x <? #0)%js then JS.Fin limit else JS.Fin x in
     if (x3 >? JS.Fin limit)%js then #0%js else x3).
Proof.
  intros Hl. cbv zeta. unfold JS.gtb, JS.ltb, JS.Rltb.
  destruct (Rlt_dec x 0).
  - destruct (Rlt_dec limit limit); cbn; lra.
  - destruct (Rlt_dec limit x); cbn; lra.
Qed.

Lemma updateParticle_on_canvas (data : list JS.num) (w hgt : R) (index : nat)
    (p : Particle) (g : Rng) :
  data <> [] -> Forall JS.finite data -> 0 <= w -> 0 <= hgt -> Pool.moving p ->
  Pool.on_canvas w hgt (fst (updateParticle data (JS.Fin w) (JS.Fin hgt) index p g))
  /\ Pool.moving (fst (updateParticle data (JS.Fin w) (JS.Fin hgt) index p g)).
Proof.
  intros Hne Hall Hw Hh (Hx & Hy & Hvx & Hvy).
  pose proof (audioInfluence_finite data index Hne Hall) as Ha.
  unfold updateParticle. cbv zeta.
  destruct (audioInfluence_at data index) as [a| | |]; try contradiction.
  destruct p as [px py pvx pvy psize plife pmax pdecay]. cbn [x y vx vy size life maxLife decay] in *.
  destruct px as [x0| | |]; try contradiction.
  destruct py as [y0| | |]; try contradiction.
  destruct pvx as [vx0| | |]; try contradiction.
  destruct pvy as [vy0| | |]; try contradiction.
  unfold Math_random.
  destruct (plife - pdecay <=? #0)%js; cbn [fst x y vx vy];
    unfold Pool.on_canvas, Pool.moving; cbn [x y vx vy].
  - change (JS.Fin (draws g (used g)) * JS.Fin w)%js
      with (JS.Fin (draws g (used g) * w)).
    change (JS.Fin (draws {| draws := draws g; used := S (used g) |}
                      (used {| draws := draws g; used := S (used g) |})) * JS.Fin hgt)%js
      with (JS.Fin (draws g (S (used g)) * hgt)).
    pose proof (wrapped_within w (draws g (used g) * w) Hw) as Wx.
    pose proof (wrapped_within hgt (draws g (S (used g)) * hgt) Hh) as Wy.
    cbv zeta in Wx, Wy.
    assert (F : forall lo hi z, JS.within lo hi z -> JS.finite z)
      by (intros lo hi [z| | |]; cbn; tauto).
    repeat split; try assumption; try exact I; eapply F; eassumption.
  - change (JS.Fin x0 + (JS.Fin vx0 + JS.Fin a * #2))%js
      with (JS.Fin (x0 + (vx0 + a * 2))).
    change (JS.Fin y0 + (JS.Fin vy0 + JS.Fin a * #2))%js
      with (JS.Fin (y0 + (vy0 + a * 2))).
    pose proof (wrapped_within w (x0 + (vx0 + a * 2)) Hw) as Wx.
    pose proof (wrapped_within hgt (y0 + (vy0 + a * 2)) Hh) as Wy.
    cbv zeta in Wx, Wy.
    assert (F : forall lo hi z, JS.within lo hi z -> JS.finite z)
      by (intros lo hi [z| | |]; cbn; tauto).
    repeat split; try assumption; try exact I; eapply F; eassumption.
Qed.

End ParticleMotion.

Section ParticleFrames.

Context {rounding : Rounding}.
Import Visualizer2D.

Lemma constructor_size (w hgt : JS.num) (g : Rng) :
  width (fst (constructor w hgt g)) = w /\ height (fst (constructor w hgt g)) = hgt.
Proof.
  unfold constructor, initializeParticles.
  cbn [maxParticles resize set_surface width height].
  generalize (pushParticles 150 w hgt [] g). intros [ps g']. split; reflexivity.
Qed.

Lemma newParticle_moving (w hgt : R) (g : Rng) :
  Pool.moving (fst (newParticle (JS.Fin w) (JS.Fin hgt) g)).
Proof. unfold newParticle, Math_random. cbn. repeat split. Qed.

Lemma pushParticles_moving (n : nat) (w hgt : R) (ps : list Particle) (g : Rng) :
  Forall Pool.moving ps ->
  Forall Pool.moving (fst (pushParticles n (JS.Fin w) (JS.Fin hgt) ps g)).
Proof.
  revert ps g. induction n as [|n IH]; intros ps g Hps; [exact Hps|].
  cbn [pushParticles].
  pose proof (newParticle_moving w hgt g) as Hp.
  destruct (newParticle (JS.Fin w) (JS.Fin hgt) g) as [p g1]. cbn [fst] in Hp.
  apply IH. apply Forall_app. split; [exact Hps|]. now constructor.
Qed.

Lemma constructor_moving (w hgt : R) (g : Rng) :
  Forall Pool.moving (particles (fst (constructor (JS.Fin w) (JS.Fin hgt) g))).
Proof.
  unfold constructor, initializeParticles.
  cbn [maxParticles resize set_surface width height].
  pose proof (pushParticles_moving 150 w hgt [] g (Forall_nil_2 _)) as H.
  destruct (pushParticles 150 (JS.Fin w) (JS.Fin hgt) [] g) as [ps g']. exact H.
Qed.

Lemma newParticle_size (w hgt : JS.num) (g : Rng) :
  (forall k, (0 <= draws g k)%R) ->
  JS.nonneg (size (fst (newParticle w hgt g)))
  /\ draws (snd (newParticle w hgt g)) = draws g.
Proof.
  intros Hd. unfold newParticle, Math_random. cbn [fst snd size draws used].
  split; [|reflexivity].
  change (JS.Fin (draws g (S (S (S (S (used g)))))) * #3 + #1)
    with (JS.Fin (draws g (S (S (S (S (used g))))) * 3 + 1)).
  cbn. pose proof (Hd (S (S (S (S (used g)))))). lra.
Qed.

Lemma pushParticles_sizes (n : nat) (w hgt : JS.num) (ps : list Particle) (g : Rng) :
  (forall k, (0 <= draws g k)%R) ->
  Forall (fun p => JS.nonneg (size p)) ps ->
  Forall (fun p => JS.nonneg (size p)) (fst (pushParticles n w hgt ps g)).
Proof.
  revert ps g. induction n as [|n IH]; intros ps g Hd Hps; [exact Hps|].
  cbn [pushParticles].
  pose proof (newParticle_size w hgt g Hd) as [Hp Hg].
  destruct (newParticle w hgt g) as [p g1]. cbn [fst snd] in Hp, Hg.
  apply IH.
  - now rewrite Hg.
  - apply Forall_app. split; [exact Hps|]. now constructor.
Qed.

(** As constructed, no particle has a negative size and the pulse scale
    is 1, when [Math.random] draws no negative number. *)
Lemma constructor_sizes (w hgt : JS.num) (g : Rng) :
  (forall k, (0 <= draws g k)%R) ->
  Forall (fun p => JS.nonneg (size p)) (particles (fst (constructor w hgt g)))
  /\ pulseScale (fst (constructor w hgt g)) = #1.
Proof.
  intros Hd. unfold constructor, initializeParticles.
  cbn [maxParticles resize set_surface width height].
  pose proof (pushParticles_sizes 150 w hgt [] g Hd (Forall_nil_2 _)) as H0.
  destruct (pushParticles 150 w hgt [] g) as [ps g']. split; [exact H0|reflexivity].
Qed.

Lemma canvas_sizes :
  Forall (fun p => JS.nonneg (size p)) (particles Runs.canvas)
  /\ JS.nonneg (pulseScale Runs.canvas).
Proof.
  destruct (constructor_sizes #800 #600 Runs.coin) as [Hs Hq].
  - intros k. cbn. lra.
  - split; [exact Hs|]. unfold Runs.canvas. rewrite Hq. cbn. lra.
Qed.

End ParticleFrames.

(** X25.  On a canvas of finite size, with a series of numbers of [0,1]
    that is not empty, a palette that is not empty and no negative size or
    pulse scale, [renderParticles] completes and leaves every particle on
    the canvas: its coordinates lie from 0 to the width and from 0 to the
    height, for any random draws; positions and velocities stay numbers,
    sizes and the canvas are unchanged, so the same holds for the next
    frame. *)
Theorem particles_stay_on_canvas (data : list JS.num) (v : Visualizer2D.t) (g : Rng)
    (w hgt : R) :
  Visualizer2D.width v = JS.Fin w -> Visualizer2D.height v = JS.Fin hgt ->
  (0 <= w)%R -> (0 <= hgt)%R ->
  data <> [] -> Forall (JS.within 0 1) data ->
  Visualizer2D.colorPalette v <> [] ->
  JS.nonneg (Visualizer2D.pulseScale v) ->
  Forall (fun p => JS.nonneg (Visualizer2D.size p)) (Visualizer2D.particles v) ->
  Forall Pool.moving (Visualizer2D.particles v) ->
  let r := Visualizer2D.renderParticles data v g in
  let v' := snd (fst r) in
  fst (fst r) = Ok ()
  /\ Forall (Pool.on_canvas w hgt) (Visualizer2D.particles v')
  /\ Forall Pool.moving (Visualizer2D.particles v')
  /\ Forall (fun p => JS.nonneg (Visualizer2D.size p)) (Visualizer2D.particles v')
  /\ Visualizer2D.width v' = JS.Fin w /\ Visualizer2D.height v' = JS.Fin hgt
  /\ Visualizer2D.colorPalette v' = Visualizer2D.colorPalette v
  /\ Visualizer2D.pulseScale v' = Visualizer2D.pulseScale v.
Proof.
  intros Hw Hh Hw0 Hh0 Hne Hunit Hpal Hq Hsz Hmov. cbv zeta.
  assert (Hfin : Forall JS.finite data).
  { eapply Forall_impl; [exact Hunit|]. intros [a| | |]; cbn; tauto. }
  pose proof (forEachParticle_slots data v 0 (Visualizer2D.particles v) g)
    as (Hlen & Hok & _).
  pose proof (forEachParticle_completes data v 0 (Visualizer2D.particles v) g
                Hpal Hne Hunit Hq Hsz) as Hdone.
  unfold Visualizer2D.renderParticles.
  destruct (Visualizer2D.forEachParticle data v 0 (Visualizer2D.particles v) g)
    as [[res ps] g'].
  cbn [fst snd Visualizer2D.particles Visualizer2D.set_particles
       Visualizer2D.width Visualizer2D.height Visualizer2D.colorPalette
       Visualizer2D.pulseScale] in *.
  specialize (Hok Hdone). rewrite Hw, Hh in Hok.
  assert (Hall : Forall (fun p => Pool.on_canvas w hgt p /\ Pool.moving p
                                  /\ JS.nonneg (Visualizer2D.size p)) ps).
  { apply Forall_lookup. intros i q Hi.
    assert (Hlt : (i < length (Visualizer2D.particles v))%nat)
      by (rewrite <- Hlen; eapply lookup_lt_Some; exact Hi).
    destruct (lookup_lt_is_Some_2 _ _ Hlt) as [p Hp].
    destruct (Hok i p Hp) as [gi Hgi]. rewrite Hi in Hgi. injection Hgi as ->.
    assert (Hin : p ∈ Visualizer2D.particles v)
      by (eapply list_elem_of_lookup_2; exact Hp).
    rewrite Forall_forall in Hmov, Hsz.
    destruct (updateParticle_on_canvas data w hgt (0 + i) p gi Hne Hfin Hw0 Hh0
                (Hmov p Hin)) as [Hc Hm].
    split; [exact Hc|]. split; [exact Hm|].
    rewrite updateParticle_size. now apply Hsz. }
  split; [exact Hdone|].
  split; [eapply Forall_impl; [exact Hall|]; now intros p (H0 & _ & _)|].
  split; [eapply Forall_impl; [exact Hall|]; now intros p (_ & H0 & _)|].
  split; [eapply Forall_impl; [exact Hall|]; now intros p (_ & _ & H0)|].
  repeat split; assumption.
Qed.

Lemma particles_stay_on_canvas_witness :
  let r := Visualizer2D.renderParticles [ #0.5 ] Runs.canvas Runs.coin in
  let v' := snd (fst r) in
  fst (fst r) = Ok ()
  /\ Forall (Pool.on_canvas 800 600) (Visualizer2D.particles v')
  /\ Forall Pool.moving (Visualizer2D.particles v')
  /\ Forall (fun p => JS.nonneg (Visualizer2D.size p)) (Visualizer2D.particles v')
  /\ Visualizer2D.width v' = #800 /\ Visualizer2D.height v' = #600
  /\ Visualizer2D.colorPalette v' = Visualizer2D.colorPalette Runs.canvas
  /\ Visualizer2D.pulseScale v' = Visualizer2D.pulseScale Runs.canvas.
Proof.
  apply (particles_stay_on_canvas [ #0.5 ] Runs.canvas Runs.coin 800 600).
  - exact (proj1 (constructor_size #800 #600 Runs.coin)).
  - exact (proj2 (constructor_size #800 #600 Runs.coin)).
  - lra.
  - lra.
  - discriminate.
  - repeat constructor; cbn; lra.
  - exact canvas_palette.
  - exact (proj2 canvas_sizes).
  - exact (proj1 canvas_sizes).
  - exact (constructor_moving 800 600 Runs.coin).
Defined.


(** ** One frame callback per visualizer *)

Section FrameHandles.

Context {rounding : Rounding}.
Import Schedule Frames.

Lemma distinct_request (cb : Host.callback) (hst : Host.t) :
  (forall h c, (h, c) ∈ Host.pending hst -> (h < Host.nextHandle hst)%Z) ->
  distinct hst -> distinct (snd (Host.requestAnimationFrame cb hst)).
Proof.
  unfold distinct. intros Hfresh Hnd. cbn. rewrite map_app.
  apply NoDup_app. split; [assumption|]. split.
  - intros x Hx Hin. cbn in Hin. apply list_elem_of_singleton in Hin. subst x.
    apply list_elem_of_fmap in Hx as ([h c] & Heq & Hin). cbn in Heq.
    specialize (Hfresh _ _ Hin). lia.
  - cbn. apply NoDup_singleton.
Qed.

Lemma distinct_cancel (handle : Z) (hst : Host.t) :
  distinct hst -> distinct (Host.cancelAnimationFrame handle hst).
Proof.
  unfold distinct. cbn. generalize (Host.pending hst) as l.
  induction l as [|e l IH]; intros Hnd; [assumption|].
  cbn in Hnd. apply NoDup_cons in Hnd as [Hnot Hnd].
  rewrite filter_cons. destruct (decide (fst e ≠ handle)).
  - cbn. apply NoDup_cons. split; [|auto].
    intros Hin. apply Hnot.
    apply list_elem_of_fmap in Hin as (e' & Heq & Hin).
    apply list_elem_of_filter in Hin as [_ Hin].
    apply list_elem_of_fmap. eauto.
  - auto.
Qed.

Lemma fresh_cancel (handle : Z) (hst : Host.t) :
  (forall h c, (h, c) ∈ Host.pending hst -> (h < Host.nextHandle hst)%Z) ->
  forall h c, (h, c) ∈ Host.pending (Host.cancelAnimationFrame handle hst) ->
              (h < Host.nextHandle (Host.cancelAnimationFrame handle hst))%Z.
Proof.
  intros Hfresh h c Hin. apply cancel_subset in Hin as [Hin _]. cbn. eauto.
Qed.

Lemma animate_host (hw : AudioAnalyzer.HwFrame) (now : Z) (v : Visualizer3D.t)
    (hst : Host.t) (an : AudioAnalyzer.t) (g : Rng) :
  let hst' := snd (fst (fst (Visualizer3D.animate hw now v hst an g))) in
  hst' = hst \/ hst' = snd (Host.requestAnimationFrame Host.Animate3D hst).
Proof.
  unfold Visualizer3D.animate.
  destruct (negb (Visualizer3D.isRunning v)); [now left|]. right.
  cbv zeta. cbn [Host.requestAnimationFrame].
  repeat match goal with
         | |- context [if ?b then _ else _] => destruct b
         | |- context [match ?x with _ => _ end] => destruct x
         end; reflexivity.
Qed.

Lemma stop3D_host (v : Visualizer3D.t) (hst : Host.t) :
  snd (Visualizer3D.stop v hst) = hst
  \/ exists id, snd (Visualizer3D.stop v hst) = Host.cancelAnimationFrame id hst.
Proof.
  unfold Visualizer3D.stop. destruct (Host.truthy_handle _); cbn; eauto.
Qed.

Lemma stop2D_host (v : Visualizer2D.t) (st : PerformanceUtils.Store) (hst : Host.t) :
  snd (Visualizer2D.stop v st hst) = hst
  \/ exists id, snd (Visualizer2D.stop v st hst) = Host.cancelAnimationFrame id hst.
Proof.
  unfold Visualizer2D.stop, PerformanceUtils.stop.
  destruct (Visualizer2D.animationLoop v) as [k|]; [|now left].
  destruct (st !! k) as [c|]; [|now left].
  destruct (Host.truthy_handle _); cbn; eauto.
Qed.

Lemma distinct_step (e : Page.event) (w : Page.t) :
  invariant w -> distinct (Page.host w) -> distinct (Page.host (Page.step e w)).
Proof.
  intros Hinv Hnd. pose proof Hinv as [Hpool Hscene Hnext Hfresh Hloop Hanim Hh3].
  assert (Hlt : forall h c, (h, c) ∈ Host.pending (Page.host w) ->
                            (h < Host.nextHandle (Page.host w))%Z)
    by (intros h c Hin; specialize (Hfresh _ _ Hin); lia).
  destruct e; try assumption.
  - cbn [Page.step]. destruct (Visualizer2D.updateColorPalette _ _ _); assumption.
  - cbn [Page.step]. destruct (Visualizer3D.updateColorPalette _ _ _); assumption.
  - cbn [Page.step]. unfold Visualizer2D.start.
    destruct (Visualizer2D.isRunning (Page.v2d w)); [assumption|].
    unfold PerformanceUtils.createAnimationLoop, PerformanceUtils.start.
    set (k := length (Page.closures w)).
    rewrite lookup_app_r by (unfold k; lia).
    replace (k - length (Page.closures w))%nat with 0%nat by (unfold k; lia).
    cbn [lookup list_lookup PerformanceUtils.isRunning Page.host].
    apply (distinct_request (Host.LoopOf k)); assumption.
  - cbn [Page.step]. unfold Page.stop2D.
    pose proof (stop2D_host (Page.v2d w) (Page.closures w) (Page.host w)) as H.
    destruct (Visualizer2D.stop _ _ _) as [[v st] hst]. cbn [fst snd Page.host] in *.
    destruct H as [->|[id ->]]; [assumption|]. now apply distinct_cancel.
  - cbn [Page.step]. unfold Visualizer3D.start.
    destruct (Visualizer3D.isRunning (Page.v3d w)); [assumption|].
    pose proof (animate_host hw now
                  (Visualizer3D.set_running true (Visualizer3D.animationId (Page.v3d w))
                     (Page.v3d w))
                  (Page.host w) (Page.analyzer w) (Page.rng w)) as H.
    destruct (Visualizer3D.animate _ _ _ _ _ _) as [[[[res v] hst] an] g]. cbn [fst snd Page.host] in *.
    destruct H as [->| ->]; [assumption|].
    apply (distinct_request Host.Animate3D); assumption.
  - cbn [Page.step]. unfold Page.stop3D.
    pose proof (stop3D_host (Page.v3d w) (Page.host w)) as H.
    destruct (Visualizer3D.stop _ _) as [v hst]. cbn [fst snd Page.host] in *.
    destruct H as [->|[id ->]]; [assumption|]. now apply distinct_cancel.
  - cbn [Page.step].
    destruct (Page.callback_of handle (Host.pending (Page.host w))) as [cb|];
      [|assumption].
    pose proof (distinct_cancel handle _ Hnd) as Hnd'.
    pose proof (fresh_cancel handle _ Hlt) as Hlt'.
    destruct cb as [k|].
    + unfold Page.run_loop.
      cbn [Page.closures Page.v2d Page.analyzer Page.rng Page.host].
      destruct (Page.closures w !! k) as [c|]; [|assumption].
      destruct (PerformanceUtils.isRunning c); [|assumption].
      destruct (Visualizer2D.render _ _ _ _ _ _) as [[[[[]|err] v] an] g].
      * cbn [Page.host]. apply (distinct_request (Host.LoopOf k)); assumption.
      * assumption.
    + unfold Page.run_animate.
      cbn [Page.closures Page.v3d Page.analyzer Page.rng Page.host].
      pose proof (animate_host hw now (Page.v3d w)
                    (Host.cancelAnimationFrame handle (Page.host w))
                    (Page.analyzer w) (Page.rng w)) as H.
      destruct (Visualizer3D.animate _ _ _ _ _ _) as [[[[res v] hst] an] g]. cbn [fst snd Page.host] in *.
      destruct H as [->| ->]; [assumption|].
      apply (distinct_request Host.Animate3D); assumption.
Qed.

Lemma distinct_run (events : list Page.event) (w : Page.t) :
  invariant w -> distinct (Page.host w) ->
  invariant (Page.run events w) /\ distinct (Page.host (Page.run events w)).
Proof.
  revert w. induction events as [|e events IH]; intros w Hinv Hnd; [now split|].
  cbn. apply IH; [now apply invariant_step | now apply distinct_step].
Qed.

Lemma distinct_initial (w hgt : JS.num) (g : Rng) :
  distinct (Page.host (Page.initial w hgt g)).
Proof.
  unfold Page.initial.
  destruct (Visualizer2D.constructor w hgt g) as [v2 g1].
  destruct (Visualizer3D.constructor g1) as [v3 g2]. cbn. apply NoDup_nil_2.
Qed.

(** Entries that pass a test and carry one and the same handle are at
    most one, when handles are not repeated. *)
Lemma single_entry (test : Z * Host.callback -> bool) (l : list (Z * Host.callback)) :
  NoDup (map fst l) ->
  (forall e e', e ∈ l -> e' ∈ l -> test e = true -> test e' = true -> fst e = fst e') ->
  (length (List.filter test l) <= 1)%nat.
Proof.
  induction l as [|e l IH]; intros Hnd Hsame; [cbn; lia|].
  cbn in Hnd. apply NoDup_cons in Hnd as [Hnot Hnd].
  cbn. destruct (test e) eqn:Ee.
  - assert (Hnone : List.filter test l = []).
    { destruct (List.filter test l) as [|e' r] eqn:Ef; [reflexivity|].
      assert (Hin : In e' (List.filter test l)) by (rewrite Ef; now left).
      apply filter_In in Hin as [Hin Ht]. apply list_elem_of_In in Hin.
      exfalso. apply Hnot.
      rewrite (Hsame e e'); [| now left | now right | assumption | assumption].
      apply list_elem_of_fmap. eauto. }
    rewrite Hnone. cbn. lia.
  - apply IH; [assumption|].
    intros a b Ha Hb. apply Hsame; now right.
Qed.

Lemma filter_empty {A : Type} (test : A -> bool) (l : list A) :
  (forall e, e ∈ l -> test e = false) -> List.filter test l = [].
Proof.
  induction l as [|e l IH]; intros H; [reflexivity|].
  cbn. rewrite (H e) by now left. apply IH. intros a Ha. apply H. now right.
Qed.

(** X26. On every page reached from a fresh one by any sequence of calls
    and fired callbacks, the scheduled callbacks have pairwise different
    handles, each visualizer has at most one callback scheduled, and a
    visualizer that is not running has none. *)
Theorem one_frame_per_visualizer (w hgt : JS.num) (g : Rng) (events : list Page.event) :
  let p := Page.run events (Page.initial w hgt g) in
  distinct (Page.host p)
  /\ (length (pending2D (Page.host p)) <= 1)%nat
  /\ (length (pending3D (Page.host p)) <= 1)%nat
  /\ (Visualizer2D.isRunning (Page.v2d p) = false -> pending2D (Page.host p) = [])
  /\ (Visualizer3D.isRunning (Page.v3d p) = false -> pending3D (Page.host p) = []).
Proof.
  intros p.
  destruct (distinct_run events _ (invariant_initial w hgt g) (distinct_initial w hgt g))
    as [Hinv Hnd].
  fold p in Hinv, Hnd.
  pose proof Hinv as [Hpool Hscene Hnext Hfresh Hloop Hanim Hh3].
  split; [assumption|]. repeat split.
  - apply single_entry; [exact Hnd|].
    intros [h c] [h' c'] Hin Hin' Ht Ht'. cbn in Ht, Ht' |- *.
    destruct c as [k|], c' as [k'|]; try discriminate.
    destruct (Hloop _ _ Hin) as (_ & Hk & Hc), (Hloop _ _ Hin') as (_ & Hk' & Hc').
    assert (k = k') by congruence. subst k'. rewrite Hc in Hc'. congruence.
  - apply single_entry; [exact Hnd|].
    intros [h c] [h' c'] Hin Hin' Ht Ht'. cbn in Ht, Ht' |- *.
    destruct c as [k|], c' as [k'|]; try discriminate.
    destruct (Hanim _ Hin) as [_ Hi], (Hanim _ Hin') as [_ Hi']. congruence.
  - intros Hr. apply filter_empty. intros [h c] Hin.
    destruct c as [k|]; [|reflexivity].
    destruct (Hloop _ _ Hin) as (Hr' & _). congruence.
  - intros Hr. apply filter_empty. intros [h c] Hin.
    destruct c as [k|]; [reflexivity|].
    destruct (Hanim _ Hin) as (Hr' & _). congruence.
Qed.

End FrameHandles.

(** ** Starting and pausing the two visualizers *)

Section Application.

Context {rounding : Rounding}.
Import Schedule MusicVizApp.

Lemma stop3D_keeps_idle2D (w : Page.t) : idle2D w -> idle2D (Page.stop3D w).
Proof.
  intros [Hr Hnone]. unfold Page.stop3D.
  pose proof (stop3D_host (Page.v3d w) (Page.host w)) as H.
  destruct (Visualizer3D.stop _ _) as [v hst]. cbn [fst snd] in H.
  split; [exact Hr|]. cbn [Page.host]. intros h k Hin.
  destruct H as [->|[id ->]].
  - now apply (Hnone h k).
  - apply cancel_subset in Hin as [Hin _]. now apply (Hnone h k).
Qed.

Lemma start2D_running (w : Page.t) :
  Visualizer2D.isRunning (Page.v2d (Page.step Page.Start2D w)) = true.
Proof.
  cbn [Page.step]. unfold Visualizer2D.start.
  destruct (Visualizer2D.isRunning (Page.v2d w)) eqn:Er; [exact Er|].
  unfold PerformanceUtils.createAnimationLoop.
  destruct (PerformanceUtils.start _ _ _) as [st hst]. reflexivity.
Qed.

Lemma stop3D_v2d (w : Page.t) : Page.v2d (Page.stop3D w) = Page.v2d w.
Proof. unfold Page.stop3D. now destruct (Visualizer3D.stop _ _). Qed.

Lemma stop2D_v3d (w : Page.t) : Page.v3d (Page.stop2D w) = Page.v3d w.
Proof. unfold Page.stop2D. now destruct (Visualizer2D.stop _ _ _) as [[v st] hst]. Qed.

Lemma start3D_running (hw : AudioAnalyzer.HwFrame) (now : Z) (w : Page.t) :
  invariant w ->
  Visualizer3D.isRunning (Page.v3d (Page.step (Page.Start3D hw now) w)) = true.
Proof.
  intros [Hpool Hscene Hnext Hfresh Hloop Hanim Hh3].
  cbn [Page.step]. unfold Visualizer3D.start.
  destruct (Visualizer3D.isRunning (Page.v3d w)) eqn:Er; [exact Er|].
  set (v := Visualizer3D.set_running true (Visualizer3D.animationId (Page.v3d w))
              (Page.v3d w)).
  assert (Hwf : Scene.well_formed v)
    by (apply (well_formed_same (Page.v3d w)); [reflexivity .. | assumption]).
  destruct (animate_schedule hw now v (Page.host w) (Page.analyzer w) (Page.rng w)
              Hwf eq_refl) as (res & v' & an' & g' & -> & Hr & _).
  exact Hr.
Qed.

(** X27. On every reachable page, [pauseVisualizers] leaves both
    visualizers stopped with no frame callback scheduled at all;
    [startVisualizers] in the raster mode returns with the raster
    visualizer running and the scene visualizer idle; in the scene mode it
    leaves the scene visualizer running and, unless its first call threw,
    the raster visualizer idle. *)
Theorem visualizers_exclusive (w hgt : JS.num) (g : Rng) (events : list Page.event)
    (hw : AudioAnalyzer.HwFrame) (now : Z) :
  let p := Page.run events (Page.initial w hgt g) in
  (let q := pauseVisualizers p in
   idle2D q /\ idle3D q /\ Host.pending (Page.host q) = [])
  /\ (let r := startVisualizers false hw now p in
      fst r = Ok ()
      /\ Visualizer2D.isRunning (Page.v2d (snd r)) = true
      /\ idle3D (snd r))
  /\ (let r := startVisualizers true hw now p in
      Visualizer3D.isRunning (Page.v3d (snd r)) = true
      /\ (fst r = Ok () -> idle2D (snd r))).
Proof.
  intros p.
  assert (Hinv : invariant p) by apply invariant_run, invariant_initial.
  split; [|split].
  - unfold pauseVisualizers.
    destruct (stop2D_spec p Hinv) as [Hinv1 Hidle2].
    destruct (stop3D_spec _ Hinv1) as [Hinv2 Hidle3].
    pose proof (stop3D_keeps_idle2D _ Hidle2) as Hidle2'.
    repeat split; try apply Hidle2'; try apply Hidle3.
    destruct (Host.pending (Page.host (Page.stop3D (Page.stop2D p))))
      as [|[h c] l] eqn:El; [reflexivity|].
    exfalso. destruct c as [k|].
    + destruct Hidle2' as [_ Hnone]. apply (Hnone h k). rewrite El. now left.
    + destruct Hidle3 as (_ & _ & Hnone). apply (Hnone h). rewrite El. now left.
  - unfold startVisualizers. cbn [fst snd].
    pose proof (invariant_step Page.Start2D p Hinv) as Hinv1.
    destruct (stop3D_spec _ Hinv1) as [_ Hidle3].
    split; [reflexivity|]. split; [|exact Hidle3].
    rewrite stop3D_v2d. apply start2D_running.
  - pose proof (invariant_step (Page.Start3D hw now) p Hinv) as Hinv1.
    pose proof (start3D_running hw now p Hinv) as Hrun.
    unfold startVisualizers. cbn [Page.step] in Hinv1, Hrun.
    destruct (Visualizer3D.start hw now (Page.v3d p) (Page.host p) (Page.analyzer p)
                (Page.rng p)) as [[[[res v] hst] an] g'].
    cbn [Page.v3d] in Hrun.
    destruct res as [[]|e]; cbn [fst snd].
    + split.
      * rewrite stop2D_v3d. exact Hrun.
      * intros _. now apply stop2D_spec.
    + split; [exact Hrun | discriminate].
Qed.

End Application.
(** ** The variant shown by the scene visualizer *)

Section SceneShape.

Context {rounding : Rounding}.
Import Visualizer3D Scene.

Lemma shape_same (v u : Visualizer3D.t) :
  geometryType u = geometryType v -> visualObjects u = visualObjects v ->
  scene u = scene v -> length (colorPalette u) = length (colorPalette v) ->
  Shape.invariant v -> Shape.invariant u.
Proof.
  intros Eg Eo Es Ep [H1 H2 H3 H4].
  constructor; rewrite ?Eg, ?Eo, ?Es, ?Ep; assumption.
Qed.

Lemma build_shape (variant : string) (layout : Visualizer3D.t -> Visualizer3D.t)
    (count : nat) (v : Visualizer3D.t) :
  layout_adds layout count -> well_formed v ->
  variant ∈ geometries -> count = variant_count variant ->
  length (colorPalette v) = 4%nat ->
  Shape.invariant (snd (build variant layout v)).
Proof.
  intros Hl Hwf Hv Hc Hp.
  destruct (build_spec variant layout count v Hl Hwf)
    as (_ & (Hlen & Hg & _ & Hch) & _ & _ & _ & _ & _ & Hpal & _).
  constructor.
  - now rewrite Hg.
  - now rewrite Hg, Hlen.
  - exact Hch.
  - now rewrite Hpal.
Qed.

(** A switch of variant builds the variant that follows the current one
    in the list, the first one after the last or after an unknown name. *)
Lemma switchGeometry_next (v : Visualizer3D.t) :
  exists variant layout,
    layout_adds layout (variant_count variant)
    /\ variant ∈ geometries
    /\ indexOf variant geometries 0
       = ((indexOf (geometryType v) geometries 0 + 1) mod 4)%Z
    /\ switchGeometry v = build variant layout v.
Proof.
  unfold switchGeometry.
  set (idx := indexOf (geometryType v) geometries 0).
  assert (Hidx : (idx = -1 \/ idx = 0 \/ idx = 1 \/ idx = 2 \/ idx = 3)%Z).
  { unfold idx, geometries. cbn [indexOf].
    repeat (destruct (String.eqb _ _); [lia|]). lia. }
  destruct Hidx as [-> | [-> | [-> | [-> | ->]]]]; simpl.
  - exists "bars"%string, bars_layout.
    split; [exact bars_layout_adds|]. split; [set_solver|]. split; reflexivity.
  - exists "sphere"%string, sphere_layout.
    split; [exact sphere_layout_adds|]. split; [set_solver|]. split; reflexivity.
  - exists "tunnel"%string, tunnel_layout.
    split; [exact tunnel_layout_adds|]. split; [set_solver|]. split; reflexivity.
  - exists "wave"%string, wave_layout.
    split; [exact wave_layout_adds|]. split; [set_solver|]. split; reflexivity.
  - exists "bars"%string, bars_layout.
    split; [exact bars_layout_adds|]. split; [set_solver|]. split; reflexivity.
Qed.

Lemma switchGeometry_shape (v : Visualizer3D.t) :
  well_formed v -> length (colorPalette v) = 4%nat ->
  Shape.invariant (snd (switchGeometry v)).
Proof.
  intros Hwf Hp.
  destruct (switchGeometry_next v) as (variant & layout & Hl & Hv & _ & ->).
  now apply (build_shape variant layout (variant_count variant)).
Qed.

Lemma updateVisuals_shape (analysis : AudioAnalyzer.AnalysisFrame)
    (v : Visualizer3D.t) (g : Rng) :
  well_formed v -> Shape.invariant v ->
  Shape.invariant (snd (fst (updateVisuals analysis v g))).
Proof.
  intros Hwf Hs. unfold updateVisuals.
  destruct (AudioAnalyzer.beat analysis).
  - set (v1 := set_frame (time v) #1 v).
    assert (Hwf1 : well_formed v1)
      by (apply (well_formed_same v); [reflexivity .. | assumption]).
    assert (Hs1 : Shape.invariant v1)
      by (apply (shape_same v); [reflexivity .. | assumption]).
    destruct (Math_random g) as [r g'].
    destruct (r <? #0.05).
    + pose proof (switchGeometry_shape v1 Hwf1 (Shape.shape_palette _ Hs1)) as Hs2.
      destruct (switchGeometry v1) as [res v2]. cbn [snd] in Hs2.
      destruct res as [[]|e]; [|exact Hs2].
      destruct (colorPalette v2); [|exact Hs2].
      destruct (visualObjects v2); exact Hs2.
    + destruct (colorPalette v1); [|exact Hs1].
      destruct (visualObjects v1); exact Hs1.
  - destruct (colorPalette v); [|exact Hs].
    destruct (visualObjects v); exact Hs.
Qed.

Lemma animate_shape (hw : AudioAnalyzer.HwFrame) (now : Z) (v : Visualizer3D.t)
    (hst : Host.t) (an : AudioAnalyzer.t) (g : Rng) :
  well_formed v -> Shape.invariant v ->
  Shape.invariant (snd (fst (fst (fst (animate hw now v hst an g))))).
Proof.
  intros Hwf Hs. unfold animate.
  destruct (negb (isRunning v)); [exact Hs|].
  unfold Host.requestAnimationFrame.
  cbn [snd audioAnalyzer set_frame set_running].
  match goal with
  | |- context [updateVisuals _ ?u _] => set (v2 := u)
  end.
  assert (Hwf2 : well_formed v2)
    by (apply (well_formed_same v); [reflexivity .. | assumption]).
  assert (Hs2 : Shape.invariant v2)
    by (apply (shape_same v); [reflexivity .. | assumption]).
  clearbody v2.
  assert (Hdecay : forall u,
             Shape.invariant u ->
             Shape.invariant
               (set_frame (time u) (beatIntensity u * beatDecay u) u))
    by (intros u Hu; apply (shape_same u); [reflexivity .. | assumption]).
  destruct (audioAnalyzer v); [|now apply Hdecay].
  destruct (AudioAnalyzer.analyze hw now an) as [[analysis|e] an1]; [|exact Hs2].
  destruct (AudioAnalyzer.getVisualizationData 64 an1) as [[data|e] an2]; [|exact Hs2].
  pose proof (updateVisuals_shape analysis v2 g Hwf2 Hs2) as Hs3.
  destruct (updateVisuals analysis v2 g) as [[res v3] g3]. cbn [fst snd] in Hs3.
  destruct res as [[]|e]; [|exact Hs3].
  destruct (colorPalette v3); [exact Hs3|]. now apply Hdecay.
Qed.

Lemma shape_step (e : Page.event) (w : Page.t) :
  Schedule.invariant w -> Shape.invariant (Page.v3d w) ->
  Shape.invariant (Page.v3d (Page.step e w)).
Proof.
  intros Hinv Hs. pose proof (Schedule.inv_scene _ Hinv) as Hwf.
  destruct e; try assumption.
  - cbn. apply (shape_same (Page.v3d w)); [reflexivity .. | assumption].
  - cbn [Page.step]. destruct (Visualizer2D.updateColorPalette _ _ _); assumption.
  - cbn [Page.step]. unfold Visualizer3D.updateColorPalette.
    destruct (ColorUtils.generateMoodPalette mood energy) as [p|] eqn:Ep; [|assumption].
    cbn. destruct Hs as [H1 H2 H3 H4]. constructor; cbn; auto.
    now apply generateMoodPalette_ok_length in Ep.
  - cbn [Page.step].
    destruct (Visualizer2D.start _ _ _) as [[v st] hst]. exact Hs.
  - cbn [Page.step]. unfold Page.stop2D.
    destruct (Visualizer2D.stop _ _ _) as [[v st] hst]. exact Hs.
  - cbn [Page.step]. unfold Visualizer3D.start.
    destruct (isRunning (Page.v3d w)); [exact Hs|].
    set (v := set_running true (animationId (Page.v3d w)) (Page.v3d w)).
    assert (Hwf1 : well_formed v)
      by (apply (well_formed_same (Page.v3d w)); [reflexivity .. | assumption]).
    assert (Hs1 : Shape.invariant v)
      by (apply (shape_same (Page.v3d w)); [reflexivity .. | assumption]).
    pose proof (animate_shape hw now v (Page.host w) (Page.analyzer w) (Page.rng w)
                  Hwf1 Hs1) as H.
    destruct (animate _ _ _ _ _ _) as [[[[res v'] hst] an] g]. exact H.
  - cbn [Page.step]. unfold Page.stop3D, Visualizer3D.stop.
    destruct (Host.truthy_handle _); cbn;
      apply (shape_same (Page.v3d w)); try reflexivity; assumption.
  - cbn [Page.step].
    destruct (Page.callback_of handle (Host.pending (Page.host w))) as [cb|];
      [|assumption].
    destruct cb as [k|].
    + unfold Page.run_loop.
      cbn [Page.closures Page.v2d Page.v3d Page.analyzer Page.rng Page.host].
      destruct (Page.closures w !! k) as [c|]; [|assumption].
      destruct (PerformanceUtils.isRunning c); [|assumption].
      destruct (Visualizer2D.render _ _ _ _ _ _) as [[[[[]|err] v] an] g]; exact Hs.
    + unfold Page.run_animate.
      cbn [Page.closures Page.v2d Page.v3d Page.analyzer Page.rng Page.host].
      pose proof (animate_shape hw now (Page.v3d w)
                    (Host.cancelAnimationFrame handle (Page.host w))
                    (Page.analyzer w) (Page.rng w) Hwf Hs) as H.
      destruct (animate _ _ _ _ _ _) as [[[[res v'] hst] an] g]. exact H.
Qed.

Lemma shape_run (events : list Page.event) (w : Page.t) :
  Schedule.invariant w -> Shape.invariant (Page.v3d w) ->
  Shape.invariant (Page.v3d (Page.run events w)).
Proof.
  revert w. induction events as [|e events IH]; intros w Hinv Hs; [assumption|].
  cbn. apply IH; [now apply invariant_step | now apply shape_step].
Qed.

Lemma shape_constructor (g : Rng) : Shape.invariant (fst (constructor g)).
Proof.
  unfold constructor.
  pose proof (setupLights_well_formed g) as Hwf. cbv zeta in Hwf.
  assert (Hp : length (colorPalette (fst (setupLights
            {| scene := []; audioAnalyzer := false; visualObjects := [];
               geometryType := "bars"; animationId := None; isRunning := false;
               time := #0; colorPalette := ColorUtils.neutralPalette;
               beatIntensity := #0; beatDecay := #0.95;
               pointLights := []; nextId := 0; released := ∅ |} g))) = 4%nat)
    by (cbn; apply neutralPalette_length).
  destruct (setupLights _ g) as [v1 g1]. cbn [fst snd] in *.
  apply (build_shape "bars" bars_layout 64 v1 bars_layout_adds Hwf);
    [set_solver | reflexivity | exact Hp].
Qed.

Lemma shape_initial (w hgt : JS.num) (g : Rng) :
  Shape.invariant (Page.v3d (Page.initial w hgt g)).
Proof.
  unfold Page.initial.
  destruct (Visualizer2D.constructor w hgt g) as [v2 g1].
  pose proof (shape_constructor g1) as H.
  destruct (Visualizer3D.constructor g1) as [v3 g2]. exact H.
Qed.

(** X28. Whatever has happened to the page, the scene visualizer shows
    one of its four variants with exactly the number of objects of that
    variant, every object a child of the scene, and a palette of four
    colours; and a switch of variant moves to the next variant of the list
    bars, sphere, tunnel, wave, back to the first after the last, leaving
    the scene in such a state again. *)
Theorem scene_shows_one_variant (w hgt : JS.num) (g : Rng) (events : list Page.event) :
  let v := Page.v3d (Page.run events (Page.initial w hgt g)) in
  let v' := snd (switchGeometry v) in
  Shape.invariant v
  /\ Shape.invariant v'
  /\ fst (switchGeometry v) = Ok ()
  /\ indexOf (geometryType v') geometries 0
     = ((indexOf (geometryType v) geometries 0 + 1) mod 4)%Z.
Proof.
  intros v v'.
  assert (Hinv : Schedule.invariant (Page.run events (Page.initial w hgt g)))
    by apply invariant_run, invariant_initial.
  pose proof (Schedule.inv_scene _ Hinv) as Hwf. fold v in Hwf.
  assert (Hs : Shape.invariant v)
    by (apply shape_run; [apply invariant_initial | apply shape_initial]).
  split; [exact Hs|].
  split; [apply switchGeometry_shape; [exact Hwf | apply Hs]|].
  split; [now apply switchGeometry_kept|].
  subst v'. destruct (switchGeometry_next v) as (variant & layout & Hl & Hv & Hidx & ->).
  destruct (build_spec variant layout _ v Hl Hwf) as (_ & (_ & Hg & _) & _).
  now rewrite Hg.
Qed.

End SceneShape.
